(* ===== verification/_CoqProject ===== *)
-Q . S2P
Prelude.v
Text.v
Json.v
Entity.v
Sql.v
StoreApi.v
StoreMySQL.v
StoreSpec.v
Http.v
Handler.v
HandlerBackend.v
HandlerRoute.v
HandlerHistory.v
Cors.v
Trace.v
Protocol.v
Server.v
Contract.v
AuditTrail.v
StoreMem.v
Process.v
Lifecycle.v
Concurrent.v
ConnPool.v
Service.v
