(* ===== verification/Prelude.v ===== *)
(** * Verification of assistant_gateway_admin: the gateway's configuration store

    ** The program

    assistant_gateway_admin is the control plane of an HTTP-to-gRPC gateway.
    It keeps three record sets in one MySQL database: [backends] (upstream
    services, looked up by name), [routes] (HTTP method and pattern mapped
    to a backend RPC, looked up by an auto-increment id) and
    [config_history] (an append-only audit trail).  The Go sources are

      - src/unnamed/part_000 (package config): the structs [Backend], [Route],
        [ConfigHistory] and the interface [Store] with its twelve methods;
      - src/internal/config/mysql_store.go: [MySQLStore], the one
        implementation of [Store], every method one or two SQL statements;
      - src/internal/handler/backend.go: [BackendHandler], five HTTP
        handlers and [recordHistory];
      - src/internal/handler/route.go: [RouteHandler] (lines 1-316) and
        [HistoryHandler] (lines 318-400);
      - src/internal/middleware/cors.go: [CORSMiddleware];
      - src/cmd/admin/main.go: settings, routing table, start and shutdown.

    A handler decodes the request, validates it, reads the store, writes the
    store and then records the change, every store call being a separate
    round trip with no transaction around them.  [main] reads its
    settings, opens the store, registers the eleven routes and the health
    check on a chi router and serves, one goroutine per request, until a
    signal.

    ** The development, file by file

      - [Prelude] (this file): Go's [(value, error)] results as [Result],
        the tactics and the hint database [gw] the other files share, and
        facts on lists the components need.
      - [Text]: [strings.Split], [strings.Join] and [strings.TrimSpace].
      - [Json]: JSON values, the decoding of a value into a struct (by tag,
        exact then case-insensitive; null leaves a field; a wrong type
        fails) or into a map, and the encoding of a map with sorted keys:
        [encoding/json] as the handlers use it.
      - [Entity]: the three structs of part_000 as records, their zero
        values, their JSON tags as decoders ([Backend_fields],
        [Route_fields]) and encoders ([marshal_Backend], ...).
      - [Sql]: what the SQL text of mysql_store.go does to a table given as
        a list of rows in insertion order: WHERE is [filter], LIMIT 1 is
        [head], UPDATE is a guarded [fmap], ORDER BY is a merge sort,
        LIMIT/OFFSET is [take] of [drop]; the two meanings of RowsAffected.
      - [StoreApi]: the [Store] interface as a type class, its calls as the
        indexed type [StoreOp], and handlers as programs [Prog]: finite
        trees of store calls and log calls with [bind]; [run] executes a
        program against any instance of [Store]; [step] is one round trip.
      - [StoreMySQL]: Module [MySQLStore]: the state of the database (three
        tables, AUTO_INCREMENT counters, the clock, the driver's flag
        clientFoundRows, whether [backends.name] has a unique key, the
        schedule of driver failures) and the twelve methods, statement by
        statement; the representation invariant [wf]; the relation
        [extends] between a database and a later one.
      - [StoreSpec]: Module [StoreSpec]: the contract of the [Store]
        interface on an abstract state, two finite maps and a list ([spec],
        method by method; [spec_path] for programs); the abstraction [abs]
        of a database; the class [Implements] of the stores that keep the
        contract, and its instance for [MySQLStore].
      - [Http]: what a handler reads of a request (URL parameters, query,
        X-Operator, body) and writes as a response; a request with its
        method and path ([Incoming]); [strconv.ParseBool], [ParseUint],
        [Atoi].
      - [Handler]: what backend.go and route.go share: [record_history]
        (the two copies of [recordHistory]), the [enabled] filter, the
        reading of [enabled] from an update, the mapping of store errors.
      - [HandlerBackend]: Module [BackendHandler], the five handlers of
        backend.go with [merge_update], the merge of an update.
      - [HandlerRoute]: Module [RouteHandler], the five handlers of
        route.go with [verify_backend], the check of the backend a route
        names, and the defaults of a new route.
      - [HandlerHistory]: Module [HistoryHandler], [ListHistory] with its
        limit and offset.
      - [Cors]: Module [CORS], the whole of cors.go: the settings read from
        the environment, [determineAllowedOrigin], the headers, the answer
        to a preflight request, the call of the next handler.
      - [Trace]: the events of a handler (store calls with their answers,
        log lines) for every answer a store can give ([path],
        [every_path]), the bound on their number ([bounded]), and the
        write-then-audit contract on them ([contract]).
      - [Protocol]: the contract and the bound for each of the eleven
        handlers, by a walk of the program that the tactics [walk] and
        [leaf] automate.
      - [Server]: Module [Server], the part of [main] that builds the
        router: [settings], the table [routes] of method, pattern and
        handler, the health check, chi's matching of a path against the
        patterns ([find_route]) and [serve], the router as a handler.
      - [Contract]: the handlers read against the contract of [StoreSpec]
        alone, for any store that implements it: the store calls of a path
        as steps of the contract ([spec_trace]).
      - [AuditTrail]: the audit trail read back: the class [Entity] of what
        is recorded, with backends and routes as instances; [replay], the
        entities the entries tell of, oldest first; [described], that they
        are the stored ones; [serve_all], requests one after the other.
      - [StoreMem]: Module [MemStore], a second store behind the
        interface: the state of the contract itself with the counters of
        the ids and a clock; it stands for the substitutable store the
        specification asks the interface to allow and is not in the
        sources.
      - [Process]: Module [Process], [main] from its first line to its
        last as a function of what its environment answers ([World]), with
        [NewMySQLStore] and [Close] on a handle that records the limits of
        the pool and whether it was closed.
      - [Lifecycle]: Module [Lifecycle], [main] from [go func] on as two
        goroutines and a signal: [proc_step], a step of [main]
        ([main_step]), of the listener ([listener_step]) or the signal;
        [play], the run of a schedule; [finals], every end.
      - [Concurrent]: the requests in flight as a pool of programs over
        one store: [pool_step], one store call or one log line of one
        request; [interleave], the run of a schedule; the serial run as a
        schedule; the schedules of the three races.
      - [ConnPool]: the pool of [Concurrent] over at most [maxOpen]
        connections: a request is [Ready] or [Holding] a connection;
        [conn_step] acquires one when one is [free], calls and releases, or
        logs; [forget] drops the connections.
      - [Service]: the process of [Lifecycle] and the requests in flight
        of [ConnPool] as one system ([Service], [svc_step]): a request is
        accepted while the listener serves and [main] has not come to the
        call of [Shutdown] ([accepting]); [Shutdown] answers without an
        error only when every request is answered ([shutdown_waits]).

    ** How state and effects are modelled

    Go's [error] is its message text ([err.Error()]), because the handlers
    branch on that text.  Every round trip to the database consumes one
    entry of the failure schedule [faults]: [Some msg] makes the driver call
    fail with [msg] before any row is touched, [None] lets it run; an empty
    schedule means no failure.  Theorems without a hypothesis on [faults]
    hold for every schedule.  A statement that takes effect although its
    reply is lost is not modelled.

    Time is one clock read both by CURRENT_TIMESTAMP and by [time.Now()];
    it does not move while one handler runs.  The zero [time.Time] is
    [zero_time].

    Unsigned integers ([uint], [uint64]) are [N], signed ones ([int]) are
    [Z].  The program does no arithmetic on them; the bounds that matter
    are those of the parsers (32 bits for ids, 64 for limit and offset) and
    of the JSON decoders (64 bits), which are written out where they apply.

    String comparison is bytewise ([=] on [string], [String.le] for ORDER
    BY): the database is taken to use a binary collation.  The schema is not
    part of the sources; whether [backends.name] carries a unique key is a
    field of the state and the theorems hold both ways.

    A pointer argument a store method writes through is the method's
    result.  A handler mutates no value it shares with another.

    Requests in flight share the store and nothing else.  A step of the
    pool is one step of one request: a store call, atomic as a single
    statement is, or a log line.  Every interleaving of the steps is a
    sequence of [pool_step]; a schedule names the request that steps next.
    The two statements of [GetHistory] are one step of the pool;
    [MySQLStore.GetHistory_with] gives the method with what another
    connection does between them.  In [Concurrent] a store call blocks
    its request only; in [ConnPool] it first waits for one of the
    connections, which it holds for the one call.

    From [go func] on the process is two goroutines that share the server:
    a step is one line of one of them, or the signal.  [Shutdown] is one
    step, and [ListenAndServe] answers [http.ErrServerClosed] from then on.
    In [Lifecycle] what [Shutdown] answers is a field of the [World]; in
    [Service], where the requests are there, it answers without an error
    only when none is in flight, and with its error (the deadline of ten
    seconds) at any time; [main] at [AtShutdown] is [main] inside the
    call, which has closed the listeners, so no request is accepted from
    there on.  What net/http does inside [ListenAndServe] and [Shutdown]
    is taken from its documentation, not from the sources.

    [RowsAffected] is what the driver is set to count: the rows an UPDATE
    finds with [clientFoundRows], the rows it changes without, which is
    the default and what the DSN of the README gives.  The flag is a field
    of the database; the theorems on updates and deletes hold for both
    settings and say when the statement is reported.

    ** Bounds

    A handler is a finite tree: it neither loops nor retries.  [bounded n]
    says no path has more than [n] events; 5 holds of every handler (four
    store calls and one log line, reached by the update of a route) and is
    the number of steps a fair schedule must give each request for all to
    be answered.  Over a bounded pool a call takes two turns, one to take
    the connection and one to call, and a turn spent waiting is a turn in
    which the holder moves: ten rounds for each request are enough
    ([pool_liveness]).  [Lifecycle.finals] takes fuel; every run of the
    process has seven steps at most ([lifecycle_ends]), so fuel 7 reaches
    every end ([finals_complete]).  No other definition takes fuel.  The
    schedule [drain] that ends the service gives each request in flight
    the ten rounds of [pool_liveness] and [main] its three last steps.

    ** What the theorems show

      - [Json], [Entity]: decoding what was encoded gives the struct back;
        a field a payload does not mention keeps the value of the struct
        decoded into.
      - [Sql]: UPDATE keeps number and order of rows and touches matching
        rows only; when changed rows and matched rows differ; ORDER BY
        returns a sorted permutation; the length and content of a page.
      - [StoreMySQL]: every sequence of calls keeps [wf] and only extends
        the database ([run_wf], [run_extends]: no row removed, no identity
        changed, the audit trail only grown); a failed call writes nothing;
        reads write nothing; what each write does to a lookup; the list and
        history queries.
      - [HandlerBackend], [HandlerRoute]: a response with status 400 or more
        means no write; a successful mutation leaves exactly one audit
        entry, or none and a warning; backend names stay unique under
        sequential requests; the merge policy for [enabled] and for
        identity; the functional behaviour of create, update and delete on a
        store that does not fail, for an update and a delete whenever the
        driver reports the statement (it counts the rows found, or the
        statement changes the row); a route is created or moved only to a
        backend that exists and is enabled.  Where the code departs from
        the specification the theorem states what the code does: omitted
        fields reset by an update, the DELETE snapshot with [enabled]
        already false, [enabled] defaulted from the URL query, a repeated
        delete answered 404 when the driver counts changed rows.
      - [HandlerHistory]: the limit is within 1..100 and the offset not
        negative for every request; the page answered.
      - [StoreSpec]: [MySQLStore] refines the contract: on a well-formed
        database with the unique key on backend names, every call and so
        every run of every program is one the contract allows
        ([run_refines]); without the key it is not; what follows from the
        contract alone, for any store that implements it
        ([spec_path_grows]).
      - [Contract]: on every store that implements the contract, a
        request answered with an error and a request that only reads leave
        the state as it was ([serve_error_no_change]); a request changes
        one entity and adds one entry to the trail at most
        ([serve_one_change]); what each of the six writes
        has done when it is answered as made ([create_backend_contract],
        [update_backend_contract], [delete_backend_contract],
        [create_route_contract], [update_route_contract],
        [delete_route_contract]): a name is taken by one backend, a route
        is created or moved only to a backend that is there and enabled,
        an update keeps id and creation time, a delete leaves the entity
        in place, disabled, and nothing else is changed.
      - [AuditTrail]: on every store that implements the contract,
        requests served one after the other keep the trail a description
        of the state, as long as no entry is refused
        ([trail_describes_state]); a refused entry and requests in flight
        together break it ([refused_entry_not_described],
        [inverted_order_not_described] in [Concurrent]); on a store whose
        trail refuses nothing the condition on the log goes
        ([reliable_trail_describes_state]); on [MySQLStore] the ids fit as
        long as the counters do ([mysql_trail_describes_state]).
      - [StoreMem]: [MemStore] implements the contract
        ([mem_implements], [mem_run_refines]) and its trail refuses
        nothing, so what is proved against the contract holds of it
        ([mem_trail_describes_state]).
      - [Cors]: [determineAllowedOrigin] is a search for the first entry
        that is the wildcard or the origin; the header names an origin only
        if the list allows it; a preflight request never reaches the next
        handler; the defaults answer the wildcard together with
        credentials.
      - [Protocol], [Server]: every handler, for every request and every
        answer of any store, keeps the write-then-audit contract and ends
        within five steps; the table of routes is unambiguous; the path
        built from a pattern reaches the handler registered for it; the
        status is one of eight.
      - [Process]: the server listens exactly when the four steps before
        succeed; a return from [main] closes the store and syncs the
        logger; a fatal end runs nothing deferred and leaves the handle
        open.
      - [Lifecycle]: every run ends within seven steps; the process rests
        only while it serves; after the signal [main] is never blocked; how
        the process ends in every interleaving ([exit_discipline]);
        [Process.main] is the run in which the listener is scheduled first
        ([main_is_a_run]); when the signal comes first a listener that
        cannot bind goes unreported ([failure_lost_in_shutdown]).
      - [Concurrent]: invariants of the store hold in every reachable
        state of the pool ([concurrent_wf]); every interleaving over a
        store that implements the contract is a sequence of steps of the
        contract ([concurrent_refines]); each request keeps the
        contract whatever the others do ([concurrent_protocol]); entries
        plus warnings count the changes answered with success
        ([concurrent_audit_complete]); a fair schedule answers every
        request ([server_liveness]); the serial run is a schedule
        ([serial_is_a_schedule]); the scenario of section 8 of the
        specification runs as it says ([end_to_end_scenario]); and the
        three races, each for every database and every pair of requests of
        its kind: two creates of one name, a route created while its
        backend is deleted, a delete undone by an update in flight.
      - [ConnPool]: the calls in the database at once never exceed the
        limit ([connections_bounded]), which is 25 for the store [main]
        builds ([service_pool_limit]); a run of the bounded pool is a run
        of the pool of [Concurrent] ([pool_refines]), so the invariants
        proved there hold here; requests taken in turn are all answered,
        however few the connections ([pool_liveness]).
      - [Service]: a run of the service is a run of the process and a run
        of the pool over the requests accepted ([service_refines]), so the
        invariants of the store hold in every state ([service_invariant],
        [service_wf]); the service as [main] builds it never has more than
        25 calls in the database ([service_connections_bounded]); a
        process that returned after a [Shutdown] without
        error has answered every request it accepted and each kept the
        write-then-audit contract to its end ([graceful_shutdown]); after
        the signal that end can always be reached ([shutdown_completes]);
        when [Shutdown] gives up, a create is cut between its row and its
        entry in the trail, with no warning ([shutdown_cut]); in every
        state, and so wherever a request is cut or abandoned, it has
        written none of its change, its change, or its change and the
        entry of it ([cut_lacks_entry], from [thread_cut] in
        [Concurrent] and [contract_prefix] in [Trace]).

    Each numbered theorem (C1, C2, ...) that has hypotheses is followed by a
    witness that applies it to an example database and request.

    ** Not modelled

    The text syntax of JSON (a body is a value, or refused: the lexer is
    [encoding/json]'s, and the numbers and timestamps of the values are
    already abstract; a string is [JTime] only where the decoder stores it
    into a [time.Time]); the HTTP transport, its connections and timeouts
    and the cancellation of a request by its caller.  With the transport
    goes the one branch of the handlers that depends on it: a response is
    taken to reach the client, so the nine branches on an error of
    [json.NewEncoder(w).Encode], each of which logs the warning "failed to
    encode ...", have no counterpart, and where a theorem says that nothing
    is logged or counts the warnings it speaks of responses that were
    written.  Also not modelled: [middleware.RequestLogger], which
    main.go installs and the sources do not hold; chi beyond patterns of static segments and
    one-segment parameters; zap's output format; the MySQL wire protocol;
    the idle connections of the pool and their age, which change no
    answer; a signal that arrives before [signal.Notify]; a statement
    that takes effect although its reply is lost; the white space of
    Unicode beyond ASCII in [strings.TrimSpace].  [CORSMiddleware] is
    modelled as written, but no route of [Server] passes through it,
    because main.go does not install it.

    ** What is left open

    The lines no definition translates are package clauses, imports,
    comments, go.mod, the branches on a failed [Encode] named above, and
    the struct of each handler with its constructor, two fields that hold
    the store and the logger: a handler reaches both through the calls of
    [Prog], and [run] gives it the one store all handlers share.  Of the
    properties, three are not proved.
    That the trail describes the state is shown for requests served one
    after the other, and [inverted_order_not_described] shows that it
    fails for two requests in flight on one entity; that it holds for
    requests in flight on different entities is left open.  The three
    races are proved for a driver that does not fail while they run.  The
    service is one process: [Shutdown] and the requests in flight are
    composed in [Service], the connections of the HTTP server are not. *)

From stdpp Require Export prelude strings sorting gmap.
From Stdlib Require Export ZArith.

(** ** Go results *)

(** An [error] is identified with the text [err.Error()] returns. *)
Definition error : Type := string.

(** The pair [(v, err)] a Go function returns: [Ok v] when [err == nil]. *)
Inductive Result (A : Type) : Type :=
| Ok (a : A)
| Err (e : error).
Arguments Ok {A} a.
Arguments Err {A} e.

#[global] Instance Result_eq_dec `{EqDecision A} : EqDecision (Result A).
Proof. solve_decision. Defined.

Definition is_Ok {A} (r : Result A) : bool :=
  match r with Ok _ => true | Err _ => false end.

Definition result_map {A B} (f : A → B) (r : Result A) : Result B :=
  match r with Ok a => Ok (f a) | Err e => Err e end.

Definition result_bind {A B} (r : Result A) (f : A → Result B) : Result B :=
  match r with Ok a => f a | Err e => Err e end.

Definition result_to_option {A} (r : Result A) : option A :=
  match r with Ok a => Some a | Err _ => None end.

Declare Scope result_scope.
Delimit Scope result_scope with result.
Notation "x ←ᵣ r ; k" := (result_bind r (λ x, k))
  (at level 100, r at next level, right associativity) : result_scope.

(** The zero value of [time.Time] (January 1, year 1, in Unix seconds). *)
Definition zero_time : Z := (-62135596800)%Z.

(** ** Automation shared by the component files *)

Create HintDb gw discriminated.
Create Rewrite HintDb gw.

#[local] Set Warnings "-clear-no-such-hyp".

(** Case analysis on the first [decide], [bool_decide] or [match] of the goal. *)
Ltac case_step :=
  first [ case_decide | case_bool_decide | case_match ]; simplify_eq/=.

Ltac case_steps := repeat case_step.

(** Split pairs and records of hypotheses produced by [run]-style functions. *)
Ltac destruct_pairs :=
  repeat match goal with
         | p : _ * _ |- _ => destruct p
         | H : (_, _) = (_, _) |- _ => injection H as ??; subst
         end.

(** ** Facts on results *)

Lemma result_bind_Ok {A B} (r : Result A) (f : A → Result B) b :
  result_bind r f = Ok b ↔ ∃ a, r = Ok a ∧ f a = Ok b.
Proof. destruct r; naive_solver. Qed.

Lemma result_bind_assoc {A B C} (r : Result A) (f : A → Result B) (g : B → Result C) :
  result_bind (result_bind r f) g = result_bind r (λ a, result_bind (f a) g).
Proof. by destruct r. Qed.

Lemma result_map_Ok {A B} (f : A → B) (r : Result A) b :
  result_map f r = Ok b ↔ ∃ a, r = Ok a ∧ b = f a.
Proof. destruct r; naive_solver. Qed.

Lemma is_Ok_true {A} (r : Result A) : is_Ok r = true ↔ ∃ a, r = Ok a.
Proof. destruct r; naive_solver. Qed.

(** ** Facts on lists used by several components *)

Lemma head_filter_Some {A} (P : A → Prop) `{!∀ x, Decision (P x)} (l : list A) x :
  head (filter P l) = Some x → P x ∧ x ∈ l.
Proof.
  intros Hx. apply head_Some_elem_of in Hx. by apply list_elem_of_filter in Hx.
Qed.

Lemma head_filter_None {A} (P : A → Prop) `{!∀ x, Decision (P x)} (l : list A) :
  head (filter P l) = None ↔ ∀ x, x ∈ l → ¬ P x.
Proof.
  rewrite head_None. split.
  - intros Hnil x Hx HP. eapply filter_nil_not_elem_of; eauto.
  - intros Hall. induction l as [|y l IH]; [done|].
    rewrite filter_cons. case_decide.
    + exfalso. eapply Hall; [left|done].
    + apply IH. intros x Hx. apply Hall. by right.
Qed.

Lemma head_filter_app {A} (P : A → Prop) `{!∀ x, Decision (P x)} (l1 l2 : list A) :
  head (filter P (l1 ++ l2)) =
  match head (filter P l1) with Some x => Some x | None => head (filter P l2) end.
Proof. rewrite filter_app. by destruct (filter P l1). Qed.

Lemma Sorted_snoc_Forall {A} (R : relation A) l x :
  Sorted R l → Forall (λ y, R y x) l → Sorted R (l ++ [x]).
Proof.
  intros Hs Hl. apply Sorted_snoc; [done|].
  destruct l as [|y l _] using rev_ind; constructor.
  apply Forall_app in Hl as [_ Hl]. by inversion Hl.
Qed.

(** Filtering commutes with a map that respects the predicates. *)
Lemma filter_fmap_ext {A B} (f : A → B) (P : A → Prop) (Q : B → Prop)
    `{!∀ x, Decision (P x)} `{!∀ y, Decision (Q y)} (l : list A) :
  Forall (λ x, P x ↔ Q (f x)) l → f <$> filter P l = filter Q (f <$> l).
Proof.
  induction 1 as [|x l Hx _ IH]; [done|]. rewrite fmap_cons, !filter_cons.
  destruct (decide (P x)), (decide (Q (f x))); try tauto; rewrite ?fmap_cons; by rewrite IH.
Qed.

(** A sublist of a strongly sorted list is strongly sorted. *)
Lemma StronglySorted_sublist {A} (R : relation A) (l l' : list A) :
  l' `sublist_of` l → StronglySorted R l → StronglySorted R l'.
Proof.
  induction 1 as [|x l1 l2 Hsub IH|x l1 l2 Hsub IH]; [done|..];
    intros [Hs Hall]%StronglySorted_inv; [|by auto].
  constructor; [by auto|]. apply Forall_forall. intros y Hy.
  rewrite Forall_forall in Hall. by eapply Hall, elem_of_sublist.
Qed.

#[export] Hint Rewrite @result_bind_assoc : gw.
