(* ===== verification/Text.v ===== *)
(** * Operations on strings the program takes from Go's [strings]

    [strings.Split] with a separator of one byte, [strings.Join],
    [strings.TrimSpace] and [strings.IndexByte] as a test, on strings as
    sequences of bytes.  [strings.TrimSpace] is given for the six ASCII
    white space bytes; the white space of Unicode beyond them is not
    modelled.

    The facts: joining what was split gives the string back and splitting
    what was joined gives the pieces back; no piece holds the separator;
    trimming is idempotent and leaves no white space at either end. *)

From S2P Require Import Prelude.
From Stdlib Require Import Ascii.

#[local] Open Scope string_scope.

(** Whether the byte occurs in the string: [strings.IndexByte(s, c) >= 0]. *)
Fixpoint contains_byte (c : ascii) (s : string) : bool :=
  match s with
  | EmptyString => false
  | String c' s' => bool_decide (c' = c) || contains_byte c s'
  end.

(** [strings.Split(s, sep)] for a separator of one byte: the pieces between
    the separators, the empty string included; never the empty list. *)
Fixpoint split_on (sep : ascii) (s : string) : list string :=
  match s with
  | EmptyString => [""]
  | String c s' =>
      if decide (c = sep) then "" :: split_on sep s'
      else match split_on sep s' with
           | [] => [String c ""]
           | w :: ws => String c w :: ws
           end
  end.

(** [strings.Join(ws, sep)] *)
Fixpoint join_on (sep : ascii) (ws : list string) : string :=
  match ws with
  | [] => ""
  | [w] => w
  | w :: ws => w +:+ String sep (join_on sep ws)
  end.

(** The ASCII bytes [unicode.IsSpace] accepts: tab, line feed, vertical
    tab, form feed, carriage return, space. *)
Definition is_space (c : ascii) : bool :=
  let n := nat_of_ascii c in
  bool_decide (9 ≤ n ≤ 13 ∨ n = 32)%nat.

Fixpoint trim_left (s : string) : string :=
  match s with
  | EmptyString => ""
  | String c s' => if is_space c then trim_left s' else s
  end.

Fixpoint trim_right (s : string) : string :=
  match s with
  | EmptyString => ""
  | String c s' =>
      match trim_right s' with
      | EmptyString => if is_space c then "" else String c ""
      | t => String c t
      end
  end.

(** [strings.TrimSpace] *)
Definition TrimSpace (s : string) : string := trim_right (trim_left s).

(** The first and the last byte of a string. *)
Definition first_byte (s : string) : option ascii :=
  match s with EmptyString => None | String c _ => Some c end.

Fixpoint last_byte (s : string) : option ascii :=
  match s with
  | EmptyString => None
  | String c EmptyString => Some c
  | String _ s' => last_byte s'
  end.

(** ** Facts *)

Lemma split_on_nonempty sep s : split_on sep s ≠ [].
Proof. destruct s as [|c s]; simpl; [done|]. case_decide; [done|]. by destruct (split_on sep s). Qed.

Lemma split_on_cons_ne sep c s :
  c ≠ sep →
  ∃ w ws, split_on sep s = w :: ws ∧ split_on sep (String c s) = String c w :: ws.
Proof.
  intros Hc. simpl. rewrite decide_False by done.
  destruct (split_on sep s) as [|w ws] eqn:E; [by apply split_on_nonempty in E|eauto].
Qed.

(** No piece of a split holds the separator. *)
Lemma split_on_pieces sep s : Forall (λ w, contains_byte sep w = false) (split_on sep s).
Proof.
  induction s as [|c s IH]; simpl; [by repeat constructor|].
  case_decide; [by constructor|].
  destruct (split_on sep s) as [|w ws]; [by repeat constructor; simpl; rewrite bool_decide_false|].
  inversion_clear IH. constructor; [|done]. simpl. by rewrite bool_decide_false.
Qed.

(** Joining the pieces gives the string back. *)
Lemma join_split sep s : join_on sep (split_on sep s) = s.
Proof.
  induction s as [|c s IH]; [done|]. simpl.
  case_decide as Hc.
  - subst c. destruct (split_on sep s) as [|w ws] eqn:E; [by apply split_on_nonempty in E|].
    simpl in *. by rewrite IH.
  - destruct (split_on sep s) as [|w ws]; [by simpl in *; subst|].
    destruct ws; simpl in *; by rewrite <-IH.
Qed.

Lemma split_on_no_sep sep w : contains_byte sep w = false → split_on sep w = [w].
Proof.
  induction w as [|c w IH]; [done|]. simpl.
  intros [Hc Hw]%orb_false_iff. apply bool_decide_eq_false in Hc.
  by rewrite decide_False, IH.
Qed.

Lemma split_on_app sep w s :
  contains_byte sep w = false →
  split_on sep (w +:+ String sep s) = w :: split_on sep s.
Proof.
  induction w as [|c w IH]; simpl; [by rewrite decide_True|].
  intros [Hc Hw]%orb_false_iff. apply bool_decide_eq_false in Hc.
  by rewrite decide_False, IH.
Qed.

(** Splitting what was joined gives the pieces back. *)
Lemma split_join sep ws :
  ws ≠ [] → Forall (λ w, contains_byte sep w = false) ws →
  split_on sep (join_on sep ws) = ws.
Proof.
  induction ws as [|w ws IH]; [done|]. intros _ Hws. inversion_clear Hws.
  destruct ws as [|w' ws]; [by apply split_on_no_sep|].
  change (join_on sep (w :: w' :: ws)) with (w +:+ String sep (join_on sep (w' :: ws))).
  rewrite split_on_app by done. f_equal. by apply IH.
Qed.

Lemma trim_left_first s c : first_byte (trim_left s) = Some c → is_space c = false.
Proof.
  induction s as [|c' s IH]; [done|]. simpl.
  destruct (is_space c') eqn:E; [done|]. by intros [= <-].
Qed.

Lemma trim_left_id s : (∀ c, first_byte s = Some c → is_space c = false) → trim_left s = s.
Proof. destruct s as [|c s]; [done|]. simpl. intros H. by rewrite (H c). Qed.

Lemma trim_right_last s c : last_byte (trim_right s) = Some c → is_space c = false.
Proof.
  induction s as [|c' s IH]; [done|]. simpl.
  destruct (trim_right s) as [|c'' t] eqn:E.
  - destruct (is_space c') eqn:E'; [done|]. by intros [= <-].
  - done.
Qed.

Lemma trim_right_id s : (∀ c, last_byte s = Some c → is_space c = false) → trim_right s = s.
Proof.
  induction s as [|c s IH]; [done|]. simpl. intros H.
  destruct s as [|c' s]; [by simpl; rewrite (H c)|].
  rewrite IH by done. done.
Qed.

Lemma trim_right_first s c :
  first_byte s = Some c → is_space c = false → first_byte (trim_right s) = Some c.
Proof.
  destruct s as [|c' s]; [done|]. simpl. intros [= ->] Hc.
  destruct (trim_right s); [by rewrite Hc|done].
Qed.

(** Trimming twice is trimming once. *)
Lemma TrimSpace_idemp s : TrimSpace (TrimSpace s) = TrimSpace s.
Proof.
  unfold TrimSpace. rewrite (trim_left_id (trim_right _)).
  - apply trim_right_id, trim_right_last.
  - intros c Hc. destruct (first_byte (trim_left s)) as [c'|] eqn:E.
    + pose proof (trim_left_first _ _ E) as Hsp.
      rewrite (trim_right_first _ _ E Hsp) in Hc. by simplify_eq.
    + destruct (trim_left s); [done|discriminate].
Qed.

(** A trimmed string starts and ends with a byte that is not white space. *)
Lemma TrimSpace_ends s c :
  first_byte (TrimSpace s) = Some c ∨ last_byte (TrimSpace s) = Some c →
  is_space c = false.
Proof.
  unfold TrimSpace. intros [Hc|Hc]; [|by eapply trim_right_last].
  destruct (first_byte (trim_left s)) as [c'|] eqn:E.
  - pose proof (trim_left_first _ _ E) as Hsp.
    rewrite (trim_right_first _ _ E Hsp) in Hc. by simplify_eq.
  - destruct (trim_left s); [done|discriminate].
Qed.

(** A string without white space at its ends is left as it is. *)
Lemma TrimSpace_id s :
  (∀ c, first_byte s = Some c ∨ last_byte s = Some c → is_space c = false) →
  TrimSpace s = s.
Proof.
  intros H. unfold TrimSpace. rewrite trim_left_id by naive_solver.
  apply trim_right_id. naive_solver.
Qed.
