(* ===== verification/Json.v ===== *)
(** * JSON values and the decoding primitives of encoding/json

    The handlers read request bodies with [json.NewDecoder(r.Body).Decode]
    and write snapshots with [json.Marshal].  This file holds the value
    type, Go's field-name matching (exact first, then case-insensitive),
    the decoding of a body into [map[string]interface{}] and the decoders of
    the primitive field types.  The codecs of the three structs are in
    [Entity], next to the struct tags that drive them.

    Abstractions: a body is given as a parsed value ([None] for text that is
    not JSON); an integer literal is [JNum], any other number [JFloat];
    strings are valid UTF-8.  A value is the body as the decoder of the
    struct reads it: a string member that the decoder stores into a field
    of type [time.Time] and that parses as an RFC 3339 timestamp is [JTime]
    with its instant, and every other string member is [JStr] with its
    text, the text of a timestamp included when its field is a string, so
    that [want_string] is never given a [JTime] by a body and [want_time]
    is given a [JStr] exactly by a string that does not parse.  Numbers
    that pass through [interface{}] are taken to be exact as float64
    (magnitude at most 2^53): a literal with a fraction or an exponent is
    [JFloat] and is refused for an integer field even where its value is
    whole, which Go accepts on the path through the map.  Case folding
    covers ASCII letters. *)

From S2P Require Import Prelude.
From Stdlib Require Import Ascii.

#[local] Set Warnings "-register-all,-clear-no-such-hyp".

Inductive json : Type :=
| JNull
| JBool (b : bool)
| JNum (n : Z)
| JFloat
| JStr (s : string)
| JTime (t : Z)
| JArr (l : list json)
| JObj (fields : list (string * json)).

Fixpoint json_eq (x y : json) {struct x} : Decision (x = y).
Proof.
  refine (
    match x, y with
    | JNull, JNull => left eq_refl
    | JBool a, JBool b => cast_if (decide (a = b))
    | JNum a, JNum b => cast_if (decide (a = b))
    | JFloat, JFloat => left eq_refl
    | JStr a, JStr b => cast_if (decide (a = b))
    | JTime a, JTime b => cast_if (decide (a = b))
    | JArr a, JArr b => cast_if (@list_eq_dec _ json_eq a b)
    | JObj a, JObj b =>
        cast_if (@list_eq_dec _ (@prod_eq_dec _ _ _ json_eq) a b)
    | _, _ => right _
    end); congruence.
Defined.
#[global] Instance json_eq_dec : EqDecision json := json_eq.

(** ** Field-name matching *)

(** ASCII upper-casing of one byte, as [foldName] does for letters. *)
Definition fold_ascii (c : ascii) : ascii :=
  let n := nat_of_ascii c in
  if bool_decide (97 ≤ n ≤ 122)%nat then ascii_of_nat (n - 32) else c.

Fixpoint foldName (s : string) : string :=
  match s with
  | EmptyString => EmptyString
  | String c s' => String (fold_ascii c) (foldName s')
  end.

(** The struct field a JSON key selects among the fields [fs] of a struct,
    each given by its tag: the field whose tag is the key, else the first
    field whose tag equals the key up to case. *)
Definition match_field {F} (fs : list (string * F)) (k : string) : option F :=
  match list_find (λ f, f.1 = k) fs with
  | Some (_, f) => Some f.2
  | None => (λ x, x.2.2) <$> list_find (λ f, foldName f.1 = foldName k) fs
  end.

(** ** Decoding into a struct *)

(** A struct field as the decoder sees it: how a member's value is stored
    into the struct, or refused. *)
Definition setter (T : Type) : Type := json → T → Result T.

(** [decode_fields fs fields t]: assign the object's members to the struct,
    in the order given; a member that matches no field is skipped, a member
    of the wrong type makes the whole decoding fail. *)
Fixpoint decode_fields {T} (fs : list (string * setter T))
    (fields : list (string * json)) (t : T) : Result T :=
  match fields with
  | [] => Ok t
  | (k, v) :: rest =>
      match match_field fs k with
      | None => decode_fields fs rest t
      | Some set =>
          match set v t with
          | Ok t' => decode_fields fs rest t'
          | Err e => Err e
          end
      end
  end.

(** [json.Unmarshal] of a value into a struct that starts as [t]: [null]
    leaves the struct alone, an object is decoded member by member, anything
    else is a type error. *)
Definition decode_struct {T} (fs : list (string * setter T)) (j : json) (t : T) : Result T :=
  match j with
  | JNull => Ok t
  | JObj fields => decode_fields fs fields t
  | _ => Err "json: cannot unmarshal into Go struct"
  end.

(** ** Primitive field decoders: [None] is JSON null, which leaves the field *)

Definition want_string (j : json) : Result (option string) :=
  match j with
  | JNull => Ok None
  | JStr s => Ok (Some s)
  | _ => Err "json: cannot unmarshal into Go value of type string"
  end.

Definition want_bool (j : json) : Result (option bool) :=
  match j with
  | JNull => Ok None
  | JBool b => Ok (Some b)
  | _ => Err "json: cannot unmarshal into Go value of type bool"
  end.

(** [uint]: 64 bits. *)
Definition want_uint (j : json) : Result (option N) :=
  match j with
  | JNull => Ok None
  | JNum n =>
      if bool_decide (0 ≤ n < 2 ^ 64)%Z then Ok (Some (Z.to_N n))
      else Err "json: cannot unmarshal number into Go value of type uint"
  | _ => Err "json: cannot unmarshal into Go value of type uint"
  end.

(** [int]: 64 bits, two's complement. *)
Definition want_int (j : json) : Result (option Z) :=
  match j with
  | JNull => Ok None
  | JNum n =>
      if bool_decide (- 2 ^ 63 ≤ n < 2 ^ 63)%Z then Ok (Some n)
      else Err "json: cannot unmarshal number into Go value of type int"
  | _ => Err "json: cannot unmarshal into Go value of type int"
  end.

Definition want_time (j : json) : Result (option Z) :=
  match j with
  | JNull => Ok None
  | JTime t => Ok (Some t)
  | _ => Err "parsing time: cannot parse as RFC 3339"
  end.

(** Store a decoded member with [put]; JSON null leaves the struct as it is. *)
Definition assign {A T} (want : json → Result (option A)) (put : A → T → T) : setter T :=
  λ j t,
    match want j with
    | Ok (Some a) => Ok (put a t)
    | Ok None => Ok t
    | Err e => Err e
    end.

(** ** Decoding into map[string]interface{} *)

(** The map a body decodes to: a later member replaces an earlier one with
    the same key.  [null] gives the nil map, which reads as empty. *)
Definition decode_map (j : json) : Result (gmap string json) :=
  match j with
  | JNull => Ok ∅
  | JObj fields => Ok (list_to_map (reverse fields))
  | _ => Err "json: cannot unmarshal into Go value of type map[string]interface {}"
  end.

Definition key_le (p q : string * json) : Prop := String.le p.1 q.1.

#[global] Instance key_le_dec : RelDecision key_le.
Proof. intros p q. unfold key_le. apply _. Defined.

#[global] Instance key_le_total : Total key_le.
Proof. intros p q. unfold key_le. apply total, _. Qed.

#[global] Instance key_le_trans : Transitive key_le.
Proof. intros p q r. unfold key_le. apply transitivity. Qed.

(** [json.Marshal] of the map: an object with its keys sorted. *)
Definition encode_map (m : gmap string json) : json :=
  JObj (merge_sort key_le (map_to_list m)).

(** [get] reads a part of the struct that only the field tagged [tag] writes. *)
Definition field_of {T A} (get : T → A) (tag : string) (fs : list (string * setter T)) : Prop :=
  ∀ t set, (t, set) ∈ fs → t ≠ tag → ∀ v x x', set v x = Ok x' → get x' = get x.

(** ** Facts *)

Lemma decode_fields_app {T} (fs : list (string * setter T)) f1 f2 t :
  decode_fields fs (f1 ++ f2) t =
  result_bind (decode_fields fs f1 t) (decode_fields fs f2).
Proof.
  revert t; induction f1 as [|[k v] f1 IH]; intros t; simpl; [done|].
  destruct (match_field fs k) as [set|]; [|done]. by destruct (set v t).
Qed.

Lemma match_field_exact {F} (fs : list (string * F)) k f :
  NoDup fs.*1 → (k, f) ∈ fs → match_field fs k = Some f.
Proof.
  intros Hnd Hin. unfold match_field.
  destruct (list_find (λ f, f.1 = k) fs) as [[i [k' f']]|] eqn:E.
  - apply list_find_Some in E as (E & Hk & _). simpl in *. subst k'.
    apply list_elem_of_lookup in Hin as [j Hj].
    assert (i = j) as ->; [|by simplify_eq].
    eapply NoDup_lookup; [done|by rewrite list_lookup_fmap, E|by rewrite list_lookup_fmap, Hj].
  - apply list_find_None in E. rewrite Forall_forall in E. by destruct (E _ Hin).
Qed.

Lemma match_field_Some {F} (fs : list (string * F)) k f :
  match_field fs k = Some f → ∃ t, (t, f) ∈ fs ∧ foldName t = foldName k.
Proof.
  unfold match_field. intros Hm.
  destruct (list_find (λ f, f.1 = k) fs) as [[i [t' f']]|] eqn:E.
  - simplify_eq/=. apply list_find_Some in E as (E & Hk & _). simpl in *. subst.
    exists k. split; [by eapply list_elem_of_lookup_2|done].
  - destruct (list_find (λ f, foldName f.1 = foldName k) fs) as [[i [t' f']]|] eqn:E';
      simplify_eq/=.
    apply list_find_Some in E' as (E' & ? & _).
    exists t'. split; [by eapply list_elem_of_lookup_2|done].
Qed.

Lemma match_field_None {F} (fs : list (string * F)) k :
  match_field fs k = None ↔ ∀ t, t ∈ fs.*1 → foldName t ≠ foldName k.
Proof.
  unfold match_field. split.
  - intros Hm t [[t' f] [-> Ht]]%list_elem_of_fmap Hf.
    destruct (list_find (λ f, f.1 = k) fs) as [[i ?]|] eqn:E; [done|].
    destruct (list_find (λ f, foldName f.1 = foldName k) fs) as [[i ?]|] eqn:E';
      [done|].
    apply list_find_None in E'. rewrite Forall_forall in E'. by apply (E' _ Ht).
  - intros Hall.
    destruct (list_find (λ f, f.1 = k) fs) as [[i [t' f']]|] eqn:E.
    + apply list_find_Some in E as (E & Hk & _). simpl in *. subst.
      destruct (Hall k); [|done]. apply list_elem_of_fmap. exists (k, f').
      split; [done|by eapply list_elem_of_lookup_2].
    + destruct (list_find (λ f, foldName f.1 = foldName k) fs) as [[i [t' f']]|] eqn:E';
        [|done].
      apply list_find_Some in E' as (E' & ? & _).
      destruct (Hall t'); [|done]. apply list_elem_of_fmap. exists (t', f').
      split; [done|by eapply list_elem_of_lookup_2].
Qed.

(** A member whose key no field matches does not take part in decoding. *)
Lemma decode_fields_skip {T} (fs : list (string * setter T)) k v rest t :
  match_field fs k = None →
  decode_fields fs ((k, v) :: rest) t = decode_fields fs rest t.
Proof. intros Hm. simpl. by rewrite Hm. Qed.

(** Reading the decoded map at a key gives the last member with that key. *)
Lemma decode_map_last fields rest k v m :
  decode_map (JObj (fields ++ (k, v) :: rest)) = Ok m →
  k ∉ rest.*1 → m !! k = Some v.
Proof.
  intros [= <-] Hk. rewrite reverse_app, reverse_cons, <-(assoc_L (++)).
  rewrite list_to_map_app. apply lookup_union_Some_raw. right. split.
  - apply not_elem_of_list_to_map_1. by rewrite fmap_reverse, elem_of_reverse.
  - simpl. by rewrite lookup_insert_eq.
Qed.

Lemma decode_map_absent fields k m :
  decode_map (JObj fields) = Ok m →
  m !! k = None ↔ k ∉ fields.*1.
Proof.
  intros [= <-]. by rewrite <-not_elem_of_list_to_map, fmap_reverse, elem_of_reverse.
Qed.

(** The re-encoded map lists exactly its entries, by increasing key. *)
Lemma encode_map_sorted m fields :
  encode_map m = JObj fields → Sorted key_le fields ∧ fields ≡ₚ map_to_list m.
Proof.
  intros [= <-]. split; [apply Sorted_merge_sort, _|apply merge_sort_Permutation].
Qed.

(** A member that selects no field tagged like [tag] leaves what [get] reads. *)
Lemma decode_fields_untouched {T A} (get : T → A) tag fs fields t t' :
  field_of get tag fs →
  Forall (λ k, foldName k ≠ foldName tag) fields.*1 →
  decode_fields fs fields t = Ok t' → get t' = get t.
Proof.
  intros Hget. revert t. induction fields as [|[k v] fields IH]; intros t Hk; simpl.
  - by intros [= ->].
  - apply Forall_cons in Hk as [Hk Hks].
    destruct (match_field fs k) as [set|] eqn:Hm; [|by apply IH].
    apply match_field_Some in Hm as (t0 & Hin & Hfold).
    destruct (set v t) as [t1|] eqn:Hset; [|done]. intros Hd.
    rewrite (IH t1 Hks Hd). eapply Hget; [done| |done].
    intros ->. simpl in Hk. by rewrite Hfold in Hk.
Qed.

Lemma encode_map_keys m fields k :
  encode_map m = JObj fields → k ∈ fields.*1 ↔ is_Some (m !! k).
Proof.
  intros [_ Hp]%encode_map_sorted. rewrite Hp.
  rewrite list_elem_of_fmap. split.
  - intros [[k' v] [-> Hin%elem_of_map_to_list]]. by eexists.
  - intros [v Hv]. exists (k, v). split; [done|]. by apply elem_of_map_to_list.
Qed.

Lemma decode_map_keys fields m k :
  decode_map (JObj fields) = Ok m → is_Some (m !! k) ↔ k ∈ fields.*1.
Proof.
  intros Hm. rewrite <-not_eq_None_Some, (decode_map_absent _ _ _ Hm).
  destruct (decide (k ∈ fields.*1)); naive_solver.
Qed.

(** A field the body does not mention keeps the value of the struct the
    re-encoded map is decoded into. *)
Lemma decode_reencoded_untouched {T A} (get : T → A) tag fs fields m (zero t : T) :
  field_of get tag fs →
  decode_map (JObj fields) = Ok m →
  decode_struct fs (encode_map m) zero = Ok t →
  Forall (λ k, foldName k ≠ foldName tag) fields.*1 → get t = get zero.
Proof.
  intros Hget Hm Ht Hf.
  destruct (encode_map m) as [| | | | | |?|obj] eqn:Henc; try done. simpl in Ht.
  apply (decode_fields_untouched get tag fs obj zero t Hget); [|done].
  rewrite Forall_forall in Hf. apply Forall_forall. intros k Hk. apply Hf.
  by apply (decode_map_keys _ _ _ Hm), (encode_map_keys _ _ _ Henc).
Qed.

(** What every setter keeps, decoding keeps. *)
Lemma decode_fields_preserves {T} (P : T → Prop) (fs : list (string * setter T)) fields t t' :
  (∀ tag set, (tag, set) ∈ fs → ∀ v x x', set v x = Ok x' → P x → P x') →
  decode_fields fs fields t = Ok t' → P t → P t'.
Proof.
  intros Hfs. revert t. induction fields as [|[k v] fields IH]; intros t; simpl.
  - by intros [= ->].
  - destruct (match_field fs k) as [set|] eqn:Hm; [|by apply IH].
    apply match_field_Some in Hm as (tag & Hin & _).
    destruct (set v t) as [t1|] eqn:Hset; [|done]. intros Hd Ht.
    apply (IH t1 Hd). by eapply Hfs.
Qed.

Lemma decode_struct_preserves {T} (P : T → Prop) (fs : list (string * setter T)) j t t' :
  (∀ tag set, (tag, set) ∈ fs → ∀ v x x', set v x = Ok x' → P x → P x') →
  decode_struct fs j t = Ok t' → P t → P t'.
Proof.
  intros Hfs. destruct j; simpl; try done; [by intros [= ->]|].
  by apply decode_fields_preserves.
Qed.

(** A number decoded as [int] is one. *)
Lemma want_int_Some j n : want_int j = Ok (Some n) → (- 2 ^ 63 ≤ n < 2 ^ 63)%Z.
Proof. destruct j; simpl; try done. case_bool_decide; by intros [= <-]. Qed.
