(* ===== verification/Entity.v ===== *)
(** * The entity model: package config's structs and their JSON form

    [Backend], [Route] and [ConfigHistory] as records, field for field as in
    src/unnamed/part_000, with the zero value Go gives each and the codec
    the struct tags define: [Backend_fields] and [Route_fields] are what
    [json.Unmarshal] does with a member of a given key, [marshal_Backend],
    [marshal_Route] and [marshal_ConfigHistory] are [json.Marshal].

    [uint] and [uint64] fields are [N], [int] is [Z], [time.Time] is its
    instant in [Z], [*uint] is [option N], and a [json.RawMessage] is
    [option json] with [None] for the nil slice. *)

From S2P Require Import Prelude Json.

(** ** Backend *)

Record Backend : Type := mkBackend {
  Backend_ID : N;
  Backend_Name : string;
  Backend_Addr : string;
  Backend_Description : string;
  Backend_Enabled : bool;
  Backend_CreatedAt : Z;
  Backend_UpdatedAt : Z;
}.

#[global] Instance Backend_eq_dec : EqDecision Backend.
Proof. solve_decision. Defined.

(** [var backend config.Backend] *)
Definition Backend_zero : Backend := mkBackend 0 "" "" "" false zero_time zero_time.

#[global] Instance Backend_inhabited : Inhabited Backend := populate Backend_zero.

Definition Backend_with_ID (v : N) (b : Backend) : Backend :=
  mkBackend v (Backend_Name b) (Backend_Addr b) (Backend_Description b)
    (Backend_Enabled b) (Backend_CreatedAt b) (Backend_UpdatedAt b).

Definition Backend_with_Name (v : string) (b : Backend) : Backend :=
  mkBackend (Backend_ID b) v (Backend_Addr b) (Backend_Description b)
    (Backend_Enabled b) (Backend_CreatedAt b) (Backend_UpdatedAt b).

Definition Backend_with_Addr (v : string) (b : Backend) : Backend :=
  mkBackend (Backend_ID b) (Backend_Name b) v (Backend_Description b)
    (Backend_Enabled b) (Backend_CreatedAt b) (Backend_UpdatedAt b).

Definition Backend_with_Description (v : string) (b : Backend) : Backend :=
  mkBackend (Backend_ID b) (Backend_Name b) (Backend_Addr b) v
    (Backend_Enabled b) (Backend_CreatedAt b) (Backend_UpdatedAt b).

Definition Backend_with_Enabled (v : bool) (b : Backend) : Backend :=
  mkBackend (Backend_ID b) (Backend_Name b) (Backend_Addr b) (Backend_Description b)
    v (Backend_CreatedAt b) (Backend_UpdatedAt b).

Definition Backend_with_CreatedAt (v : Z) (b : Backend) : Backend :=
  mkBackend (Backend_ID b) (Backend_Name b) (Backend_Addr b) (Backend_Description b)
    (Backend_Enabled b) v (Backend_UpdatedAt b).

Definition Backend_with_UpdatedAt (v : Z) (b : Backend) : Backend :=
  mkBackend (Backend_ID b) (Backend_Name b) (Backend_Addr b) (Backend_Description b)
    (Backend_Enabled b) (Backend_CreatedAt b) v.

(** The struct tags of [Backend], as the decoder uses them. *)
Definition Backend_fields : list (string * setter Backend) :=
  [ ("id", assign want_uint Backend_with_ID);
    ("name", assign want_string Backend_with_Name);
    ("addr", assign want_string Backend_with_Addr);
    ("description", assign want_string Backend_with_Description);
    ("enabled", assign want_bool Backend_with_Enabled);
    ("created_at", assign want_time Backend_with_CreatedAt);
    ("updated_at", assign want_time Backend_with_UpdatedAt) ].

(** [omitempty] on a string field. *)
Definition omitempty_string (tag s : string) : list (string * json) :=
  if decide (s = "") then [] else [(tag, JStr s)].

Definition marshal_Backend (b : Backend) : json :=
  JObj ([ ("id", JNum (Z.of_N (Backend_ID b)));
          ("name", JStr (Backend_Name b));
          ("addr", JStr (Backend_Addr b)) ]
        ++ omitempty_string "description" (Backend_Description b)
        ++ [ ("enabled", JBool (Backend_Enabled b));
             ("created_at", JTime (Backend_CreatedAt b));
             ("updated_at", JTime (Backend_UpdatedAt b)) ]).

(** ** Route *)

Record Route : Type := mkRoute {
  Route_ID : N;
  Route_HTTPMethod : string;
  Route_HTTPPattern : string;
  Route_BackendName : string;
  Route_BackendService : string;
  Route_BackendMethod : string;
  Route_TimeoutMS : Z;
  Route_Description : string;
  Route_Enabled : bool;
  Route_CreatedAt : Z;
  Route_UpdatedAt : Z;
}.

#[global] Instance Route_eq_dec : EqDecision Route.
Proof. solve_decision. Defined.

Definition Route_zero : Route :=
  mkRoute 0 "" "" "" "" "" 0 "" false zero_time zero_time.

#[global] Instance Route_inhabited : Inhabited Route := populate Route_zero.

Definition Route_with_ID (v : N) (r : Route) : Route :=
  mkRoute v (Route_HTTPMethod r) (Route_HTTPPattern r) (Route_BackendName r)
    (Route_BackendService r) (Route_BackendMethod r) (Route_TimeoutMS r)
    (Route_Description r) (Route_Enabled r) (Route_CreatedAt r) (Route_UpdatedAt r).

Definition Route_with_HTTPMethod (v : string) (r : Route) : Route :=
  mkRoute (Route_ID r) v (Route_HTTPPattern r) (Route_BackendName r)
    (Route_BackendService r) (Route_BackendMethod r) (Route_TimeoutMS r)
    (Route_Description r) (Route_Enabled r) (Route_CreatedAt r) (Route_UpdatedAt r).

Definition Route_with_HTTPPattern (v : string) (r : Route) : Route :=
  mkRoute (Route_ID r) (Route_HTTPMethod r) v (Route_BackendName r)
    (Route_BackendService r) (Route_BackendMethod r) (Route_TimeoutMS r)
    (Route_Description r) (Route_Enabled r) (Route_CreatedAt r) (Route_UpdatedAt r).

Definition Route_with_BackendName (v : string) (r : Route) : Route :=
  mkRoute (Route_ID r) (Route_HTTPMethod r) (Route_HTTPPattern r) v
    (Route_BackendService r) (Route_BackendMethod r) (Route_TimeoutMS r)
    (Route_Description r) (Route_Enabled r) (Route_CreatedAt r) (Route_UpdatedAt r).

Definition Route_with_BackendService (v : string) (r : Route) : Route :=
  mkRoute (Route_ID r) (Route_HTTPMethod r) (Route_HTTPPattern r) (Route_BackendName r)
    v (Route_BackendMethod r) (Route_TimeoutMS r)
    (Route_Description r) (Route_Enabled r) (Route_CreatedAt r) (Route_UpdatedAt r).

Definition Route_with_BackendMethod (v : string) (r : Route) : Route :=
  mkRoute (Route_ID r) (Route_HTTPMethod r) (Route_HTTPPattern r) (Route_BackendName r)
    (Route_BackendService r) v (Route_TimeoutMS r)
    (Route_Description r) (Route_Enabled r) (Route_CreatedAt r) (Route_UpdatedAt r).

Definition Route_with_TimeoutMS (v : Z) (r : Route) : Route :=
  mkRoute (Route_ID r) (Route_HTTPMethod r) (Route_HTTPPattern r) (Route_BackendName r)
    (Route_BackendService r) (Route_BackendMethod r) v
    (Route_Description r) (Route_Enabled r) (Route_CreatedAt r) (Route_UpdatedAt r).

Definition Route_with_Description (v : string) (r : Route) : Route :=
  mkRoute (Route_ID r) (Route_HTTPMethod r) (Route_HTTPPattern r) (Route_BackendName r)
    (Route_BackendService r) (Route_BackendMethod r) (Route_TimeoutMS r)
    v (Route_Enabled r) (Route_CreatedAt r) (Route_UpdatedAt r).

Definition Route_with_Enabled (v : bool) (r : Route) : Route :=
  mkRoute (Route_ID r) (Route_HTTPMethod r) (Route_HTTPPattern r) (Route_BackendName r)
    (Route_BackendService r) (Route_BackendMethod r) (Route_TimeoutMS r)
    (Route_Description r) v (Route_CreatedAt r) (Route_UpdatedAt r).

Definition Route_with_CreatedAt (v : Z) (r : Route) : Route :=
  mkRoute (Route_ID r) (Route_HTTPMethod r) (Route_HTTPPattern r) (Route_BackendName r)
    (Route_BackendService r) (Route_BackendMethod r) (Route_TimeoutMS r)
    (Route_Description r) (Route_Enabled r) v (Route_UpdatedAt r).

Definition Route_with_UpdatedAt (v : Z) (r : Route) : Route :=
  mkRoute (Route_ID r) (Route_HTTPMethod r) (Route_HTTPPattern r) (Route_BackendName r)
    (Route_BackendService r) (Route_BackendMethod r) (Route_TimeoutMS r)
    (Route_Description r) (Route_Enabled r) (Route_CreatedAt r) v.

Definition Route_fields : list (string * setter Route) :=
  [ ("id", assign want_uint Route_with_ID);
    ("http_method", assign want_string Route_with_HTTPMethod);
    ("http_pattern", assign want_string Route_with_HTTPPattern);
    ("backend_name", assign want_string Route_with_BackendName);
    ("backend_service", assign want_string Route_with_BackendService);
    ("backend_method", assign want_string Route_with_BackendMethod);
    ("timeout_ms", assign want_int Route_with_TimeoutMS);
    ("description", assign want_string Route_with_Description);
    ("enabled", assign want_bool Route_with_Enabled);
    ("created_at", assign want_time Route_with_CreatedAt);
    ("updated_at", assign want_time Route_with_UpdatedAt) ].

Definition marshal_Route (r : Route) : json :=
  JObj ([ ("id", JNum (Z.of_N (Route_ID r)));
          ("http_method", JStr (Route_HTTPMethod r));
          ("http_pattern", JStr (Route_HTTPPattern r));
          ("backend_name", JStr (Route_BackendName r));
          ("backend_service", JStr (Route_BackendService r));
          ("backend_method", JStr (Route_BackendMethod r));
          ("timeout_ms", JNum (Route_TimeoutMS r)) ]
        ++ omitempty_string "description" (Route_Description r)
        ++ [ ("enabled", JBool (Route_Enabled r));
             ("created_at", JTime (Route_CreatedAt r));
             ("updated_at", JTime (Route_UpdatedAt r)) ]).

(** ** ConfigHistory *)

Record ConfigHistory : Type := mkConfigHistory {
  ConfigHistory_ID : N;
  ConfigHistory_ConfigType : string;
  ConfigHistory_ConfigID : option N;
  ConfigHistory_Operation : string;
  ConfigHistory_OldValue : option json;
  ConfigHistory_NewValue : option json;
  ConfigHistory_Operator : string;
  ConfigHistory_CreatedAt : Z;
}.

#[global] Instance ConfigHistory_eq_dec : EqDecision ConfigHistory.
Proof. solve_decision. Defined.

(** [&config.ConfigHistory{}] *)
Definition ConfigHistory_zero : ConfigHistory :=
  mkConfigHistory 0 "" None "" None None "" zero_time.

Definition omitempty_opt {A} (tag : string) (enc : A → json) (o : option A) :
    list (string * json) :=
  match o with Some a => [(tag, enc a)] | None => [] end.

Definition marshal_ConfigHistory (h : ConfigHistory) : json :=
  JObj ([ ("id", JNum (Z.of_N (ConfigHistory_ID h)));
          ("config_type", JStr (ConfigHistory_ConfigType h)) ]
        ++ omitempty_opt "config_id" (λ n, JNum (Z.of_N n)) (ConfigHistory_ConfigID h)
        ++ [ ("operation", JStr (ConfigHistory_Operation h)) ]
        ++ omitempty_opt "old_value" id (ConfigHistory_OldValue h)
        ++ omitempty_opt "new_value" id (ConfigHistory_NewValue h)
        ++ omitempty_string "operator" (ConfigHistory_Operator h)
        ++ [ ("created_at", JTime (ConfigHistory_CreatedAt h)) ]).

(** A slice is encoded as an array, the nil slice as [null]. *)
Definition marshal_slice {A} (enc : A → json) (l : list A) : json :=
  match l with [] => JNull | _ => JArr (enc <$> l) end.

(** The values a Go [uint] holds. *)
Definition fits_uint (n : N) : Prop := (n < 2 ^ 64)%N.

(** The values a Go [int] holds. *)
Definition fits_int (n : Z) : Prop := (- 2 ^ 63 ≤ n < 2 ^ 63)%Z.

#[global] Instance fits_uint_dec n : Decision (fits_uint n).
Proof. unfold fits_uint. apply _. Defined.

#[global] Instance fits_int_dec n : Decision (fits_int n).
Proof. unfold fits_int. apply _. Defined.

(** ** Facts *)

Lemma want_uint_of_N n : fits_uint n → want_uint (JNum (Z.of_N n)) = Ok (Some n).
Proof.
  unfold fits_uint. intros Hn. simpl. rewrite bool_decide_eq_true_2 by lia.
  by rewrite N2Z.id.
Qed.

Lemma want_int_fits n : fits_int n → want_int (JNum n) = Ok (Some n).
Proof. intros Hn. simpl. by rewrite bool_decide_eq_true_2. Qed.

Lemma assign_Some {A T} (want : json → Result (option A)) (put : A → T → T) j t a :
  want j = Ok (Some a) → assign want put j t = Ok (put a t).
Proof. unfold assign. by intros ->. Qed.

Lemma assign_null {A T} (want : json → Result (option A)) (put : A → T → T) j t :
  want j = Ok None → assign want put j t = Ok t.
Proof. unfold assign. by intros ->. Qed.

Lemma assign_Err {A T} (want : json → Result (option A)) (put : A → T → T) j t e :
  want j = Err e → assign want put j t = Err e.
Proof. unfold assign. by intros ->. Qed.

Lemma omitempty_string_decode {T} (fs : list (string * setter T)) tag put t :
  match_field fs tag = Some (assign want_string put) →
  put "" t = t →
  ∀ s rest,
    decode_fields fs (omitempty_string tag s ++ rest) t
    = decode_fields fs rest (put s t) ∨ (s = "" ∧
    decode_fields fs (omitempty_string tag s ++ rest) t = decode_fields fs rest t).
Proof.
  intros Hm Hz s rest. unfold omitempty_string. case_decide as Hs.
  - right. by subst.
  - left. simpl. by rewrite Hm.
Qed.

(** Decoding the JSON a backend is encoded to
    gives the backend back, the omitted empty description included. *)
Theorem decode_marshal_Backend b :
  fits_uint (Backend_ID b) →
  decode_struct Backend_fields (marshal_Backend b) Backend_zero = Ok b.
Proof.
  intros Hid. destruct b as [i n a d e c u]; simpl in *.
  rewrite (assign_Some _ _ _ _ i) by by apply want_uint_of_N.
  unfold omitempty_string. case_decide; subst; done.
Qed.

Lemma decode_marshal_Backend_witness :
  let b := mkBackend 7 "account" "127.0.0.1:50051" "" true 1000 1002 in
  decode_struct Backend_fields (marshal_Backend b) Backend_zero = Ok b.
Proof. apply decode_marshal_Backend. by vm_compute. Defined.

(** Decoding the JSON a route is encoded to gives
    the route back. *)
Theorem decode_marshal_Route r :
  fits_uint (Route_ID r) → fits_int (Route_TimeoutMS r) →
  decode_struct Route_fields (marshal_Route r) Route_zero = Ok r.
Proof.
  intros Hid Ht. destruct r as [i m p bn bs bm t d e c u]; simpl in *.
  rewrite (assign_Some _ _ _ _ i) by by apply want_uint_of_N.
  simpl. rewrite (assign_Some _ _ _ _ t) by by apply want_int_fits.
  unfold omitempty_string. case_decide; subst; done.
Qed.

Lemma decode_marshal_Route_witness :
  let r := mkRoute 3 "POST" "/v1/user/login" "account" "user.v1.UserService" "Login"
             5000 "" true 1000 1000 in
  decode_struct Route_fields (marshal_Route r) Route_zero = Ok r.
Proof. apply decode_marshal_Route; by vm_compute. Defined.

(** ** Which field writes what *)

(** Case analysis on the field a member selects. *)
Ltac field_of_tac fs :=
  intros t set Hin Hne v x x'; unfold fs in Hin;
  repeat (apply elem_of_cons in Hin as [[= -> ->]|Hin]; [try done|]);
  [..|by apply elem_of_nil in Hin];
  unfold assign; repeat case_match; intros; by simplify_eq.

Lemma Backend_Description_field :
  field_of Backend_Description "description" Backend_fields.
Proof. field_of_tac Backend_fields. Qed.

Lemma Backend_CreatedAt_field :
  field_of Backend_CreatedAt "created_at" Backend_fields.
Proof. field_of_tac Backend_fields. Qed.

Lemma Backend_with_ID_same backend : Backend_with_ID (Backend_ID backend) backend = backend.
Proof. by destruct backend. Qed.

Lemma Route_TimeoutMS_field : field_of Route_TimeoutMS "timeout_ms" Route_fields.
Proof. field_of_tac Route_fields. Qed.

Lemma Route_Description_field : field_of Route_Description "description" Route_fields.
Proof. field_of_tac Route_fields. Qed.

(** A decoded route has a timeout an [int] holds. *)
Lemma decode_Route_timeout j r :
  decode_struct Route_fields j Route_zero = Ok r → fits_int (Route_TimeoutMS r).
Proof.
  intros Hd. apply (decode_struct_preserves (λ r, fits_int (Route_TimeoutMS r)) _ _ _ _) in Hd;
    [done| |done].
  intros tag set Hin v x x'. unfold Route_fields in Hin.
  repeat (apply elem_of_cons in Hin as [[= -> ->]|Hin]);
    [..|by apply elem_of_nil in Hin]; unfold assign;
    try (destruct (want_int v) as [[n|]|] eqn:Hn; [apply want_int_Some in Hn|..]);
    repeat case_match; intros; by simplify_eq.
Qed.
