(* ===== verification/Sql.v ===== *)
(** * The relational engine under mysql_store.go

    Every method of [MySQLStore] is one or two SQL statements.  This file
    gives those statements a meaning on tables kept as lists of rows in
    insertion order:

      - [SELECT .. WHERE p]            [sql_where]
      - [.. LIMIT 1]                   [sql_first]
      - [INSERT INTO t VALUES ..]      [sql_insert]
      - [UPDATE t SET .. WHERE p]      [sql_update], with the count the
        driver reports as [RowsAffected]: the rows matched when the
        connection sets clientFoundRows, the rows changed otherwise
      - [ORDER BY k], [ORDER BY k DESC], [ORDER BY k1, k2]
      - [LIMIT n OFFSET m]             [limit_offset]
      - [SELECT COUNT( * )]            [sql_count]

    and proves what the store relies on.  Comparison of strings is bytewise
    (a binary collation). *)

From S2P Require Import Prelude.

(** ** Statements *)

Section statements.
Context {A : Type}.

Definition sql_where (P : A → Prop) `{!∀ x, Decision (P x)} (t : list A) : list A :=
  filter P t.

Definition sql_first (P : A → Prop) `{!∀ x, Decision (P x)} (t : list A) : option A :=
  head (filter P t).

Definition sql_count (P : A → Prop) `{!∀ x, Decision (P x)} (t : list A) : Z :=
  Z.of_nat (length (filter P t)).

Definition sql_insert (r : A) (t : list A) : list A := t ++ [r].

Definition sql_update (P : A → Prop) `{!∀ x, Decision (P x)} (f : A → A)
    (t : list A) : list A :=
  (λ r, if decide (P r) then f r else r) <$> t.

Definition rows_matched (P : A → Prop) `{!∀ x, Decision (P x)} (t : list A) : nat :=
  length (filter P t).

Definition rows_changed `{!EqDecision A} (P : A → Prop) `{!∀ x, Decision (P x)}
    (f : A → A) (t : list A) : nat :=
  length (filter (λ r, P r ∧ f r ≠ r) t).

(** What [result.RowsAffected()] returns after the UPDATE. *)
Definition rows_affected `{!EqDecision A} (clientFoundRows : bool)
    (P : A → Prop) `{!∀ x, Decision (P x)} (f : A → A) (t : list A) : nat :=
  if clientFoundRows then rows_matched P t else rows_changed P f t.

(** [LIMIT limit OFFSET offset]; both are non-negative where the store is
    called, a negative one is read as 0. *)
Definition limit_offset (limit offset : Z) (t : list A) : list A :=
  take (Z.to_nat limit) (drop (Z.to_nat offset) t).

End statements.

(** ** Orders for ORDER BY *)

(** [ORDER BY key]: rows compared by one column. *)
Definition by_key {A K} (R : relation K) (key : A → K) : relation A :=
  λ a b, R (key a) (key b).

(** [ORDER BY k1, k2] on two string columns. *)
Definition lex_le (a b : string * string) : Prop :=
  (a.1 ≠ b.1 ∧ String.le a.1 b.1) ∨ (a.1 = b.1 ∧ String.le a.2 b.2).

Definition order_by {A} (R : relation A) `{!RelDecision R} (t : list A) : list A :=
  merge_sort R t.

#[global] Instance by_key_dec {A K} (R : relation K) `{!RelDecision R} (key : A → K) :
  RelDecision (by_key R key).
Proof. intros a b. unfold by_key. apply _. Defined.

#[global] Instance by_key_total {A K} (R : relation K) `{!Total R} (key : A → K) :
  Total (by_key R key).
Proof. intros a b. unfold by_key. apply total, _. Qed.

#[global] Instance by_key_trans {A K} (R : relation K) `{!Transitive R} (key : A → K) :
  Transitive (by_key R key).
Proof. intros a b c. unfold by_key. apply transitivity. Qed.

#[global] Instance lex_le_dec : RelDecision lex_le.
Proof. intros a b. unfold lex_le. apply _. Defined.

#[global] Instance lex_le_total : Total lex_le.
Proof.
  intros [a1 a2] [b1 b2]. unfold lex_le. simpl.
  destruct (decide (a1 = b1)) as [->|Hne].
  - destruct (total String.le a2 b2); auto.
  - destruct (total String.le a1 b1); auto.
Qed.

#[global] Instance lex_le_trans : Transitive lex_le.
Proof.
  intros [a1 a2] [b1 b2] [c1 c2]. unfold lex_le. simpl.
  intros [[Hab Lab]|[-> Lab]] [[Hbc Lbc]|[-> Lbc]]; auto.
  - left. split; [|by etrans]. intros ->.
    by destruct Hab, (anti_symm String.le c1 b1).
  - right. split; [done|by etrans].
Qed.

#[global] Instance flip_le_total : Total (flip Z.le).
Proof. intros a b. unfold flip. lia. Qed.

(** ** Facts on statements *)

Section facts.
Context {A : Type} `{!EqDecision A}.
Implicit Types (P : A → Prop) (f : A → A) (t : list A) (r : A).

Lemma length_sql_update P `{!∀ x, Decision (P x)} f t :
  length (sql_update P f t) = length t.
Proof. apply length_fmap. Qed.

Lemma sql_update_lookup P `{!∀ x, Decision (P x)} f t i :
  sql_update P f t !! i = (λ r, if decide (P r) then f r else r) <$> t !! i.
Proof. apply list_lookup_fmap. Qed.

Lemma sql_update_app P `{!∀ x, Decision (P x)} f t1 t2 :
  sql_update P f (t1 ++ t2) = sql_update P f t1 ++ sql_update P f t2.
Proof. apply fmap_app. Qed.

Lemma elem_of_sql_update P `{!∀ x, Decision (P x)} f t r :
  r ∈ sql_update P f t ↔ ∃ r0, r0 ∈ t ∧ r = if decide (P r0) then f r0 else r0.
Proof. unfold sql_update. rewrite list_elem_of_fmap. naive_solver. Qed.

(** An UPDATE that matches no row leaves the table as it is. *)
Lemma sql_update_no_match P `{!∀ x, Decision (P x)} f t :
  rows_matched P t = 0%nat → sql_update P f t = t.
Proof.
  unfold rows_matched, sql_update. intros Hn%nil_length_inv.
  induction t as [|r t IH]; [done|]. rewrite filter_cons in Hn. rewrite fmap_cons.
  case_decide; [done|]. by rewrite IH.
Qed.

(** So does one that changes no row. *)
Lemma sql_update_no_change P `{!∀ x, Decision (P x)} f t :
  rows_changed P f t = 0%nat → sql_update P f t = t.
Proof.
  unfold rows_changed, sql_update. intros Hn%nil_length_inv.
  induction t as [|r t IH]; [done|]. rewrite filter_cons in Hn. rewrite fmap_cons.
  destruct (decide (P r ∧ f r ≠ r)) as [?|Hne]; [done|]. rewrite IH by done.
  case_decide; [|done]. f_equal. destruct (decide (f r = r)); naive_solver.
Qed.

Lemma rows_changed_le_matched P `{!∀ x, Decision (P x)} f t :
  (rows_changed P f t ≤ rows_matched P t)%nat.
Proof.
  unfold rows_changed, rows_matched. induction t as [|r t IH]; [done|].
  rewrite !filter_cons. repeat case_decide; simpl; try lia. naive_solver.
Qed.

Lemma rows_changed_0 P `{!∀ x, Decision (P x)} f t :
  rows_changed P f t = 0%nat ↔ ∀ r, r ∈ t → P r → f r = r.
Proof.
  unfold rows_changed. rewrite length_zero_iff_nil. split.
  - intros Hnil r Hr HP. destruct (decide (f r = r)) as [|Hne]; [done|].
    by destruct (filter_nil_not_elem_of _ _ r Hnil).
  - intros Hall. apply elem_of_nil_inv. intros r [[HP Hne] Hr]%list_elem_of_filter.
    by destruct Hne; apply Hall.
Qed.

(** An UPDATE that assigns what the rows already hold changes no row, so a
    driver that counts changed rows reports 0 for it. *)
Lemma rows_changed_idempotent P `{!∀ x, Decision (P x)} f t :
  (∀ r, f (f r) = f r) → (∀ r, P (f r) ↔ P r) →
  rows_changed P f (sql_update P f t) = 0%nat.
Proof.
  intros Hff HP. apply rows_changed_0. intros r [r0 [_ ->]]%elem_of_sql_update.
  case_decide as Hr0; [done|]. intros Hr0'. by destruct Hr0.
Qed.

(** Whatever the driver counts, zero rows affected means no row was written. *)
Lemma rows_affected_0 cfr P `{!∀ x, Decision (P x)} f t :
  rows_affected cfr P f t = 0%nat → sql_update P f t = t.
Proof.
  destruct cfr; simpl; [apply sql_update_no_match|apply sql_update_no_change].
Qed.

Lemma rows_matched_0 P `{!∀ x, Decision (P x)} t :
  rows_matched P t = 0%nat ↔ sql_first P t = None.
Proof.
  unfold rows_matched, sql_first. destruct (filter P t); naive_solver.
Qed.

Lemma rows_matched_pos P `{!∀ x, Decision (P x)} t r :
  sql_first P t = Some r → (0 < rows_matched P t)%nat.
Proof.
  unfold rows_matched, sql_first. destruct (filter P t); simpl; [done|lia].
Qed.

(** With clientFoundRows the count is positive exactly when a row matches. *)
Lemma rows_affected_found P `{!∀ x, Decision (P x)} f t :
  rows_affected true P f t = 0%nat ↔ sql_first P t = None.
Proof. apply rows_matched_0. Qed.

Lemma sql_first_Some P `{!∀ x, Decision (P x)} t r :
  sql_first P t = Some r → P r ∧ r ∈ t.
Proof. apply head_filter_Some. Qed.

(** Whatever the driver counts, an UPDATE that changes a row it matches
    reports a row. *)
Lemma rows_affected_pos cfr P `{!∀ x, Decision (P x)} f t r :
  sql_first P t = Some r → cfr = true ∨ f r ≠ r → rows_affected cfr P f t ≠ 0%nat.
Proof.
  intros Hr Hrep. destruct cfr; simpl; [apply rows_matched_pos in Hr; lia|].
  destruct Hrep as [?|Hne]; [done|]. intros Hz.
  apply sql_first_Some in Hr as [HP Hin]. by apply Hne, (proj1 (rows_changed_0 P f t) Hz).
Qed.

Lemma sql_first_None P `{!∀ x, Decision (P x)} t :
  sql_first P t = None ↔ ∀ r, r ∈ t → ¬ P r.
Proof. apply head_filter_None. Qed.

Lemma sql_first_insert P `{!∀ x, Decision (P x)} t r :
  sql_first P (sql_insert r t) =
  match sql_first P t with
  | Some x => Some x
  | None => if decide (P r) then Some r else None
  end.
Proof.
  unfold sql_first, sql_insert. rewrite head_filter_app.
  destruct (head (filter P t)); [done|].
  rewrite filter_cons, filter_nil. by case_decide.
Qed.

(** The first match after an UPDATE whose assignment keeps the WHERE column. *)
Lemma sql_first_update P Q `{!∀ x, Decision (P x)} `{!∀ x, Decision (Q x)} f t :
  (∀ r, Q (f r) ↔ Q r) →
  sql_first Q (sql_update P f t) =
  (λ r, if decide (P r) then f r else r) <$> sql_first Q t.
Proof.
  intros HQ. unfold sql_first, sql_update.
  set (g := λ r, if decide (P r) then f r else r).
  assert (∀ r, Q (g r) ↔ Q r) as Hg by (intros r; unfold g; by case_decide).
  induction t as [|r t IH]; [done|].
  rewrite fmap_cons, !filter_cons.
  destruct (decide (Q (g r))) as [Hq|Hq], (decide (Q r)) as [Hq'|Hq']; simpl;
    [done|by destruct Hq'; apply Hg|by destruct Hq; apply Hg|done].
Qed.

(** An UPDATE that does not assign a column leaves that column as it was. *)
Lemma sql_update_column {K} (key : A → K) P `{!∀ x, Decision (P x)} f t :
  (∀ r, key (f r) = key r) → key <$> sql_update P f t = key <$> t.
Proof.
  intros Hk. unfold sql_update. rewrite <-list_fmap_compose.
  apply list_fmap_ext. intros i r _. simpl. by case_decide.
Qed.

(** A row property the assignment establishes holds of every row after. *)
Lemma Forall_sql_update (Q : A → Prop) P `{!∀ x, Decision (P x)} f t :
  (∀ r, Q r → P r → Q (f r)) → Forall Q t → Forall Q (sql_update P f t).
Proof.
  intros Hf Ht. unfold sql_update. rewrite Forall_fmap.
  eapply Forall_impl; [exact Ht|]. intros r Hr. simpl. case_decide; auto.
Qed.

Lemma Forall_sql_insert (Q : A → Prop) t r :
  Forall Q t → Q r → Forall Q (sql_insert r t).
Proof. intros. apply Forall_app. by repeat constructor. Qed.

Lemma sql_first_update_same P `{!∀ x, Decision (P x)} f t r :
  (∀ r, P (f r) ↔ P r) →
  sql_first P t = Some r → sql_first P (sql_update P f t) = Some (f r).
Proof.
  intros HP Hr. rewrite (sql_first_update P P) by done. rewrite Hr. simpl.
  apply sql_first_Some in Hr as [??]. by rewrite decide_True.
Qed.

Lemma sql_count_nonneg P `{!∀ x, Decision (P x)} t : (0 ≤ sql_count P t)%Z.
Proof. unfold sql_count. lia. Qed.

Lemma sql_count_insert P `{!∀ x, Decision (P x)} t r :
  sql_count P (sql_insert r t) = (sql_count P t + if decide (P r) then 1 else 0)%Z.
Proof.
  unfold sql_count, sql_insert. rewrite filter_app, length_app, filter_cons, filter_nil.
  case_decide; simpl; lia.
Qed.

Lemma length_limit_offset limit offset t :
  (0 ≤ limit)%Z → (Z.of_nat (length (limit_offset limit offset t)) ≤ limit)%Z.
Proof. unfold limit_offset. rewrite length_take. lia. Qed.

Lemma limit_offset_sublist limit offset t : limit_offset limit offset t `sublist_of` t.
Proof.
  unfold limit_offset. etrans; [apply sublist_take|apply sublist_drop].
Qed.

Lemma limit_offset_all limit t :
  (Z.of_nat (length t) ≤ limit)%Z → limit_offset limit 0 t = t.
Proof. unfold limit_offset. intros. rewrite drop_0, take_ge; [done|lia]. Qed.

Lemma limit_offset_lookup limit offset t i :
  (0 ≤ offset)%Z → (Z.of_nat i < limit)%Z →
  limit_offset limit offset t !! i = t !! (Z.to_nat offset + i)%nat.
Proof.
  intros. unfold limit_offset. rewrite lookup_take_lt by lia. apply lookup_drop.
Qed.

End facts.

(** ORDER BY returns the rows it is given, sorted. *)
Lemma order_by_sorted {A} (R : relation A) `{!RelDecision R, !Total R} (t : list A) :
  Sorted R (order_by R t).
Proof. apply Sorted_merge_sort, _. Qed.

Lemma order_by_perm {A} (R : relation A) `{!RelDecision R} (t : list A) :
  order_by R t ≡ₚ t.
Proof. apply merge_sort_Permutation. Qed.

Lemma elem_of_order_by {A} (R : relation A) `{!RelDecision R} (t : list A) r :
  r ∈ order_by R t ↔ r ∈ t.
Proof. by rewrite order_by_perm. Qed.

Lemma length_order_by {A} (R : relation A) `{!RelDecision R} (t : list A) :
  length (order_by R t) = length t.
Proof. by rewrite order_by_perm. Qed.

(** A page of a sorted list is sorted, and its length is what is left
    after the offset, at most the limit. *)
Lemma limit_offset_sorted {A} (R : relation A) `{!Transitive R} (limit offset : Z)
    (t : list A) :
  Sorted R t → Sorted R (limit_offset limit offset t).
Proof.
  intros Hs%Sorted_StronglySorted; [|done]. apply StronglySorted_Sorted.
  eapply StronglySorted_sublist; [apply limit_offset_sublist|done].
Qed.

Lemma length_limit_offset_eq {A} (limit offset : Z) (t : list A) :
  (0 ≤ limit)%Z → (0 ≤ offset)%Z →
  Z.of_nat (length (limit_offset limit offset t))
  = Z.min limit (Z.max 0 (Z.of_nat (length t) - offset))%Z.
Proof. intros ??. unfold limit_offset. rewrite length_take, length_drop. lia. Qed.

#[export] Hint Rewrite @length_sql_update @length_order_by : gw.
#[export] Hint Resolve order_by_sorted limit_offset_sublist : gw.
