(* ===== verification/StoreApi.v ===== *)
(** * The Store interface and handler programs

    [Store] is the Go interface [config.Store] (src/unnamed/part_000): twelve
    methods, each a function from a store state to a result and a new
    state.  A pointer argument a method writes through ([backend *Backend]
    in [CreateBackend] and [UpdateBackend]) is returned as the result.

    The handlers hold a [Store] and a logger and nothing else, so a handler
    is a program over two kinds of calls: [StoreOp], one constructor per
    interface method, and log calls.  [Prog R] is the type of such programs
    with result [R]; they are finite because no handler loops.  [run]
    executes a program against any instance of [Store] and returns the
    result, the final store and the log lines written, in order.  [step] is
    one store round trip of a program, for interleaving.

    Programs are compared up to [prog_equiv], equality of their runs on
    every store; the monad laws hold for it and [bind] and [run] respect
    it. *)

From S2P Require Import Prelude Json Entity.

(** ** The interface *)

Class Store (S : Type) : Type := {
  GetBackends : option bool → S → Result (list Backend) * S;
  GetBackendByName : string → S → Result (option Backend) * S;
  CreateBackend : Backend → S → Result Backend * S;
  UpdateBackend : string → Backend → S → Result Backend * S;
  DeleteBackend : string → S → Result unit * S;
  GetRoutes : option bool → S → Result (list Route) * S;
  GetRouteByID : N → S → Result (option Route) * S;
  CreateRoute : Route → S → Result Route * S;
  UpdateRoute : N → Route → S → Result Route * S;
  DeleteRoute : N → S → Result unit * S;
  CreateHistory : ConfigHistory → S → Result unit * S;
  GetHistory : option string → option N → Z → Z → S →
               Result (list ConfigHistory * Z) * S;
}.

(** A call of an interface method, indexed by what it returns. *)
Inductive StoreOp : Type → Type :=
| OpGetBackends (enabled : option bool) : StoreOp (Result (list Backend))
| OpGetBackendByName (name : string) : StoreOp (Result (option Backend))
| OpCreateBackend (backend : Backend) : StoreOp (Result Backend)
| OpUpdateBackend (name : string) (backend : Backend) : StoreOp (Result Backend)
| OpDeleteBackend (name : string) : StoreOp (Result unit)
| OpGetRoutes (enabled : option bool) : StoreOp (Result (list Route))
| OpGetRouteByID (id : N) : StoreOp (Result (option Route))
| OpCreateRoute (route : Route) : StoreOp (Result Route)
| OpUpdateRoute (id : N) (route : Route) : StoreOp (Result Route)
| OpDeleteRoute (id : N) : StoreOp (Result unit)
| OpCreateHistory (history : ConfigHistory) : StoreOp (Result unit)
| OpGetHistory (configType : option string) (configID : option N) (limit offset : Z) :
    StoreOp (Result (list ConfigHistory * Z)).

(** Dynamic dispatch: the method of the instance an operation names. *)
Definition exec {St} `{!Store St} {X} (op : StoreOp X) : St → X * St :=
  match op in StoreOp X return St → X * St with
  | OpGetBackends enabled => GetBackends enabled
  | OpGetBackendByName name => GetBackendByName name
  | OpCreateBackend b => CreateBackend b
  | OpUpdateBackend name b => UpdateBackend name b
  | OpDeleteBackend name => DeleteBackend name
  | OpGetRoutes enabled => GetRoutes enabled
  | OpGetRouteByID id => GetRouteByID id
  | OpCreateRoute r => CreateRoute r
  | OpUpdateRoute id r => UpdateRoute id r
  | OpDeleteRoute id => DeleteRoute id
  | OpCreateHistory h => CreateHistory h
  | OpGetHistory ty id limit offset => GetHistory ty id limit offset
  end.

(** The error of a result, [None] for [err == nil]. *)
Definition result_error {A} (r : Result A) : option error :=
  match r with Ok _ => None | Err e => Some e end.

(** The error an operation's answer carries. *)
Definition op_error {X} (op : StoreOp X) : X → option error :=
  match op in StoreOp X return X → option error with
  | OpGetBackends _ => result_error
  | OpGetBackendByName _ => result_error
  | OpCreateBackend _ => result_error
  | OpUpdateBackend _ _ => result_error
  | OpDeleteBackend _ => result_error
  | OpGetRoutes _ => result_error
  | OpGetRouteByID _ => result_error
  | OpCreateRoute _ => result_error
  | OpUpdateRoute _ _ => result_error
  | OpDeleteRoute _ => result_error
  | OpCreateHistory _ => result_error
  | OpGetHistory _ _ _ _ => result_error
  end.

(** Whether the method writes to a table. *)
Definition is_write {X} (op : StoreOp X) : bool :=
  match op with
  | OpCreateBackend _ | OpUpdateBackend _ _ | OpDeleteBackend _
  | OpCreateRoute _ | OpUpdateRoute _ _ | OpDeleteRoute _
  | OpCreateHistory _ => true
  | _ => false
  end.

(** ** Log lines *)

(** The two zap levels the handlers use. *)
Inductive Level : Type := ErrorLevel | WarnLevel.

(** [zap.Error(err)], [zap.String(k, v)], [zap.Uint64(k, n)]. *)
Inductive Field : Type :=
| zap_Error (err : error)
| zap_String (key val : string)
| zap_Uint64 (key : string) (n : N).

Record LogEntry : Type := mkLogEntry {
  log_level : Level;
  log_msg : string;
  log_fields : list Field;
}.

#[global] Instance Level_eq_dec : EqDecision Level.
Proof. solve_decision. Defined.

#[global] Instance Field_eq_dec : EqDecision Field.
Proof. solve_decision. Defined.

#[global] Instance LogEntry_eq_dec : EqDecision LogEntry.
Proof. solve_decision. Defined.

(** ** Programs *)

Inductive Prog (R : Type) : Type :=
| Ret (r : R)
| Call {X : Type} (op : StoreOp X) (k : X → Prog R)
| Log (e : LogEntry) (k : Prog R).
Arguments Ret {R} r.
Arguments Call {R X} op k.
Arguments Log {R} e k.

Fixpoint bind {A B} (p : Prog A) (f : A → Prog B) : Prog B :=
  match p with
  | Ret a => f a
  | Call op k => Call op (λ x, bind (k x) f)
  | Log e k => Log e (bind k f)
  end.

(** One call, returning its answer. *)
Definition call {X} (op : StoreOp X) : Prog X := Call op Ret.

Definition logger_Error (msg : string) (fields : list Field) : Prog unit :=
  Log (mkLogEntry ErrorLevel msg fields) (Ret tt).

Definition logger_Warn (msg : string) (fields : list Field) : Prog unit :=
  Log (mkLogEntry WarnLevel msg fields) (Ret tt).

Declare Scope prog_scope.
Delimit Scope prog_scope with prog.
Notation "x <- p ;; q" := (bind p (λ x, q))
  (at level 100, p at next level, right associativity) : prog_scope.
Notation "p ;;; q" := (bind p (λ _, q))
  (at level 100, right associativity) : prog_scope.

(** The run of a program: result, final store, log lines in order. *)
Fixpoint run {St} `{!Store St} {R} (p : Prog R) (s : St) : R * St * list LogEntry :=
  match p with
  | Ret r => (r, s, [])
  | Call op k => let '(x, s') := exec op s in run (k x) s'
  | Log e k => let '(r, s', l) := run k s in (r, s', e :: l)
  end.

Definition result_of {St} `{!Store St} {R} (p : Prog R) (s : St) : R := (run p s).1.1.
Definition store_after {St} `{!Store St} {R} (p : Prog R) (s : St) : St := (run p s).1.2.
Definition logs_of {St} `{!Store St} {R} (p : Prog R) (s : St) : list LogEntry := (run p s).2.

(** The number of store round trips a run makes. *)
Fixpoint round_trips {St} `{!Store St} {R} (p : Prog R) (s : St) : nat :=
  match p with
  | Ret _ => 0
  | Call op k => let '(x, s') := exec op s in S (round_trips (k x) s')
  | Log _ k => round_trips k s
  end.

(** One atomic step of a program: its first store call or log line;
    [None] when the program has returned. *)
Definition step {St} `{!Store St} {R} (p : Prog R) (s : St) : option (Prog R * St * list LogEntry) :=
  match p with
  | Ret _ => None
  | Call op k => let '(x, s') := exec op s in Some (k x, s', [])
  | Log e k => Some (k, s, [e])
  end.

(** Programs with the same runs on every store. *)
Definition prog_equiv {R} (p q : Prog R) : Prop :=
  ∀ St (HSt : Store St) (s : St), run p s = run q s.

Infix "≈ₚ" := prog_equiv (at level 70) : prog_scope.

#[global] Open Scope prog_scope.

(** ** Facts on programs *)

#[global] Instance prog_equiv_equivalence {R} : Equivalence (@prog_equiv R).
Proof.
  split.
  - by intros p St HSt s.
  - intros p q Hpq St HSt s. symmetry. apply Hpq.
  - intros p q r Hpq Hqr St HSt s. by rewrite Hpq.
Qed.

Section run.
Context {St} `{!Store St}.

Lemma run_bind {A B} (p : Prog A) (f : A → Prog B) (s : St) :
  run (bind p f) s =
  let '(a, s', l) := run p s in let '(b, s'', l') := run (f a) s' in (b, s'', l ++ l').
Proof.
  revert s; induction p as [a|X op k IH|e k IH]; intros s; simpl.
  - by destruct (run (f a) s) as [[??]?].
  - destruct (exec op s) as [x s']. apply IH.
  - rewrite IH. destruct (run k s) as [[a s'] l].
    by destruct (run (f a) s') as [[??]?].
Qed.

(** The three parts of a run that is known. *)
Lemma run_parts {R} (p : Prog R) (s s' : St) a l :
  run p s = (a, s', l) → result_of p s = a ∧ store_after p s = s' ∧ logs_of p s = l.
Proof. unfold result_of, store_after, logs_of. by intros ->. Qed.

(** The run of [bind p f], part by part. *)
Lemma result_of_bind {A B} (p : Prog A) (f : A → Prog B) (s : St) :
  result_of (bind p f) s = result_of (f (result_of p s)) (store_after p s).
Proof.
  unfold result_of, store_after. rewrite run_bind. destruct (run p s) as [[a s'] l].
  simpl. by destruct (run (f a) s') as [[??]?].
Qed.

Lemma store_after_bind {A B} (p : Prog A) (f : A → Prog B) (s : St) :
  store_after (bind p f) s = store_after (f (result_of p s)) (store_after p s).
Proof.
  unfold result_of, store_after. rewrite run_bind. destruct (run p s) as [[a s'] l].
  simpl. by destruct (run (f a) s') as [[??]?].
Qed.

Lemma logs_of_bind {A B} (p : Prog A) (f : A → Prog B) (s : St) :
  logs_of (bind p f) s = logs_of p s ++ logs_of (f (result_of p s)) (store_after p s).
Proof.
  unfold result_of, store_after, logs_of. rewrite run_bind.
  destruct (run p s) as [[a s'] l]. simpl. by destruct (run (f a) s') as [[??]?].
Qed.

Lemma run_call {X} (op : StoreOp X) (s : St) :
  run (call op) s = ((exec op s).1, (exec op s).2, []).
Proof. unfold call. simpl. by destruct (exec op s). Qed.

Lemma run_bind_call {X B} (op : StoreOp X) (f : X → Prog B) (s : St) :
  run (bind (call op) f) s = run (f (exec op s).1) (exec op s).2.
Proof. simpl. by destruct (exec op s). Qed.

Lemma run_bind_log {B} e (f : unit → Prog B) (s : St) :
  run (bind (Log e (Ret tt)) f) s =
  ((run (f tt) s).1.1, (run (f tt) s).1.2, e :: (run (f tt) s).2).
Proof. simpl. by destruct (run (f tt) s) as [[??]?]. Qed.

Lemma step_None {R} (p : Prog R) (s : St) :
  step p s = None ↔ ∃ r, p = Ret r.
Proof.
  split; [|by intros [r ->]].
  destruct p as [r|X op k|e k]; simpl; [by eauto| |done].
  by destruct (exec op s).
Qed.

(** Taking one step and running the rest is running the program. *)
Lemma run_step {R} (p p' : Prog R) (s s' : St) l :
  step p s = Some (p', s', l) →
  run p s = ((run p' s').1.1, (run p' s').1.2, l ++ (run p' s').2).
Proof.
  destruct p as [r|X op k|e k]; simpl; [done| |].
  - destruct (exec op s) as [x s1]. intros [= <- <- <-].
    by destruct (run (k x) s1) as [[??]?].
  - intros [= <- <- <-]. by destruct (run k s) as [[??]?].
Qed.

(** What every store call preserves, every run preserves. *)
Lemma run_invariant (I : St → Prop) {R} (p : Prog R) (s : St) :
  (∀ X (op : StoreOp X) s, I s → I (exec op s).2) → I s → I (store_after p s).
Proof.
  intros Hop. unfold store_after.
  revert s; induction p as [a|X op k IH|e k IH]; intros s Hs; simpl; [done| |].
  - specialize (Hop _ op s Hs). destruct (exec op s) as [x s']. by apply IH.
  - specialize (IH s Hs). by destruct (run k s) as [[??]?].
Qed.

(** A preorder every store call moves along relates the two ends of a run. *)
Lemma run_preorder (Rel : relation St) `{!PreOrder Rel} {R} (p : Prog R) (s : St) :
  (∀ X (op : StoreOp X) s, Rel s (exec op s).2) → Rel s (store_after p s).
Proof.
  intros Hop. apply (run_invariant (Rel s)); [|done].
  intros X op s' Hs'. by etrans.
Qed.

(** A program that makes no round trip leaves the store as it is. *)
Lemma round_trips_0 {R} (p : Prog R) (s : St) :
  round_trips p s = 0%nat → store_after p s = s.
Proof.
  unfold store_after. induction p as [a|X op k IH|e k IH]; simpl; [done| |].
  - by destruct (exec op s).
  - intros Hn. specialize (IH Hn). by destruct (run k s) as [[??]?].
Qed.

End run.

Lemma bind_ret_l {A B} (a : A) (f : A → Prog B) : bind (Ret a) f = f a.
Proof. done. Qed.

Lemma bind_ret_r {A} (p : Prog A) : bind p Ret ≈ₚ p.
Proof.
  intros St HSt s. rewrite run_bind. destruct (run p s) as [[a s'] l]. simpl.
  by rewrite app_nil_r.
Qed.

Lemma bind_assoc {A B C} (p : Prog A) (f : A → Prog B) (g : B → Prog C) :
  bind (bind p f) g ≈ₚ bind p (λ a, bind (f a) g).
Proof.
  intros St HSt s. rewrite !run_bind. destruct (run p s) as [[a s'] l].
  rewrite run_bind. destruct (run (f a) s') as [[b s''] l'].
  destruct (run (g b) s'') as [[c s3] l'']. by rewrite (assoc_L (++)).
Qed.

#[global] Instance bind_proper {A B} :
  Proper (prog_equiv ==> pointwise_relation A prog_equiv ==> prog_equiv) (@bind A B).
Proof.
  intros p q Hpq f g Hfg St HSt s. rewrite !run_bind, Hpq.
  destruct (run q s) as [[a s'] l]. by rewrite (Hfg a).
Qed.

#[global] Instance run_proper {St} `{!Store St} {R} :
  Proper (prog_equiv ==> eq ==> eq) (@run St _ R).
Proof. intros p q Hpq s ? <-. apply Hpq. Qed.

#[export] Hint Rewrite @run_bind_call @run_call : gw.
