(* ===== verification/StoreMySQL.v ===== *)
(** * MySQLStore: the Store over a relational database

    Module [MySQLStore] translates src/internal/config/mysql_store.go method
    by method.  The state [MySQLStore.t] is what the methods can observe of
    the database behind [s.db]:

      - the three tables, rows in insertion order, with the column types of
        the statements (TINYINT [enabled], nullable [description],
        nullable [config_id], [old_value], [new_value]);
      - the AUTO_INCREMENT counter of each table;
      - [now], the clock CURRENT_TIMESTAMP and [time.Now()] read;
      - [clientFoundRows], the DSN flag that decides what
        [RowsAffected] counts after an UPDATE (rows matched when set, rows
        changed when not -- the driver's default);
      - [unique_name], whether the schema declares a unique key on
        [backends.name] (the schema is not part of this repository);
      - [faults], the schedule of driver failures: each round trip to the
        database takes the head of the list, [Some msg] makes it fail with
        that message before it touches a row.

    [created_at] and [updated_at] are not written by the INSERT statements;
    the columns are taken to default to CURRENT_TIMESTAMP.

    A method is one step for the other connections, but [GetHistory] runs
    two statements: [count_history] and [select_history] are the two, and
    [GetHistory_with] is the method with what happens between them.

    The theorems give the representation invariant [wf] and its
    preservation by every method and by the passing of time, the
    behaviour of each method on each of its branches, and what a history
    query answers when an entry is recorded between its statements. *)

From S2P Require Import Prelude Json Entity Sql StoreApi.

#[local] Set Warnings "-clear-no-such-hyp".

Module MySQLStore.

#[local] Open Scope Z_scope.

(** ** Rows *)

Record backend_row : Type := mk_backend_row {
  bk_id : N;
  bk_name : string;
  bk_addr : string;
  bk_description : option string;
  bk_enabled : Z;
  bk_created_at : Z;
  bk_updated_at : Z;
}.

Record route_row : Type := mk_route_row {
  rt_id : N;
  rt_http_method : string;
  rt_http_pattern : string;
  rt_backend_name : string;
  rt_backend_service : string;
  rt_backend_method : string;
  rt_timeout_ms : Z;
  rt_description : option string;
  rt_enabled : Z;
  rt_created_at : Z;
  rt_updated_at : Z;
}.

Record history_row : Type := mk_history_row {
  ch_id : N;
  ch_config_type : string;
  ch_config_id : option N;
  ch_operation : string;
  ch_old_value : option json;
  ch_new_value : option json;
  ch_operator : string;
  ch_created_at : Z;
}.

#[global] Instance backend_row_eq_dec : EqDecision backend_row.
Proof. solve_decision. Defined.

#[global] Instance route_row_eq_dec : EqDecision route_row.
Proof. solve_decision. Defined.

#[global] Instance history_row_eq_dec : EqDecision history_row.
Proof. solve_decision. Defined.

(** ** The state behind the connection *)

Record t : Type := mk {
  backends : list backend_row;
  routes : list route_row;
  config_history : list history_row;
  backends_auto_increment : N;
  routes_auto_increment : N;
  config_history_auto_increment : N;
  now : Z;
  clientFoundRows : bool;
  unique_name : bool;
  faults : list (option error);
}.

#[global] Instance t_eq_dec : EqDecision t.
Proof. solve_decision. Defined.

Definition with_backends (v : list backend_row) (s : t) : t :=
  mk v (routes s) (config_history s) (backends_auto_increment s)
    (routes_auto_increment s) (config_history_auto_increment s) (now s)
    (clientFoundRows s) (unique_name s) (faults s).

Definition with_routes (v : list route_row) (s : t) : t :=
  mk (backends s) v (config_history s) (backends_auto_increment s)
    (routes_auto_increment s) (config_history_auto_increment s) (now s)
    (clientFoundRows s) (unique_name s) (faults s).

Definition with_config_history (v : list history_row) (s : t) : t :=
  mk (backends s) (routes s) v (backends_auto_increment s)
    (routes_auto_increment s) (config_history_auto_increment s) (now s)
    (clientFoundRows s) (unique_name s) (faults s).

Definition with_backends_auto_increment (v : N) (s : t) : t :=
  mk (backends s) (routes s) (config_history s) v
    (routes_auto_increment s) (config_history_auto_increment s) (now s)
    (clientFoundRows s) (unique_name s) (faults s).

Definition with_routes_auto_increment (v : N) (s : t) : t :=
  mk (backends s) (routes s) (config_history s) (backends_auto_increment s)
    v (config_history_auto_increment s) (now s)
    (clientFoundRows s) (unique_name s) (faults s).

Definition with_config_history_auto_increment (v : N) (s : t) : t :=
  mk (backends s) (routes s) (config_history s) (backends_auto_increment s)
    (routes_auto_increment s) v (now s)
    (clientFoundRows s) (unique_name s) (faults s).

Definition with_now (v : Z) (s : t) : t :=
  mk (backends s) (routes s) (config_history s) (backends_auto_increment s)
    (routes_auto_increment s) (config_history_auto_increment s) v
    (clientFoundRows s) (unique_name s) (faults s).

Definition with_faults (v : list (option error)) (s : t) : t :=
  mk (backends s) (routes s) (config_history s) (backends_auto_increment s)
    (routes_auto_increment s) (config_history_auto_increment s) (now s)
    (clientFoundRows s) (unique_name s) v.

(** A fresh database: empty tables, counters at 1. *)
Definition empty (clock : Z) (cfr uniq : bool) (fs : list (option error)) : t :=
  mk [] [] [] 1 1 1 clock cfr uniq fs.

(** The passing of [d] seconds. *)
Definition tick (d : Z) (s : t) : t := with_now (now s + Z.max 0 d) s.

(** One round trip of [s.db.Query], [s.db.QueryRow] or [s.db.Exec]: the
    driver error scheduled for it, if any. *)
Definition round_trip (s : t) : option error * t :=
  match faults s with
  | [] => (None, s)
  | f :: fs => (f, with_faults fs s)
  end.

(** The error the next round trip meets, and the state once it is consumed. *)
Definition next_fault (s : t) : option error := default None (head (faults s)).
Definition skip_fault (s : t) : t := with_faults (tail (faults s)) s.

(** States that hold the same data: equal up to the failure schedule. *)
Definition same_data (s s' : t) : Prop := with_faults [] s = with_faults [] s'.

#[global] Instance same_data_dec : RelDecision same_data.
Proof. intros s s'. unfold same_data. apply _. Defined.

(** ** Conversions between columns and struct fields *)

(** [enabledInt := 0; if x.Enabled { enabledInt = 1 }] *)
Definition enabledInt (b : bool) : Z := if b then 1 else 0.

(** [rows.Scan] into a [Backend], with the two conversions after it. *)
Definition scan_backend (r : backend_row) : Backend :=
  mkBackend (bk_id r) (bk_name r) (bk_addr r)
    (default "" (bk_description r))
    (bool_decide (bk_enabled r = 1))
    (bk_created_at r) (bk_updated_at r).

Definition scan_route (r : route_row) : Route :=
  mkRoute (rt_id r) (rt_http_method r) (rt_http_pattern r) (rt_backend_name r)
    (rt_backend_service r) (rt_backend_method r) (rt_timeout_ms r)
    (default "" (rt_description r))
    (bool_decide (rt_enabled r = 1))
    (rt_created_at r) (rt_updated_at r).

Definition scan_history (r : history_row) : ConfigHistory :=
  mkConfigHistory (ch_id r) (ch_config_type r) (ch_config_id r) (ch_operation r)
    (ch_old_value r) (ch_new_value r) (ch_operator r) (ch_created_at r).

(** [WHERE enabled = ?] when the filter is given, every row otherwise. *)
Definition enabled_is (enabled : option bool) (col : Z) : Prop :=
  match enabled with
  | Some b => col = enabledInt b
  | None => True
  end.

#[global] Instance enabled_is_dec enabled col : Decision (enabled_is enabled col).
Proof. destruct enabled; simpl; apply _. Defined.

(** ** Backend methods *)

Definition GetBackends (enabled : option bool) (s : t) : Result (list Backend) * t :=
  let '(err, s) := round_trip s in
  match err with
  | Some e => (Err e, s)
  | None =>
      let rows :=
        order_by (by_key String.le bk_name)
          (sql_where (λ r, enabled_is enabled (bk_enabled r)) (backends s)) in
      (Ok (scan_backend <$> rows), s)
  end.

Definition GetBackendByName (name : string) (s : t) : Result (option Backend) * t :=
  let '(err, s) := round_trip s in
  match err with
  | Some e => (Err e, s)
  | None => (Ok (scan_backend <$> sql_first (λ r, bk_name r = name) (backends s)), s)
  end.

(** The row [INSERT INTO backends (name, addr, description, enabled)] adds. *)
Definition new_backend_row (backend : Backend) (s : t) : backend_row :=
  mk_backend_row (backends_auto_increment s) (Backend_Name backend)
    (Backend_Addr backend) (Some (Backend_Description backend))
    (enabledInt (Backend_Enabled backend)) (now s) (now s).

Definition duplicate_entry : error := "Error 1062 (23000): Duplicate entry".

Definition CreateBackend (backend : Backend) (s : t) : Result Backend * t :=
  let '(err, s) := round_trip s in
  match err with
  | Some e => (Err e, s)
  | None =>
      if unique_name s &&
         bool_decide (is_Some (sql_first (λ r, bk_name r = Backend_Name backend) (backends s)))
      then (Err duplicate_entry, s)
      else
        let id := backends_auto_increment s in
        let s' := with_backends_auto_increment (id + 1)%N
                    (with_backends (sql_insert (new_backend_row backend s) (backends s)) s) in
        (Ok (Backend_with_UpdatedAt (now s)
               (Backend_with_CreatedAt (now s) (Backend_with_ID id backend))), s')
  end.

(** [SET addr = ?, description = ?, enabled = ?, updated_at = CURRENT_TIMESTAMP] *)
Definition set_backend (backend : Backend) (ts : Z) (r : backend_row) : backend_row :=
  mk_backend_row (bk_id r) (bk_name r) (Backend_Addr backend)
    (Some (Backend_Description backend)) (enabledInt (Backend_Enabled backend))
    (bk_created_at r) ts.

Definition UpdateBackend (name : string) (backend : Backend) (s : t) : Result Backend * t :=
  let '(err, s) := round_trip s in
  match err with
  | Some e => (Err e, s)
  | None =>
      let P := λ r, bk_name r = name in
      let f := set_backend backend (now s) in
      let rowsAffected := rows_affected (clientFoundRows s) P f (backends s) in
      let s' := with_backends (sql_update P f (backends s)) s in
      if decide (rowsAffected = 0%nat) then (Err "backend not found", s')
      else (Ok (Backend_with_UpdatedAt (now s) (Backend_with_Name name backend)), s')
  end.

(** [SET enabled = 0, updated_at = CURRENT_TIMESTAMP] *)
Definition disable_backend (ts : Z) (r : backend_row) : backend_row :=
  mk_backend_row (bk_id r) (bk_name r) (bk_addr r) (bk_description r) 0
    (bk_created_at r) ts.

Definition DeleteBackend (name : string) (s : t) : Result unit * t :=
  let '(err, s) := round_trip s in
  match err with
  | Some e => (Err e, s)
  | None =>
      let P := λ r, bk_name r = name in
      let f := disable_backend (now s) in
      let rowsAffected := rows_affected (clientFoundRows s) P f (backends s) in
      let s' := with_backends (sql_update P f (backends s)) s in
      if decide (rowsAffected = 0%nat) then (Err "backend not found", s')
      else (Ok tt, s')
  end.

(** ** Route methods *)

Definition GetRoutes (enabled : option bool) (s : t) : Result (list Route) * t :=
  let '(err, s) := round_trip s in
  match err with
  | Some e => (Err e, s)
  | None =>
      let rows :=
        order_by (by_key lex_le (λ r, (rt_http_method r, rt_http_pattern r)))
          (sql_where (λ r, enabled_is enabled (rt_enabled r)) (routes s)) in
      (Ok (scan_route <$> rows), s)
  end.

Definition GetRouteByID (id : N) (s : t) : Result (option Route) * t :=
  let '(err, s) := round_trip s in
  match err with
  | Some e => (Err e, s)
  | None => (Ok (scan_route <$> sql_first (λ r, rt_id r = id) (routes s)), s)
  end.

Definition new_route_row (route : Route) (s : t) : route_row :=
  mk_route_row (routes_auto_increment s) (Route_HTTPMethod route)
    (Route_HTTPPattern route) (Route_BackendName route) (Route_BackendService route)
    (Route_BackendMethod route) (Route_TimeoutMS route)
    (Some (Route_Description route)) (enabledInt (Route_Enabled route))
    (now s) (now s).

Definition CreateRoute (route : Route) (s : t) : Result Route * t :=
  let '(err, s) := round_trip s in
  match err with
  | Some e => (Err e, s)
  | None =>
      let id := routes_auto_increment s in
      let s' := with_routes_auto_increment (id + 1)%N
                  (with_routes (sql_insert (new_route_row route s) (routes s)) s) in
      (Ok (Route_with_UpdatedAt (now s)
             (Route_with_CreatedAt (now s) (Route_with_ID id route))), s')
  end.

Definition set_route (route : Route) (ts : Z) (r : route_row) : route_row :=
  mk_route_row (rt_id r) (Route_HTTPMethod route)
    (Route_HTTPPattern route) (Route_BackendName route) (Route_BackendService route)
    (Route_BackendMethod route) (Route_TimeoutMS route)
    (Some (Route_Description route)) (enabledInt (Route_Enabled route))
    (rt_created_at r) ts.

Definition UpdateRoute (id : N) (route : Route) (s : t) : Result Route * t :=
  let '(err, s) := round_trip s in
  match err with
  | Some e => (Err e, s)
  | None =>
      let P := λ r, rt_id r = id in
      let f := set_route route (now s) in
      let rowsAffected := rows_affected (clientFoundRows s) P f (routes s) in
      let s' := with_routes (sql_update P f (routes s)) s in
      if decide (rowsAffected = 0%nat) then (Err "route not found", s')
      else (Ok (Route_with_UpdatedAt (now s) (Route_with_ID id route)), s')
  end.

Definition disable_route (ts : Z) (r : route_row) : route_row :=
  mk_route_row (rt_id r) (rt_http_method r) (rt_http_pattern r) (rt_backend_name r)
    (rt_backend_service r) (rt_backend_method r) (rt_timeout_ms r)
    (rt_description r) 0 (rt_created_at r) ts.

Definition DeleteRoute (id : N) (s : t) : Result unit * t :=
  let '(err, s) := round_trip s in
  match err with
  | Some e => (Err e, s)
  | None =>
      let P := λ r, rt_id r = id in
      let f := disable_route (now s) in
      let rowsAffected := rows_affected (clientFoundRows s) P f (routes s) in
      let s' := with_routes (sql_update P f (routes s)) s in
      if decide (rowsAffected = 0%nat) then (Err "route not found", s')
      else (Ok tt, s')
  end.

(** ** History methods *)

Definition new_history_row (history : ConfigHistory) (s : t) : history_row :=
  mk_history_row (config_history_auto_increment s)
    (ConfigHistory_ConfigType history) (ConfigHistory_ConfigID history)
    (ConfigHistory_Operation history) (ConfigHistory_OldValue history)
    (ConfigHistory_NewValue history) (ConfigHistory_Operator history) (now s).

Definition CreateHistory (history : ConfigHistory) (s : t) : Result unit * t :=
  let '(err, s) := round_trip s in
  match err with
  | Some e => (Err e, s)
  | None =>
      let id := config_history_auto_increment s in
      (Ok tt,
       with_config_history_auto_increment (id + 1)%N
         (with_config_history
            (sql_insert (new_history_row history s) (config_history s)) s))
  end.

(** [where := "1=1"], then [" AND config_type = ?"] and [" AND config_id = ?"]
    for the filters that are given. *)
Definition history_where (configType : option string) (configID : option N)
    (r : history_row) : Prop :=
  match configType with Some ty => ch_config_type r = ty | None => True end ∧
  match configID with Some id => ch_config_id r = Some id | None => True end.

#[global] Instance history_where_dec ty id r : Decision (history_where ty id r).
Proof. unfold history_where. destruct ty, id; apply _. Defined.

Definition GetHistory (configType : option string) (configID : option N)
    (limit offset : Z) (s : t) : Result (list ConfigHistory * Z) * t :=
  let '(err, s) := round_trip s in
  match err with
  | Some e => (Err e, s)
  | None =>
      let total := sql_count (history_where configType configID) (config_history s) in
      let '(err, s) := round_trip s in
      match err with
      | Some e => (Err e, s)
      | None =>
          let rows :=
            limit_offset limit offset
              (order_by (by_key (flip Z.le) ch_created_at)
                 (sql_where (history_where configType configID) (config_history s))) in
          (Ok (scan_history <$> rows, total), s)
      end
  end.

(** The two statements of [GetHistory], each a round trip of its own: the
    count of the entries that match, and the page. *)
Definition count_history (configType : option string) (configID : option N)
    (s : t) : Result Z * t :=
  let '(err, s) := round_trip s in
  match err with
  | Some e => (Err e, s)
  | None => (Ok (sql_count (history_where configType configID) (config_history s)), s)
  end.

Definition select_history (configType : option string) (configID : option N)
    (limit offset : Z) (s : t) : Result (list ConfigHistory) * t :=
  let '(err, s) := round_trip s in
  match err with
  | Some e => (Err e, s)
  | None =>
      let rows :=
        limit_offset limit offset
          (order_by (by_key (flip Z.le) ch_created_at)
             (sql_where (history_where configType configID) (config_history s))) in
      (Ok (scan_history <$> rows), s)
  end.

(** [GetHistory] with what other connections do to the database between
    its two statements. *)
Definition GetHistory_with (between : t → t) (configType : option string)
    (configID : option N) (limit offset : Z) (s : t) : Result (list ConfigHistory * Z) * t :=
  let '(total, s) := count_history configType configID s in
  match total with
  | Err e => (Err e, s)
  | Ok total =>
      let '(rows, s) := select_history configType configID limit offset (between s) in
      match rows with
      | Err e => (Err e, s)
      | Ok rows => (Ok (rows, total), s)
      end
  end.

(** ** The representation invariant *)

Definition backend_row_ok (next : N) (clock : Z) (r : backend_row) : Prop :=
  (0 < bk_id r < next)%N ∧ (bk_enabled r = 0 ∨ bk_enabled r = 1) ∧
  is_Some (bk_description r) ∧ bk_created_at r ≤ bk_updated_at r ≤ clock.

Definition route_row_ok (next : N) (clock : Z) (r : route_row) : Prop :=
  (0 < rt_id r < next)%N ∧ (rt_enabled r = 0 ∨ rt_enabled r = 1) ∧
  is_Some (rt_description r) ∧ rt_created_at r ≤ rt_updated_at r ≤ clock.

Definition history_row_ok (next : N) (clock : Z) (r : history_row) : Prop :=
  (0 < ch_id r < next)%N ∧ ch_created_at r ≤ clock.

(** Ids are positive, below the table's counter and pairwise distinct;
    [enabled] is 0 or 1; [description] is not NULL; no timestamp is in the
    future; backend names are distinct when the schema says so; history ids
    and history timestamps increase in insertion order. *)
Definition backends_ok (s : t) : Prop :=
  (0 < backends_auto_increment s)%N ∧
  Forall (backend_row_ok (backends_auto_increment s) (now s)) (backends s) ∧
  NoDup (bk_id <$> backends s) ∧
  (unique_name s = true → NoDup (bk_name <$> backends s)).

Definition routes_ok (s : t) : Prop :=
  (0 < routes_auto_increment s)%N ∧
  Forall (route_row_ok (routes_auto_increment s) (now s)) (routes s) ∧
  NoDup (rt_id <$> routes s).

Definition history_ok (s : t) : Prop :=
  (0 < config_history_auto_increment s)%N ∧
  Forall (history_row_ok (config_history_auto_increment s) (now s)) (config_history s) ∧
  Sorted N.lt (ch_id <$> config_history s) ∧
  Sorted Z.le (ch_created_at <$> config_history s).

Definition wf (s : t) : Prop := backends_ok s ∧ routes_ok s ∧ history_ok s.

#[global] Instance wf_dec s : Decision (wf s).
Proof.
  unfold wf, backends_ok, routes_ok, history_ok,
    backend_row_ok, route_row_ok, history_row_ok. apply _.
Defined.

(** ** What the tables hold, as the interface shows it *)

(** The backend a lookup by name finds, and the route a lookup by id finds. *)
Definition backend_by_name (name : string) (s : t) : option Backend :=
  scan_backend <$> sql_first (λ r, bk_name r = name) (backends s).

Definition route_by_id (id : N) (s : t) : option Route :=
  scan_route <$> sql_first (λ r, rt_id r = id) (routes s).

(** The audit trail, oldest entry first. *)
Definition history (s : t) : list ConfigHistory := scan_history <$> config_history s.

(** The struct [CreateBackend] leaves in its argument, and the one
    [UpdateBackend] leaves. *)
Definition created_backend (backend : Backend) (s : t) : Backend :=
  Backend_with_UpdatedAt (now s)
    (Backend_with_CreatedAt (now s)
       (Backend_with_ID (backends_auto_increment s) backend)).

Definition updated_backend (name : string) (backend : Backend) (s : t) : Backend :=
  Backend_with_UpdatedAt (now s) (Backend_with_Name name backend).

(** The struct [CreateRoute] leaves in its argument, and the one [UpdateRoute]
    leaves. *)
Definition created_route (route : Route) (s : t) : Route :=
  Route_with_UpdatedAt (now s)
    (Route_with_CreatedAt (now s) (Route_with_ID (routes_auto_increment s) route)).

Definition updated_route (id : N) (route : Route) (s : t) : Route :=
  Route_with_UpdatedAt (now s) (Route_with_ID id route).

(** The identity of the rows of a table: what no statement may change. *)
Definition backend_identities (s : t) : list (N * string * Z) :=
  (λ r, (bk_id r, bk_name r, bk_created_at r)) <$> backends s.

Definition route_identities (s : t) : list (N * Z) :=
  (λ r, (rt_id r, rt_created_at r)) <$> routes s.

(** The methods that write to each table. *)
Definition writes_backends {X} (op : StoreOp X) : bool :=
  match op with
  | OpCreateBackend _ | OpUpdateBackend _ _ | OpDeleteBackend _ => true
  | _ => false
  end.

Definition writes_routes {X} (op : StoreOp X) : bool :=
  match op with
  | OpCreateRoute _ | OpUpdateRoute _ _ | OpDeleteRoute _ => true
  | _ => false
  end.

Definition writes_history {X} (op : StoreOp X) : bool :=
  match op with
  | OpCreateHistory _ => true
  | _ => false
  end.

(** A later state of the same database: every row is still there with its
    identity, the audit trail has only grown, no counter has gone back. *)
Definition extends (s s' : t) : Prop :=
  backend_identities s `prefix_of` backend_identities s' ∧
  route_identities s `prefix_of` route_identities s' ∧
  history s `prefix_of` history s' ∧
  (backends_auto_increment s ≤ backends_auto_increment s')%N ∧
  (routes_auto_increment s ≤ routes_auto_increment s')%N ∧
  (config_history_auto_increment s ≤ config_history_auto_increment s')%N.

(** The filters, as they read on the structs the interface returns. *)
Definition enabled_matches (enabled : option bool) (b : bool) : Prop :=
  match enabled with Some e => b = e | None => True end.

#[global] Instance enabled_matches_dec enabled b : Decision (enabled_matches enabled b).
Proof. destruct enabled; simpl; apply _. Defined.

Definition history_matches (configType : option string) (configID : option N)
    (h : ConfigHistory) : Prop :=
  match configType with Some ty => ConfigHistory_ConfigType h = ty | None => True end ∧
  match configID with Some id => ConfigHistory_ConfigID h = Some id | None => True end.

#[global] Instance history_matches_dec ty id h : Decision (history_matches ty id h).
Proof. unfold history_matches. destruct ty, id; apply _. Defined.

(** The names in the backends table, in insertion order, and the name a
    call adds to them. *)
Definition backend_names (s : t) : list string := bk_name <$> backends s.

Definition created_name {X} (op : StoreOp X) : X → list string :=
  match op in StoreOp X return X → list string with
  | OpCreateBackend backend => λ res, if res is Ok _ then [Backend_Name backend] else []
  | _ => λ _, []
  end.

(** The entry [CreateHistory] stores for [h]: id and time are the
    database's. *)
Definition stored_history (h : ConfigHistory) (s : t) : ConfigHistory :=
  mkConfigHistory (config_history_auto_increment s)
    (ConfigHistory_ConfigType h) (ConfigHistory_ConfigID h)
    (ConfigHistory_Operation h) (ConfigHistory_OldValue h)
    (ConfigHistory_NewValue h) (ConfigHistory_Operator h) (now s).

(** ** An example *)

(** A database with two backends, one disabled, and three audit entries. *)
Definition example_db : t :=
  mk [mk_backend_row 1 "user" "127.0.0.1:50052" (Some "") 1 1000 1000;
      mk_backend_row 2 "account" "127.0.0.1:50051" (Some "login") 0 1001 1002]
     [] 
     [mk_history_row 1 "backend" (Some 1%N) "CREATE" None None "alice" 1000;
      mk_history_row 2 "backend" (Some 2%N) "CREATE" None None "" 1001;
      mk_history_row 3 "backend" (Some 2%N) "DELETE" None None "bob" 1002]
     3 1 4 1002 false true [].

#[global] Instance store : Store t := {|
  StoreApi.GetBackends := GetBackends;
  StoreApi.GetBackendByName := GetBackendByName;
  StoreApi.CreateBackend := CreateBackend;
  StoreApi.UpdateBackend := UpdateBackend;
  StoreApi.DeleteBackend := DeleteBackend;
  StoreApi.GetRoutes := GetRoutes;
  StoreApi.GetRouteByID := GetRouteByID;
  StoreApi.CreateRoute := CreateRoute;
  StoreApi.UpdateRoute := UpdateRoute;
  StoreApi.DeleteRoute := DeleteRoute;
  StoreApi.CreateHistory := CreateHistory;
  StoreApi.GetHistory := GetHistory;
|}.

Arguments round_trip : simpl never.

(** ** The failure schedule *)

Lemma round_trip_spec s : round_trip s = (next_fault s, skip_fault s).
Proof. unfold round_trip, next_fault, skip_fault. by destruct s as [????????? [|??]]. Qed.

#[global] Instance same_data_equiv : Equivalence same_data.
Proof. unfold same_data. split; [done|by intros ??|by intros ??? ->]. Qed.

Lemma same_data_skip_fault s : same_data (skip_fault s) s.
Proof. done. Qed.

Lemma same_data_fields s s' :
  same_data s s' ↔
  backends s = backends s' ∧ routes s = routes s' ∧
  config_history s = config_history s' ∧
  backends_auto_increment s = backends_auto_increment s' ∧
  routes_auto_increment s = routes_auto_increment s' ∧
  config_history_auto_increment s = config_history_auto_increment s' ∧
  now s = now s' ∧ clientFoundRows s = clientFoundRows s' ∧
  unique_name s = unique_name s'.
Proof.
  unfold same_data. destruct s, s'; simpl. split; [by intros [=]|].
  intros (?&?&?&?&?&?&?&?&?). by simplify_eq.
Qed.

#[global] Instance wf_proper : Proper (same_data ==> iff) wf.
Proof.
  intros s s' (Hb&Hr&Hh&Hbi&Hri&Hhi&Hn&_&Hu)%same_data_fields.
  unfold wf, backends_ok, routes_ok, history_ok.
  by rewrite Hb, Hr, Hh, Hbi, Hri, Hhi, Hn, Hu.
Qed.

(** ** Rows stay well-formed *)

Lemma backend_row_ok_mono next next' clock clock' r :
  (next ≤ next')%N → clock ≤ clock' →
  backend_row_ok next clock r → backend_row_ok next' clock' r.
Proof. unfold backend_row_ok. intros ?? (?&?&?&?). repeat split; (done || lia). Qed.

Lemma route_row_ok_mono next next' clock clock' r :
  (next ≤ next')%N → clock ≤ clock' →
  route_row_ok next clock r → route_row_ok next' clock' r.
Proof. unfold route_row_ok. intros ?? (?&?&?&?). repeat split; (done || lia). Qed.

Lemma history_row_ok_mono next next' clock clock' r :
  (next ≤ next')%N → clock ≤ clock' →
  history_row_ok next clock r → history_row_ok next' clock' r.
Proof. unfold history_row_ok. intros ?? (?&?). split; lia. Qed.

Lemma enabledInt_01 b : enabledInt b = 0 ∨ enabledInt b = 1.
Proof. destruct b; auto. Qed.

Lemma set_backend_ok backend next clock r :
  backend_row_ok next clock r → backend_row_ok next clock (set_backend backend clock r).
Proof.
  unfold backend_row_ok. intros (?&?&?&?). simpl.
  repeat split; try lia; eauto using enabledInt_01.
Qed.

Lemma disable_backend_ok next clock r :
  backend_row_ok next clock r → backend_row_ok next clock (disable_backend clock r).
Proof. unfold backend_row_ok. intros (?&?&?&?). simpl. repeat split; try lia; auto. Qed.

Lemma new_backend_row_ok backend s :
  (0 < backends_auto_increment s)%N →
  backend_row_ok (backends_auto_increment s + 1) (now s) (new_backend_row backend s).
Proof.
  unfold backend_row_ok. simpl. intros. repeat split; try lia; eauto using enabledInt_01.
Qed.

Lemma new_route_row_ok route s :
  (0 < routes_auto_increment s)%N →
  route_row_ok (routes_auto_increment s + 1) (now s) (new_route_row route s).
Proof.
  unfold route_row_ok. simpl. intros. repeat split; try lia; eauto using enabledInt_01.
Qed.

Lemma set_route_ok route next clock r :
  route_row_ok next clock r → route_row_ok next clock (set_route route clock r).
Proof.
  unfold route_row_ok. intros (?&?&?&?). simpl.
  repeat split; try lia; eauto using enabledInt_01.
Qed.

Lemma disable_route_ok next clock r :
  route_row_ok next clock r → route_row_ok next clock (disable_route clock r).
Proof. unfold route_row_ok. intros (?&?&?&?). simpl. repeat split; try lia; auto. Qed.

(** ** The invariant is kept *)

Lemma backends_ok_update s P `{!∀ r, Decision (P r)} f :
  (∀ r, backend_row_ok (backends_auto_increment s) (now s) r →
        backend_row_ok (backends_auto_increment s) (now s) (f r)) →
  (∀ r, bk_id (f r) = bk_id r) → (∀ r, bk_name (f r) = bk_name r) →
  backends_ok s → backends_ok (with_backends (sql_update P f (backends s)) s).
Proof.
  intros Hok Hid Hname (Hpos & Hrows & Hids & Hnames). unfold backends_ok. simpl.
  rewrite !sql_update_column by done.
  split_and!; [done| |done|done]. apply Forall_sql_update; auto.
Qed.

Lemma backends_ok_insert s backend :
  (unique_name s = true →
   sql_first (λ r, bk_name r = Backend_Name backend) (backends s) = None) →
  backends_ok s →
  backends_ok (with_backends_auto_increment (backends_auto_increment s + 1)
                 (with_backends (sql_insert (new_backend_row backend s) (backends s)) s)).
Proof.
  intros Hfresh (Hpos & Hrows & Hids & Hnames). unfold backends_ok, sql_insert. simpl.
  rewrite !fmap_app. simpl. split_and!.
  - lia.
  - apply Forall_sql_insert; [|by apply new_backend_row_ok].
    eapply Forall_impl; [done|]. intros r. apply backend_row_ok_mono; lia.
  - apply NoDup_app. split_and!; [done| |apply NoDup_singleton].
    intros i [r [-> Hr]]%list_elem_of_fmap Hi%list_elem_of_singleton.
    rewrite Forall_forall in Hrows. destruct (Hrows r Hr) as [? _]. lia.
  - intros Hu. apply NoDup_app. split_and!; [auto| |apply NoDup_singleton].
    intros n [r [-> Hr]]%list_elem_of_fmap Hn%list_elem_of_singleton.
    eapply sql_first_None; eauto.
Qed.

Lemma routes_ok_update s P `{!∀ r, Decision (P r)} f :
  (∀ r, route_row_ok (routes_auto_increment s) (now s) r →
        route_row_ok (routes_auto_increment s) (now s) (f r)) →
  (∀ r, rt_id (f r) = rt_id r) →
  routes_ok s → routes_ok (with_routes (sql_update P f (routes s)) s).
Proof.
  intros Hok Hid (Hpos & Hrows & Hids). unfold routes_ok. simpl.
  rewrite !sql_update_column by done.
  split_and!; [done| |done]. apply Forall_sql_update; auto.
Qed.

Lemma routes_ok_insert s route :
  routes_ok s →
  routes_ok (with_routes_auto_increment (routes_auto_increment s + 1)
               (with_routes (sql_insert (new_route_row route s) (routes s)) s)).
Proof.
  intros (Hpos & Hrows & Hids). unfold routes_ok, sql_insert. simpl.
  rewrite !fmap_app. simpl. split_and!.
  - lia.
  - apply Forall_sql_insert; [|by apply new_route_row_ok].
    eapply Forall_impl; [done|]. intros r. apply route_row_ok_mono; lia.
  - apply NoDup_app. split_and!; [done| |apply NoDup_singleton].
    intros i [r [-> Hr]]%list_elem_of_fmap Hi%list_elem_of_singleton.
    rewrite Forall_forall in Hrows. destruct (Hrows r Hr) as [? _]. lia.
Qed.

Lemma history_ok_insert s history :
  history_ok s →
  history_ok (with_config_history_auto_increment (config_history_auto_increment s + 1)
                (with_config_history
                   (sql_insert (new_history_row history s) (config_history s)) s)).
Proof.
  intros (Hpos & Hrows & Hids & Hts). unfold history_ok, sql_insert. simpl.
  rewrite !fmap_app. simpl. split_and!.
  - lia.
  - apply Forall_sql_insert; [|unfold history_row_ok; simpl; lia].
    eapply Forall_impl; [done|]. intros r. apply history_row_ok_mono; lia.
  - apply Sorted_snoc_Forall; [done|]. rewrite Forall_fmap.
    eapply Forall_impl; [done|]. intros r [? _]. simpl. lia.
  - apply Sorted_snoc_Forall; [done|]. rewrite Forall_fmap.
    eapply Forall_impl; [done|]. by intros r [_ ?].
Qed.

Lemma wf_skip_fault s : wf (skip_fault s) ↔ wf s.
Proof. done. Qed.

(** Unfold a method up to its first round trip and split on the driver error. *)
Ltac method_cases s :=
  rewrite ?round_trip_spec;
  let e := fresh "e" in
  let Hf := fresh "Hfault" in
  destruct (next_fault s) as [e|] eqn:Hf; simpl.

Lemma wf_CreateBackend backend s : wf s → wf (CreateBackend backend s).2.
Proof.
  intros (Hb & Hr & Hh). unfold CreateBackend. method_cases s; [done|].
  destruct (unique_name s) eqn:Hu; simpl; [case_bool_decide as Hex; simpl; [done|]|];
    (split_and!; [|done..]); apply (backends_ok_insert (skip_fault s)); try done; simpl.
  - intros _. by apply eq_None_not_Some.
  - by rewrite Hu.
Qed.

Lemma wf_UpdateBackend name backend s : wf s → wf (UpdateBackend name backend s).2.
Proof.
  intros (Hb & Hr & Hh). unfold UpdateBackend. method_cases s; [done|].
  assert (wf (with_backends
                (sql_update (λ r, bk_name r = name) (set_backend backend (now s))
                   (backends s)) (skip_fault s))); [|by case_decide].
  split_and!; [|done..].
  apply (backends_ok_update (skip_fault s)); auto using set_backend_ok.
Qed.

Lemma wf_DeleteBackend name s : wf s → wf (DeleteBackend name s).2.
Proof.
  intros (Hb & Hr & Hh). unfold DeleteBackend. method_cases s; [done|].
  assert (wf (with_backends
                (sql_update (λ r, bk_name r = name) (disable_backend (now s))
                   (backends s)) (skip_fault s))); [|by case_decide].
  split_and!; [|done..].
  apply (backends_ok_update (skip_fault s)); auto using disable_backend_ok.
Qed.

Lemma wf_CreateRoute route s : wf s → wf (CreateRoute route s).2.
Proof.
  intros (Hb & Hr & Hh). unfold CreateRoute. method_cases s; [done|].
  split_and!; [done| |done]. by apply (routes_ok_insert (skip_fault s)).
Qed.

Lemma wf_UpdateRoute id route s : wf s → wf (UpdateRoute id route s).2.
Proof.
  intros (Hb & Hr & Hh). unfold UpdateRoute. method_cases s; [done|].
  assert (wf (with_routes
                (sql_update (λ r, rt_id r = id) (set_route route (now s))
                   (routes s)) (skip_fault s))); [|by case_decide].
  split_and!; [done| |done].
  apply (routes_ok_update (skip_fault s)); auto using set_route_ok.
Qed.

Lemma wf_DeleteRoute id s : wf s → wf (DeleteRoute id s).2.
Proof.
  intros (Hb & Hr & Hh). unfold DeleteRoute. method_cases s; [done|].
  assert (wf (with_routes
                (sql_update (λ r, rt_id r = id) (disable_route (now s))
                   (routes s)) (skip_fault s))); [|by case_decide].
  split_and!; [done| |done].
  apply (routes_ok_update (skip_fault s)); auto using disable_route_ok.
Qed.

Lemma wf_CreateHistory history s : wf s → wf (CreateHistory history s).2.
Proof.
  intros (Hb & Hr & Hh). unfold CreateHistory. method_cases s; [done|].
  split_and!; [done..|]. by apply (history_ok_insert (skip_fault s)).
Qed.

Lemma GetHistory_state ty id limit offset s :
  same_data (GetHistory ty id limit offset s).2 s.
Proof.
  unfold GetHistory. method_cases s; [done|].
  by destruct (next_fault (skip_fault s)).
Qed.

(** Every method of the store keeps the representation invariant. *)
Lemma wf_exec {X} (op : StoreOp X) (s : t) : wf s → wf (exec op s).2.
Proof.
  intros Hwf. destruct op; simpl;
    auto using wf_CreateBackend, wf_UpdateBackend, wf_DeleteBackend,
      wf_CreateRoute, wf_UpdateRoute, wf_DeleteRoute, wf_CreateHistory.
  1-4: unfold GetBackends, GetBackendByName, GetRoutes, GetRouteByID;
       by method_cases s.
  by rewrite GetHistory_state.
Qed.

Lemma wf_tick d s : wf s → wf (tick d s).
Proof.
  intros ((?&Hb&?&?) & (?&Hr&?) & (?&Hh&?&?)).
  unfold tick, wf, backends_ok, routes_ok, history_ok. simpl.
  split_and!; try done.
  - eapply Forall_impl; [done|]. intros r. apply backend_row_ok_mono; lia.
  - eapply Forall_impl; [done|]. intros r. apply route_row_ok_mono; lia.
  - eapply Forall_impl; [done|]. intros r. apply history_row_ok_mono; lia.
Qed.

Lemma wf_empty clock cfr uniq fs : wf (empty clock cfr uniq fs).
Proof. unfold wf, backends_ok, routes_ok, history_ok, empty. simpl.
  split_and!; try done; try constructor. Qed.

(** ** Conversions *)

Lemma scan_new_backend_row backend s :
  scan_backend (new_backend_row backend s) =
  Backend_with_UpdatedAt (now s)
    (Backend_with_CreatedAt (now s)
       (Backend_with_ID (backends_auto_increment s) backend)).
Proof. destruct backend as [?????? ?]. unfold scan_backend. simpl. by destruct Backend_Enabled. Qed.

Lemma scan_set_backend backend ts r :
  scan_backend (set_backend backend ts r) =
  Backend_with_CreatedAt (bk_created_at r)
    (Backend_with_ID (bk_id r)
       (Backend_with_UpdatedAt ts (Backend_with_Name (bk_name r) backend))).
Proof. destruct backend as [?????? ?]. unfold scan_backend. simpl. by destruct Backend_Enabled. Qed.

Lemma scan_disable_backend ts r :
  scan_backend (disable_backend ts r) =
  Backend_with_UpdatedAt ts (Backend_with_Enabled false (scan_backend r)).
Proof. done. Qed.

Lemma scan_new_route_row route s :
  scan_route (new_route_row route s) =
  Route_with_UpdatedAt (now s)
    (Route_with_CreatedAt (now s) (Route_with_ID (routes_auto_increment s) route)).
Proof. destruct route. unfold scan_route. simpl. by destruct Route_Enabled. Qed.

Lemma scan_set_route route ts r :
  scan_route (set_route route ts r) =
  Route_with_CreatedAt (rt_created_at r)
    (Route_with_UpdatedAt ts (Route_with_ID (rt_id r) route)).
Proof. destruct route. unfold scan_route. simpl. by destruct Route_Enabled. Qed.

Lemma scan_disable_route ts r :
  scan_route (disable_route ts r) =
  Route_with_UpdatedAt ts (Route_with_Enabled false (scan_route r)).
Proof. done. Qed.

(** ** Reads *)

Lemma GetBackendByName_spec name s :
  GetBackendByName name s =
  (match next_fault s with Some e => Err e | None => Ok (backend_by_name name s) end,
   skip_fault s).
Proof. unfold GetBackendByName. by method_cases s. Qed.

Lemma GetRouteByID_spec id s :
  GetRouteByID id s =
  (match next_fault s with Some e => Err e | None => Ok (route_by_id id s) end,
   skip_fault s).
Proof. unfold GetRouteByID. by method_cases s. Qed.

(** The five reading methods change nothing but the failure schedule:
    tables, counters and clock are as before. *)
Lemma exec_read_same_data {X} (op : StoreOp X) (s : t) :
  is_write op = false → same_data (exec op s).2 s.
Proof.
  destruct op; try done; intros _; simpl; [..|apply GetHistory_state];
    unfold GetBackends, GetBackendByName, GetRoutes, GetRouteByID; by method_cases s.
Qed.

(** ** Failed calls *)

Lemma with_backends_id s : with_backends (backends s) s = s.
Proof. by destruct s. Qed.

Lemma with_routes_id s : with_routes (routes s) s = s.
Proof. by destruct s. Qed.

(** A method that returns an error has written nothing: no partial state
    is left behind, whichever branch failed. *)
Lemma exec_Err_same_data {X} (op : StoreOp X) (s : t) e :
  op_error op (exec op s).1 = Some e → same_data (exec op s).2 s.
Proof.
  destruct op; simpl;
    unfold GetBackends, GetBackendByName, CreateBackend, UpdateBackend, DeleteBackend,
      GetRoutes, GetRouteByID, CreateRoute, UpdateRoute, DeleteRoute, CreateHistory,
      GetHistory;
    method_cases s; try done.
  - by destruct (_ && _).
  - case_decide as Hn; [|done]. apply rows_affected_0 in Hn.
    intros _. simpl in Hn. by rewrite Hn.
  - case_decide as Hn; [|done]. apply rows_affected_0 in Hn.
    intros _. simpl in Hn. by rewrite Hn.
  - case_decide as Hn; [|done]. apply rows_affected_0 in Hn.
    intros _. simpl in Hn. by rewrite Hn.
  - case_decide as Hn; [|done]. apply rows_affected_0 in Hn.
    intros _. simpl in Hn. by rewrite Hn.
  - by destruct (next_fault (skip_fault s)).
Qed.

(** ** The audit trail *)

(** No method removes or rewrites a history row: the trail before a call
    is a prefix of the trail after it, and only CreateHistory makes it
    longer, by exactly one row. *)
Lemma history_append_only {X} (op : StoreOp X) (s : t) :
  history s `prefix_of` history (exec op s).2 ∧
  (length (history (exec op s).2) ≤
    length (history s) + (if op is OpCreateHistory _ then 1 else 0))%nat.
Proof.
  unfold history.
  destruct op; simpl;
    unfold GetBackends, GetBackendByName, CreateBackend, UpdateBackend, DeleteBackend,
      GetRoutes, GetRouteByID, CreateRoute, UpdateRoute, DeleteRoute, CreateHistory,
      GetHistory;
    method_cases s; repeat case_match; simpl;
    unfold sql_insert; rewrite ?fmap_app, ?length_app, ?length_fmap; simpl;
    (split; [by try apply prefix_app_r|lia]).
Qed.

Lemma CreateHistory_ok h s :
  next_fault s = None →
  (CreateHistory h s).1 = Ok tt ∧
  history (CreateHistory h s).2 =
    history s ++ [mkConfigHistory (config_history_auto_increment s)
                    (ConfigHistory_ConfigType h) (ConfigHistory_ConfigID h)
                    (ConfigHistory_Operation h) (ConfigHistory_OldValue h)
                    (ConfigHistory_NewValue h) (ConfigHistory_Operator h) (now s)].
Proof.
  intros Hf. unfold CreateHistory, history. rewrite round_trip_spec, Hf. simpl.
  unfold sql_insert. by rewrite fmap_app.
Qed.

(** ** Writes to the backends table *)

Lemma CreateBackend_ok backend s :
  next_fault s = None →
  backend_by_name (Backend_Name backend) s = None →
  (CreateBackend backend s).1 = Ok (created_backend backend s) ∧
  ∀ name, backend_by_name name (CreateBackend backend s).2 =
          if decide (name = Backend_Name backend)
          then Some (created_backend backend s) else backend_by_name name s.
Proof.
  unfold backend_by_name. intros Hf Hnone%fmap_None.
  unfold CreateBackend. rewrite round_trip_spec, Hf. simpl. rewrite Hnone.
  rewrite bool_decide_eq_false_2, andb_false_r by by intros [??].
  split; [done|]. intros name. simpl. rewrite sql_first_insert. simpl.
  destruct (decide (name = Backend_Name backend)) as [->|Hne].
  - rewrite Hnone, decide_True by done. simpl. by rewrite scan_new_backend_row.
  - rewrite decide_False by congruence.
    by destruct (sql_first (λ r, bk_name r = name) (backends s)).
Qed.

(** What a lookup finds after [UPDATE backends SET .. WHERE name = ?]. *)
Lemma backend_by_name_update name n f s :
  (∀ r, bk_name (f r) = bk_name r) →
  backend_by_name n (with_backends (sql_update (λ r, bk_name r = name) f (backends s)) s)
  = if decide (n = name)
    then scan_backend <$> (f <$> sql_first (λ r, bk_name r = name) (backends s))
    else backend_by_name n s.
Proof.
  intros Hname. unfold backend_by_name. simpl.
  rewrite (sql_first_update _ (λ r, bk_name r = n))
    by (intros r; by rewrite Hname).
  destruct (sql_first (λ r, bk_name r = n) (backends s)) as [r|] eqn:Hr.
  - apply sql_first_Some in Hr as Hn. destruct Hn as [<- _]. simpl.
    case_decide as Hd; [|done]. subst. by rewrite Hr.
  - case_decide; [subst; by rewrite Hr|done].
Qed.

Lemma UpdateBackend_lookup name backend s n :
  next_fault s = None →
  backend_by_name n (UpdateBackend name backend s).2 =
  if decide (n = name)
  then (λ old, Backend_with_CreatedAt (Backend_CreatedAt old)
                 (Backend_with_ID (Backend_ID old) (updated_backend name backend s)))
       <$> backend_by_name name s
  else backend_by_name n s.
Proof.
  intros Hf. unfold UpdateBackend. rewrite round_trip_spec, Hf. simpl.
  case_decide; simpl;
    rewrite (backend_by_name_update name n _ (skip_fault s)) by done;
    (case_decide; [|done]); unfold backend_by_name; simpl;
    destruct (sql_first (λ r, bk_name r = name) (backends s)) as [r|] eqn:Hr;
    simpl; try done;
    apply sql_first_Some in Hr as [<- _]; by rewrite scan_set_backend.
Qed.

Lemma DeleteBackend_lookup name s n :
  next_fault s = None →
  backend_by_name n (DeleteBackend name s).2 =
  if decide (n = name)
  then (λ old, Backend_with_UpdatedAt (now s) (Backend_with_Enabled false old))
       <$> backend_by_name name s
  else backend_by_name n s.
Proof.
  intros Hf. unfold DeleteBackend. rewrite round_trip_spec, Hf. simpl.
  case_decide; simpl;
    rewrite (backend_by_name_update name n _ (skip_fault s)) by done;
    (case_decide; [|done]); unfold backend_by_name; simpl;
    by destruct (sql_first (λ r, bk_name r = name) (backends s)).
Qed.

(** The UPDATE statements never add or remove a row. *)
Lemma length_backends_update name backend s :
  length (backends (UpdateBackend name backend s).2) = length (backends s) ∧
  length (backends (DeleteBackend name s).2) = length (backends s).
Proof.
  unfold UpdateBackend, DeleteBackend. method_cases s; [done|].
  split; case_decide; simpl; apply length_sql_update.
Qed.

(** With clientFoundRows the two UPDATEs succeed exactly when the name exists. *)
Lemma DeleteBackend_found_rows name s :
  clientFoundRows s = true → next_fault s = None →
  (DeleteBackend name s).1 =
  if backend_by_name name s is Some _ then Ok tt else Err "backend not found".
Proof.
  intros Hc Hf. unfold DeleteBackend, backend_by_name. rewrite round_trip_spec, Hf.
  simpl. rewrite Hc. simpl.
  destruct (sql_first _ (backends s)) as [r|] eqn:Hr; simpl.
  - apply rows_matched_pos in Hr. case_decide; [lia|done].
  - apply rows_matched_0 in Hr. by rewrite decide_True.
Qed.

Lemma UpdateBackend_found_rows name backend s :
  clientFoundRows s = true → next_fault s = None →
  (UpdateBackend name backend s).1 =
  if backend_by_name name s is Some _ then Ok (updated_backend name backend s)
  else Err "backend not found".
Proof.
  intros Hc Hf. unfold UpdateBackend, backend_by_name. rewrite round_trip_spec, Hf.
  simpl. rewrite Hc. simpl.
  destruct (sql_first _ (backends s)) as [r|] eqn:Hr; simpl.
  - apply rows_matched_pos in Hr. case_decide; [lia|done].
  - apply rows_matched_0 in Hr. by rewrite decide_True.
Qed.

(** Without it, a delete that finds every matching row already disabled at
    the current second reports that nothing was found. *)
Lemma DeleteBackend_changed_rows name s :
  clientFoundRows s = false → next_fault s = None →
  (DeleteBackend name s).1 =
  if decide (Forall (λ r, bk_name r = name →
                          bk_enabled r = 0 ∧ bk_updated_at r = now s) (backends s))
  then Err "backend not found" else Ok tt.
Proof.
  intros Hc Hf. unfold DeleteBackend. rewrite round_trip_spec, Hf. simpl.
  rewrite Hc. simpl.
  destruct (decide (rows_changed _ _ (backends s) = 0%nat)) as [Hz|Hnz]; simpl.
  - rewrite decide_True; [done|]. apply Forall_forall. intros r Hr Hn.
    pose proof (proj1 (rows_changed_0 _ _ _) Hz r Hr Hn) as Hrr.
    destruct r; simpl in *. by injection Hrr as ??.
  - rewrite decide_False; [done|]. intros HF. apply Hnz, rows_changed_0.
    intros r Hr Hn. rewrite Forall_forall in HF. destruct (HF r Hr Hn) as [??].
    destruct r; simpl in *. by subst.
Qed.

(** Whatever the driver counts, an update and a delete that change the row
    they find are answered as made. *)
Lemma UpdateBackend_reported name backend s old :
  next_fault s = None → backend_by_name name s = Some old →
  clientFoundRows s = true ∨
  Backend_with_CreatedAt (Backend_CreatedAt old)
    (Backend_with_ID (Backend_ID old) (updated_backend name backend s)) ≠ old →
  (UpdateBackend name backend s).1 = Ok (updated_backend name backend s).
Proof.
  intros Hf Hold Hrep. unfold UpdateBackend. rewrite round_trip_spec, Hf. simpl.
  unfold backend_by_name in Hold.
  destruct (sql_first _ (backends s)) as [r|] eqn:Hr; simplify_eq/=.
  rewrite decide_False; [done|]. apply (rows_affected_pos _ _ _ _ r Hr).
  destruct Hrep as [?|Hne]; [by left|right]. intros Heq. apply Hne.
  apply sql_first_Some in Hr as [<- _].
  trans (scan_backend (set_backend backend (now s) r));
    [by rewrite scan_set_backend|by rewrite Heq].
Qed.

Lemma DeleteBackend_reported name s old :
  next_fault s = None → backend_by_name name s = Some old →
  clientFoundRows s = true ∨
  Backend_with_UpdatedAt (now s) (Backend_with_Enabled false old) ≠ old →
  (DeleteBackend name s).1 = Ok tt.
Proof.
  intros Hf Hold Hrep. unfold DeleteBackend. rewrite round_trip_spec, Hf. simpl.
  unfold backend_by_name in Hold.
  destruct (sql_first _ (backends s)) as [r|] eqn:Hr; simplify_eq/=.
  rewrite decide_False; [done|]. apply (rows_affected_pos _ _ _ _ r Hr).
  destruct Hrep as [?|Hne]; [by left|right]. intros Heq. apply Hne.
  by rewrite <-scan_disable_backend, Heq.
Qed.

(** With the driver's default an update that changes no row is answered as
    if the name were not there. *)
Lemma UpdateBackend_unreported name backend s :
  next_fault s = None → clientFoundRows s = false →
  (∀ r, r ∈ backends s → bk_name r = name → set_backend backend (now s) r = r) →
  (UpdateBackend name backend s).1 = Err "backend not found".
Proof.
  intros Hf Hc Hsame. unfold UpdateBackend. rewrite round_trip_spec, Hf. simpl.
  rewrite Hc. simpl. rewrite decide_True; [done|]. by apply rows_changed_0.
Qed.

(** ** What each method leaves alone *)

Ltac unfold_methods :=
  unfold GetBackends, GetBackendByName, CreateBackend, UpdateBackend, DeleteBackend,
    GetRoutes, GetRouteByID, CreateRoute, UpdateRoute, DeleteRoute, CreateHistory,
    GetHistory.

Lemma skip_fault_nil s : faults s = [] → skip_fault s = s.
Proof. destruct s; simpl. by intros ->. Qed.

Lemma next_fault_nil s : faults s = [] → next_fault s = None.
Proof. unfold next_fault. by intros ->. Qed.

Lemma exec_frame {X} (op : StoreOp X) (s : t) :
  let s' := (exec op s).2 in
  now s' = now s ∧ clientFoundRows s' = clientFoundRows s ∧
  unique_name s' = unique_name s ∧ (faults s = [] → faults s' = []) ∧
  (writes_backends op = false →
   backends s' = backends s ∧ backends_auto_increment s' = backends_auto_increment s) ∧
  (writes_routes op = false →
   routes s' = routes s ∧ routes_auto_increment s' = routes_auto_increment s) ∧
  (writes_history op = false →
   config_history s' = config_history s ∧
   config_history_auto_increment s' = config_history_auto_increment s).
Proof.
  destruct op; simpl; unfold_methods; method_cases s; repeat case_match; simpl;
    (split_and!; try done; by intros ->).
Qed.

#[global] Instance backend_by_name_proper :
  Proper (eq ==> same_data ==> eq) backend_by_name.
Proof. intros n ? <- s s' Hs%same_data_fields. unfold backend_by_name. by destruct Hs as (-> & _). Qed.

#[global] Instance history_proper : Proper (same_data ==> eq) history.
Proof. intros s s' Hs%same_data_fields. unfold history. by destruct Hs as (_ & _ & -> & _). Qed.

#[global] Instance backend_identities_proper : Proper (same_data ==> eq) backend_identities.
Proof. intros s s' Hs%same_data_fields. unfold backend_identities. by destruct Hs as (-> & _). Qed.

Lemma backend_identities_update P `{!∀ r, Decision (P r)} f s :
  (∀ r, bk_id (f r) = bk_id r) → (∀ r, bk_name (f r) = bk_name r) →
  (∀ r, bk_created_at (f r) = bk_created_at r) →
  backend_identities (with_backends (sql_update P f (backends s)) s) = backend_identities s.
Proof.
  intros Hi Hn Hc. unfold backend_identities. simpl.
  apply sql_update_column. intros r. by rewrite Hi, Hn, Hc.
Qed.

Lemma exec_backend_identities {X} (op : StoreOp X) (s : t) :
  backend_identities s `prefix_of` backend_identities (exec op s).2.
Proof.
  destruct op; simpl; unfold_methods; method_cases s; repeat case_match; simpl; try done;
    try (by rewrite (backend_identities_update _ _ (skip_fault s))).
  unfold backend_identities; simpl. unfold sql_insert. rewrite fmap_app. by apply prefix_app_r.
Qed.


#[global] Instance extends_preorder : PreOrder extends.
Proof.
  split; [by intros s|].
  intros s1 s2 s3 (?&?&?&?&?&?) (?&?&?&?&?&?). split_and!; (by etrans) || lia.
Qed.

Lemma route_identities_update P `{!∀ r, Decision (P r)} f s :
  (∀ r, rt_id (f r) = rt_id r) → (∀ r, rt_created_at (f r) = rt_created_at r) →
  route_identities (with_routes (sql_update P f (routes s)) s) = route_identities s.
Proof.
  intros Hi Hc. unfold route_identities. simpl.
  apply sql_update_column. intros r. by rewrite Hi, Hc.
Qed.

Lemma exec_route_identities {X} (op : StoreOp X) (s : t) :
  route_identities s `prefix_of` route_identities (exec op s).2.
Proof.
  destruct op; simpl; unfold_methods; method_cases s; repeat case_match; simpl; try done;
    try (by rewrite (route_identities_update _ _ (skip_fault s))).
  unfold route_identities; simpl. unfold sql_insert. rewrite fmap_app. by apply prefix_app_r.
Qed.

Lemma exec_counters {X} (op : StoreOp X) (s : t) :
  (backends_auto_increment s ≤ backends_auto_increment (exec op s).2)%N ∧
  (routes_auto_increment s ≤ routes_auto_increment (exec op s).2)%N ∧
  (config_history_auto_increment s ≤ config_history_auto_increment (exec op s).2)%N.
Proof.
  destruct op; simpl; unfold_methods; method_cases s; repeat case_match; simpl; lia.
Qed.

Lemma exec_extends {X} (op : StoreOp X) (s : t) : extends s (exec op s).2.
Proof.
  pose proof (exec_counters op s) as (?&?&?).
  split_and!; try done;
    auto using exec_backend_identities, exec_route_identities.
  apply history_append_only.
Qed.

(** ** Runs of programs over the store *)

(** C4: whatever a handler does with the store -- any sequence of
    calls, failed ones included -- the representation invariant holds at the
    end if it held at the start. *)
Theorem run_wf {R} (p : Prog R) (s : t) : wf s → wf (store_after p s).
Proof. apply run_invariant. intros X op s'. apply wf_exec. Qed.

Lemma run_wf_witness :
  wf (store_after (call (OpDeleteBackend "user")) example_db).
Proof. apply run_wf. apply (bool_decide_unpack _). by vm_compute. Defined.

(** C25: no sequence of calls removes a row, changes the id, the
    name or the creation time of a backend, the id or the creation time of
    a route, rewrites or drops an audit entry, or moves a counter back. *)
Theorem run_extends {R} (p : Prog R) (s : t) : extends s (store_after p s).
Proof. apply (run_preorder extends). intros X op s'. apply exec_extends. Qed.

Lemma run_history_length {R} (p : Prog R) (s : t) :
  (length (history (store_after p s)) ≤ length (history s) + round_trips p s)%nat.
Proof.
  unfold store_after. revert s; induction p as [a|X op k IH|e k IH]; intros s; simpl; [lia| |].
  - pose proof (proj2 (history_append_only op s)) as Hl.
    destruct (exec op s) as [x s']. specialize (IH x s'). simpl in *.
    destruct op; lia.
  - specialize (IH s). by destruct (run k s) as [[??]?].
Qed.

(** ** The two listing queries *)

Lemma enabled_is_scan enabled next clock r :
  backend_row_ok next clock r →
  enabled_is enabled (bk_enabled r) ↔ enabled_matches enabled (Backend_Enabled (scan_backend r)).
Proof.
  intros (_ & Hen & _). destruct enabled as [[]|]; simpl; [..|done];
    case_bool_decide; split; (done || lia).
Qed.

(** The list of backends is ordered by name and holds
    exactly the backends the filter selects, each once. *)
Theorem GetBackends_sorted enabled s :
  wf s → next_fault s = None →
  ∃ bs, (GetBackends enabled s).1 = Ok bs ∧
    Sorted (by_key String.le Backend_Name) bs ∧
    bs ≡ₚ filter (λ b, enabled_matches enabled (Backend_Enabled b))
             (scan_backend <$> backends s).
Proof.
  intros ((_ & Hrows & _) & _) Hf. unfold GetBackends. rewrite round_trip_spec, Hf.
  eexists; split; [done|]. simpl. split.
  - eapply Sorted_fmap; [|apply order_by_sorted; apply _]. by intros r1 r2.
  - rewrite order_by_perm. unfold sql_where.
    rewrite (filter_fmap_ext scan_backend _
               (λ b, enabled_matches enabled (Backend_Enabled b))); [done|].
    eapply Forall_impl; [done|]. intros r. apply enabled_is_scan.
Qed.

Lemma GetBackends_sorted_witness :
  ∃ bs, (GetBackends (Some true) example_db).1 = Ok bs ∧
    Sorted (by_key String.le Backend_Name) bs ∧
    bs ≡ₚ filter (λ b, enabled_matches (Some true) (Backend_Enabled b))
             (scan_backend <$> backends example_db).
Proof.
  apply GetBackends_sorted; [apply (bool_decide_unpack _); by vm_compute|reflexivity].
Defined.

Lemma history_where_scan ty id r :
  history_where ty id r ↔ history_matches ty id (scan_history r).
Proof. done. Qed.

(** A history query answers the entries that match both filters, newest
    first, the page that starts at the offset and is no longer than the
    limit, and the number of all matching entries, not of the page. *)
Lemma GetHistory_page ty id limit offset s :
  next_fault s = None → next_fault (skip_fault s) = None →
  0 ≤ limit → 0 ≤ offset →
  ∃ items total, (GetHistory ty id limit offset s).1 = Ok (items, total) ∧
    total = Z.of_nat (length (filter (history_matches ty id) (history s))) ∧
    Z.of_nat (length items) = Z.min limit (Z.max 0 (total - offset)) ∧
    Sorted (by_key (flip Z.le) ConfigHistory_CreatedAt) items ∧
    Forall (history_matches ty id) items ∧
    items ⊆+ history s.
Proof.
  intros Hf1 Hf2 Hl Ho. unfold GetHistory. rewrite !round_trip_spec, Hf1, Hf2.
  eexists _, _; split; [done|]. simpl. unfold history, sql_count, sql_where.
  rewrite <-(filter_fmap_ext scan_history (history_where ty id) (history_matches ty id))
    by (apply Forall_true; intros r; apply history_where_scan).
  rewrite !length_fmap, length_limit_offset_eq, length_order_by by done.
  split_and!; try done.
  - eapply Sorted_fmap; [|apply limit_offset_sorted, order_by_sorted; apply _].
    by intros r1 r2.
  - apply Forall_fmap, Forall_forall. intros r Hr.
    eapply elem_of_sublist in Hr; [|apply limit_offset_sublist].
    apply elem_of_order_by in Hr. by apply list_elem_of_filter in Hr as [? _].
  - apply fmap_submseteq. etrans; [apply sublist_submseteq, limit_offset_sublist|].
    rewrite order_by_perm. apply sublist_submseteq, sublist_filter.
Qed.

(** Alone on the database, [GetHistory] is its two statements one after
    the other. *)
Lemma GetHistory_statements ty id limit offset s :
  GetHistory ty id limit offset s = GetHistory_with (λ s, s) ty id limit offset s.
Proof.
  unfold GetHistory, GetHistory_with, count_history, select_history.
  rewrite !round_trip_spec. destruct (next_fault s); [done|]. simpl.
  rewrite round_trip_spec. by destruct (next_fault (skip_fault s)).
Qed.

(** C34: the two statements of a history query are not one read.  When
    another request records an entry that matches between the count and the
    page, on a driver that does not fail, the total answered is the number
    of entries that matched before, and the first page holds one entry
    more when the limit allows: the total is not the number of matching
    entries the answer was taken from. *)
Theorem GetHistory_torn ty id limit h s :
  faults s = [] → 0 ≤ limit → history_matches ty id h →
  ∃ rows total,
    (GetHistory_with (λ s, (CreateHistory h s).2) ty id limit 0 s).1 = Ok (rows, total) ∧
    total = Z.of_nat (length (filter (history_matches ty id) (history s))) ∧
    Z.of_nat (length rows) = Z.min limit (total + 1).
Proof.
  intros Hf Hl Hh. unfold GetHistory_with, count_history, select_history, CreateHistory.
  do 2 (rewrite (round_trip_spec s), next_fault_nil, skip_fault_nil by done; simpl).
  rewrite round_trip_spec, next_fault_nil by (by destruct s). simpl.
  eexists _, _. split; [done|]. unfold history, sql_where.
  rewrite <-(filter_fmap_ext scan_history (history_where ty id) (history_matches ty id))
    by (apply Forall_true; intros r; apply history_where_scan).
  split; [by rewrite length_fmap|].
  rewrite !length_fmap, length_limit_offset_eq, length_order_by by done.
  unfold sql_insert. rewrite filter_app, length_app, filter_cons_True by done.
  unfold sql_count. simpl. lia.
Qed.

Lemma GetHistory_torn_witness :
  ∃ rows total,
    (GetHistory_with
       (λ s, (CreateHistory (mkConfigHistory 0 "backend" (Some 1%N) "UPDATE" None None "" 0) s).2)
       (Some "backend") None 10 0 example_db).1 = Ok (rows, total) ∧
    total = Z.of_nat (length (filter (history_matches (Some "backend") None)
                                (history example_db))) ∧
    Z.of_nat (length rows) = Z.min 10 (total + 1).
Proof. apply GetHistory_torn; [done|lia|done]. Defined.

(** ** What a handler needs to know of one call *)

#[global] Instance backend_names_proper : Proper (same_data ==> eq) backend_names.
Proof. intros s s' Hs%same_data_fields. unfold backend_names. by destruct Hs as (-> & _). Qed.

Lemma exec_history {X} (op : StoreOp X) (s : t) :
  writes_history op = false → history (exec op s).2 = history s.
Proof. intros Hop. unfold history. by destruct (exec_frame op s) as (_&_&_&_&_&_&[-> _]). Qed.

Lemma exec_backend_names {X} (op : StoreOp X) (s : t) :
  backend_names (exec op s).2 = backend_names s ++ created_name op (exec op s).1.
Proof.
  unfold backend_names.
  destruct op; simpl; unfold_methods; method_cases s; repeat case_match; simpl;
    rewrite ?app_nil_r, ?sql_update_column; try done.
  unfold sql_insert. by rewrite fmap_app.
Qed.

Lemma backend_by_name_None name s :
  backend_by_name name s = None ↔ name ∉ backend_names s.
Proof.
  unfold backend_by_name, backend_names. rewrite fmap_None, sql_first_None, list_elem_of_fmap.
  naive_solver.
Qed.

Lemma exec_history_cases h (s : t) :
  let x := exec (OpCreateHistory h) s in
  (∃ err, x.1 = Err err ∧ same_data x.2 s) ∨
  (x.1 = Ok tt ∧ history x.2 = history s ++ [stored_history h s]).
Proof.
  simpl. destruct (next_fault s) as [err|] eqn:Hf.
  - left. exists err. unfold CreateHistory. by rewrite round_trip_spec, Hf.
  - right. by apply CreateHistory_ok.
Qed.

Lemma exec_GetBackendByName_None name (s : t) :
  (exec (OpGetBackendByName name) s).1 = Ok None → name ∉ backend_names s.
Proof.
  unfold exec; simpl. rewrite GetBackendByName_spec. destruct (next_fault s); [done|].
  simpl. intros [= Hn]. by apply backend_by_name_None.
Qed.

Lemma exec_backend_by_name {X} (op : StoreOp X) (s : t) name :
  writes_backends op = false → backend_by_name name (exec op s).2 = backend_by_name name s.
Proof.
  intros Hop. unfold backend_by_name.
  by destruct (exec_frame op s) as (_&_&_&_&[-> _]&_).
Qed.

Lemma exec_GetBackendByName name (s : t) :
  faults s = [] → exec (OpGetBackendByName name) s = (Ok (backend_by_name name s), s).
Proof.
  intros Hf. unfold exec; simpl.
  by rewrite GetBackendByName_spec, next_fault_nil, skip_fault_nil.
Qed.

(** What a call that does not write to the audit trail leaves for the
    entry recorded next, on a store that does not fail. *)
Lemma exec_before_history {X} (op : StoreOp X) (s : t) :
  faults s = [] → writes_history op = false →
  faults (exec op s).2 = [] ∧ history (exec op s).2 = history s ∧
  ∀ h, stored_history h (exec op s).2 = stored_history h s.
Proof.
  intros Hf Hop. destruct (exec_frame op s) as (Hnow&_&_&Hfl&_&_&Hh).
  destruct (Hh Hop) as [Hch Hid]. split_and!; [by auto|by apply exec_history|].
  intros h. unfold stored_history. by rewrite Hnow, Hid.
Qed.

(** After the UPDATE of a delete, every row of that name is disabled and
    carries the current time. *)
Lemma DeleteBackend_leaves_disabled name (s : t) :
  next_fault s = None →
  Forall (λ r, bk_name r = name → bk_enabled r = 0 ∧ bk_updated_at r = now s)
    (backends (exec (OpDeleteBackend name) s).2).
Proof.
  intros Hf. unfold exec; simpl. unfold MySQLStore.DeleteBackend.
  rewrite round_trip_spec, Hf. simpl. apply Forall_forall. intros r.
  assert (r ∈ sql_update (λ r, bk_name r = name) (disable_backend (now s)) (backends s) →
          bk_name r = name → bk_enabled r = 0 ∧ bk_updated_at r = now s) as Hr.
  { intros (r0 & _ & ->)%elem_of_sql_update. by case_decide. }
  by case_decide.
Qed.

(** ** Writes to the routes table *)

Lemma route_by_id_fresh s n :
  wf s → (routes_auto_increment s ≤ n)%N → route_by_id n s = None.
Proof.
  intros (_ & (_ & Hrows & _) & _) Hn. unfold route_by_id.
  apply fmap_None, sql_first_None. intros r Hr Hid.
  rewrite Forall_forall in Hrows. destruct (Hrows r Hr) as [? _]. lia.
Qed.

Lemma CreateRoute_ok route s :
  wf s → next_fault s = None →
  (CreateRoute route s).1 = Ok (created_route route s) ∧
  ∀ n, route_by_id n (CreateRoute route s).2 =
       if decide (n = routes_auto_increment s)
       then Some (created_route route s) else route_by_id n s.
Proof.
  intros Hwf Hf. unfold CreateRoute. rewrite round_trip_spec, Hf. simpl.
  split; [done|]. intros n. unfold route_by_id. simpl. rewrite sql_first_insert. simpl.
  destruct (decide (n = routes_auto_increment s)) as [->|Hne].
  - pose proof (route_by_id_fresh s (routes_auto_increment s) Hwf (reflexivity _)) as Hnone.
    apply fmap_None in Hnone. rewrite Hnone, decide_True by done. simpl.
    by rewrite scan_new_route_row.
  - rewrite decide_False by congruence.
    by destruct (sql_first (λ r, rt_id r = n) (routes s)).
Qed.

Lemma route_by_id_update id n f s :
  (∀ r, rt_id (f r) = rt_id r) →
  route_by_id n (with_routes (sql_update (λ r, rt_id r = id) f (routes s)) s)
  = if decide (n = id)
    then scan_route <$> (f <$> sql_first (λ r, rt_id r = id) (routes s))
    else route_by_id n s.
Proof.
  intros Hid. unfold route_by_id. simpl.
  rewrite (sql_first_update _ (λ r, rt_id r = n)) by (intros r; by rewrite Hid).
  destruct (sql_first (λ r, rt_id r = n) (routes s)) as [r|] eqn:Hr.
  - apply sql_first_Some in Hr as Hn. destruct Hn as [<- _]. simpl.
    case_decide as Hd; [|done]. subst. by rewrite Hr.
  - case_decide; [subst; by rewrite Hr|done].
Qed.

Lemma UpdateRoute_lookup id route s n :
  next_fault s = None →
  route_by_id n (UpdateRoute id route s).2 =
  if decide (n = id)
  then (λ old, Route_with_CreatedAt (Route_CreatedAt old) (updated_route id route s))
       <$> route_by_id id s
  else route_by_id n s.
Proof.
  intros Hf. unfold UpdateRoute. rewrite round_trip_spec, Hf. simpl.
  case_decide; simpl;
    rewrite (route_by_id_update id n _ (skip_fault s)) by done;
    (case_decide; [|done]); unfold route_by_id; simpl;
    destruct (sql_first (λ r, rt_id r = id) (routes s)) as [r|] eqn:Hr;
    simpl; try done;
    apply sql_first_Some in Hr as [<- _]; by rewrite scan_set_route.
Qed.

Lemma DeleteRoute_lookup id s n :
  next_fault s = None →
  route_by_id n (DeleteRoute id s).2 =
  if decide (n = id)
  then (λ old, Route_with_UpdatedAt (now s) (Route_with_Enabled false old))
       <$> route_by_id id s
  else route_by_id n s.
Proof.
  intros Hf. unfold DeleteRoute. rewrite round_trip_spec, Hf. simpl.
  case_decide; simpl;
    rewrite (route_by_id_update id n _ (skip_fault s)) by done;
    (case_decide; [|done]); unfold route_by_id; simpl;
    by destruct (sql_first (λ r, rt_id r = id) (routes s)).
Qed.

Lemma UpdateRoute_found_rows id route s :
  clientFoundRows s = true → next_fault s = None →
  (UpdateRoute id route s).1 =
  if route_by_id id s is Some _ then Ok (updated_route id route s)
  else Err "route not found".
Proof.
  intros Hc Hf. unfold UpdateRoute, route_by_id. rewrite round_trip_spec, Hf.
  simpl. rewrite Hc. simpl.
  destruct (sql_first _ (routes s)) as [r|] eqn:Hr; simpl.
  - apply rows_matched_pos in Hr. case_decide; [lia|done].
  - apply rows_matched_0 in Hr. by rewrite decide_True.
Qed.

Lemma DeleteRoute_found_rows id s :
  clientFoundRows s = true → next_fault s = None →
  (DeleteRoute id s).1 =
  if route_by_id id s is Some _ then Ok tt else Err "route not found".
Proof.
  intros Hc Hf. unfold DeleteRoute, route_by_id. rewrite round_trip_spec, Hf.
  simpl. rewrite Hc. simpl.
  destruct (sql_first _ (routes s)) as [r|] eqn:Hr; simpl.
  - apply rows_matched_pos in Hr. case_decide; [lia|done].
  - apply rows_matched_0 in Hr. by rewrite decide_True.
Qed.

Lemma UpdateRoute_reported id route s old :
  next_fault s = None → route_by_id id s = Some old →
  clientFoundRows s = true ∨
  Route_with_CreatedAt (Route_CreatedAt old) (updated_route id route s) ≠ old →
  (UpdateRoute id route s).1 = Ok (updated_route id route s).
Proof.
  intros Hf Hold Hrep. unfold UpdateRoute. rewrite round_trip_spec, Hf. simpl.
  unfold route_by_id in Hold.
  destruct (sql_first _ (routes s)) as [r|] eqn:Hr; simplify_eq/=.
  rewrite decide_False; [done|]. apply (rows_affected_pos _ _ _ _ r Hr).
  destruct Hrep as [?|Hne]; [by left|right]. intros Heq. apply Hne.
  apply sql_first_Some in Hr as [<- _].
  trans (scan_route (set_route route (now s) r));
    [by rewrite scan_set_route|by rewrite Heq].
Qed.

Lemma DeleteRoute_reported id s old :
  next_fault s = None → route_by_id id s = Some old →
  clientFoundRows s = true ∨
  Route_with_UpdatedAt (now s) (Route_with_Enabled false old) ≠ old →
  (DeleteRoute id s).1 = Ok tt.
Proof.
  intros Hf Hold Hrep. unfold DeleteRoute. rewrite round_trip_spec, Hf. simpl.
  unfold route_by_id in Hold.
  destruct (sql_first _ (routes s)) as [r|] eqn:Hr; simplify_eq/=.
  rewrite decide_False; [done|]. apply (rows_affected_pos _ _ _ _ r Hr).
  destruct Hrep as [?|Hne]; [by left|right]. intros Heq. apply Hne.
  by rewrite <-scan_disable_route, Heq.
Qed.

Lemma exec_GetRouteByID id (s : t) :
  faults s = [] → exec (OpGetRouteByID id) s = (Ok (route_by_id id s), s).
Proof.
  intros Hf. unfold exec; simpl.
  by rewrite GetRouteByID_spec, next_fault_nil, skip_fault_nil.
Qed.

Lemma exec_route_by_id {X} (op : StoreOp X) (s : t) n :
  writes_routes op = false → route_by_id n (exec op s).2 = route_by_id n s.
Proof.
  intros Hop. unfold route_by_id.
  by destruct (exec_frame op s) as (_&_&_&_&_&[-> _]&_).
Qed.

(** What a lookup answered, whatever the driver did. *)
Lemma exec_GetBackendByName_Ok name (s : t) b :
  (exec (OpGetBackendByName name) s).1 = Ok b → b = backend_by_name name s.
Proof.
  unfold exec; simpl. rewrite GetBackendByName_spec. destruct (next_fault s); [done|].
  simpl. by intros [= <-].
Qed.

Lemma exec_GetRouteByID_Ok id (s : t) a :
  (exec (OpGetRouteByID id) s).1 = Ok a → a = route_by_id id s.
Proof.
  unfold exec; simpl. rewrite GetRouteByID_spec. destruct (next_fault s); [done|].
  simpl. by intros [= <-].
Qed.

(** Take the next store call of the run in the goal: name its answer and
    the store it leaves, with what is known of them. *)
Ltac exec_step :=
  cbn;
  lazymatch goal with
  | |- context [exec ?op ?s] =>
      let Herr := fresh "Herr" in
      let Hrd := fresh "Hrd" in
      pose proof (exec_Err_same_data op s) as Herr;
      let Hhist := fresh "Hhist" in
      let Hnames := fresh "Hnames" in
      pose proof (exec_read_same_data op s) as Hrd;
      pose proof (exec_history op s) as Hhist;
      pose proof (exec_backend_names op s) as Hnames;
      destruct (exec op s) as [[?|?] ?]; simpl in Herr, Hrd, Hhist, Hnames; cbn
  end.

Ltac fold_store_after :=
  match goal with |- context [run ?p ?s] => fold (store_after p s) end.

End MySQLStore.
