(* ===== verification/StoreSpec.v ===== *)
(** * What a Store promises, and that MySQLStore keeps the promise

    Module [StoreSpec] is the contract of the [Store] interface as the
    specification words it: backends are found by name and routes by id,
    the audit trail is a sequence that only grows.  Its state is two finite
    maps and a list; [spec] says, method by method, which answers and which
    next states are allowed.  Any call may fail, and then changes nothing;
    a call that succeeds does what its case of [spec] says, with the id and
    the time chosen by the store.

    [abs] reads a database of [MySQLStore] as such a state.  The refinement
    theorem: on a database that satisfies [wf] and whose schema has the
    unique key on the name of a backend, every call of every method is
    allowed by [spec] between the abstract states before and after, and so
    is every run of every program ([spec_path]).  What a client proves from
    [spec] alone therefore holds of the service on MySQL. *)

From S2P Require Import Prelude Json Entity Sql StoreApi StoreMySQL.
Import MySQLStore.

#[local] Set Warnings "-clear-no-such-hyp".

Module StoreSpec.

#[local] Open Scope Z_scope.

(** ** The abstract state *)

Record state : Type := mk_state {
  sp_backends : gmap string Backend;
  sp_routes : gmap N Route;
  sp_history : list ConfigHistory;
}.

Definition set_backends (m : gmap string Backend) (a : state) : state :=
  mk_state m (sp_routes a) (sp_history a).

Definition set_routes (m : gmap N Route) (a : state) : state :=
  mk_state (sp_backends a) m (sp_history a).

Definition set_history (l : list ConfigHistory) (a : state) : state :=
  mk_state (sp_backends a) (sp_routes a) l.

(** ** What each method may do *)

(** A call that fails changes nothing. *)
Definition failed {A} (a : state) (x : Result A) (a' : state) : Prop :=
  a' = a ∧ ∃ e, x = Err e.

(** A call fails, or succeeds as [ok] allows. *)
Definition answers {A} (ok : state → A → state → Prop)
    (a : state) (x : Result A) (a' : state) : Prop :=
  failed a x a' ∨ ∃ v, x = Ok v ∧ ok a v a'.

(** The backends a listing may return: those the filter selects, each once,
    ordered by name. *)
Definition lists_backends (enabled : option bool) (a : state) (l : list Backend) : Prop :=
  l ≡ₚ filter (λ b, enabled_matches enabled (Backend_Enabled b))
         (map_to_list (sp_backends a)).*2 ∧
  Sorted (by_key String.le Backend_Name) l.

(** The routes a listing may return: ordered by method, then pattern. *)
Definition lists_routes (enabled : option bool) (a : state) (l : list Route) : Prop :=
  l ≡ₚ filter (λ r, enabled_matches enabled (Route_Enabled r))
         (map_to_list (sp_routes a)).*2 ∧
  Sorted (by_key lex_le (λ r, (Route_HTTPMethod r, Route_HTTPPattern r))) l.

(** A new backend: a name that is free, an id no backend has, one time for
    creation and update. *)
Definition ok_CreateBackend (backend : Backend) (a : state) (v : Backend) (a' : state) : Prop :=
  ∃ id ts,
    sp_backends a !! Backend_Name backend = None ∧
    (∀ name b, sp_backends a !! name = Some b → Backend_ID b ≠ id) ∧
    v = Backend_with_UpdatedAt ts (Backend_with_CreatedAt ts (Backend_with_ID id backend)) ∧
    a' = set_backends (<[Backend_Name backend := v]> (sp_backends a)) a.

(** An update keeps name, id and creation time and replaces the rest. *)
Definition ok_UpdateBackend (name : string) (backend : Backend)
    (a : state) (v : Backend) (a' : state) : Prop :=
  ∃ old ts,
    sp_backends a !! name = Some old ∧
    v = Backend_with_UpdatedAt ts (Backend_with_Name name backend) ∧
    a' = set_backends
           (<[name := Backend_with_CreatedAt (Backend_CreatedAt old)
                        (Backend_with_ID (Backend_ID old) v)]> (sp_backends a)) a.

(** A delete disables: the backend stays. *)
Definition ok_DeleteBackend (name : string) (a : state) (v : unit) (a' : state) : Prop :=
  ∃ old ts,
    sp_backends a !! name = Some old ∧
    a' = set_backends
           (<[name := Backend_with_UpdatedAt ts (Backend_with_Enabled false old)]>
              (sp_backends a)) a.

Definition ok_CreateRoute (route : Route) (a : state) (v : Route) (a' : state) : Prop :=
  ∃ id ts,
    sp_routes a !! id = None ∧
    v = Route_with_UpdatedAt ts (Route_with_CreatedAt ts (Route_with_ID id route)) ∧
    a' = set_routes (<[id := v]> (sp_routes a)) a.

Definition ok_UpdateRoute (id : N) (route : Route) (a : state) (v : Route) (a' : state) : Prop :=
  ∃ old ts,
    sp_routes a !! id = Some old ∧
    v = Route_with_UpdatedAt ts (Route_with_ID id route) ∧
    a' = set_routes (<[id := Route_with_CreatedAt (Route_CreatedAt old) v]> (sp_routes a)) a.

Definition ok_DeleteRoute (id : N) (a : state) (v : unit) (a' : state) : Prop :=
  ∃ old ts,
    sp_routes a !! id = Some old ∧
    a' = set_routes
           (<[id := Route_with_UpdatedAt ts (Route_with_Enabled false old)]> (sp_routes a)) a.

(** An entry is appended, its id and time chosen by the store. *)
Definition ok_CreateHistory (h : ConfigHistory) (a : state) (v : unit) (a' : state) : Prop :=
  ∃ id ts,
    a' = set_history
           (sp_history a ++
              [mkConfigHistory id (ConfigHistory_ConfigType h) (ConfigHistory_ConfigID h)
                 (ConfigHistory_Operation h) (ConfigHistory_OldValue h)
                 (ConfigHistory_NewValue h) (ConfigHistory_Operator h) ts]) a.

(** A page of the entries that match, newest first, with the count of all
    that match. *)
Definition ok_GetHistory (ty : option string) (id : option N) (limit offset : Z)
    (a : state) (v : list ConfigHistory * Z) (a' : state) : Prop :=
  a' = a ∧
  v.2 = Z.of_nat (length (filter (history_matches ty id) (sp_history a))) ∧
  ∃ l, l ≡ₚ filter (history_matches ty id) (sp_history a) ∧
       Sorted (by_key (flip Z.le) ConfigHistory_CreatedAt) l ∧
       v.1 = limit_offset limit offset l.

(** The contract, method by method. *)
Definition spec {X} (op : StoreOp X) : state → X → state → Prop :=
  match op in StoreOp X return state → X → state → Prop with
  | OpGetBackends enabled =>
      answers (λ a l a', a' = a ∧ lists_backends enabled a l)
  | OpGetBackendByName name =>
      answers (λ a v a', a' = a ∧ v = sp_backends a !! name)
  | OpCreateBackend backend => answers (ok_CreateBackend backend)
  | OpUpdateBackend name backend => answers (ok_UpdateBackend name backend)
  | OpDeleteBackend name => answers (ok_DeleteBackend name)
  | OpGetRoutes enabled =>
      answers (λ a l a', a' = a ∧ lists_routes enabled a l)
  | OpGetRouteByID id =>
      answers (λ a v a', a' = a ∧ v = sp_routes a !! id)
  | OpCreateRoute route => answers (ok_CreateRoute route)
  | OpUpdateRoute id route => answers (ok_UpdateRoute id route)
  | OpDeleteRoute id => answers (ok_DeleteRoute id)
  | OpCreateHistory h => answers (ok_CreateHistory h)
  | OpGetHistory ty id limit offset => answers (ok_GetHistory ty id limit offset)
  end.

(** The runs of a program the contract allows: from [a] to the result [r]
    and the state [a']. *)
Fixpoint spec_path {R} (p : Prog R) (a : state) (r : R) (a' : state) : Prop :=
  match p with
  | Ret r' => r = r' ∧ a' = a
  | Call op k => ∃ x a1, spec op a x a1 ∧ spec_path (k x) a1 r a'
  | Log _ k => spec_path k a r a'
  end.

(** ** The database read as an abstract state *)

(** A row as an entry of a map: its key and what a scan of it gives. *)
Definition entry {A K V} (key : A → K) (val : A → V) (r : A) : K * V := (key r, val r).

Definition abs (s : t) : state :=
  mk_state (list_to_map (entry bk_name scan_backend <$> backends s))
    (list_to_map (entry rt_id scan_route <$> routes s))
    (MySQLStore.history s).

(** A store implements the contract when its states, read through an
    abstraction, make every call one the contract allows, as long as they
    satisfy an invariant the calls preserve. *)
Class Implements (St : Type) `{!Store St} := {
  valid : St → Prop;
  abstraction : St → state;
  valid_exec {X} (op : StoreOp X) (s : St) : valid s → valid (exec op s).2;
  exec_spec {X} (op : StoreOp X) (s : St) :
    valid s → spec op (abstraction s) (exec op s).1 (abstraction (exec op s).2);
}.

(** What no call undoes: a backend keeps its name, id and creation time, a
    route its id and creation time, and the audit trail is only appended to. *)
Definition grows (a a' : state) : Prop :=
  (∀ name b, sp_backends a !! name = Some b →
     ∃ b', sp_backends a' !! name = Some b' ∧ Backend_ID b' = Backend_ID b ∧
           Backend_CreatedAt b' = Backend_CreatedAt b) ∧
  (∀ id r, sp_routes a !! id = Some r →
     ∃ r', sp_routes a' !! id = Some r' ∧ Route_CreatedAt r' = Route_CreatedAt r) ∧
  sp_history a `prefix_of` sp_history a'.

(** The example database without the unique key on the name. *)
Definition example_no_key : t :=
  mk (backends example_db) [] (config_history example_db) 3 1 4 1002 false false [].

(** The databases the refinement is about. *)
Definition keyed (s : t) : Prop := wf s ∧ unique_name s = true.

#[global] Instance keyed_dec s : Decision (keyed s).
Proof. unfold keyed. apply _. Defined.

(** ** Facts on maps built from tables *)

Section tables.
Context {A K V : Type} `{Countable K} (key : A → K) (val : A → V).
Implicit Types (l : list A) (k : K).

Lemma rows_affected_first `{!EqDecision A} cfr (P : A → Prop) `{!∀ x, Decision (P x)} f l :
  rows_affected cfr P f l ≠ 0%nat → is_Some (sql_first P l).
Proof.
  destruct (sql_first P l) eqn:E; [eauto|]. apply rows_matched_0 in E. intros [].
  destruct cfr; simpl; [done|]. pose proof (rows_changed_le_matched P f l). lia.
Qed.

(** A lookup in the map is the first row with the key. *)
Lemma lookup_table l k :
  (list_to_map (entry key val <$> l) : gmap K V) !! k = val <$> sql_first (λ r, key r = k) l.
Proof.
  unfold sql_first. induction l as [|r l IH]; [done|]. csimpl.
  destruct (decide (key r = k)) as [<-|Hk].
  - by rewrite lookup_insert_eq, filter_cons_True.
  - by rewrite lookup_insert_ne, filter_cons_False.
Qed.

(** INSERT of a row with a new key is an insertion in the map. *)
Lemma table_insert l r :
  key r ∉ key <$> l →
  (list_to_map (entry key val <$> sql_insert r l) : gmap K V)
  = <[key r := val r]> (list_to_map (entry key val <$> l)).
Proof.
  intros Hfresh. apply map_eq. intros k.
  rewrite lookup_table, sql_first_insert, lookup_insert, lookup_table.
  destruct (decide (key r = k)) as [<-|Hk].
  - destruct (sql_first _ l) as [r'|] eqn:E; [|done].
    apply sql_first_Some in E as [Hr' Hin]. destruct Hfresh.
    rewrite <-Hr'. by apply list_elem_of_fmap_2.
  - by destruct (sql_first _ l).
Qed.

(** UPDATE of the rows with a key, by a function that keeps the key, is an
    insertion of the new value of the first of them. *)
Lemma table_update l k (f : A → A) r :
  (∀ r, key (f r) = key r) →
  sql_first (λ r, key r = k) l = Some r →
  (list_to_map (entry key val <$> sql_update (λ r, key r = k) f l) : gmap K V)
  = <[k := val (f r)]> (list_to_map (entry key val <$> l)).
Proof.
  intros Hkey Hr. apply map_eq. intros k'.
  rewrite lookup_table, lookup_insert, lookup_table.
  rewrite (sql_first_update _ (λ r, key r = k')) by (intros; by rewrite Hkey).
  destruct (decide (k = k')) as [<-|Hk].
  - rewrite Hr. simpl. apply sql_first_Some in Hr as [Hr _]. by case_decide.
  - destruct (sql_first (λ r, key r = k') l) as [r'|] eqn:E; [|done]. simpl.
    apply sql_first_Some in E as [Hr' _]. case_decide; [congruence|done].
Qed.

(** With distinct keys the map holds the rows of the table, each once. *)
Lemma table_elements l :
  NoDup (key <$> l) → (map_to_list (list_to_map (entry key val <$> l) : gmap K V)).*2 ≡ₚ val <$> l.
Proof.
  intros Hnd. rewrite map_to_list_to_map.
  - by rewrite <-list_fmap_compose.
  - by rewrite <-list_fmap_compose.
Qed.

End tables.

(** ** The abstraction and the parts of a database *)

Lemma abs_skip_fault s : abs (skip_fault s) = abs s.
Proof. by destruct s. Qed.

Lemma abs_same_data s s' : same_data s s' → abs s = abs s'.
Proof.
  intros (Hb & Hr & Hh & _)%same_data_fields. unfold abs, MySQLStore.history.
  by rewrite Hb, Hr, Hh.
Qed.

Lemma lookup_abs_backends name s : sp_backends (abs s) !! name = backend_by_name name s.
Proof. apply (lookup_table bk_name scan_backend). Qed.

Lemma lookup_abs_routes id s : sp_routes (abs s) !! id = route_by_id id s.
Proof. apply (lookup_table rt_id scan_route). Qed.

Lemma abs_failed {A} s (e : error) : failed (abs s) (Err e : Result A) (abs (skip_fault s)).
Proof. split; [apply abs_skip_fault|by exists e]. Qed.

Lemma keyed_skip_fault s : keyed s → keyed (skip_fault s).
Proof. intros [Hwf Hu]. split; [by apply wf_skip_fault|by destruct s]. Qed.

(** ** Reads *)

Lemma refines_GetBackends enabled s :
  keyed s → spec (OpGetBackends enabled) (abs s) (GetBackends enabled s).1
              (abs (GetBackends enabled s).2).
Proof.
  intros [((_ & Hrows & _ & Hnames) & _) Hu]. unfold GetBackends. method_cases s.
  { left. apply abs_failed. }
  right. eexists. split; [done|]. split; [apply abs_skip_fault|]. split.
  - unfold abs. simpl. rewrite (table_elements bk_name scan_backend) by auto.
    rewrite order_by_perm. unfold sql_where.
    rewrite (filter_fmap_ext scan_backend _
               (λ b, enabled_matches enabled (Backend_Enabled b))); [done|].
    eapply Forall_impl; [done|]. intros r. apply enabled_is_scan.
  - eapply Sorted_fmap; [|apply order_by_sorted; apply _]. by intros r1 r2.
Qed.

Lemma route_enabled_is_scan enabled next clock r :
  route_row_ok next clock r →
  enabled_is enabled (rt_enabled r) ↔ enabled_matches enabled (Route_Enabled (scan_route r)).
Proof.
  intros (_ & Hen & _). destruct enabled as [[]|]; simpl; [..|done];
    case_bool_decide; split; (done || lia).
Qed.

Lemma refines_GetRoutes enabled s :
  keyed s → spec (OpGetRoutes enabled) (abs s) (GetRoutes enabled s).1
              (abs (GetRoutes enabled s).2).
Proof.
  intros [(_ & (_ & Hrows & Hids) & _) Hu]. unfold GetRoutes. method_cases s.
  { left. apply abs_failed. }
  right. eexists. split; [done|]. split; [apply abs_skip_fault|]. split.
  - unfold abs. simpl. rewrite (table_elements rt_id scan_route) by auto.
    rewrite order_by_perm. unfold sql_where.
    rewrite (filter_fmap_ext scan_route _
               (λ r, enabled_matches enabled (Route_Enabled r))); [done|].
    eapply Forall_impl; [done|]. intros r. apply route_enabled_is_scan.
  - eapply Sorted_fmap; [|apply order_by_sorted; apply _]. by intros r1 r2.
Qed.

Lemma refines_GetBackendByName name s :
  spec (OpGetBackendByName name) (abs s) (GetBackendByName name s).1
    (abs (GetBackendByName name s).2).
Proof.
  rewrite GetBackendByName_spec. simpl. destruct (next_fault s); [left; apply abs_failed|].
  right. eexists. split; [done|]. by rewrite abs_skip_fault, lookup_abs_backends.
Qed.

Lemma refines_GetRouteByID id s :
  spec (OpGetRouteByID id) (abs s) (GetRouteByID id s).1 (abs (GetRouteByID id s).2).
Proof.
  rewrite GetRouteByID_spec. simpl. destruct (next_fault s); [left; apply abs_failed|].
  right. eexists. split; [done|]. by rewrite abs_skip_fault, lookup_abs_routes.
Qed.

Lemma refines_GetHistory ty id limit offset s :
  spec (OpGetHistory ty id limit offset) (abs s) (GetHistory ty id limit offset s).1
    (abs (GetHistory ty id limit offset s).2).
Proof.
  rewrite (abs_same_data _ _ (GetHistory_state ty id limit offset s)).
  unfold GetHistory. method_cases s; [left; split; eauto|].
  method_cases (skip_fault s); [left; split; eauto|].
  right. eexists. split; [done|]. split; [done|]. simpl. split.
  - unfold sql_count, MySQLStore.history. do 2 f_equal.
    rewrite <-(filter_fmap_ext scan_history (history_where ty id) (history_matches ty id));
      [by rewrite length_fmap|].
    apply Forall_forall. intros r _. apply history_where_scan.
  - eexists (scan_history <$> order_by _ (sql_where (history_where ty id) _)).
    split_and!; [| |unfold limit_offset; by rewrite fmap_take, fmap_drop].
    + rewrite order_by_perm. unfold sql_where, MySQLStore.history.
      by rewrite (filter_fmap_ext scan_history (history_where ty id) (history_matches ty id))
        by (apply Forall_forall; intros r _; apply history_where_scan).
    + eapply Sorted_fmap; [|apply order_by_sorted; apply _]. by intros r1 r2.
Qed.

(** ** Writes *)

Lemma abs_with_backends l s :
  abs (with_backends l s) = set_backends (list_to_map (entry bk_name scan_backend <$> l)) (abs s).
Proof. by destruct s. Qed.

Lemma abs_with_routes l s :
  abs (with_routes l s) = set_routes (list_to_map (entry rt_id scan_route <$> l)) (abs s).
Proof. by destruct s. Qed.

(** The state after the round trip stands for the state before it. *)
Ltac after_round_trip s :=
  rewrite round_trip_spec; destruct (next_fault s); cbn [fst snd];
    [left; apply abs_failed|];
  rewrite <-(abs_skip_fault s);
  try match goal with H : keyed s |- _ => apply keyed_skip_fault in H end;
  generalize dependent (skip_fault s); clear dependent s; intros s.

Lemma refines_UpdateBackend name backend s :
  spec (OpUpdateBackend name backend) (abs s) (UpdateBackend name backend s).1
    (abs (UpdateBackend name backend s).2).
Proof.
  unfold UpdateBackend. after_round_trip s. case_decide as Hn; simpl.
  { left. rewrite (rows_affected_0 _ _ _ _ Hn), with_backends_id. split; eauto. }
  right. eexists. split; [done|]. destruct (rows_affected_first _ _ _ _ Hn) as [r Hr].
  exists (scan_backend r), (now s). rewrite lookup_abs_backends. unfold backend_by_name.
  rewrite Hr. split_and!; [done..|]. rewrite abs_with_backends. f_equal.
  erewrite table_update; [|done|exact Hr].
  rewrite scan_set_backend. apply sql_first_Some in Hr as [<- _]. by destruct backend.
Qed.

Lemma refines_DeleteBackend name s :
  spec (OpDeleteBackend name) (abs s) (DeleteBackend name s).1 (abs (DeleteBackend name s).2).
Proof.
  unfold DeleteBackend. after_round_trip s. case_decide as Hn; simpl.
  { left. rewrite (rows_affected_0 _ _ _ _ Hn), with_backends_id. split; eauto. }
  right. eexists. split; [done|]. destruct (rows_affected_first _ _ _ _ Hn) as [r Hr].
  exists (scan_backend r), (now s). rewrite lookup_abs_backends. unfold backend_by_name.
  rewrite Hr. split; [done|]. rewrite abs_with_backends. f_equal.
  by erewrite table_update; [|done|exact Hr].
Qed.

Lemma refines_UpdateRoute id route s :
  spec (OpUpdateRoute id route) (abs s) (UpdateRoute id route s).1
    (abs (UpdateRoute id route s).2).
Proof.
  unfold UpdateRoute. after_round_trip s. case_decide as Hn; simpl.
  { left. rewrite (rows_affected_0 _ _ _ _ Hn), with_routes_id. split; eauto. }
  right. eexists. split; [done|]. destruct (rows_affected_first _ _ _ _ Hn) as [r Hr].
  exists (scan_route r), (now s). rewrite lookup_abs_routes. unfold route_by_id.
  rewrite Hr. split_and!; [done..|]. rewrite abs_with_routes. f_equal.
  erewrite table_update; [|done|exact Hr].
  rewrite scan_set_route. apply sql_first_Some in Hr as [<- _]. by destruct route.
Qed.

Lemma refines_DeleteRoute id s :
  spec (OpDeleteRoute id) (abs s) (DeleteRoute id s).1 (abs (DeleteRoute id s).2).
Proof.
  unfold DeleteRoute. after_round_trip s. case_decide as Hn; simpl.
  { left. rewrite (rows_affected_0 _ _ _ _ Hn), with_routes_id. split; eauto. }
  right. eexists. split; [done|]. destruct (rows_affected_first _ _ _ _ Hn) as [r Hr].
  exists (scan_route r), (now s). rewrite lookup_abs_routes. unfold route_by_id.
  rewrite Hr. split; [done|]. rewrite abs_with_routes. f_equal.
  by erewrite table_update; [|done|exact Hr].
Qed.

Lemma abs_counters nb nr nh s :
  abs (with_backends_auto_increment nb s) = abs s ∧
  abs (with_routes_auto_increment nr s) = abs s ∧
  sp_backends (abs (with_config_history_auto_increment nh s)) = sp_backends (abs s).
Proof. by destruct s. Qed.

Lemma refines_CreateBackend backend s :
  keyed s →
  spec (OpCreateBackend backend) (abs s) (CreateBackend backend s).1
    (abs (CreateBackend backend s).2).
Proof.
  intros Hk. unfold CreateBackend. after_round_trip s. intros [Hwf Hu]. rewrite Hu. cbn [andb].
  case_bool_decide as Hdup; simpl; [left; split; eauto|].
  right. eexists. split; [done|]. exists (backends_auto_increment s), (now s).
  apply eq_None_not_Some in Hdup. rewrite lookup_abs_backends. unfold backend_by_name at 1.
  rewrite Hdup. split_and!; [done| |done|].
  - intros name b. rewrite lookup_abs_backends. unfold backend_by_name.
    intros [r [Hr ->]]%fmap_Some. apply sql_first_Some in Hr as [_ Hr].
    destruct Hwf as ((_ & Hrows & _) & _). rewrite Forall_forall in Hrows.
    destruct (Hrows r Hr) as [? _]. simpl. lia.
  - rewrite (proj1 (abs_counters _ 0%N 0%N _)), abs_with_backends. f_equal.
    rewrite table_insert, scan_new_backend_row; [done|].
    intros (r & Hname & Hr)%list_elem_of_fmap. by eapply sql_first_None in Hdup.
Qed.

Lemma refines_CreateRoute route s :
  keyed s →
  spec (OpCreateRoute route) (abs s) (CreateRoute route s).1 (abs (CreateRoute route s).2).
Proof.
  intros Hk. unfold CreateRoute. after_round_trip s. intros [Hwf Hu].
  right. eexists. split; [done|]. exists (routes_auto_increment s), (now s).
  pose proof (route_by_id_fresh s _ Hwf (reflexivity _)) as Hfresh.
  rewrite lookup_abs_routes. split_and!; [done..|].
  rewrite (proj1 (proj2 (abs_counters 0%N _ 0%N _))), abs_with_routes. f_equal.
  rewrite table_insert, scan_new_route_row; [done|].
  intros (r & Hid & Hr)%list_elem_of_fmap. apply fmap_None in Hfresh.
  by eapply sql_first_None in Hfresh.
Qed.

Lemma refines_CreateHistory h s :
  spec (OpCreateHistory h) (abs s) (CreateHistory h s).1 (abs (CreateHistory h s).2).
Proof.
  unfold CreateHistory. after_round_trip s.
  right. eexists. split; [done|]. exists (config_history_auto_increment s), (now s).
  destruct s. unfold abs, set_history, MySQLStore.history, sql_insert. simpl.
  by rewrite fmap_app.
Qed.

(** ** The refinement *)

(** Every call of every method is one the contract allows. *)
Lemma exec_refines {X} (op : StoreOp X) (s : t) :
  keyed s → spec op (abs s) (exec op s).1 (abs (exec op s).2).
Proof.
  intros Hk. destruct op; cbn.
  - by apply refines_GetBackends.
  - apply refines_GetBackendByName.
  - by apply refines_CreateBackend.
  - apply refines_UpdateBackend.
  - apply refines_DeleteBackend.
  - by apply refines_GetRoutes.
  - apply refines_GetRouteByID.
  - by apply refines_CreateRoute.
  - apply refines_UpdateRoute.
  - apply refines_DeleteRoute.
  - apply refines_CreateHistory.
  - apply refines_GetHistory.
Qed.

Lemma keyed_exec {X} (op : StoreOp X) (s : t) : keyed s → keyed (exec op s).2.
Proof.
  intros [Hwf Hu]. split; [by apply wf_exec|].
  by destruct (exec_frame op s) as (_ & _ & -> & _).
Qed.

(** Every run of a program over a store that implements the contract is a
    run the contract allows. *)
Lemma run_spec `{Implements St} {R} (p : Prog R) (s : St) :
  valid s → spec_path p (abstraction s) (result_of p s) (abstraction (store_after p s)).
Proof.
  unfold result_of, store_after. revert s.
  induction p as [r|X op k IH|e k IH]; intros s Hk; cbn.
  - done.
  - destruct (exec op s) as [x s'] eqn:E. exists x, (abstraction s'). split.
    + pose proof (exec_spec op s Hk) as Hs. by rewrite E in Hs.
    + apply IH. pose proof (valid_exec op s Hk) as Hk'. by rewrite E in Hk'.
  - specialize (IH s Hk). by destruct (run k s) as [[r s'] l].
Qed.

#[global] Instance mysql_implements : Implements t := {|
  valid := keyed;
  abstraction := abs;
  valid_exec := @keyed_exec;
  exec_spec := @exec_refines;
|}.

(** C13: every run of every program over MySQLStore, from a well-formed
    database whose schema has the unique key on backend names, is a run the
    contract of the Store interface allows between the abstract states the
    databases stand for. *)
Theorem run_refines {R} (p : Prog R) (s : t) :
  keyed s → spec_path p (abs s) (result_of p s) (abs (store_after p s)).
Proof. apply (run_spec (H := mysql_implements) p s). Qed.

Lemma run_refines_witness :
  spec_path (call (OpDeleteBackend "user")) (abs example_db)
    (result_of (call (OpDeleteBackend "user")) example_db)
    (abs (store_after (call (OpDeleteBackend "user")) example_db)).
Proof. apply run_refines. apply (bool_decide_unpack _). by vm_compute. Defined.

(** Without the unique key on the name the refinement fails: on a
    well-formed database CreateBackend answers success for a name that is
    taken, which the contract does not allow. *)
Theorem refinement_needs_unique_key :
  wf example_no_key ∧
  ∃ b, (exec (OpCreateBackend b) example_no_key).1 = Ok (Backend_with_ID 3 b) ∧
    ¬ spec (OpCreateBackend b) (abs example_no_key)
        (exec (OpCreateBackend b) example_no_key).1
        (abs (exec (OpCreateBackend b) example_no_key).2).
Proof.
  split; [apply (bool_decide_unpack _); by vm_compute|].
  exists (mkBackend 0 "user" "10.0.0.1:1" "" true 1002 1002). split; [done|].
  intros [[_ [e He]]|(v & _ & id & ts & Hnone & _)]; [done|].
  by vm_compute in Hnone.
Qed.

(** ** What a client gets from the contract alone *)

#[global] Instance grows_preorder : PreOrder grows.
Proof.
  split; [by intros a; split_and!; eauto|].
  intros a1 a2 a3 (Hb & Hr & Hh) (Hb' & Hr' & Hh'). split_and!; [| |by etrans].
  - intros name b (b' & Hl & Hid & Hc)%Hb. destruct (Hb' _ _ Hl) as (b'' & ? & ? & ?).
    exists b''. split_and!; [done|congruence..].
  - intros id r (r' & Hl & Hc)%Hr. destruct (Hr' _ _ Hl) as (r'' & ? & ?).
    exists r''. split; [done|congruence].
Qed.

Lemma grows_backend name b a :
  (∀ old, sp_backends a !! name = Some old →
     Backend_ID b = Backend_ID old ∧ Backend_CreatedAt b = Backend_CreatedAt old) →
  grows a (set_backends (<[name := b]> (sp_backends a)) a).
Proof.
  intros Hold. split_and!; [|by eauto|done]. intros n b0 Hn. simpl.
  destruct (decide (n = name)) as [->|]; [|rewrite lookup_insert_ne by done; eauto].
  rewrite lookup_insert_eq. destruct (Hold _ Hn). eauto.
Qed.

Lemma grows_route id r a :
  (∀ old, sp_routes a !! id = Some old → Route_CreatedAt r = Route_CreatedAt old) →
  grows a (set_routes (<[id := r]> (sp_routes a)) a).
Proof.
  intros Hold. split_and!; [by eauto| |done]. intros n r0 Hn. simpl.
  destruct (decide (n = id)) as [->|]; [|rewrite lookup_insert_ne by done; eauto].
  rewrite lookup_insert_eq. eauto.
Qed.

Lemma spec_grows {X} (op : StoreOp X) a x a' : spec op a x a' → grows a a'.
Proof.
  destruct op; simpl; (intros [[-> _]|(v & _ & Hok)]; [done|]);
    try (destruct Hok as [-> _]; done).
  - destruct Hok as (id & ts & Hnone & _ & _ & ->). apply grows_backend. congruence.
  - destruct Hok as (old & ts & Hold & -> & ->). apply grows_backend.
    intros ? ?. by simplify_eq.
  - destruct Hok as (old & ts & Hold & ->). apply grows_backend. intros ? ?. by simplify_eq.
  - destruct Hok as (id & ts & Hnone & _ & ->). apply grows_route. congruence.
  - destruct Hok as (old & ts & Hold & -> & ->). apply grows_route.
    intros ? ?. by simplify_eq.
  - destruct Hok as (old & ts & Hold & ->). apply grows_route. intros ? ?. by simplify_eq.
  - destruct Hok as (id & ts & ->). split_and!; [by eauto..|]. by apply prefix_app_r.
Qed.

(** Whatever implements the contract, no run the contract allows
    removes a backend or a route, changes an id or a creation time, or
    rewrites the audit trail. *)
Theorem spec_path_grows {R} (p : Prog R) a r a' : spec_path p a r a' → grows a a'.
Proof.
  revert a. induction p as [r0|X op k IH|e k IH]; intros a; simpl.
  - by intros [_ ->].
  - intros (x & a1 & Hop%spec_grows & Hk%IH). by etrans.
  - apply IH.
Qed.

Lemma spec_path_grows_witness :
  grows (abs example_db)
    (set_history (sp_history (abs example_db) ++
                    [mkConfigHistory 4 "backend" (Some 1%N) "DELETE" None None "bob" 1002])
       (abs example_db)).
Proof.
  apply (spec_path_grows
           (call (OpCreateHistory
                    (mkConfigHistory 0 "backend" (Some 1%N) "DELETE" None None "bob" 0)))
           _ (Ok tt)).
  eexists (Ok tt), _. split; [|done]. right. eexists. split; [done|]. by exists 4%N, 1002.
Defined.

End StoreSpec.
