(* ===== verification/Http.v ===== *)
(** * What a handler sees of a request and writes as a response

    The transport is chi and net/http; the handlers use four things of a
    request -- URL parameters ([chi.URLParam]), query values
    ([r.URL.Query()]), the X-Operator header and the body -- and write a
    status, a content type and a body.  [Request] and [Response] hold
    exactly these.  The body of a request is given parsed: [None] stands for
    text [json.Decoder] refuses.  [Incoming] is a request before the router
    has read it: its method, its path and the rest.

    Also here: the parsers of strconv the handlers call on parameters. *)

From S2P Require Import Prelude Json.
From Stdlib Require Import Ascii.

#[local] Open Scope Z_scope.

Record Request : Type := mkRequest {
  req_params : list (string * string);
  req_query : list (string * string);
  req_headers : list (string * string);
  req_body : option json;
}.

(** A request as it reaches the server: the method and the path of its
    URL, and the rest.  The router binds the URL parameters. *)
Record Incoming : Type := mkIncoming {
  in_method : string;
  in_path : string;
  in_request : Request;
}.

(** What [w] has received when the handler returns. *)
Inductive Body : Type :=
| NoBody
| Line (msg : string)
| Json (j : json).

Record Response : Type := mkResponse {
  resp_status : Z;
  resp_content_type : string;
  resp_body : Body;
}.

#[global] Instance Body_eq_dec : EqDecision Body.
Proof. solve_decision. Defined.

#[global] Instance Response_eq_dec : EqDecision Response.
Proof. solve_decision. Defined.

Definition StatusOK : Z := 200.
Definition StatusCreated : Z := 201.
Definition StatusNoContent : Z := 204.
Definition StatusBadRequest : Z := 400.
Definition StatusNotFound : Z := 404.
Definition StatusConflict : Z := 409.
Definition StatusInternalServerError : Z := 500.

(** The first value bound to a key, or the empty string. *)
Definition values_Get (k : string) (vs : list (string * string)) : string :=
  default "" (snd <$> (snd <$> list_find (λ p, p.1 = k) vs)).

Definition values_Has (k : string) (vs : list (string * string)) : bool :=
  bool_decide (k ∈ vs.*1).

(** [chi.URLParam(r, key)] *)
Definition URLParam (r : Request) (key : string) : string :=
  values_Get key (req_params r).

(** [r.URL.Query().Get(key)] and [r.URL.Query().Has(key)] *)
Definition Query_Get (r : Request) (key : string) : string :=
  values_Get key (req_query r).

Definition Query_Has (r : Request) (key : string) : bool :=
  values_Has key (req_query r).

(** [r.Header.Get(key)], for a key in canonical form. *)
Definition Header_Get (r : Request) (key : string) : string :=
  values_Get key (req_headers r).

(** [http.Error(w, msg, code)] *)
Definition http_Error (msg : string) (code : Z) : Response :=
  mkResponse code "text/plain; charset=utf-8" (Line msg).

(** [Content-Type: application/json], [w.WriteHeader(code)], then
    [json.NewEncoder(w).Encode(v)]. *)
Definition write_json (code : Z) (j : json) : Response :=
  mkResponse code "application/json" (Json j).

(** [w.WriteHeader(code)] and nothing else. *)
Definition write_status (code : Z) : Response := mkResponse code "" NoBody.

(** [json.NewDecoder(r.Body).Decode(&v)] for a struct [v] that starts as
    [zero]. *)
Definition decode_body {T} (fs : list (string * setter T)) (zero : T) (r : Request) :
    Result T :=
  match req_body r with
  | None => Err "invalid character"
  | Some j => decode_struct fs j zero
  end.

(** [json.NewDecoder(r.Body).Decode(&m)] for [m map[string]interface{}]. *)
Definition decode_body_map (r : Request) : Result (gmap string json) :=
  match req_body r with
  | None => Err "invalid character"
  | Some j => decode_map j
  end.

(** ** strconv *)

(** [strconv.ParseBool] *)
Definition ParseBool (s : string) : Result bool :=
  if bool_decide (s ∈ ["1"; "t"; "T"; "TRUE"; "true"; "True"]) then Ok true
  else if bool_decide (s ∈ ["0"; "f"; "F"; "FALSE"; "false"; "False"]) then Ok false
  else Err "strconv.ParseBool: invalid syntax".

Definition digit_of (c : ascii) : option Z :=
  let n := Z.of_nat (nat_of_ascii c) in
  if bool_decide (48 ≤ n ≤ 57) then Some (n - 48) else None.

(** The value of a string of decimal digits, most significant first. *)
Fixpoint digits_value (acc : Z) (s : string) : option Z :=
  match s with
  | EmptyString => Some acc
  | String c s' =>
      match digit_of c with
      | Some d => digits_value (10 * acc + d) s'
      | None => None
      end
  end.

(** [strconv.ParseUint(s, 10, bitSize)]: decimal digits only, no sign, not
    empty, value below 2^bitSize. *)
Definition ParseUint (s : string) (bitSize : Z) : Result N :=
  match s with
  | EmptyString => Err "strconv.ParseUint: invalid syntax"
  | _ =>
      match digits_value 0 s with
      | None => Err "strconv.ParseUint: invalid syntax"
      | Some v =>
          if bool_decide (v < 2 ^ bitSize) then Ok (Z.to_N v)
          else Err "strconv.ParseUint: value out of range"
      end
  end.

(** [strconv.Atoi]: an optional sign, then decimal digits; 64 bits. *)
Definition Atoi (s : string) : Result Z :=
  let '(neg, body) :=
    match s with
    | String "-" s' => (true, s')
    | String "+" s' => (false, s')
    | _ => (false, s)
    end in
  match body with
  | EmptyString => Err "strconv.Atoi: invalid syntax"
  | _ =>
      match digits_value 0 body with
      | None => Err "strconv.Atoi: invalid syntax"
      | Some v =>
          let n := if neg then - v else v in
          if bool_decide (- 2 ^ 63 ≤ n < 2 ^ 63) then Ok n
          else Err "strconv.Atoi: value out of range"
      end
  end.

(** ** Facts *)

Lemma values_Has_Get k vs : values_Has k vs = false → values_Get k vs = "".
Proof.
  unfold values_Has, values_Get. intros Hk%bool_decide_eq_false.
  destruct (list_find _ vs) as [[i [k' v]]|] eqn:E; [|done].
  apply list_find_Some in E as (E & Hk' & _). simpl in Hk'.
  destruct Hk. apply list_elem_of_fmap. exists (k', v). split; [done|].
  by eapply list_elem_of_lookup_2.
Qed.

Lemma digits_value_nonneg s acc v : 0 ≤ acc → digits_value acc s = Some v → 0 ≤ v.
Proof.
  revert acc. induction s as [|c s IH]; intros acc Hacc; simpl; [by intros [= <-]|].
  unfold digit_of. case_bool_decide; [|done]. apply IH. lia.
Qed.

(** A parsed unsigned number is below the bound asked for. *)
Lemma ParseUint_bound s bitSize n :
  ParseUint s bitSize = Ok n → (Z.of_N n < 2 ^ bitSize).
Proof.
  unfold ParseUint. destruct s as [|c s]; [done|].
  destruct (digits_value 0 _) as [v|] eqn:Hv; [|done].
  case_bool_decide; [|done]. intros [= <-].
  apply digits_value_nonneg in Hv; [|done]. by rewrite Z2N.id.
Qed.

Lemma Atoi_bound s n : Atoi s = Ok n → - 2 ^ 63 ≤ n < 2 ^ 63.
Proof.
  unfold Atoi. destruct (match s with String "-" s' => _ | _ => _ end) as [neg body].
  destruct body; [done|]. destruct (digits_value 0 _); [|done].
  case_bool_decide; [|done]. by intros [= <-].
Qed.

Lemma ParseBool_cases s b :
  ParseBool s = Ok b →
  s ∈ (if b then ["1"; "t"; "T"; "TRUE"; "true"; "True"]
       else ["0"; "f"; "F"; "FALSE"; "false"; "False"]).
Proof. unfold ParseBool. repeat case_bool_decide; naive_solver. Qed.

(** Compare the status of a response that is known. *)
Ltac status_lia :=
  intros; cbn in *;
  unfold StatusOK, StatusCreated, StatusNoContent, StatusBadRequest,
    StatusNotFound, StatusConflict, StatusInternalServerError in *; cbn in *; lia.
