(* ===== verification/Handler.v ===== *)
(** * What the handlers share

    backend.go and route.go each carry a copy of [recordHistory] and of the
    parsing of the [enabled] query parameter, word for word the same but for
    the type of the values recorded.  The copies are instances of
    [record_history] and [enabled_filter] below; the facts proved here about
    them serve both handlers.

    The facts are about runs on [MySQLStore]: what recording does to the
    audit trail and to nothing else, on a store that fails and on one that
    does not. *)

From S2P Require Import Prelude Json Entity Sql StoreApi StoreMySQL Http.
Import MySQLStore.

#[local] Set Warnings "-clear-no-such-hyp".
#[local] Open Scope Z_scope.
#[global] Arguments exec : simpl never.

Section record.
Context {T : Type} (marshal : T → json).

(** The entry [recordHistory] builds: [json.Marshal] of a struct of this
    program cannot fail, so a value that is given is always recorded. *)
Definition history_entry (configType : string) (configID : option N)
    (operation : string) (oldVal newVal : option T) (r : Request) : ConfigHistory :=
  mkConfigHistory 0 configType configID operation
    (marshal <$> oldVal) (marshal <$> newVal)
    (Header_Get r "X-Operator") zero_time.

(** [h.recordHistory(configType, configID, operation, oldVal, newVal, r)] *)
Definition record_history (configType : string) (configID : option N)
    (operation : string) (oldVal newVal : option T) (r : Request) : Prog unit :=
  res <- call (OpCreateHistory
                 (history_entry configType configID operation oldVal newVal r)) ;;
  match res with
  | Err err => logger_Warn "failed to record history" [zap_Error err]
  | Ok _ => Ret tt
  end.

End record.

#[global] Arguments record_history : simpl never.

(** The line logged when the entry cannot be stored. *)
Definition history_warning (res : Result unit) : list LogEntry :=
  match res with
  | Err err => [mkLogEntry WarnLevel "failed to record history" [zap_Error err]]
  | Ok _ => []
  end.

(** The [enabled] query parameter of the two list endpoints: absent or
    empty for no filter, else a boolean. *)
Definition enabled_filter (r : Request) : Result (option bool) :=
  let enabledParam := Query_Get r "enabled" in
  if decide (enabledParam = "") then Ok None
  else result_map Some (ParseBool enabledParam).

Definition internal_server_error : Response :=
  http_Error "internal server error" StatusInternalServerError.

(** How an error of an update or a delete is answered: by its text. *)
Definition not_found_or_500 (notFound : string) (err : error) : Response :=
  if decide (err = notFound) then http_Error notFound StatusNotFound
  else internal_server_error.

(** Whether the update names [enabled], and the value it gives: a member
    that is not a boolean counts as [false]. *)
Definition enabled_of_map (m : gmap string json) : option bool :=
  match m !! "enabled" with
  | Some (JBool b) => Some b
  | Some _ => Some false
  | None => None
  end.

(** What the audit trail and the log show of a request: one new entry and
    no warning, or no entry and the warning. *)
Definition audited (configType operation operator : string) (s s' : t)
    (logs : list LogEntry) : Prop :=
  (∃ h, history s' = history s ++ [h] ∧ logs = [] ∧
        ConfigHistory_ConfigType h = configType ∧
        ConfigHistory_Operation h = operation ∧
        ConfigHistory_Operator h = operator) ∨
  (∃ err, history s' = history s ∧ logs = history_warning (Err err)).

(** ** Facts *)

Lemma not_found_or_500_status notFound err :
  400 ≤ resp_status (not_found_or_500 notFound err).
Proof. unfold not_found_or_500. by case_decide. Qed.

(** The audit of a request does not depend on the failure schedule it started with. *)
Lemma audited_same_data ty operation operator (s0 s s' : t) logs :
  same_data s0 s → audited ty operation operator s0 s' logs →
  audited ty operation operator s s' logs.
Proof. intros Hs. unfold audited. by rewrite (history_proper _ _ Hs). Qed.

Section record_facts.
Context {T : Type} (marshal : T → json).
Implicit Types (ty operation : string) (id : option N) (oldVal newVal : option T).

(** Recording is one call; its failure is a log line. *)
Lemma run_recordHistory {St} `{!Store St} {R} ty id operation oldVal newVal r
    (k : Prog R) (s : St) :
  run (record_history marshal ty id operation oldVal newVal r ;;; k) s =
  let x := exec (OpCreateHistory (history_entry marshal ty id operation oldVal newVal r)) s in
  ((run k x.2).1.1, (run k x.2).1.2, history_warning x.1 ++ (run k x.2).2).
Proof.
  unfold record_history. simpl. destruct (exec _ s) as [[[]|err] s']; simpl;
    by destruct (run k s') as [[??]?].
Qed.

Lemma recordHistory_audited {R} ty id operation oldVal newVal r (resp : R) (s0 s : t) :
  history s = history s0 →
  audited ty operation (Header_Get r "X-Operator") s0
    (store_after (record_history marshal ty id operation oldVal newVal r ;;; Ret resp) s)
    (logs_of (record_history marshal ty id operation oldVal newVal r ;;; Ret resp) s).
Proof.
  intros Hs. unfold store_after, logs_of. rewrite run_recordHistory. cbn.
  destruct (exec_history_cases (history_entry marshal ty id operation oldVal newVal r) s)
    as [(err & -> & Hsd)|[-> Hh]]; cbn; [right|left].
  - exists err. by rewrite Hsd.
  - eexists. by rewrite Hh, Hs.
Qed.

(** Recording touches neither the tables of backends and routes nor the
    clock, the driver's flag or an empty failure schedule. *)
Lemma recordHistory_frame {R} ty id operation oldVal newVal r (resp : R) (s : t) :
  let s' := store_after (record_history marshal ty id operation oldVal newVal r ;;; Ret resp) s in
  backends s' = backends s ∧ routes s' = routes s ∧ now s' = now s ∧
  clientFoundRows s' = clientFoundRows s ∧ (faults s = [] → faults s' = []).
Proof.
  unfold store_after. rewrite run_recordHistory. cbn.
  destruct (exec_frame (OpCreateHistory (history_entry marshal ty id operation oldVal newVal r)) s)
    as (?&?&?&?&Hb&Hr&_). by destruct Hb, Hr.
Qed.

Lemma recordHistory_backend_names {R} ty id operation oldVal newVal r (resp : R) (s : t) :
  backend_names
    (store_after (record_history marshal ty id operation oldVal newVal r ;;; Ret resp) s)
  = backend_names s.
Proof.
  unfold backend_names.
  by destruct (recordHistory_frame ty id operation oldVal newVal r resp s) as (-> & _).
Qed.

(** On a store that does not fail, the entry is stored and nothing is logged. *)
Lemma recordHistory_ok {R} ty id operation oldVal newVal r (resp : R) (s : t) :
  faults s = [] →
  let p := (record_history marshal ty id operation oldVal newVal r ;;; Ret resp) in
  result_of p s = resp ∧ logs_of p s = [] ∧
  history (store_after p s)
  = history s ++ [stored_history (history_entry marshal ty id operation oldVal newVal r) s].
Proof.
  intros Hf. unfold result_of, logs_of, store_after. rewrite run_recordHistory. cbn.
  destruct (exec_history_cases (history_entry marshal ty id operation oldVal newVal r) s)
    as [(err & Herr & _)|[Hok Hh]]; [|by rewrite Hok].
  exfalso. revert Herr. unfold exec; simpl. unfold CreateHistory.
  by rewrite round_trip_spec, next_fault_nil.
Qed.

(** The same, after a call that has not touched the audit trail. *)
Lemma record_after {X R} (op : StoreOp X) ty id operation oldVal newVal r (resp : R) (s : t) :
  faults s = [] → writes_history op = false →
  let p := (record_history marshal ty id operation oldVal newVal r ;;; Ret resp) in
  let s1 := (exec op s).2 in
  run p s1 = (resp, store_after p s1, []) ∧
  history (store_after p s1)
  = history s ++ [stored_history (history_entry marshal ty id operation oldVal newVal r) s] ∧
  (∀ name, backend_by_name name (store_after p s1) = backend_by_name name s1) ∧
  (∀ n, route_by_id n (store_after p s1) = route_by_id n s1).
Proof.
  intros Hf Hop. cbn zeta. destruct (exec_before_history op s Hf Hop) as (Hf1 & Hh1 & Hst).
  destruct (recordHistory_ok ty id operation oldVal newVal r resp _ Hf1) as (Hr & Hl & Hh).
  destruct (recordHistory_frame ty id operation oldVal newVal r resp (exec op s).2)
    as (Hb & Hrt & _).
  split_and!; [|by rewrite Hh, Hh1, Hst|intros n; unfold backend_by_name; by rewrite Hb
              |intros n; unfold route_by_id; by rewrite Hrt].
  unfold result_of, logs_of, store_after in *.
  destruct (run _ (exec op s).2) as [[??]?]. simpl in *. by subst.
Qed.

End record_facts.

(** The filter of a list endpoint reads the [enabled] parameter alone. *)
Lemma enabled_filter_ext r r' :
  Query_Get r "enabled" = Query_Get r' "enabled" → enabled_filter r = enabled_filter r'.
Proof. unfold enabled_filter. by intros ->. Qed.

(** Fold the parts of a run back into [result_of], [store_after], [logs_of]. *)
Ltac fold_run :=
  repeat match goal with
  | |- context [(run ?p ?s).1.1] => fold (result_of p s)
  | |- context [(run ?p ?s).1.2] => fold (store_after p s)
  | |- context [(run ?p ?s).2] => fold (logs_of p s)
  end.
