(* ===== verification/HandlerBackend.v ===== *)
(** * BackendHandler: the five backend endpoints and the audit recorder

    Module [BackendHandler] translates src/internal/handler/backend.go.
    Each handler is a program over the [Store] interface and the logger
    ([StoreApi.Prog]) that returns the response written to [w]; an early
    [return] of the Go code is a branch that ends in [Ret].

    The theorems are about the handlers run on [MySQLStore]: the merge of a
    partial update with the stored backend, the conflict check of create,
    soft delete, what the audit trail receives, and what a failure of the
    driver at each round trip leads to. *)

From S2P Require Import Prelude Json Entity Sql StoreApi StoreMySQL Http Handler.
Import MySQLStore.

#[local] Set Warnings "-clear-no-such-hyp".

Module BackendHandler.

#[local] Open Scope Z_scope.

(** [(h *BackendHandler) recordHistory]: the values recorded are backends. *)
Definition recordHistory := record_history marshal_Backend.

(** GET /api/v1/backends *)
Definition ListBackends (r : Request) : Prog Response :=
  match enabled_filter r with
  | Err _ => Ret (http_Error "invalid enabled parameter" StatusBadRequest)
  | Ok enabled =>
      res <- call (OpGetBackends enabled) ;;
      match res with
      | Err err =>
          logger_Error "failed to get backends" [zap_Error err] ;;;
          Ret internal_server_error
      | Ok backends =>
          Ret (write_json StatusOK (marshal_slice marshal_Backend backends))
      end
  end.

(** GET /api/v1/backends/{name} *)
Definition GetBackend (r : Request) : Prog Response :=
  let name := URLParam r "name" in
  res <- call (OpGetBackendByName name) ;;
  match res with
  | Err err =>
      logger_Error "failed to get backend" [zap_String "name" name; zap_Error err] ;;;
      Ret internal_server_error
  | Ok None => Ret (http_Error "backend not found" StatusNotFound)
  | Ok (Some backend) => Ret (write_json StatusOK (marshal_Backend backend))
  end.

(** The validation of a new backend. *)
Definition validate_create (backend : Backend) : option Response :=
  if decide (Backend_Name backend = "")
  then Some (http_Error "name is required" StatusBadRequest)
  else if decide (Backend_Addr backend = "")
  then Some (http_Error "addr is required" StatusBadRequest)
  else None.

(** POST /api/v1/backends *)
Definition CreateBackend (r : Request) : Prog Response :=
  match decode_body Backend_fields Backend_zero r with
  | Err _ => Ret (http_Error "invalid json" StatusBadRequest)
  | Ok backend =>
      match validate_create backend with
      | Some resp => Ret resp
      | None =>
          existing <- call (OpGetBackendByName (Backend_Name backend)) ;;
          match existing with
          | Err err =>
              logger_Error "failed to check backend existence" [zap_Error err] ;;;
              Ret internal_server_error
          | Ok (Some _) => Ret (http_Error "backend already exists" StatusConflict)
          | Ok None =>
              let backend :=
                if Query_Has r "enabled" then backend
                else Backend_with_Enabled true backend in
              created <- call (OpCreateBackend backend) ;;
              match created with
              | Err err =>
                  logger_Error "failed to create backend" [zap_Error err] ;;;
                  Ret internal_server_error
              | Ok backend =>
                  recordHistory "backend" (Some (Backend_ID backend)) "CREATE"
                    None (Some backend) r ;;;
                  Ret (write_json StatusCreated (marshal_Backend backend))
              end
          end
      end
  end.

(** The backend an update request asks for, given the stored one: the body
    read as a map, re-encoded and decoded into a fresh struct, [enabled]
    kept from the stored backend unless the map names it, then the address
    checked, then id and name taken from the stored backend and the URL. *)
Definition merge_update (name : string) (oldBackend : Backend) (r : Request) :
    Response + Backend :=
  match decode_body_map r with
  | Err _ => inl (http_Error "invalid json" StatusBadRequest)
  | Ok backendUpdate =>
      match decode_struct Backend_fields (encode_map backendUpdate) Backend_zero with
      | Err _ => inl (http_Error "invalid json" StatusBadRequest)
      | Ok backend =>
          let backend :=
            match enabled_of_map backendUpdate with
            | None => Backend_with_Enabled (Backend_Enabled oldBackend) backend
            | Some enabledValue => Backend_with_Enabled enabledValue backend
            end in
          if decide (Backend_Addr backend = "")
          then inl (http_Error "addr is required" StatusBadRequest)
          else inr (Backend_with_Name name
                      (Backend_with_ID (Backend_ID oldBackend) backend))
      end
  end.

(** PUT /api/v1/backends/{name} *)
Definition UpdateBackend (r : Request) : Prog Response :=
  let name := URLParam r "name" in
  old <- call (OpGetBackendByName name) ;;
  match old with
  | Err err =>
      logger_Error "failed to get backend" [zap_Error err] ;;;
      Ret internal_server_error
  | Ok None => Ret (http_Error "backend not found" StatusNotFound)
  | Ok (Some oldBackend) =>
      match merge_update name oldBackend r with
      | inl resp => Ret resp
      | inr backend =>
          updated <- call (OpUpdateBackend name backend) ;;
          match updated with
          | Err err =>
              logger_Error "failed to update backend" [zap_Error err] ;;;
              Ret (not_found_or_500 "backend not found" err)
          | Ok backend =>
              recordHistory "backend" (Some (Backend_ID backend)) "UPDATE"
                (Some oldBackend) (Some backend) r ;;;
              Ret (write_json StatusOK (marshal_Backend backend))
          end
      end
  end.

(** DELETE /api/v1/backends/{name} *)
Definition DeleteBackend (r : Request) : Prog Response :=
  let name := URLParam r "name" in
  old <- call (OpGetBackendByName name) ;;
  match old with
  | Err err =>
      logger_Error "failed to get backend" [zap_Error err] ;;;
      Ret internal_server_error
  | Ok None => Ret (http_Error "backend not found" StatusNotFound)
  | Ok (Some oldBackend) =>
      deleted <- call (OpDeleteBackend name) ;;
      match deleted with
      | Err err =>
          logger_Error "failed to delete backend" [zap_Error err] ;;;
          Ret (not_found_or_500 "backend not found" err)
      | Ok _ =>
          let oldBackend := Backend_with_Enabled false oldBackend in
          recordHistory "backend" (Some (Backend_ID oldBackend)) "DELETE"
            (Some oldBackend) None r ;;;
          Ret (write_status StatusNoContent)
      end
  end.

(** The five endpoints. *)
Inductive endpoint : Type :=
| EListBackends | EGetBackend | ECreateBackend | EUpdateBackend | EDeleteBackend.

Definition handle (e : endpoint) (r : Request) : Prog Response :=
  match e with
  | EListBackends => ListBackends r
  | EGetBackend => GetBackend r
  | ECreateBackend => CreateBackend r
  | EUpdateBackend => UpdateBackend r
  | EDeleteBackend => DeleteBackend r
  end.

(** ** Examples *)

(** A database with the backend "account", and requests on it. *)
Definition example_store : t :=
  mk [mk_backend_row 1 "account" "127.0.0.1:50051" (Some "login") 1 1000 1000] [] []
     2 1 1 1000 false false [].

(** The same database behind a driver that counts matched rows. *)
Definition example_found_rows : t :=
  mk [mk_backend_row 1 "account" "127.0.0.1:50051" (Some "login") 1 1000 1000] [] []
     2 1 1 1000 true false [].

Definition example_duplicate : Request :=
  mkRequest [] [] []
    (Some (JObj [("name", JStr "account"); ("addr", JStr "127.0.0.1:50052")])).

Definition example_create : Request :=
  mkRequest [] [] [("X-Operator", "alice")]
    (Some (JObj [("name", JStr "user"); ("addr", JStr "127.0.0.1:50052");
                 ("enabled", JBool false)])).

Definition example_update : Request :=
  mkRequest [("name", "account")] [] [("X-Operator", "alice")]
    (Some (JObj [("addr", JStr "127.0.0.1:9999")])).

Definition example_delete : Request :=
  mkRequest [("name", "account")] [] [] None.

(** The backend of [example_store], and what [example_update] makes of it. *)
Definition example_old : Backend :=
  mkBackend 1 "account" "127.0.0.1:50051" "login" true 1000 1000.

Definition example_merged : Backend :=
  mkBackend 1 "account" "127.0.0.1:9999" "" true zero_time zero_time.

Definition example_missing : Request :=
  mkRequest [("name", "nobody")] [] [] None.

Definition example_created : Backend :=
  mkBackend 2 "user" "127.0.0.1:50052" "" true 1000 1000.

#[global] Instance endpoint_eq_dec : EqDecision endpoint.
Proof. solve_decision. Defined.

(** The endpoints that change a backend, and the operation each records. *)
Definition is_mutation (e : endpoint) : bool :=
  match e with
  | ECreateBackend | EUpdateBackend | EDeleteBackend => true
  | _ => false
  end.

Definition operation_of (e : endpoint) : string :=
  match e with
  | ECreateBackend => "CREATE"
  | EUpdateBackend => "UPDATE"
  | EDeleteBackend => "DELETE"
  | _ => ""
  end.

(** ** Running a handler *)

Ltac start_handler :=
  unfold result_of, store_after, logs_of, ListBackends, GetBackend, CreateBackend,
    UpdateBackend, DeleteBackend, recordHistory.

Lemma validate_create_Some backend resp :
  validate_create backend = Some resp → resp_status resp = StatusBadRequest.
Proof. unfold validate_create. repeat case_decide; naive_solver. Qed.

Lemma validate_create_None backend :
  validate_create backend = None ↔ Backend_Name backend ≠ "" ∧ Backend_Addr backend ≠ "".
Proof. unfold validate_create. repeat case_decide; naive_solver. Qed.

Lemma merge_update_inl name oldBackend r resp :
  merge_update name oldBackend r = inl resp → resp_status resp = StatusBadRequest.
Proof. unfold merge_update. repeat case_match; naive_solver. Qed.

Lemma merge_update_inr name oldBackend r backend :
  merge_update name oldBackend r = inr backend →
  ∃ m b0, decode_body_map r = Ok m ∧
    decode_struct Backend_fields (encode_map m) Backend_zero = Ok b0 ∧
    backend = Backend_with_Name name
                (Backend_with_ID (Backend_ID oldBackend)
                   (Backend_with_Enabled
                      (default (Backend_Enabled oldBackend) (enabled_of_map m)) b0)) ∧
    Backend_Addr b0 ≠ "".
Proof.
  unfold merge_update. destruct (decode_body_map r) as [m|]; [|done].
  destruct (decode_struct _ _ _) as [b0|] eqn:Hb0; [|done]. intros Hb. exists m, b0.
  destruct (enabled_of_map m); simpl in *; case_decide; by simplify_eq.
Qed.

Lemma merge_update_ID name oldBackend r backend :
  merge_update name oldBackend r = inr backend → Backend_ID backend = Backend_ID oldBackend.
Proof. by intros (m & b0 & _ & _ & -> & _)%merge_update_inr. Qed.

(** ** The listing *)

(** The listing reads the [enabled] parameter alone: no page is cut. *)
Lemma ListBackends_unpaged r r' :
  Query_Get r "enabled" = Query_Get r' "enabled" → ListBackends r = ListBackends r'.
Proof. intros Hq. unfold ListBackends. by rewrite (enabled_filter_ext r r'). Qed.

(** ** An error response means nothing was written *)

Lemma CreateBackend_error r (s : t) :
  400 ≤ resp_status (result_of (CreateBackend r) s) →
  same_data (store_after (CreateBackend r) s) s.
Proof.
  start_handler.
  destruct (decode_body _ _ r) as [backend|]; [|done].
  destruct (validate_create backend); [done|].
  exec_step; [|by auto]. destruct a; [by auto|].
  exec_step; [|intros _; etrans; eauto]. by rewrite run_recordHistory.
Qed.

Lemma UpdateBackend_error r (s : t) :
  400 ≤ resp_status (result_of (UpdateBackend r) s) →
  same_data (store_after (UpdateBackend r) s) s.
Proof.
  start_handler. exec_step; [|by auto]. destruct a as [oldBackend|]; [|by auto].
  destruct (merge_update _ _ r); [by auto|].
  exec_step; [|intros _; etrans; eauto]. by rewrite run_recordHistory.
Qed.

Lemma DeleteBackend_error r (s : t) :
  400 ≤ resp_status (result_of (DeleteBackend r) s) →
  same_data (store_after (DeleteBackend r) s) s.
Proof.
  start_handler. exec_step; [|by auto]. destruct a as [oldBackend|]; [|by auto].
  exec_step; [|intros _; etrans; eauto]. by rewrite run_recordHistory.
Qed.

Lemma read_endpoints_same_data r (s : t) :
  same_data (store_after (ListBackends r) s) s ∧
  same_data (store_after (GetBackend r) s) s.
Proof.
  start_handler. split.
  - destruct (enabled_filter r); [|done]. exec_step; auto.
  - exec_step; [|by auto]. destruct a; auto.
Qed.

(** C2: a request answered with a status of 400 or
    more has changed neither a table nor a counter, whichever endpoint it
    went to and whichever call failed. *)
Theorem error_response_no_change e r (s : t) :
  400 ≤ resp_status (result_of (handle e r) s) →
  same_data (store_after (handle e r) s) s.
Proof.
  destruct e; simpl;
    auto using CreateBackend_error, UpdateBackend_error, DeleteBackend_error;
    intros _; apply read_endpoints_same_data.
Qed.

Lemma error_response_no_change_witness :
  same_data (store_after (handle EDeleteBackend example_missing) example_store) example_store.
Proof. apply error_response_no_change. by vm_compute. Defined.

(** ** The audit trail of a mutation *)

(** C1: a create, update or delete that is answered with
    success has added exactly one entry to the audit trail, of type
    "backend", with the operation of the endpoint and the operator of the
    request -- or it has added none and logged the warning: a failure to
    record never fails the request. *)
Theorem mutation_audited e r (s : t) :
  is_mutation e = true → resp_status (result_of (handle e r) s) < 400 →
  audited "backend" (operation_of e) (Header_Get r "X-Operator") s
    (store_after (handle e r) s) (logs_of (handle e r) s).
Proof.
  destruct e; try done; intros _; simpl; start_handler.
  - destruct (decode_body _ _ r) as [backend|]; [|status_lia].
    destruct (validate_create backend) as [resp|] eqn:Hv;
      [apply validate_create_Some in Hv; status_lia|].
    exec_step; [|status_lia]. destruct a; [status_lia|]. exec_step; [|status_lia].
    intros _. apply recordHistory_audited. rewrite Hhist0 by done. by rewrite Hrd.
  - exec_step; [|status_lia]. destruct a; [|status_lia].
    destruct (merge_update _ _ r) as [resp|backend] eqn:Hm;
      [apply merge_update_inl in Hm; status_lia|].
    exec_step; [|by pose proof (not_found_or_500_status "backend not found" e); status_lia].
    intros _. apply recordHistory_audited. rewrite Hhist0 by done. by rewrite Hrd.
  - exec_step; [|status_lia]. destruct a; [|status_lia].
    exec_step; [|by pose proof (not_found_or_500_status "backend not found" e); status_lia].
    intros _. apply recordHistory_audited. rewrite Hhist0 by done. by rewrite Hrd.
Qed.

Lemma mutation_audited_witness :
  audited "backend" "UPDATE" "alice" example_store
    (store_after (handle EUpdateBackend example_update) example_store)
    (logs_of (handle EUpdateBackend example_update) example_store).
Proof. apply (mutation_audited EUpdateBackend example_update example_store); by vm_compute. Defined.

(** ** Names stay unique *)

(** The default of [enabled] does not touch the name. *)
Lemma Backend_Name_default_enabled (b : bool) backend :
  Backend_Name (if b then backend else Backend_with_Enabled true backend)
  = Backend_Name backend.
Proof. by destruct b. Qed.

Lemma CreateBackend_backend_names r (s : t) :
  NoDup (backend_names s) → NoDup (backend_names (store_after (CreateBackend r) s)).
Proof.
  intros Hnd. start_handler.
  destruct (decode_body _ _ r) as [backend|]; [|done].
  destruct (validate_create backend); [done|]. cbn.
  pose proof (exec_GetBackendByName_None (Backend_Name backend) s) as Habs.
  exec_step; rewrite app_nil_r in Hnames; [|by rewrite Hnames].
  destruct a; [by cbn; rewrite Hnames|]. exec_step.
  - fold_store_after. rewrite recordHistory_backend_names, Hnames0, Hnames, Backend_Name_default_enabled.
    apply NoDup_app. split_and!; [done| |apply NoDup_singleton].
    intros n Hn ->%list_elem_of_singleton. by apply Habs.
  - by rewrite Hnames0, app_nil_r, Hnames.
Qed.

Lemma other_backend_names e r (s : t) :
  e ≠ ECreateBackend → backend_names (store_after (handle e r) s) = backend_names s.
Proof.
  destruct e; try done; intros _; simpl; start_handler.
  - destruct (enabled_filter r); [|done]. by exec_step; rewrite Hnames, app_nil_r.
  - exec_step; rewrite app_nil_r in Hnames; [|done]. by destruct a.
  - exec_step; rewrite app_nil_r in Hnames; [|done]. destruct a; [|done].
    destruct (merge_update _ _ r); [done|].
    exec_step; rewrite app_nil_r in Hnames0; [|congruence].
    fold_store_after.
    rewrite recordHistory_backend_names. congruence.
  - exec_step; rewrite app_nil_r in Hnames; [|done]. destruct a; [|done].
    exec_step; rewrite app_nil_r in Hnames0; [|congruence].
    fold_store_after.
    rewrite recordHistory_backend_names. congruence.
Qed.

(** C3: requests handled one after the other keep the
    backend names distinct, with or without a unique key in the schema and
    whatever the driver does. *)
Theorem handle_names_unique e r (s : t) :
  NoDup (backend_names s) → NoDup (backend_names (store_after (handle e r) s)).
Proof.
  destruct (decide (e = ECreateBackend)) as [->|Hne].
  - apply CreateBackend_backend_names.
  - by rewrite other_backend_names.
Qed.

Lemma handle_names_unique_witness :
  NoDup (backend_names (store_after (handle ECreateBackend example_create) example_store)).
Proof.
  apply handle_names_unique. apply (bool_decide_unpack _). by vm_compute.
Defined.

(** ** The merge of an update with the stored backend *)

(** C6: the backend an update asks for takes id and name
    from the stored backend and the URL, has an address, keeps the stored
    [enabled] when the body does not name it, and takes the body's value,
    the last one given, when it does. *)
Theorem merge_update_policy name oldBackend r fields backend :
  req_body r = Some (JObj fields) →
  merge_update name oldBackend r = inr backend →
  Backend_ID backend = Backend_ID oldBackend ∧ Backend_Name backend = name ∧
  Backend_Addr backend ≠ "" ∧
  ("enabled" ∉ fields.*1 → Backend_Enabled backend = Backend_Enabled oldBackend) ∧
  (∀ v pre post, fields = pre ++ ("enabled", JBool v) :: post → "enabled" ∉ post.*1 →
                 Backend_Enabled backend = v).
Proof.
  intros Hbody (m & b0 & Hm & _ & -> & Haddr)%merge_update_inr.
  unfold decode_body_map in Hm. rewrite Hbody in Hm. unfold enabled_of_map.
  split_and!; try done; simpl.
  - intros Habs. by rewrite (proj2 (decode_map_absent _ _ _ Hm) Habs).
  - intros v pre post -> Hpost. by rewrite (decode_map_last _ _ _ _ _ Hm Hpost).
Qed.

Lemma merge_update_policy_witness :
  Backend_ID example_merged = Backend_ID example_old ∧
  Backend_Name example_merged = "account" ∧ Backend_Addr example_merged ≠ "" ∧
  ("enabled" ∉ [("addr", JStr "127.0.0.1:9999")].*1 →
   Backend_Enabled example_merged = Backend_Enabled example_old) ∧
  (∀ v pre post, [("addr", JStr "127.0.0.1:9999")] = pre ++ ("enabled", JBool v) :: post →
                 "enabled" ∉ post.*1 → Backend_Enabled example_merged = v).
Proof. apply (merge_update_policy "account" example_old example_update); by vm_compute. Defined.

(** C29: A description the body does not mention is
    reset to the empty string, and the creation time to the zero time: the
    stored values of these fields are not kept. *)
Theorem merge_update_omitted name oldBackend r fields backend :
  req_body r = Some (JObj fields) →
  merge_update name oldBackend r = inr backend →
  (Forall (λ k, foldName k ≠ foldName "description") fields.*1 →
   Backend_Description backend = "") ∧
  (Forall (λ k, foldName k ≠ foldName "created_at") fields.*1 →
   Backend_CreatedAt backend = zero_time).
Proof.
  intros Hbody (m & b0 & Hm & Hb0 & -> & _)%merge_update_inr.
  unfold decode_body_map in Hm. rewrite Hbody in Hm. split; intros Hf; simpl.
  - apply (decode_reencoded_untouched _ _ _ _ _ _ _ Backend_Description_field Hm Hb0 Hf).
  - apply (decode_reencoded_untouched _ _ _ _ _ _ _ Backend_CreatedAt_field Hm Hb0 Hf).
Qed.

Lemma merge_update_omitted_witness :
  (Forall (λ k, foldName k ≠ foldName "description") [("addr", JStr "127.0.0.1:9999")].*1 →
   Backend_Description example_merged = "") ∧
  (Forall (λ k, foldName k ≠ foldName "created_at") [("addr", JStr "127.0.0.1:9999")].*1 →
   Backend_CreatedAt example_merged = zero_time).
Proof. apply (merge_update_omitted "account" example_old example_update); by vm_compute. Defined.

(** ** Requests on a store that does not fail *)

(** C8: on a database whose driver does not fail, a valid request for a
    name that is not taken is answered 201 with the backend as stored: the id and times the database
    gave, [enabled] forced to true unless the URL query has an [enabled]
    parameter.  A lookup by name then finds it, the audit trail has one more
    entry, CREATE with the new value and no old value, and nothing is logged. *)
Theorem CreateBackend_created r (s : t) backend :
  faults s = [] →
  decode_body Backend_fields Backend_zero r = Ok backend →
  Backend_Name backend ≠ "" → Backend_Addr backend ≠ "" →
  backend_by_name (Backend_Name backend) s = None →
  let b := created_backend
             (if Query_Has r "enabled" then backend
              else Backend_with_Enabled true backend) s in
  result_of (CreateBackend r) s = write_json StatusCreated (marshal_Backend b) ∧
  logs_of (CreateBackend r) s = [] ∧
  backend_by_name (Backend_Name backend) (store_after (CreateBackend r) s) = Some b ∧
  history (store_after (CreateBackend r) s)
  = history s ++ [stored_history
                    (history_entry marshal_Backend "backend" (Some (Backend_ID b)) "CREATE" None (Some b) r) s].
Proof.
  intros Hf Hdec Hname Haddr Habs b. start_handler. rewrite Hdec.
  rewrite (proj2 (validate_create_None backend)) by done. cbn.
  rewrite exec_GetBackendByName, Habs by done. cbn.
  set (b0 := if Query_Has r "enabled" then _ else _) in *.
  assert (Backend_Name b0 = Backend_Name backend) as Hb0
    by apply Backend_Name_default_enabled.
  destruct (CreateBackend_ok b0 s) as [Hres Hlook];
    [by apply next_fault_nil|by rewrite Hb0|].
  destruct (record_after marshal_Backend (OpCreateBackend b0) "backend" (Some (Backend_ID b)) "CREATE"
              None (Some b) r (write_json StatusCreated (marshal_Backend b)) s)
    as (Hrun & Hh & Hb & _); [done..|].
  change (MySQLStore.CreateBackend b0 s) with (exec (OpCreateBackend b0) s) in Hres, Hlook.
  destruct (exec (OpCreateBackend b0) s) as [res s1]. cbn [fst snd] in Hres, Hlook, Hrun, Hh, Hb.
  subst res. fold b. rewrite Hrun. split_and!; [done..| |done].
  by rewrite Hb, Hlook, decide_True.
Qed.

Lemma CreateBackend_created_witness :
  result_of (CreateBackend example_create) example_store
  = write_json StatusCreated (marshal_Backend example_created) ∧
  logs_of (CreateBackend example_create) example_store = [] ∧
  backend_by_name "user" (store_after (CreateBackend example_create) example_store)
  = Some example_created ∧
  history (store_after (CreateBackend example_create) example_store)
  = history example_store ++
    [stored_history
       (history_entry marshal_Backend "backend" (Some (Backend_ID example_created)) "CREATE" None
          (Some example_created) example_create) example_store].
Proof.
  apply (CreateBackend_created example_create example_store
           (mkBackend 0 "user" "127.0.0.1:50052" "" false zero_time zero_time));
    by vm_compute.
Defined.

(** C7: on a database whose driver does not fail, an update of an existing
    backend with a valid body is answered 200 with the merged backend
    whenever the statement is reported: when the driver counts the rows
    found, or, with its default of counting the rows changed, when the
    update changes the row (another address, description or [enabled], or
    another second than that of the last write).  The row keeps its
    creation time and gets the merged values and the current update time;
    the audit trail receives one UPDATE entry with the backend as it was
    read and as it was answered.  An update that changes nothing is
    answered 404 under the driver's default
    ([UpdateBackend_twice_404_example]), as a delete is
    ([DeleteBackend_twice_404]). *)
Theorem UpdateBackend_updated r (s : t) oldBackend backend :
  let name := URLParam r "name" in
  let b := updated_backend name backend s in
  faults s = [] →
  backend_by_name name s = Some oldBackend →
  merge_update name oldBackend r = inr backend →
  clientFoundRows s = true ∨
  Backend_with_CreatedAt (Backend_CreatedAt oldBackend) b ≠ oldBackend →
  result_of (UpdateBackend r) s = write_json StatusOK (marshal_Backend b) ∧
  logs_of (UpdateBackend r) s = [] ∧
  backend_by_name name (store_after (UpdateBackend r) s)
  = Some (Backend_with_CreatedAt (Backend_CreatedAt oldBackend) b) ∧
  history (store_after (UpdateBackend r) s)
  = history s ++ [stored_history
                    (history_entry marshal_Backend "backend" (Some (Backend_ID oldBackend)) "UPDATE"
                       (Some oldBackend) (Some b) r) s].
Proof.
  intros name b Hf Hold Hmerge Hrep. start_handler. fold name. cbn.
  rewrite exec_GetBackendByName, Hold by done. cbn. rewrite Hmerge. cbn.
  apply merge_update_inr in Hmerge as (m & b0 & _ & _ & Hb & _).
  assert (Backend_ID backend = Backend_ID oldBackend) as Hid by by subst backend.
  assert (Backend_with_ID (Backend_ID oldBackend) b = b) as Hsame
    by (unfold b, updated_backend; rewrite <-Hid; by destruct backend).
  pose proof (UpdateBackend_reported name backend s oldBackend (next_fault_nil _ Hf) Hold)
    as Hres.
  fold b in Hres. rewrite Hsame in Hres. specialize (Hres Hrep).
  pose proof (UpdateBackend_lookup name backend s name (next_fault_nil _ Hf)) as Hlook.
  rewrite decide_True, Hold in Hlook by done. fold b in Hlook.
  destruct (record_after marshal_Backend (OpUpdateBackend name backend) "backend" (Some (Backend_ID b))
              "UPDATE" (Some oldBackend) (Some b) r
              (write_json StatusOK (marshal_Backend b)) s) as (Hrun & Hh & Hb' & _); [done..|].
  change (MySQLStore.UpdateBackend name backend s)
    with (exec (OpUpdateBackend name backend) s) in Hres, Hlook.
  destruct (exec (OpUpdateBackend name backend) s) as [res s1].
  cbn [fst snd] in Hres, Hlook, Hrun, Hh, Hb'. subst res. rewrite Hrun.
  cbn [fst snd]. split_and!; [done..| |].
  - rewrite Hb', Hlook. simpl. rewrite <-Hid. by destruct backend.
  - rewrite Hh. change (Backend_ID b) with (Backend_ID backend). by rewrite Hid.
Qed.

Lemma UpdateBackend_updated_witness :
  let s := example_store in
  let b := updated_backend "account" example_merged s in
  result_of (UpdateBackend example_update) s = write_json StatusOK (marshal_Backend b) ∧
  logs_of (UpdateBackend example_update) s = [] ∧
  backend_by_name "account" (store_after (UpdateBackend example_update) s)
  = Some (Backend_with_CreatedAt (Backend_CreatedAt example_old) b) ∧
  history (store_after (UpdateBackend example_update) s)
  = history s ++ [stored_history
                    (history_entry marshal_Backend "backend" (Some (Backend_ID example_old)) "UPDATE"
                       (Some example_old) (Some b) example_update) s].
Proof.
  apply (UpdateBackend_updated example_update example_store example_old example_merged);
    [by vm_compute..|right; by vm_compute].
Defined.

(** A valid request for a name that is taken is
    answered 409 after the one lookup: nothing is written and nothing is
    logged. *)
Theorem CreateBackend_conflict r (s : t) backend existing :
  next_fault s = None →
  decode_body Backend_fields Backend_zero r = Ok backend →
  Backend_Name backend ≠ "" → Backend_Addr backend ≠ "" →
  backend_by_name (Backend_Name backend) s = Some existing →
  run (CreateBackend r) s
  = (http_Error "backend already exists" StatusConflict, skip_fault s, []).
Proof.
  intros Hf Hdec Hname Haddr Hex. unfold CreateBackend. rewrite Hdec.
  rewrite (proj2 (validate_create_None backend)) by done. cbn.
  unfold exec; simpl. by rewrite GetBackendByName_spec, Hf, Hex.
Qed.

Lemma CreateBackend_conflict_witness :
  run (CreateBackend example_duplicate) example_store
  = (http_Error "backend already exists" StatusConflict, skip_fault example_store, []).
Proof.
  apply (CreateBackend_conflict example_duplicate example_store
           (mkBackend 0 "account" "127.0.0.1:50052" "" false zero_time zero_time)
           example_old); by vm_compute.
Defined.

(** C24: on a database whose driver does not fail, a delete of an existing
    backend is answered 204 whenever the statement is reported: when the
    driver counts the rows found, or, with its default of counting the rows
    changed, when the backend was enabled or was last written in another
    second.  The row stays, disabled and with the current update time; the
    audit trail receives one DELETE entry whose old value is the backend
    with [enabled] already set to false.  The other case is
    [DeleteBackend_twice_404]. *)
Theorem DeleteBackend_deleted r (s : t) oldBackend :
  let name := URLParam r "name" in
  let gone := Backend_with_Enabled false oldBackend in
  faults s = [] →
  backend_by_name name s = Some oldBackend →
  clientFoundRows s = true ∨ Backend_with_UpdatedAt (now s) gone ≠ oldBackend →
  result_of (DeleteBackend r) s = write_status StatusNoContent ∧
  logs_of (DeleteBackend r) s = [] ∧
  backend_by_name name (store_after (DeleteBackend r) s)
  = Some (Backend_with_UpdatedAt (now s) gone) ∧
  history (store_after (DeleteBackend r) s)
  = history s ++ [stored_history
                    (history_entry marshal_Backend "backend" (Some (Backend_ID oldBackend)) "DELETE"
                       (Some gone) None r) s].
Proof.
  intros name gone Hf Hold Hrep. start_handler. fold name. cbn.
  rewrite exec_GetBackendByName, Hold by done. cbn.
  pose proof (DeleteBackend_reported name s oldBackend (next_fault_nil _ Hf) Hold Hrep)
    as Hres.
  pose proof (DeleteBackend_lookup name s name (next_fault_nil _ Hf)) as Hlook.
  rewrite decide_True, Hold in Hlook by done.
  destruct (record_after marshal_Backend (OpDeleteBackend name) "backend" (Some (Backend_ID oldBackend))
              "DELETE" (Some gone) None r (write_status StatusNoContent) s)
    as (Hrun & Hh & Hb' & _); [done..|].
  change (MySQLStore.DeleteBackend name s) with (exec (OpDeleteBackend name) s) in Hres, Hlook.
  destruct (exec (OpDeleteBackend name) s) as [res s1].
  cbn [fst snd] in Hres, Hlook, Hrun, Hh, Hb'. subst res. cbn. fold gone. rewrite Hrun.
  cbn [fst snd]. split_and!; [done..|by rewrite Hb', Hlook|done].
Qed.

Lemma DeleteBackend_deleted_witness :
  let s := example_store in
  let gone := Backend_with_Enabled false example_old in
  result_of (DeleteBackend example_delete) s = write_status StatusNoContent ∧
  logs_of (DeleteBackend example_delete) s = [] ∧
  backend_by_name "account" (store_after (DeleteBackend example_delete) s)
  = Some (Backend_with_UpdatedAt (now s) gone) ∧
  history (store_after (DeleteBackend example_delete) s)
  = history s ++ [stored_history
                    (history_entry marshal_Backend "backend" (Some (Backend_ID example_old)) "DELETE"
                       (Some gone) None example_delete) s].
Proof.
  apply (DeleteBackend_deleted example_delete example_store example_old);
    [by vm_compute..|right; by vm_compute].
Defined.

(** ** Deleting twice *)

(** A delete answers 404 for a backend that exists when the driver counts
    changed rows and every row of that name is already disabled at the
    current second. *)
Lemma DeleteBackend_unchanged_404 r (s : t) oldBackend :
  let name := URLParam r "name" in
  faults s = [] → clientFoundRows s = false →
  backend_by_name name s = Some oldBackend →
  Forall (λ r, bk_name r = name → bk_enabled r = 0 ∧ bk_updated_at r = now s) (backends s) →
  result_of (DeleteBackend r) s = http_Error "backend not found" StatusNotFound.
Proof.
  intros name Hf Hc Hold Hall. start_handler. fold name. cbn.
  rewrite exec_GetBackendByName, Hold by done. cbn.
  pose proof (DeleteBackend_changed_rows name s Hc (next_fault_nil _ Hf)) as Hres.
  rewrite decide_True in Hres by done.
  change (MySQLStore.DeleteBackend name s) with (exec (OpDeleteBackend name) s) in Hres.
  destruct (exec (OpDeleteBackend name) s) as [res s1]. simpl in Hres. by subst res.
Qed.

(** The store a delete request leaves, whether the UPDATE reported a
    change or not. *)
Lemma DeleteBackend_after r (s : t) oldBackend :
  let name := URLParam r "name" in
  let s' := store_after (DeleteBackend r) s in
  faults s = [] → backend_by_name name s = Some oldBackend →
  faults s' = [] ∧ clientFoundRows s' = clientFoundRows s ∧
  is_Some (backend_by_name name s') ∧
  Forall (λ r, bk_name r = name → bk_enabled r = 0 ∧ bk_updated_at r = now s') (backends s').
Proof.
  intros name s' Hf Hold. subst s'. start_handler. fold name. cbn.
  rewrite exec_GetBackendByName, Hold by done. cbn.
  destruct (exec_frame (OpDeleteBackend name) s) as (Hnow & Hcfr & _ & Hfl & _).
  pose proof (DeleteBackend_leaves_disabled name s (next_fault_nil _ Hf)) as Hall.
  pose proof (DeleteBackend_lookup name s name (next_fault_nil _ Hf)) as Hlook.
  rewrite decide_True, Hold in Hlook by done.
  change (MySQLStore.DeleteBackend name s) with (exec (OpDeleteBackend name) s) in Hlook.
  destruct (exec (OpDeleteBackend name) s) as [[[]|err] s1];
    cbn [fst snd] in Hnow, Hcfr, Hfl, Hall, Hlook; cbn.
  - fold_store_after.
    destruct (recordHistory_frame marshal_Backend "backend" (Some (Backend_ID oldBackend)) "DELETE"
                (Some (Backend_with_Enabled false oldBackend)) None r
                (write_status StatusNoContent) s1) as (Hb & _ & Hn & Hc & Hf').
    unfold backend_by_name. rewrite Hb, Hn, Hc, Hnow. fold (backend_by_name name s1).
    rewrite Hlook. auto.
  - rewrite Hnow, Hlook. auto.
Qed.

(** C30: when the driver reports changed rows (its
    default), a second delete of the same backend within the same second is
    answered 404 "backend not found", although the backend exists. *)
Theorem DeleteBackend_twice_404 r (s : t) oldBackend :
  faults s = [] → clientFoundRows s = false →
  backend_by_name (URLParam r "name") s = Some oldBackend →
  result_of (DeleteBackend r) (store_after (DeleteBackend r) s)
  = http_Error "backend not found" StatusNotFound.
Proof.
  intros Hf Hc Hold.
  destruct (DeleteBackend_after r s oldBackend Hf Hold) as (Hf' & Hc' & [b' Hb'] & Hall).
  eapply DeleteBackend_unchanged_404; [done|by rewrite Hc'|done..].
Qed.

Lemma DeleteBackend_twice_404_witness :
  result_of (DeleteBackend example_delete)
    (store_after (DeleteBackend example_delete) example_store)
  = http_Error "backend not found" StatusNotFound.
Proof.
  apply (DeleteBackend_twice_404 example_delete example_store example_old); by vm_compute.
Defined.

(** The same for an update: sent twice within one second it is answered
    200, then 404, under the driver's default. *)
Lemma UpdateBackend_twice_404_example :
  result_of (UpdateBackend example_update) example_store
  = write_json StatusOK
      (marshal_Backend (updated_backend "account" example_merged example_store)) ∧
  result_of (UpdateBackend example_update)
    (store_after (UpdateBackend example_update) example_store)
  = http_Error "backend not found" StatusNotFound.
Proof. by vm_compute. Qed.

End BackendHandler.
