(* ===== verification/HandlerRoute.v ===== *)
(** * RouteHandler: the five route endpoints and the check of the backend

    Module [RouteHandler] translates src/internal/handler/route.go, lines
    1-316.  The handlers are programs over the [Store] interface, as in
    [HandlerBackend]; a route is addressed by the id in the URL, parsed by
    [strconv.ParseUint(_, 10, 32)].

    [verify_backend] is the check that a route names a backend that exists
    and is enabled.  CreateRoute makes it always, UpdateRoute only when the
    update changes the name of the backend.

    The theorems are about the handlers run on [MySQLStore]. *)

From S2P Require Import Prelude Json Entity Sql StoreApi StoreMySQL Http Handler.
Import MySQLStore.

#[local] Set Warnings "-clear-no-such-hyp".

Module RouteHandler.

#[local] Open Scope Z_scope.

(** [(h *RouteHandler) recordHistory]: the values recorded are routes. *)
Definition recordHistory := record_history marshal_Route.

(** GET /api/v1/routes *)
Definition ListRoutes (r : Request) : Prog Response :=
  match enabled_filter r with
  | Err _ => Ret (http_Error "invalid enabled parameter" StatusBadRequest)
  | Ok enabled =>
      res <- call (OpGetRoutes enabled) ;;
      match res with
      | Err err =>
          logger_Error "failed to get routes" [zap_Error err] ;;;
          Ret internal_server_error
      | Ok routes =>
          Ret (write_json StatusOK (marshal_slice marshal_Route routes))
      end
  end.

(** [strconv.ParseUint(chi.URLParam(r, "id"), 10, 32)] *)
Definition route_id (r : Request) : Result N := ParseUint (URLParam r "id") 32.

(** GET /api/v1/routes/{id} *)
Definition GetRoute (r : Request) : Prog Response :=
  match route_id r with
  | Err _ => Ret (http_Error "invalid route id" StatusBadRequest)
  | Ok id =>
      res <- call (OpGetRouteByID id) ;;
      match res with
      | Err err =>
          logger_Error "failed to get route" [zap_Uint64 "id" id; zap_Error err] ;;;
          Ret internal_server_error
      | Ok None => Ret (http_Error "route not found" StatusNotFound)
      | Ok (Some route) => Ret (write_json StatusOK (marshal_Route route))
      end
  end.

(** The validation of a new route: the first empty required field. *)
Definition validate_create (route : Route) : option Response :=
  if decide (Route_HTTPMethod route = "")
  then Some (http_Error "http_method is required" StatusBadRequest)
  else if decide (Route_HTTPPattern route = "")
  then Some (http_Error "http_pattern is required" StatusBadRequest)
  else if decide (Route_BackendName route = "")
  then Some (http_Error "backend_name is required" StatusBadRequest)
  else if decide (Route_BackendService route = "")
  then Some (http_Error "backend_service is required" StatusBadRequest)
  else if decide (Route_BackendMethod route = "")
  then Some (http_Error "backend_method is required" StatusBadRequest)
  else None.

(** [backend == nil || !backend.Enabled], negated. *)
Definition backend_usable (backend : option Backend) : bool :=
  match backend with
  | Some b => Backend_Enabled b
  | None => false
  end.

(** "Verify backend exists": the response that ends the request, if any. *)
Definition verify_backend (name : string) : Prog (option Response) :=
  backend <- call (OpGetBackendByName name) ;;
  match backend with
  | Err err =>
      logger_Error "failed to check backend" [zap_Error err] ;;;
      Ret (Some internal_server_error)
  | Ok b =>
      if backend_usable b then Ret None
      else Ret (Some (http_Error "backend not found or disabled" StatusBadRequest))
  end.

(** "Default values" of a new route. *)
Definition default_values (r : Request) (route : Route) : Route :=
  let route :=
    if decide (Route_TimeoutMS route ≤ 0) then Route_with_TimeoutMS 5000 route
    else route in
  if Query_Has r "enabled" then route else Route_with_Enabled true route.

(** "Create route", "Record history" and the answer. *)
Definition create_and_record (route : Route) (r : Request) : Prog Response :=
  created <- call (OpCreateRoute route) ;;
  match created with
  | Err err =>
      logger_Error "failed to create route" [zap_Error err] ;;;
      Ret internal_server_error
  | Ok route =>
      recordHistory "route" (Some (Route_ID route)) "CREATE" None (Some route) r ;;;
      Ret (write_json StatusCreated (marshal_Route route))
  end.

(** POST /api/v1/routes *)
Definition CreateRoute (r : Request) : Prog Response :=
  match decode_body Route_fields Route_zero r with
  | Err _ => Ret (http_Error "invalid json" StatusBadRequest)
  | Ok route =>
      match validate_create route with
      | Some resp => Ret resp
      | None =>
          refused <- verify_backend (Route_BackendName route) ;;
          match refused with
          | Some resp => Ret resp
          | None => create_and_record (default_values r route) r
          end
      end
  end.

(** Whether a required field of the merged route is empty. *)
Definition required_empty (route : Route) : bool :=
  bool_decide (Route_HTTPMethod route = "" ∨ Route_HTTPPattern route = "" ∨
               Route_BackendName route = "" ∨ Route_BackendService route = "" ∨
               Route_BackendMethod route = "").

(** The route an update request asks for, given the stored one: the body
    read as a map, re-encoded and decoded into a fresh struct, [enabled]
    kept from the stored route unless the map names it, then the required
    fields checked. *)
Definition merge_update (oldRoute : Route) (r : Request) : Response + Route :=
  match decode_body_map r with
  | Err _ => inl (http_Error "invalid json" StatusBadRequest)
  | Ok routeUpdate =>
      match decode_struct Route_fields (encode_map routeUpdate) Route_zero with
      | Err _ => inl (http_Error "invalid json" StatusBadRequest)
      | Ok route =>
          let route :=
            match enabled_of_map routeUpdate with
            | None => Route_with_Enabled (Route_Enabled oldRoute) route
            | Some enabledValue => Route_with_Enabled enabledValue route
            end in
          if required_empty route
          then inl (http_Error "required fields cannot be empty" StatusBadRequest)
          else inr route
      end
  end.

(** "Verify backend exists if changed" *)
Definition verify_if_changed (oldRoute route : Route) : Prog (option Response) :=
  if decide (Route_BackendName route = Route_BackendName oldRoute) then Ret None
  else verify_backend (Route_BackendName route).

(** "Preserve ID", "Update route", "Record history" and the answer. *)
Definition update_and_record (id : N) (oldRoute route : Route) (r : Request) :
    Prog Response :=
  updated <- call (OpUpdateRoute id (Route_with_ID id route)) ;;
  match updated with
  | Err err =>
      logger_Error "failed to update route" [zap_Error err] ;;;
      Ret (not_found_or_500 "route not found" err)
  | Ok route =>
      recordHistory "route" (Some (Route_ID route)) "UPDATE"
        (Some oldRoute) (Some route) r ;;;
      Ret (write_json StatusOK (marshal_Route route))
  end.

(** PUT /api/v1/routes/{id} *)
Definition UpdateRoute (r : Request) : Prog Response :=
  match route_id r with
  | Err _ => Ret (http_Error "invalid route id" StatusBadRequest)
  | Ok id =>
      old <- call (OpGetRouteByID id) ;;
      match old with
      | Err err =>
          logger_Error "failed to get route" [zap_Error err] ;;;
          Ret internal_server_error
      | Ok None => Ret (http_Error "route not found" StatusNotFound)
      | Ok (Some oldRoute) =>
          match merge_update oldRoute r with
          | inl resp => Ret resp
          | inr route =>
              refused <- verify_if_changed oldRoute route ;;
              match refused with
              | Some resp => Ret resp
              | None => update_and_record id oldRoute route r
              end
          end
      end
  end.

(** DELETE /api/v1/routes/{id} *)
Definition DeleteRoute (r : Request) : Prog Response :=
  match route_id r with
  | Err _ => Ret (http_Error "invalid route id" StatusBadRequest)
  | Ok id =>
      old <- call (OpGetRouteByID id) ;;
      match old with
      | Err err =>
          logger_Error "failed to get route" [zap_Error err] ;;;
          Ret internal_server_error
      | Ok None => Ret (http_Error "route not found" StatusNotFound)
      | Ok (Some oldRoute) =>
          deleted <- call (OpDeleteRoute id) ;;
          match deleted with
          | Err err =>
              logger_Error "failed to delete route" [zap_Error err] ;;;
              Ret (not_found_or_500 "route not found" err)
          | Ok _ =>
              let oldRoute := Route_with_Enabled false oldRoute in
              recordHistory "route" (Some (Route_ID oldRoute)) "DELETE"
                (Some oldRoute) None r ;;;
              Ret (write_status StatusNoContent)
          end
      end
  end.

(** The five endpoints. *)
Inductive endpoint : Type :=
| EListRoutes | EGetRoute | ECreateRoute | EUpdateRoute | EDeleteRoute.

Definition handle (e : endpoint) (r : Request) : Prog Response :=
  match e with
  | EListRoutes => ListRoutes r
  | EGetRoute => GetRoute r
  | ECreateRoute => CreateRoute r
  | EUpdateRoute => UpdateRoute r
  | EDeleteRoute => DeleteRoute r
  end.

#[global] Instance route_endpoint_eq_dec : EqDecision endpoint.
Proof. solve_decision. Defined.

(** The endpoints that change a route, and the operation each records. *)
Definition is_mutation (e : endpoint) : bool :=
  match e with
  | ECreateRoute | EUpdateRoute | EDeleteRoute => true
  | _ => false
  end.

Definition operation_of (e : endpoint) : string :=
  match e with
  | ECreateRoute => "CREATE"
  | EUpdateRoute => "UPDATE"
  | EDeleteRoute => "DELETE"
  | _ => ""
  end.

(** ** Examples *)

(** A database with an enabled and a disabled backend and one route, behind
    a driver that counts matched rows; requests on it. *)
Definition example_store : t :=
  mk [mk_backend_row 1 "account" "127.0.0.1:50051" (Some "") 1 1000 1000;
      mk_backend_row 2 "legacy" "127.0.0.1:50052" (Some "") 0 1000 1001]
     [mk_route_row 1 "POST" "/v1/user/login" "account" "user.v1.UserService" "Login"
        3000 (Some "login") 1 1000 1000]
     [] 3 2 1 1001 true false [].

Definition example_account : Backend :=
  mkBackend 1 "account" "127.0.0.1:50051" "" true 1000 1000.

Definition example_old : Route :=
  mkRoute 1 "POST" "/v1/user/login" "account" "user.v1.UserService" "Login"
    3000 "login" true 1000 1000.

Definition example_fields (backend : string) : list (string * json) :=
  [("http_method", JStr "POST"); ("http_pattern", JStr "/v1/user/login");
   ("backend_name", JStr backend); ("backend_service", JStr "user.v1.UserService");
   ("backend_method", JStr "Login")].

(** What the decoders make of [example_fields]. *)
Definition example_route (backend : string) : Route :=
  mkRoute 0 "POST" "/v1/user/login" backend "user.v1.UserService" "Login"
    0 "" false zero_time zero_time.

Definition example_create : Request :=
  mkRequest [] [] [("X-Operator", "alice")] (Some (JObj (example_fields "account"))).

Definition example_create_legacy : Request :=
  mkRequest [] [] [] (Some (JObj (example_fields "legacy"))).

Definition example_update : Request :=
  mkRequest [("id", "1")] [] [("X-Operator", "alice")]
    (Some (JObj (example_fields "account"))).

Definition example_update_legacy : Request :=
  mkRequest [("id", "1")] [] [] (Some (JObj (example_fields "legacy"))).

Definition example_delete : Request := mkRequest [("id", "1")] [] [] None.

Definition example_missing : Request := mkRequest [("id", "9")] [] [] None.

(** ** Running a handler *)

Ltac start_handler :=
  unfold result_of, store_after, logs_of, ListRoutes, GetRoute, DeleteRoute,
    create_and_record, update_and_record, verify_backend, recordHistory.

Lemma route_validate_create_Some route resp :
  validate_create route = Some resp → resp_status resp = StatusBadRequest.
Proof. unfold validate_create. repeat case_decide; naive_solver. Qed.

Lemma route_validate_create_None route :
  validate_create route = None ↔
  Route_HTTPMethod route ≠ "" ∧ Route_HTTPPattern route ≠ "" ∧
  Route_BackendName route ≠ "" ∧ Route_BackendService route ≠ "" ∧
  Route_BackendMethod route ≠ "".
Proof. unfold validate_create. repeat case_decide; naive_solver. Qed.

Lemma route_merge_update_inl oldRoute r resp :
  merge_update oldRoute r = inl resp → resp_status resp = StatusBadRequest.
Proof. unfold merge_update. repeat case_match; naive_solver. Qed.

Lemma route_merge_update_inr oldRoute r route :
  merge_update oldRoute r = inr route →
  ∃ m r0, decode_body_map r = Ok m ∧
    decode_struct Route_fields (encode_map m) Route_zero = Ok r0 ∧
    route = Route_with_Enabled (default (Route_Enabled oldRoute) (enabled_of_map m)) r0 ∧
    required_empty route = false.
Proof.
  unfold merge_update. destruct (decode_body_map r) as [m|]; [|done].
  destruct (decode_struct _ _ _) as [r0|] eqn:Hr0; [|done]. intros Hr. exists m, r0.
  destruct (enabled_of_map m); simpl in *; case_match; by simplify_eq.
Qed.

(** The timeout of a route a handler writes is one an [int] holds. *)
Lemma route_default_values_timeout r route :
  fits_int (Route_TimeoutMS route) → fits_int (Route_TimeoutMS (default_values r route)).
Proof. unfold default_values. by repeat case_match. Qed.

Lemma route_decode_body_timeout r route :
  decode_body Route_fields Route_zero r = Ok route → fits_int (Route_TimeoutMS route).
Proof. unfold decode_body. destruct (req_body r); [apply decode_Route_timeout|done]. Qed.

Lemma route_merge_update_timeout oldRoute r route :
  merge_update oldRoute r = inr route → fits_int (Route_TimeoutMS route).
Proof.
  intros (m & r0 & _ & Hr0%decode_Route_timeout & -> & _)%route_merge_update_inr. done.
Qed.

(** ** The listing *)

(** The listing reads the [enabled] parameter alone: [limit] and [offset],
    which the comment on the handler shows in its URL, change nothing. *)
Lemma ListRoutes_unpaged r r' :
  Query_Get r "enabled" = Query_Get r' "enabled" → ListRoutes r = ListRoutes r'.
Proof. intros Hq. unfold ListRoutes. by rewrite (enabled_filter_ext r r'). Qed.

(** Asked for a page of one route from the second on, the listing answers
    with every route. *)
Lemma ListRoutes_ignores_limit :
  let page := mkRequest [] [("limit", "1"); ("offset", "1")] [] None in
  result_of (ListRoutes page) example_store
  = write_json StatusOK (marshal_slice marshal_Route [example_old]).
Proof. by vm_compute. Qed.

(** ** The check of the backend *)

Lemma verify_backend_spec name (s : t) :
  same_data (store_after (verify_backend name) s) s ∧
  match result_of (verify_backend name) s with
  | None => backend_usable (backend_by_name name s) = true ∧
            logs_of (verify_backend name) s = []
  | Some resp => 400 ≤ resp_status resp
  end.
Proof.
  start_handler. cbn. pose proof (exec_GetBackendByName_Ok name s) as Hok.
  exec_step; [|split; [by auto|status_lia]]. rewrite <-(Hok a eq_refl).
  destruct (backend_usable a) eqn:Hu; cbn; (split; [by auto|done || status_lia]).
Qed.

Lemma verify_if_changed_spec oldRoute route (s : t) :
  same_data (store_after (verify_if_changed oldRoute route) s) s ∧
  match result_of (verify_if_changed oldRoute route) s with
  | None => (Route_BackendName route = Route_BackendName oldRoute ∨
             backend_usable (backend_by_name (Route_BackendName route) s) = true) ∧
            logs_of (verify_if_changed oldRoute route) s = []
  | Some resp => 400 ≤ resp_status resp
  end.
Proof.
  unfold verify_if_changed. case_decide; [by repeat split; auto|].
  destruct (verify_backend_spec (Route_BackendName route) s) as [Hs Hr].
  split; [done|]. destruct (result_of _ s); [done|]. naive_solver.
Qed.

(** ** The write phases *)

Lemma create_and_record_error route r (s : t) :
  400 ≤ resp_status (result_of (create_and_record route r) s) →
  same_data (store_after (create_and_record route r) s) s.
Proof. start_handler. exec_step; [|by eauto]. by rewrite run_recordHistory. Qed.

Lemma update_and_record_error id oldRoute route r (s : t) :
  400 ≤ resp_status (result_of (update_and_record id oldRoute route r) s) →
  same_data (store_after (update_and_record id oldRoute route r) s) s.
Proof. start_handler. exec_step; [|by eauto]. by rewrite run_recordHistory. Qed.

Lemma create_and_record_audited route r (s : t) :
  resp_status (result_of (create_and_record route r) s) < 400 →
  audited "route" "CREATE" (Header_Get r "X-Operator") s
    (store_after (create_and_record route r) s) (logs_of (create_and_record route r) s).
Proof.
  start_handler. exec_step; [|status_lia]. intros _.
  apply recordHistory_audited. by rewrite Hhist.
Qed.

Lemma update_and_record_audited id oldRoute route r (s : t) :
  resp_status (result_of (update_and_record id oldRoute route r) s) < 400 →
  audited "route" "UPDATE" (Header_Get r "X-Operator") s
    (store_after (update_and_record id oldRoute route r) s)
    (logs_of (update_and_record id oldRoute route r) s).
Proof.
  start_handler. exec_step; [|by pose proof (not_found_or_500_status "route not found" e); status_lia].
  intros _. apply recordHistory_audited. by rewrite Hhist.
Qed.

(** ** An error response means nothing was written *)

Lemma CreateRoute_error r (s : t) :
  400 ≤ resp_status (result_of (CreateRoute r) s) →
  same_data (store_after (CreateRoute r) s) s.
Proof.
  unfold CreateRoute. destruct (decode_body _ _ r) as [route|]; [|done].
  destruct (validate_create route); [done|].
  rewrite result_of_bind, store_after_bind.
  destruct (verify_backend_spec (Route_BackendName route) s) as [Hs Hr].
  destruct (result_of (verify_backend _) s); [done|].
  intros Hst%create_and_record_error. by etrans.
Qed.

#[local] Arguments update_and_record : simpl never.
#[local] Arguments create_and_record : simpl never.
#[local] Arguments verify_if_changed : simpl never.
#[local] Arguments verify_backend : simpl never.

Lemma UpdateRoute_error r (s : t) :
  400 ≤ resp_status (result_of (UpdateRoute r) s) →
  same_data (store_after (UpdateRoute r) s) s.
Proof.
  unfold UpdateRoute. destruct (route_id r) as [id|]; [|done].
  unfold result_of, store_after. exec_step; [|by auto]. destruct a as [oldRoute|]; [|by auto].
  destruct (merge_update _ r) as [|route]; [by auto|]. fold_run.
  rewrite result_of_bind, store_after_bind.
  destruct (verify_if_changed_spec oldRoute route t0) as [Hs Hr].
  destruct (result_of (verify_if_changed _ _) t0); [intros _; etrans; eauto|].
  intros Hst%update_and_record_error. etrans; [done|]. etrans; eauto.
Qed.

Lemma DeleteRoute_error r (s : t) :
  400 ≤ resp_status (result_of (DeleteRoute r) s) →
  same_data (store_after (DeleteRoute r) s) s.
Proof.
  start_handler. destruct (route_id r) as [id|]; [|done].
  exec_step; [|by auto]. destruct a as [oldRoute|]; [|by auto].
  exec_step; [|intros _; etrans; eauto]. by rewrite run_recordHistory.
Qed.

Lemma route_reads_same_data r (s : t) :
  same_data (store_after (ListRoutes r) s) s ∧
  same_data (store_after (GetRoute r) s) s.
Proof.
  start_handler. split.
  - destruct (enabled_filter r); [|done]. exec_step; auto.
  - destruct (route_id r) as [id|]; [|done]. exec_step; [|by auto]. destruct a; auto.
Qed.

(** C10: a route request answered with a status of 400 or more has
    changed neither a table nor a counter, whichever endpoint it went to and
    whichever call failed, the check of the backend included. *)
Theorem route_error_response_no_change e r (s : t) :
  400 ≤ resp_status (result_of (handle e r) s) →
  same_data (store_after (handle e r) s) s.
Proof.
  destruct e; simpl;
    auto using CreateRoute_error, UpdateRoute_error, DeleteRoute_error;
    intros _; apply route_reads_same_data.
Qed.

Lemma route_error_response_no_change_witness :
  same_data (store_after (handle EDeleteRoute example_missing) example_store) example_store.
Proof. apply route_error_response_no_change. by vm_compute. Defined.

(** ** The audit trail of a mutation *)

(** C9: a create, update or delete of a route that is answered with
    success has added exactly one entry to the audit trail, of type "route",
    with the operation of the endpoint and the operator of the request -- or
    none, with the warning logged. *)
Theorem route_mutation_audited e r (s : t) :
  is_mutation e = true → resp_status (result_of (handle e r) s) < 400 →
  audited "route" (operation_of e) (Header_Get r "X-Operator") s
    (store_after (handle e r) s) (logs_of (handle e r) s).
Proof.
  destruct e; try done; intros _; simpl.
  - unfold CreateRoute. destruct (decode_body _ _ r) as [route|]; [|status_lia].
    destruct (validate_create route) as [resp|] eqn:Hv;
      [apply route_validate_create_Some in Hv; status_lia|].
    rewrite result_of_bind, store_after_bind, logs_of_bind.
    destruct (verify_backend_spec (Route_BackendName route) s) as [Hs Hr].
    destruct (result_of (verify_backend _) s); [status_lia|].
    destruct Hr as [_ ->]. intros Hst%create_and_record_audited.
    by eapply audited_same_data.
  - unfold UpdateRoute. destruct (route_id r) as [id|]; [|status_lia].
    unfold result_of, store_after, logs_of. exec_step; [|status_lia].
    destruct a as [oldRoute|]; [|status_lia].
    destruct (merge_update _ r) as [resp|route] eqn:Hm;
      [apply route_merge_update_inl in Hm; status_lia|]. fold_run.
    rewrite result_of_bind, store_after_bind, logs_of_bind.
    destruct (verify_if_changed_spec oldRoute route t0) as [Hs Hr].
    destruct (result_of (verify_if_changed _ _) t0); [status_lia|].
    destruct Hr as [_ ->]. intros Hst%update_and_record_audited.
    eapply audited_same_data; [|done]. by etrans; [|apply Hrd].
  - start_handler. destruct (route_id r) as [id|]; [|status_lia].
    exec_step; [|status_lia]. destruct a as [oldRoute|]; [|status_lia].
    exec_step; [|by pose proof (not_found_or_500_status "route not found" e); status_lia].
    intros _. apply recordHistory_audited. rewrite Hhist0 by done. by rewrite Hrd.
Qed.

Lemma route_mutation_audited_witness :
  audited "route" "CREATE" "alice" example_store
    (store_after (handle ECreateRoute example_create) example_store)
    (logs_of (handle ECreateRoute example_create) example_store).
Proof. apply (route_mutation_audited ECreateRoute example_create example_store); by vm_compute. Defined.

(** ** The referenced backend *)

Lemma backend_usable_Some b :
  backend_usable b = true ↔ ∃ backend, b = Some backend ∧ Backend_Enabled backend = true.
Proof. destruct b; naive_solver. Qed.

(** C5: a route is created only if the backend it names exists and
    is enabled when the handler looks it up, whatever the driver does. *)
Theorem CreateRoute_reference_checked r (s : t) route :
  decode_body Route_fields Route_zero r = Ok route →
  resp_status (result_of (CreateRoute r) s) < 400 →
  ∃ backend, backend_by_name (Route_BackendName route) s = Some backend ∧
             Backend_Enabled backend = true.
Proof.
  intros Hdec. unfold CreateRoute. rewrite Hdec.
  destruct (validate_create route) as [resp|] eqn:Hv;
    [apply route_validate_create_Some in Hv; status_lia|].
  rewrite result_of_bind.
  destruct (verify_backend_spec (Route_BackendName route) s) as [_ Hr].
  destruct (result_of (verify_backend _) s); [status_lia|].
  intros _. destruct Hr as [Hu _]. by apply backend_usable_Some.
Qed.

Lemma CreateRoute_reference_checked_witness :
  ∃ backend, backend_by_name "account" example_store = Some backend ∧
             Backend_Enabled backend = true.
Proof.
  apply (CreateRoute_reference_checked example_create example_store (example_route "account"));
    by vm_compute.
Defined.

(** An update succeeds only if it keeps the name of the backend
    or names a backend that exists and is enabled when the handler looks it
    up. *)
Theorem UpdateRoute_reference_checked r (s : t) id oldRoute route :
  route_id r = Ok id → route_by_id id s = Some oldRoute →
  merge_update oldRoute r = inr route →
  resp_status (result_of (UpdateRoute r) s) < 400 →
  Route_BackendName route = Route_BackendName oldRoute ∨
  ∃ backend, backend_by_name (Route_BackendName route) s = Some backend ∧
             Backend_Enabled backend = true.
Proof.
  intros Hid Hold Hm. unfold UpdateRoute. rewrite Hid. unfold result_of.
  pose proof (exec_GetRouteByID_Ok id s) as Hok.
  exec_step; [|status_lia]. rewrite (Hok a eq_refl), Hold, Hm. fold_run.
  rewrite result_of_bind.
  destruct (verify_if_changed_spec oldRoute route t0) as [_ Hr].
  destruct (result_of (verify_if_changed _ _) t0); [status_lia|].
  intros _. destruct Hr as [[?|Hu] _]; [by left|right].
  apply backend_usable_Some. by rewrite <-(backend_by_name_proper _ _ eq_refl _ _ (Hrd eq_refl)).
Qed.

Lemma UpdateRoute_reference_checked_witness :
  Route_BackendName (Route_with_Enabled true (example_route "account"))
  = Route_BackendName example_old ∨
  ∃ backend, backend_by_name "account" example_store = Some backend ∧
             Backend_Enabled backend = true.
Proof.
  apply (UpdateRoute_reference_checked example_update example_store 1%N example_old
           (Route_with_Enabled true (example_route "account"))); by vm_compute.
Defined.

(** ** Requests on a store that does not fail *)

Lemma verify_backend_ok name (s : t) backend :
  faults s = [] → backend_by_name name s = Some backend → Backend_Enabled backend = true →
  run (verify_backend name) s = (None, s, []).
Proof.
  intros Hf Hb He. unfold verify_backend. cbn.
  rewrite exec_GetBackendByName, Hb by done. cbn. by rewrite He.
Qed.

Lemma create_and_record_ok route r (s : t) :
  wf s → faults s = [] →
  let rt := created_route route s in
  result_of (create_and_record route r) s = write_json StatusCreated (marshal_Route rt) ∧
  logs_of (create_and_record route r) s = [] ∧
  route_by_id (Route_ID rt) (store_after (create_and_record route r) s) = Some rt ∧
  history (store_after (create_and_record route r) s)
  = history s ++ [stored_history
                    (history_entry marshal_Route "route" (Some (Route_ID rt)) "CREATE"
                       None (Some rt) r) s].
Proof.
  intros Hwf Hf rt. start_handler. cbn.
  destruct (CreateRoute_ok route s Hwf (next_fault_nil _ Hf)) as [Hres Hlook].
  destruct (record_after marshal_Route (OpCreateRoute route) "route" (Some (Route_ID rt))
              "CREATE" None (Some rt) r (write_json StatusCreated (marshal_Route rt)) s)
    as (Hrun & Hh & _ & Hb); [done..|].
  change (MySQLStore.CreateRoute route s) with (exec (OpCreateRoute route) s) in Hres, Hlook.
  destruct (exec (OpCreateRoute route) s) as [res s1].
  cbn [fst snd] in Hres, Hlook, Hrun, Hh, Hb. subst res. fold rt. rewrite Hrun.
  cbn [fst snd]. split_and!; [done..| |done].
  by rewrite Hb, Hlook, decide_True.
Qed.

Lemma update_and_record_ok id oldRoute route r (s : t) :
  let rt := updated_route id (Route_with_ID id route) s in
  faults s = [] → route_by_id id s = Some oldRoute →
  clientFoundRows s = true ∨ Route_with_CreatedAt (Route_CreatedAt oldRoute) rt ≠ oldRoute →
  result_of (update_and_record id oldRoute route r) s
  = write_json StatusOK (marshal_Route rt) ∧
  logs_of (update_and_record id oldRoute route r) s = [] ∧
  route_by_id id (store_after (update_and_record id oldRoute route r) s)
  = Some (Route_with_CreatedAt (Route_CreatedAt oldRoute) rt) ∧
  history (store_after (update_and_record id oldRoute route r) s)
  = history s ++ [stored_history
                    (history_entry marshal_Route "route" (Some id) "UPDATE"
                       (Some oldRoute) (Some rt) r) s].
Proof.
  intros rt Hf Hold Hrep. start_handler. cbn.
  set (r1 := Route_with_ID id route) in *.
  pose proof (UpdateRoute_reported id r1 s oldRoute (next_fault_nil _ Hf) Hold Hrep) as Hres.
  pose proof (UpdateRoute_lookup id r1 s id (next_fault_nil _ Hf)) as Hlook.
  rewrite decide_True, Hold in Hlook by done.
  destruct (record_after marshal_Route (OpUpdateRoute id r1) "route" (Some (Route_ID rt))
              "UPDATE" (Some oldRoute) (Some rt) r (write_json StatusOK (marshal_Route rt)) s)
    as (Hrun & Hh & _ & Hb); [done..|].
  change (MySQLStore.UpdateRoute id r1 s) with (exec (OpUpdateRoute id r1) s) in Hres, Hlook.
  destruct (exec (OpUpdateRoute id r1) s) as [res s1].
  cbn [fst snd] in Hres, Hlook, Hrun, Hh, Hb. subst res. fold rt. rewrite Hrun.
  cbn [fst snd]. split_and!; [done..|by rewrite Hb, Hlook|done].
Qed.

Lemma default_values_timeout r route :
  0 < Route_TimeoutMS (default_values r route) ∧
  (0 < Route_TimeoutMS route → Route_TimeoutMS (default_values r route) = Route_TimeoutMS route) ∧
  (Route_TimeoutMS route ≤ 0 → Route_TimeoutMS (default_values r route) = 5000).
Proof.
  unfold default_values. destruct (Query_Has r "enabled"); case_decide; simpl; lia.
Qed.

(** C27: on a well-formed database whose driver does not fail, a valid
    request that names an enabled backend is answered 201
    with the route as stored: the id and times the database gave, a timeout
    that is positive (5000 when the body gave none or a non-positive one),
    [enabled] forced to true unless the URL query has an [enabled] parameter.
    A lookup by id finds it and the audit trail has one more entry, CREATE. *)
Theorem CreateRoute_created r (s : t) route backend :
  wf s → faults s = [] →
  decode_body Route_fields Route_zero r = Ok route → validate_create route = None →
  backend_by_name (Route_BackendName route) s = Some backend →
  Backend_Enabled backend = true →
  let rt := created_route (default_values r route) s in
  result_of (CreateRoute r) s = write_json StatusCreated (marshal_Route rt) ∧
  logs_of (CreateRoute r) s = [] ∧
  route_by_id (Route_ID rt) (store_after (CreateRoute r) s) = Some rt ∧
  0 < Route_TimeoutMS rt ∧
  history (store_after (CreateRoute r) s)
  = history s ++ [stored_history
                    (history_entry marshal_Route "route" (Some (Route_ID rt)) "CREATE"
                       None (Some rt) r) s].
Proof.
  intros Hwf Hf Hdec Hv Hb He rt. unfold CreateRoute. rewrite Hdec, Hv.
  rewrite result_of_bind, store_after_bind, logs_of_bind.
  destruct (run_parts _ _ _ _ _ (verify_backend_ok _ s backend Hf Hb He)) as (-> & -> & ->).
  destruct (create_and_record_ok (default_values r route) r s Hwf Hf) as (?&?&?&?).
  split_and!; try done. apply default_values_timeout.
Qed.

Lemma CreateRoute_created_witness :
  let rt := created_route (default_values example_create (example_route "account"))
              example_store in
  result_of (CreateRoute example_create) example_store
  = write_json StatusCreated (marshal_Route rt) ∧
  logs_of (CreateRoute example_create) example_store = [] ∧
  route_by_id (Route_ID rt) (store_after (CreateRoute example_create) example_store)
  = Some rt ∧
  0 < Route_TimeoutMS rt ∧
  history (store_after (CreateRoute example_create) example_store)
  = history example_store ++
    [stored_history
       (history_entry marshal_Route "route" (Some (Route_ID rt)) "CREATE" None (Some rt)
          example_create) example_store].
Proof.
  apply (CreateRoute_created example_create example_store (example_route "account")
           example_account); try by vm_compute.
  apply (bool_decide_unpack _). by vm_compute.
Defined.

(** A valid request that names a backend that is missing or
    disabled is answered 400 after the one lookup; nothing is written. *)
Theorem CreateRoute_invalid_reference r (s : t) route :
  faults s = [] →
  decode_body Route_fields Route_zero r = Ok route → validate_create route = None →
  backend_usable (backend_by_name (Route_BackendName route) s) = false →
  run (CreateRoute r) s
  = (http_Error "backend not found or disabled" StatusBadRequest, s, []).
Proof.
  intros Hf Hdec Hv Hu. unfold CreateRoute, verify_backend. rewrite Hdec, Hv. cbn.
  rewrite exec_GetBackendByName by done. cbn. by rewrite Hu.
Qed.

Lemma CreateRoute_invalid_reference_witness :
  run (CreateRoute example_create_legacy) example_store
  = (http_Error "backend not found or disabled" StatusBadRequest, example_store, []).
Proof.
  apply (CreateRoute_invalid_reference example_create_legacy example_store
           (example_route "legacy")); by vm_compute.
Defined.

(** C26: on a database whose driver does not fail, an update that keeps
    the name of the backend is answered 200 with the merged route whether
    or not that backend is still enabled: the backend is not looked up.
    This holds whenever the statement is reported: when the driver counts
    the rows found, or, with its default of counting the rows changed, when
    the update changes the row.  The row keeps its id and creation time;
    the audit trail receives one UPDATE entry. *)
Theorem UpdateRoute_updated r (s : t) id oldRoute route :
  let rt := updated_route id (Route_with_ID id route) s in
  faults s = [] →
  route_id r = Ok id → route_by_id id s = Some oldRoute →
  merge_update oldRoute r = inr route →
  Route_BackendName route = Route_BackendName oldRoute →
  clientFoundRows s = true ∨ Route_with_CreatedAt (Route_CreatedAt oldRoute) rt ≠ oldRoute →
  result_of (UpdateRoute r) s = write_json StatusOK (marshal_Route rt) ∧
  logs_of (UpdateRoute r) s = [] ∧
  route_by_id id (store_after (UpdateRoute r) s)
  = Some (Route_with_CreatedAt (Route_CreatedAt oldRoute) rt) ∧
  history (store_after (UpdateRoute r) s)
  = history s ++ [stored_history
                    (history_entry marshal_Route "route" (Some id) "UPDATE"
                       (Some oldRoute) (Some rt) r) s].
Proof.
  intros rt Hf Hid Hold Hm Hname Hrep. unfold UpdateRoute. rewrite Hid.
  unfold result_of, store_after, logs_of. cbn.
  rewrite exec_GetRouteByID, Hold by done. cbn. rewrite Hm. fold_run.
  unfold verify_if_changed. rewrite decide_True by done.
  by apply update_and_record_ok.
Qed.

Lemma UpdateRoute_updated_witness :
  let route := Route_with_Enabled true (example_route "account") in
  let rt := updated_route 1 (Route_with_ID 1 route) example_store in
  result_of (UpdateRoute example_update) example_store
  = write_json StatusOK (marshal_Route rt) ∧
  logs_of (UpdateRoute example_update) example_store = [] ∧
  route_by_id 1 (store_after (UpdateRoute example_update) example_store)
  = Some (Route_with_CreatedAt (Route_CreatedAt example_old) rt) ∧
  history (store_after (UpdateRoute example_update) example_store)
  = history example_store ++
    [stored_history
       (history_entry marshal_Route "route" (Some 1%N) "UPDATE" (Some example_old)
          (Some rt) example_update) example_store].
Proof.
  apply (UpdateRoute_updated example_update example_store 1%N example_old
           (Route_with_Enabled true (example_route "account")));
    [by vm_compute..|right; by vm_compute].
Defined.

(** An update that moves the route to a backend that is missing
    or disabled is answered 400; nothing is written. *)
Theorem UpdateRoute_invalid_reference r (s : t) id oldRoute route :
  faults s = [] → route_id r = Ok id → route_by_id id s = Some oldRoute →
  merge_update oldRoute r = inr route →
  Route_BackendName route ≠ Route_BackendName oldRoute →
  backend_usable (backend_by_name (Route_BackendName route) s) = false →
  run (UpdateRoute r) s
  = (http_Error "backend not found or disabled" StatusBadRequest, s, []).
Proof.
  intros Hf Hid Hold Hm Hname Hu. unfold UpdateRoute. rewrite Hid. cbn.
  rewrite exec_GetRouteByID, Hold by done. cbn. rewrite Hm.
  unfold verify_if_changed, verify_backend. rewrite decide_False by done. cbn.
  rewrite exec_GetBackendByName by done. cbn. by rewrite Hu.
Qed.

Lemma UpdateRoute_invalid_reference_witness :
  run (UpdateRoute example_update_legacy) example_store
  = (http_Error "backend not found or disabled" StatusBadRequest, example_store, []).
Proof.
  apply (UpdateRoute_invalid_reference example_update_legacy example_store 1%N example_old
           (Route_with_Enabled true (example_route "legacy"))); by vm_compute.
Defined.

(** On a database whose driver does not fail, a delete of an existing
    route is answered 204 whenever the statement is reported (the driver
    counts the rows found, or the delete changes the row); the row stays,
    disabled and with the current update time; the audit trail receives one
    DELETE entry whose old value is the route with [enabled] already false. *)
Theorem DeleteRoute_deleted r (s : t) id oldRoute :
  let gone := Route_with_Enabled false oldRoute in
  faults s = [] →
  route_id r = Ok id → route_by_id id s = Some oldRoute →
  clientFoundRows s = true ∨ Route_with_UpdatedAt (now s) gone ≠ oldRoute →
  result_of (DeleteRoute r) s = write_status StatusNoContent ∧
  logs_of (DeleteRoute r) s = [] ∧
  route_by_id id (store_after (DeleteRoute r) s)
  = Some (Route_with_UpdatedAt (now s) gone) ∧
  history (store_after (DeleteRoute r) s)
  = history s ++ [stored_history
                    (history_entry marshal_Route "route" (Some (Route_ID oldRoute)) "DELETE"
                       (Some gone) None r) s].
Proof.
  intros gone Hf Hid Hold Hrep. start_handler. rewrite Hid. cbn.
  rewrite exec_GetRouteByID, Hold by done. cbn.
  pose proof (DeleteRoute_reported id s oldRoute (next_fault_nil _ Hf) Hold Hrep) as Hres.
  pose proof (DeleteRoute_lookup id s id (next_fault_nil _ Hf)) as Hlook.
  rewrite decide_True, Hold in Hlook by done.
  destruct (record_after marshal_Route (OpDeleteRoute id) "route" (Some (Route_ID oldRoute))
              "DELETE" (Some gone) None r (write_status StatusNoContent) s)
    as (Hrun & Hh & _ & Hb'); [done..|].
  change (MySQLStore.DeleteRoute id s) with (exec (OpDeleteRoute id) s) in Hres, Hlook.
  destruct (exec (OpDeleteRoute id) s) as [res s1].
  cbn [fst snd] in Hres, Hlook, Hrun, Hh, Hb'. subst res. cbn. fold gone. rewrite Hrun.
  cbn [fst snd]. split_and!; [done..|by rewrite Hb', Hlook|done].
Qed.

Lemma DeleteRoute_deleted_witness :
  let gone := Route_with_Enabled false example_old in
  result_of (DeleteRoute example_delete) example_store = write_status StatusNoContent ∧
  logs_of (DeleteRoute example_delete) example_store = [] ∧
  route_by_id 1 (store_after (DeleteRoute example_delete) example_store)
  = Some (Route_with_UpdatedAt (now example_store) gone) ∧
  history (store_after (DeleteRoute example_delete) example_store)
  = history example_store ++
    [stored_history
       (history_entry marshal_Route "route" (Some (Route_ID example_old)) "DELETE"
          (Some gone) None example_delete) example_store].
Proof.
  apply (DeleteRoute_deleted example_delete example_store 1%N example_old);
    [by vm_compute..|right; by vm_compute].
Defined.

(** ** The merge of an update with the stored route *)

(** The route an update asks for has its five required fields,
    keeps the stored [enabled] when the body does not name it and takes the
    body's value, the last one given, when it does. *)
Theorem route_merge_update_policy oldRoute r fields route :
  req_body r = Some (JObj fields) →
  merge_update oldRoute r = inr route →
  validate_create route = None ∧
  ("enabled" ∉ fields.*1 → Route_Enabled route = Route_Enabled oldRoute) ∧
  (∀ v pre post, fields = pre ++ ("enabled", JBool v) :: post → "enabled" ∉ post.*1 →
                 Route_Enabled route = v).
Proof.
  intros Hbody (m & r0 & Hm & _ & Hr & Hreq)%route_merge_update_inr.
  unfold decode_body_map in Hm. rewrite Hbody in Hm.
  split_and!.
  - apply route_validate_create_None. apply bool_decide_eq_false in Hreq. tauto.
  - intros Habs. subst route. unfold enabled_of_map.
    by rewrite (proj2 (decode_map_absent _ _ _ Hm) Habs).
  - intros v pre post -> Hpost. subst route. unfold enabled_of_map.
    by rewrite (decode_map_last _ _ _ _ _ Hm Hpost).
Qed.

Lemma route_merge_update_policy_witness :
  let route := Route_with_Enabled true (example_route "account") in
  validate_create route = None ∧
  ("enabled" ∉ (example_fields "account").*1 → Route_Enabled route = Route_Enabled example_old) ∧
  (∀ v pre post, example_fields "account" = pre ++ ("enabled", JBool v) :: post →
                 "enabled" ∉ post.*1 → Route_Enabled route = v).
Proof.
  apply (route_merge_update_policy example_old example_update); by vm_compute.
Defined.

(** A timeout the body does not mention becomes 0 and a
    description the empty string: the stored values are not kept and the
    default of 5000 is not applied. *)
Theorem route_merge_update_omitted oldRoute r fields route :
  req_body r = Some (JObj fields) →
  merge_update oldRoute r = inr route →
  (Forall (λ k, foldName k ≠ foldName "timeout_ms") fields.*1 →
   Route_TimeoutMS route = 0) ∧
  (Forall (λ k, foldName k ≠ foldName "description") fields.*1 →
   Route_Description route = "").
Proof.
  intros Hbody (m & r0 & Hm & Hr0 & -> & _)%route_merge_update_inr.
  unfold decode_body_map in Hm. rewrite Hbody in Hm. split; intros Hf; simpl.
  - apply (decode_reencoded_untouched _ _ _ _ _ _ _ Route_TimeoutMS_field Hm Hr0 Hf).
  - apply (decode_reencoded_untouched _ _ _ _ _ _ _ Route_Description_field Hm Hr0 Hf).
Qed.

Lemma route_merge_update_omitted_witness :
  let route := Route_with_Enabled true (example_route "account") in
  (Forall (λ k, foldName k ≠ foldName "timeout_ms") (example_fields "account").*1 →
   Route_TimeoutMS route = 0) ∧
  (Forall (λ k, foldName k ≠ foldName "description") (example_fields "account").*1 →
   Route_Description route = "").
Proof.
  apply (route_merge_update_omitted example_old example_update); by vm_compute.
Defined.

End RouteHandler.
