(* ===== verification/HandlerHistory.v ===== *)
(** * HistoryHandler: the query of the audit trail

    Module [HistoryHandler] translates [ListHistory] of
    src/internal/handler/route.go (lines 345-400): the four query
    parameters, the one call of the store and the page written as the
    answer.

    The theorems give the bounds of the limit and the offset the store is
    asked with, for every request, and what the page holds. *)

From S2P Require Import Prelude Json Entity Sql StoreApi StoreMySQL Http Handler.
Import MySQLStore.

#[local] Set Warnings "-clear-no-such-hyp".

Module HistoryHandler.

#[local] Open Scope Z_scope.

(** [config_type]: absent, or one of the two types. *)
Definition config_type_filter (r : Request) : Result (option string) :=
  let typeParam := Query_Get r "config_type" in
  if decide (typeParam = "") then Ok None
  else if decide (typeParam ≠ "backend" ∧ typeParam ≠ "route")
  then Err "invalid config_type"
  else Ok (Some typeParam).

(** [config_id]: absent, or an unsigned number of 32 bits. *)
Definition config_id_filter (r : Request) : Result (option N) :=
  let idParam := Query_Get r "config_id" in
  if decide (idParam = "") then Ok None
  else result_map Some (ParseUint idParam 32).

(** [limit]: 50 unless the parameter is a number from 1 to 100. *)
Definition limit_of (r : Request) : Z :=
  let limitParam := Query_Get r "limit" in
  if decide (limitParam = "") then 50
  else match Atoi limitParam with
       | Ok parsedLimit =>
           if decide (0 < parsedLimit ∧ parsedLimit ≤ 100) then parsedLimit else 50
       | Err _ => 50
       end.

(** [offset]: 0 unless the parameter is a number that is not negative. *)
Definition offset_of (r : Request) : Z :=
  let offsetParam := Query_Get r "offset" in
  if decide (offsetParam = "") then 0
  else match Atoi offsetParam with
       | Ok parsedOffset => if decide (0 ≤ parsedOffset) then parsedOffset else 0
       | Err _ => 0
       end.

(** The answer: a map of four keys, encoded with its keys in order. *)
Definition marshal_page (histories : list ConfigHistory) (total limit offset : Z) : json :=
  JObj [ ("items", marshal_slice marshal_ConfigHistory histories);
         ("limit", JNum limit);
         ("offset", JNum offset);
         ("total", JNum total) ].

(** GET /api/v1/history *)
Definition ListHistory (r : Request) : Prog Response :=
  match config_type_filter r with
  | Err _ =>
      Ret (http_Error "invalid config_type (must be 'backend' or 'route')"
             StatusBadRequest)
  | Ok configType =>
      match config_id_filter r with
      | Err _ => Ret (http_Error "invalid config_id" StatusBadRequest)
      | Ok configID =>
          let limit := limit_of r in
          let offset := offset_of r in
          res <- call (OpGetHistory configType configID limit offset) ;;
          match res with
          | Err err =>
              logger_Error "failed to get history" [zap_Error err] ;;;
              Ret internal_server_error
          | Ok (histories, total) =>
              Ret (write_json StatusOK (marshal_page histories total limit offset))
          end
      end
  end.

(** The calls of [GetHistory] a program makes, as (limit, offset), in order. *)
Fixpoint history_queries {St} `{!Store St} {R} (p : Prog R) (s : St) : list (Z * Z) :=
  match p with
  | Ret _ => []
  | Call op k =>
      let '(x, s') := exec op s in
      match op with
      | OpGetHistory _ _ limit offset => [(limit, offset)]
      | _ => []
      end ++ history_queries (k x) s'
  | Log _ k => history_queries k s
  end.

(** ** Examples *)

(** A database with three audit entries and a request for the newest entry
    of backend 2. *)
Definition example_store : t :=
  mk [] []
     [mk_history_row 1 "backend" (Some 1%N) "CREATE" None None "alice" 1000;
      mk_history_row 2 "backend" (Some 2%N) "CREATE" None None "" 1001;
      mk_history_row 3 "backend" (Some 2%N) "DELETE" None None "bob" 1002]
     1 1 4 1002 false true [].

Definition example_query : Request :=
  mkRequest []
    [("config_type", "backend"); ("config_id", "2"); ("limit", "1"); ("offset", "0")]
    [] None.

(** A request for 500 entries. *)
Definition example_large : Request := mkRequest [] [("limit", "500")] [] None.

(** ** Facts *)

Lemma limit_of_bounds r : 1 ≤ limit_of r ≤ 100.
Proof. unfold limit_of. repeat case_match; lia. Qed.

Lemma offset_of_bounds r : 0 ≤ offset_of r.
Proof. unfold offset_of. repeat case_match; lia. Qed.

(** C28: whatever the request, the store is asked at most
    once, with a limit from 1 to 100 and an offset that is not negative: no
    parameter of the request reaches LIMIT or OFFSET unchecked. *)
Theorem ListHistory_bounds r (s : t) :
  Forall (λ q, 1 ≤ q.1 ≤ 100 ∧ 0 ≤ q.2) (history_queries (ListHistory r) s) ∧
  (length (history_queries (ListHistory r) s) ≤ 1)%nat.
Proof.
  unfold ListHistory. destruct (config_type_filter r); [|by split; [constructor|simpl; lia]].
  destruct (config_id_filter r); [|by split; [constructor|simpl; lia]].
  cbn. destruct (exec _ s) as [[[??]|?] ?]; cbn;
    (split; [|lia]); repeat constructor; simpl;
    auto using offset_of_bounds; apply limit_of_bounds.
Qed.

(** A limit above 100 is not cut to 100: the request is
    served with the default of 50, as is a limit of 0, a negative one and
    one that is not a number. *)
Theorem limit_of_large r n :
  Atoi (Query_Get r "limit") = Ok n → ¬ (0 < n ≤ 100) → limit_of r = 50.
Proof.
  intros Hn Hout. unfold limit_of. rewrite Hn.
  case_decide; [done|]. by case_decide.
Qed.

Lemma limit_of_large_witness : limit_of example_large = 50.
Proof. apply (limit_of_large example_large 500); [by vm_compute|lia]. Defined.

(** On a store that does not fail, a request with valid
    filters is answered 200 with the page the store returns for the limit
    and offset of the request: entries that match the filters, newest
    first, at most [limit] of them, with the count of all that match, and
    limit and offset echoed.  The store is left as it was. *)
Theorem ListHistory_page r (s : t) ty id :
  faults s = [] → config_type_filter r = Ok ty → config_id_filter r = Ok id →
  ∃ items total,
    run (ListHistory r) s
    = (write_json StatusOK (marshal_page items total (limit_of r) (offset_of r)), s, []) ∧
    total = Z.of_nat (length (filter (history_matches ty id) (history s))) ∧
    Z.of_nat (length items) = Z.min (limit_of r) (Z.max 0 (total - offset_of r)) ∧
    Sorted (by_key (flip Z.le) ConfigHistory_CreatedAt) items ∧
    Forall (history_matches ty id) items ∧ items ⊆+ history s.
Proof.
  intros Hf Hty Hid. unfold ListHistory. rewrite Hty, Hid. cbn.
  destruct (GetHistory_page ty id (limit_of r) (offset_of r) s)
    as (items & total & Hres & Hrest);
    [by apply next_fault_nil|by rewrite skip_fault_nil; [apply next_fault_nil|]
    |pose proof (limit_of_bounds r); lia|apply offset_of_bounds|].
  pose proof (GetHistory_state ty id (limit_of r) (offset_of r) s) as Hs.
  assert (faults (GetHistory ty id (limit_of r) (offset_of r) s).2 = []) as Hf'
    by by apply (exec_frame (OpGetHistory ty id (limit_of r) (offset_of r)) s).
  change (GetHistory ty id (limit_of r) (offset_of r) s)
    with (exec (OpGetHistory ty id (limit_of r) (offset_of r)) s) in Hres, Hs, Hf'.
  destruct (exec _ s) as [res s1]. simpl in Hres, Hs, Hf'. subst res. cbn.
  exists items, total. split; [|done]. f_equal. f_equal.
  apply same_data_fields in Hs. destruct s, s1; simpl in *. naive_solver.
Qed.

Lemma ListHistory_page_witness :
  ∃ items total,
    run (ListHistory example_query) example_store
    = (write_json StatusOK
         (marshal_page items total (limit_of example_query) (offset_of example_query)),
       example_store, []) ∧
    total = Z.of_nat (length (filter (history_matches (Some "backend") (Some 2%N))
                                (history example_store))) ∧
    Z.of_nat (length items)
    = Z.min (limit_of example_query) (Z.max 0 (total - offset_of example_query)) ∧
    Sorted (by_key (flip Z.le) ConfigHistory_CreatedAt) items ∧
    Forall (history_matches (Some "backend") (Some 2%N)) items ∧
    items ⊆+ history example_store.
Proof. apply ListHistory_page; by vm_compute. Defined.

(** A [config_type] other than "backend" and "route",
    or a [config_id] that is not an unsigned number of 32 bits, is answered
    400 without a call of the store. *)
Theorem ListHistory_invalid r (s : t) :
  config_type_filter r = Err "invalid config_type" ∨
  (is_Ok (config_type_filter r) = true ∧ is_Ok (config_id_filter r) = false) →
  resp_status (result_of (ListHistory r) s) = StatusBadRequest ∧
  round_trips (ListHistory r) s = 0%nat.
Proof.
  unfold ListHistory. intros [->|[Hty Hid]]; [done|].
  destruct (config_type_filter r); [|done]. by destruct (config_id_filter r).
Qed.

Lemma ListHistory_invalid_witness :
  let r := mkRequest [] [("config_type", "user")] [] None in
  resp_status (result_of (ListHistory r) example_store) = StatusBadRequest ∧
  round_trips (ListHistory r) example_store = 0%nat.
Proof. apply ListHistory_invalid. left. by vm_compute. Defined.

End HistoryHandler.
