(* ===== verification/Cors.v ===== *)
(** * CORS: the middleware of src/internal/middleware/cors.go

    Module [CORS] translates [CORSMiddleware], [determineAllowedOrigin] and
    [getEnv].  The environment is a function from names to values
    ([os.Getenv], the empty string for a variable that is not set); the
    headers the middleware sets on [w] are a finite map from header names to
    values, [Header().Set] being an insertion.  The handler it wraps is any
    function from requests to programs; what the client receives is the
    headers of the middleware together with the response of the handler, or
    a bare 200 for a preflight request.

    The theorems: the origin selection is a search for the first entry of
    the list that is the wildcard or the origin of the request; an origin
    that is not configured is never echoed; a preflight request never
    reaches the handler and any other request is passed on unchanged; and
    the default configuration answers with the wildcard origin and with
    credentials allowed at once. *)

From S2P Require Import Prelude Text Json Entity Sql StoreApi StoreMySQL Http.
From Stdlib Require Import Ascii.

#[local] Set Warnings "-clear-no-such-hyp".

Module CORS.

#[local] Open Scope string_scope.

(** [os.Getenv] *)
Definition Environ : Type := string → string.

(** [getEnv(key, defaultValue)] *)
Definition getEnv (env : Environ) (key defaultValue : string) : string :=
  let v := env key in
  if decide (v ≠ "") then v else defaultValue.

(** What the middleware reads from the environment when it is built. *)
Record Options : Type := mkOptions {
  origins : list string;
  allowedMethods : string;
  allowedHeaders : string;
  allowCredentials : bool;
}.

Definition options (env : Environ) : Options :=
  let allowedOrigins := getEnv env "CORS_ALLOWED_ORIGINS" "*" in
  let allowedMethods :=
    getEnv env "CORS_ALLOWED_METHODS" "GET,POST,PUT,DELETE,OPTIONS,PATCH" in
  let allowedHeaders :=
    getEnv env "CORS_ALLOWED_HEADERS" "Content-Type,Authorization,X-Requested-With" in
  let allowCredentials :=
    bool_decide (getEnv env "CORS_ALLOW_CREDENTIALS" "true" = "true") in
  mkOptions (TrimSpace <$> split_on ","%char allowedOrigins)
    allowedMethods allowedHeaders allowCredentials.

(** The loop over the allowed origins: the first entry that is the wildcard
    or the origin of the request decides. *)
Fixpoint first_allowed (requestOrigin : string) (allowedOrigins : list string) : string :=
  match allowedOrigins with
  | [] => ""
  | allowed :: rest =>
      if decide (allowed = "*") then "*"
      else if decide (allowed = requestOrigin) then requestOrigin
      else first_allowed requestOrigin rest
  end.

Definition determineAllowedOrigin (requestOrigin : string)
    (allowedOrigins : list string) : string :=
  if decide (requestOrigin = "") then ""
  else if decide (length allowedOrigins = 1%nat ∧ allowedOrigins !! 0%nat = Some "*")
  then "*"
  else first_allowed requestOrigin allowedOrigins.

(** The headers of a response: [w.Header()]. *)
Definition Header : Type := gmap string string.

(** The headers the middleware sets for a request with the given origin. *)
Definition set_headers (o : Options) (origin : string) : Header :=
  let allowedOrigin := determineAllowedOrigin origin (origins o) in
  let h : gmap string string :=
    if decide (allowedOrigin ≠ "")
    then <["Access-Control-Allow-Origin" := allowedOrigin]> ∅ else ∅ in
  let h := <["Access-Control-Allow-Methods" := allowedMethods o]> h in
  let h := <["Access-Control-Allow-Headers" := allowedHeaders o]> h in
  let h :=
    if allowCredentials o
    then <["Access-Control-Allow-Credentials" := "true"]> h else h in
  <["Access-Control-Max-Age" := "3600"]> h.

(** [CORSMiddleware(next)], applied to a request. *)
Definition CORSMiddleware (env : Environ) (next : Incoming → Prog Response)
    (r : Incoming) : Prog (Header * Response) :=
  let o := options env in
  let origin := Header_Get (in_request r) "Origin" in
  let h := set_headers o origin in
  if decide (in_method r = "OPTIONS") then Ret (h, write_status StatusOK)
  else resp <- next r ;; Ret (h, resp).

(** What the specification of the origin selection is: the first entry of
    the list that is the wildcard or the origin itself. *)
Definition origin_choice (requestOrigin : string) (allowedOrigins : list string) : string :=
  if decide (requestOrigin = "") then ""
  else default ""
         (snd <$> list_find (λ a, a = "*" ∨ a = requestOrigin) allowedOrigins).

(** ** Examples *)

(** No variable set, and a deployment that names two origins. *)
Definition example_unset : Environ := λ _, "".

Definition example_env : Environ :=
  λ key, if decide (key = "CORS_ALLOWED_ORIGINS")
         then "https://admin.example.com, https://ops.example.com"
         else "".

Definition example_request (method origin : string) : Incoming :=
  mkIncoming method "/api/v1/backends" (mkRequest [] [] [("Origin", origin)] None).

(** A handler that insists on being called: it asks the store. *)
Definition example_next (r : Incoming) : Prog Response :=
  res <- call (OpGetBackends None) ;;
  Ret (write_status StatusOK).

(** ** Facts *)

Lemma getEnv_unset env key d : env key = "" → getEnv env key d = d.
Proof. unfold getEnv. intros ->. by rewrite decide_False by naive_solver. Qed.

Lemma getEnv_set env key d : env key ≠ "" → getEnv env key d = env key.
Proof. unfold getEnv. intros ?. by rewrite decide_True. Qed.

(** The defaults of a variable that is not set. *)
Lemma options_default_origins env :
  env "CORS_ALLOWED_ORIGINS" = "" → origins (options env) = ["*"].
Proof. intros H. unfold options. cbn [origins]. by rewrite getEnv_unset. Qed.

Lemma options_default_credentials env :
  env "CORS_ALLOW_CREDENTIALS" = "" → allowCredentials (options env) = true.
Proof. intros H. unfold options. cbn [allowCredentials]. by rewrite getEnv_unset. Qed.

(** The loop is the search. *)
Lemma first_allowed_find o allowed :
  first_allowed o allowed = default "" (snd <$> list_find (λ a, a = "*" ∨ a = o) allowed).
Proof.
  induction allowed as [|a allowed IH]; [done|]. simpl.
  destruct (decide (a = "*")) as [->|Hw].
  - by rewrite decide_True by auto.
  - destruct (decide (a = o)) as [->|Ho].
    + by rewrite decide_True by auto.
    + rewrite decide_False by naive_solver. rewrite IH.
      by destruct (list_find _ allowed) as [[??]|].
Qed.

(** C38: [determineAllowedOrigin] is [origin_choice]: for a request
    with an origin the answer is the first entry of the list that is the
    wildcard or that origin, and the empty string when there is none; the
    test for a list that is the wildcard alone changes nothing. *)
Theorem determineAllowedOrigin_first_match o allowed :
  determineAllowedOrigin o allowed = origin_choice o allowed.
Proof.
  unfold determineAllowedOrigin, origin_choice. case_decide; [done|].
  rewrite <-first_allowed_find. case_decide as Hone; [|done].
  destruct Hone as [_ Hw]. destruct allowed as [|a allowed]; [done|].
  simpl in *. simplify_eq. by rewrite decide_True.
Qed.

Lemma first_allowed_cases o allowed :
  first_allowed o allowed = "" ∨
  (first_allowed o allowed = "*" ∧ "*" ∈ allowed) ∨
  (first_allowed o allowed = o ∧ o ∈ allowed).
Proof.
  induction allowed as [|a allowed IH]; [by left|]. simpl.
  repeat case_decide; subst; set_solver.
Qed.

Lemma determineAllowedOrigin_cases o allowed :
  determineAllowedOrigin o allowed = "" ∨
  (determineAllowedOrigin o allowed = "*" ∧ "*" ∈ allowed) ∨
  (determineAllowedOrigin o allowed = o ∧ o ∈ allowed).
Proof.
  unfold determineAllowedOrigin. case_decide; [by left|].
  case_decide as Hone; [|apply first_allowed_cases].
  right; left. split; [done|]. destruct Hone as [_ Hw].
  by eapply list_elem_of_lookup_2.
Qed.

(** Look a header up in what [set_headers] builds. *)
Ltac lookup_headers :=
  unfold set_headers; cbn zeta;
  repeat first [rewrite lookup_insert_ne by done | rewrite lookup_insert_eq
               | rewrite lookup_empty | done | case_match ].

Lemma set_headers_origin o origin :
  set_headers o origin !! "Access-Control-Allow-Origin" =
  let a := determineAllowedOrigin origin (origins o) in
  if decide (a ≠ "") then Some a else None.
Proof. lookup_headers. Qed.

Lemma set_headers_credentials o origin :
  set_headers o origin !! "Access-Control-Allow-Credentials" =
  if allowCredentials o then Some "true" else None.
Proof. lookup_headers. Qed.

Lemma determineAllowedOrigin_wildcard o : o ≠ "" → determineAllowedOrigin o ["*"] = "*".
Proof.
  intros. unfold determineAllowedOrigin. rewrite decide_False by done.
  by rewrite decide_True.
Qed.

Section middleware.
Context {St} `{!Store St}.
Implicit Types (env : Environ) (next : Incoming → Prog Response) (r : Incoming) (s : St).

(** The headers do not depend on the handler or on the store. *)
Lemma CORSMiddleware_headers env next r s :
  (result_of (CORSMiddleware env next r) s).1
  = set_headers (options env) (Header_Get (in_request r) "Origin").
Proof.
  unfold CORSMiddleware. case_decide; [done|].
  rewrite result_of_bind. done.
Qed.

(** C11: the origin the middleware allows is the wildcard, and
    then the wildcard is configured, or the origin of the request, and then
    that origin is configured: an origin outside the list is never echoed. *)
Theorem cors_origin_allowed env next r s v :
  (result_of (CORSMiddleware env next r) s).1 !! "Access-Control-Allow-Origin" = Some v →
  (v = "*" ∧ "*" ∈ origins (options env)) ∨
  (v = Header_Get (in_request r) "Origin" ∧ v ≠ "" ∧ v ∈ origins (options env)).
Proof.
  rewrite CORSMiddleware_headers, set_headers_origin. cbv zeta.
  case_decide as Hv; [|done]. intros Hsome. apply (inj Some) in Hsome. subst v.
  destruct (determineAllowedOrigin_cases (Header_Get (in_request r) "Origin")
              (origins (options env))) as [?|[[Heq ?]|[Heq ?]]]; [done|left|right];
    by rewrite Heq in *.
Qed.

(** A preflight request is answered 200 with the headers and
    without a body; the handler is not called, so the store is not touched.
    Any other request is answered by the handler, with the same store and
    log as without the middleware. *)
Theorem cors_preflight_or_next env next r s :
  run (CORSMiddleware env next r) s =
  let h := set_headers (options env) (Header_Get (in_request r) "Origin") in
  if decide (in_method r = "OPTIONS") then ((h, write_status StatusOK), s, [])
  else ((h, result_of (next r) s), store_after (next r) s, logs_of (next r) s).
Proof.
  unfold CORSMiddleware. cbn zeta. case_decide; [done|].
  rewrite run_bind. unfold result_of, store_after, logs_of.
  destruct (run (next r) s) as [[resp s'] l]. simpl. by rewrite app_nil_r.
Qed.

(** With the origins left at their default and credentials
    not switched off, every request that names an origin is answered with
    the wildcard origin and with credentials allowed, although the wildcard
    is meant for requests without credentials. *)
Theorem cors_wildcard_with_credentials env next r s :
  env "CORS_ALLOWED_ORIGINS" = "" → env "CORS_ALLOW_CREDENTIALS" = "" →
  Header_Get (in_request r) "Origin" ≠ "" →
  let h := (result_of (CORSMiddleware env next r) s).1 in
  h !! "Access-Control-Allow-Origin" = Some "*" ∧
  h !! "Access-Control-Allow-Credentials" = Some "true".
Proof.
  intros Ho Hc Hr. cbv zeta.
  rewrite CORSMiddleware_headers, set_headers_origin, set_headers_credentials.
  cbv zeta. rewrite options_default_origins, options_default_credentials by done.
  by rewrite determineAllowedOrigin_wildcard by done.
Qed.

End middleware.

Lemma cors_origin_allowed_witness :
  let s := MySQLStore.empty 0 false false [] in
  let r := example_request "GET" "https://ops.example.com" in
  ("https://ops.example.com" = "*" ∧ "*" ∈ origins (options example_env)) ∨
  ("https://ops.example.com" = Header_Get (in_request r) "Origin" ∧
   "https://ops.example.com" ≠ "" ∧
   "https://ops.example.com" ∈ origins (options example_env)).
Proof.
  apply (cors_origin_allowed example_env example_next
           (example_request "GET" "https://ops.example.com")
           (MySQLStore.empty 0 false false [])).
  by vm_compute.
Defined.

Lemma cors_wildcard_with_credentials_witness :
  let h := (result_of (CORSMiddleware example_unset example_next
                         (example_request "GET" "https://evil.example.org"))
              (MySQLStore.empty 0 false false [])).1 in
  h !! "Access-Control-Allow-Origin" = Some "*" ∧
  h !! "Access-Control-Allow-Credentials" = Some "true".
Proof. by apply cors_wildcard_with_credentials. Defined.

End CORS.
