(* ===== verification/Trace.v ===== *)
(** * What a program does, whatever the store answers

    A handler is a finite tree of store calls; which branch it takes depends
    on the answers only.  A [path] of a program is one branch: the calls
    made with the answers received and the lines logged, in order, down to
    the response.  Every run is a path ([path_run]), on every
    implementation of [Store] and whatever other requests do to the store
    between two calls, so a property of all paths ([every_path]) is a
    property of the handler in every execution.

    Also here: [bounded], a bound on the number of steps of a program on all
    its paths; [writes], the writing calls of a path with their outcome; and
    [contract], what a path of a handler of this program must look like:
    one of eight status codes and the write-then-audit protocol;
    [audit_prefix], what the beginning of such a path has written
    ([contract_prefix]). *)

From S2P Require Import Prelude Json Entity StoreApi Http.

#[local] Set Warnings "-clear-no-such-hyp".
#[local] Open Scope Z_scope.

(** ** Events and paths *)

Inductive Event : Type :=
| EvCall {X : Type} (op : StoreOp X) (x : X)
| EvLog (e : LogEntry).

(** The events of the run of a program on a store. *)
Fixpoint trace_of {St} `{!Store St} {R} (p : Prog R) (s : St) : list Event :=
  match p with
  | Ret _ => []
  | Call op k => let '(x, s') := exec op s in EvCall op x :: trace_of (k x) s'
  | Log e k => EvLog e :: trace_of k s
  end.

(** [path p tr r]: the program can make the calls of [tr], receive the
    answers of [tr] and return [r]. *)
Fixpoint path {R} (p : Prog R) (tr : list Event) (r : R) : Prop :=
  match p with
  | Ret r' => tr = [] ∧ r = r'
  | Call op k => ∃ x tr', tr = EvCall op x :: tr' ∧ path (k x) tr' r
  | Log e k => ∃ tr', tr = EvLog e :: tr' ∧ path k tr' r
  end.

(** [P] holds of every path of the program, by recursion on the tree. *)
Fixpoint every_path {R} (P : list Event → R → Prop) (p : Prog R) : Prop :=
  match p with
  | Ret r => P [] r
  | Call op k => ∀ x, every_path (λ tr, P (EvCall op x :: tr)) (k x)
  | Log e k => every_path (λ tr, P (EvLog e :: tr)) k
  end.

(** No path of the program has more than [n] events. *)
Fixpoint bounded {R} (n : nat) (p : Prog R) {struct p} : Prop :=
  match p with
  | Ret _ => True
  | Call op k => match n with O => False | S n' => ∀ x, bounded n' (k x) end
  | Log e k => match n with O => False | S n' => bounded n' k end
  end.

(** ** What a path shows *)

(** The lines logged. *)
Definition event_log (ev : Event) : option LogEntry :=
  match ev with EvLog e => Some e | EvCall _ _ => None end.

Definition is_call (ev : Event) : bool :=
  match ev with EvCall _ _ => true | EvLog _ => false end.

(** A writing call, as the audit trail names it: the table and the
    operation, or the entry offered to the trail; and whether the store
    accepted it. *)
Inductive Write : Type :=
| WEntity (configType operation : string) (ok : bool)
| WHistory (history : ConfigHistory) (ok : bool).

#[global] Instance Write_eq_dec : EqDecision Write.
Proof. solve_decision. Defined.

Definition op_write {X} (op : StoreOp X) : X → option Write :=
  match op in StoreOp X return X → option Write with
  | OpCreateBackend _ => λ x, Some (WEntity "backend" "CREATE" (is_Ok x))
  | OpUpdateBackend _ _ => λ x, Some (WEntity "backend" "UPDATE" (is_Ok x))
  | OpDeleteBackend _ => λ x, Some (WEntity "backend" "DELETE" (is_Ok x))
  | OpCreateRoute _ => λ x, Some (WEntity "route" "CREATE" (is_Ok x))
  | OpUpdateRoute _ _ => λ x, Some (WEntity "route" "UPDATE" (is_Ok x))
  | OpDeleteRoute _ => λ x, Some (WEntity "route" "DELETE" (is_Ok x))
  | OpCreateHistory h => λ x, Some (WHistory h (is_Ok x))
  | _ => λ _, None
  end.

Definition event_write (ev : Event) : option Write :=
  match ev with EvCall op x => op_write op x | EvLog _ => None end.

(** The writing calls of a path, in order. *)
Definition writes (tr : list Event) : list Write := omap event_write tr.

(** The warnings of a path. *)
Definition warnings (tr : list Event) : list LogEntry :=
  filter (λ e, log_level e = WarnLevel) (omap event_log tr).

(** ** The contract of a handler *)

(** The status codes the service answers with. *)
Definition statuses : list Z := [200; 201; 204; 400; 404; 405; 409; 500].

(** A change that was made and offered to the audit trail: one write of the
    entity, accepted, then one entry for the trail that names the entity's
    type, the operation and the operator; a warning is logged exactly when
    the trail refuses the entry. *)
Definition audited_write (configType operation operator : string)
    (tr : list Event) : Prop :=
  ∃ h ok,
    writes tr = [WEntity configType operation true; WHistory h ok] ∧
    ConfigHistory_ConfigType h = configType ∧
    ConfigHistory_Operation h = operation ∧
    ConfigHistory_Operator h = operator ∧
    (if ok then warnings tr = [] else length (warnings tr) = 1%nat).

(** What the writes of a path must be, given the response it ends in:
    a request that changes an entity and is answered below 400 has made the
    change and offered it to the trail; answered 400 or above it has made
    no write that was accepted and has offered nothing to the trail; a
    request that reads makes no write.  Only a refusal of the trail is
    logged as a warning. *)
Definition audit_protocol (configType operation operator : string) (mutation : bool)
    (tr : list Event) (resp : Response) : Prop :=
  if mutation then
    if decide (resp_status resp < 400)
    then audited_write configType operation operator tr
    else (writes tr = [] ∨ writes tr = [WEntity configType operation false]) ∧
         warnings tr = []
  else writes tr = [] ∧ warnings tr = [].

Record contract (configType operation operator : string) (mutation : bool)
    (tr : list Event) (resp : Response) : Prop := mk_contract {
  contract_status : resp_status resp ∈ statuses;
  contract_audit : audit_protocol configType operation operator mutation tr resp;
}.

(** The writes of a request that is part of the way: none, the write of
    its entity, or that write, accepted, and the entry offered to the
    trail. *)
Definition audit_prefix (configType operation operator : string)
    (ws : list Write) : Prop :=
  ws = [] ∨ (∃ ok, ws = [WEntity configType operation ok]) ∨
  ∃ h ok,
    ws = [WEntity configType operation true; WHistory h ok] ∧
    ConfigHistory_ConfigType h = configType ∧
    ConfigHistory_Operation h = operation ∧
    ConfigHistory_Operator h = operator.

(** ** Facts *)

Section trace.
Context {St} `{!Store St}.

(** Every run is a path. *)
Lemma path_run {R} (p : Prog R) (s : St) : path p (trace_of p s) (result_of p s).
Proof.
  unfold result_of. revert s. induction p as [r|X op k IH|e k IH]; intros s; simpl.
  - done.
  - specialize (IH (exec op s).1 (exec op s).2). destruct (exec op s) as [x s']. eauto.
  - specialize (IH s). destruct (run k s) as [[??]?]. eauto.
Qed.

(** The log of a run is what its trace logs; its round trips are its calls. *)
Lemma logs_of_trace {R} (p : Prog R) (s : St) :
  logs_of p s = omap event_log (trace_of p s).
Proof.
  unfold logs_of. revert s. induction p as [r|X op k IH|e k IH]; intros s; simpl.
  - done.
  - destruct (exec op s) as [x s']. apply IH.
  - specialize (IH s). destruct (run k s) as [[??]?]. simpl in *. by f_equal.
Qed.

Lemma round_trips_trace {R} (p : Prog R) (s : St) :
  round_trips p s = length (filter is_call (trace_of p s)).
Proof.
  revert s. induction p as [r|X op k IH|e k IH]; intros s; simpl; [done| |done].
  destruct (exec op s) as [x s']. rewrite filter_cons_True by done. simpl. by f_equal.
Qed.

End trace.

Lemma every_path_spec {R} (P : list Event → R → Prop) (p : Prog R) :
  every_path P p ↔ ∀ tr r, path p tr r → P tr r.
Proof.
  revert P. induction p as [r|X op k IH|e k IH]; intros P; simpl.
  - naive_solver.
  - setoid_rewrite IH. naive_solver.
  - rewrite IH. naive_solver.
Qed.

Lemma every_path_impl {R} (P Q : list Event → R → Prop) (p : Prog R) :
  (∀ tr r, P tr r → Q tr r) → every_path P p → every_path Q p.
Proof. rewrite !every_path_spec. naive_solver. Qed.

(** What holds of every path holds of every run. *)
Lemma every_path_run {St} `{!Store St} {R} (P : list Event → R → Prop)
    (p : Prog R) (s : St) :
  every_path P p → P (trace_of p s) (result_of p s).
Proof. rewrite every_path_spec. intros H. apply H, path_run. Qed.

(** The paths of [bind p f]: a path of [p], then a path of what follows. *)
Lemma every_path_bind {A B} (P : list Event → B → Prop) (p : Prog A) (f : A → Prog B) :
  every_path P (bind p f) ↔
  every_path (λ tr a, every_path (λ tr', P (tr ++ tr')) (f a)) p.
Proof.
  revert P. induction p as [r|X op k IH|e k IH]; intros P; simpl; [done| |].
  - apply forall_proper; intros x. apply IH.
  - apply IH.
Qed.

Lemma path_bind {A B} (p : Prog A) (f : A → Prog B) tr b :
  path (bind p f) tr b ↔ ∃ tr1 a tr2, path p tr1 a ∧ path (f a) tr2 b ∧ tr = tr1 ++ tr2.
Proof.
  revert tr. induction p as [r|X op k IH|e k IH]; intros tr; simpl.
  - split; [by exists [], r, tr|]. by intros (? & ? & ? & [-> ->] & ? & ->).
  - setoid_rewrite IH. split.
    + intros (x & tr' & -> & tr1 & a & tr2 & ? & ? & ->).
      exists (EvCall op x :: tr1), a, tr2. naive_solver.
    + intros (? & a & tr2 & (x & tr1 & -> & ?) & ? & ->). naive_solver.
  - setoid_rewrite IH. split.
    + intros (tr' & -> & tr1 & a & tr2 & ? & ? & ->).
      exists (EvLog e :: tr1), a, tr2. naive_solver.
    + intros (? & a & tr2 & (tr1 & -> & ?) & ? & ->). naive_solver.
Qed.

Lemma bounded_mono {R} (n m : nat) (p : Prog R) :
  (n ≤ m)%nat → bounded n p → bounded m p.
Proof.
  revert n m. induction p as [r|X op k IH|e k IH]; intros n m Hnm; simpl; [done| |].
  - destruct n as [|n]; [done|]. destruct m as [|m]; [lia|].
    intros H x. apply (IH x n); [lia|done].
  - destruct n as [|n]; [done|]. destruct m as [|m]; [lia|]. apply IH. lia.
Qed.

(** A bound on the program bounds every path. *)
Lemma bounded_path {R} (n : nat) (p : Prog R) tr r :
  bounded n p → path p tr r → (length tr ≤ n)%nat.
Proof.
  revert n tr. induction p as [r'|X op k IH|e k IH]; intros n tr; simpl.
  - intros _ [-> _]. simpl. lia.
  - destruct n; [done|]. intros Hb (x & tr' & -> & Hp). specialize (IH x n tr' (Hb x) Hp).
    simpl. lia.
  - destruct n; [done|]. intros Hb (tr' & -> & Hp). specialize (IH n tr' Hb Hp).
    simpl. lia.
Qed.

Lemma bounded_bind {A B} (n m : nat) (p : Prog A) (f : A → Prog B) :
  bounded n p → (∀ a, bounded m (f a)) → bounded (n + m) (bind p f).
Proof.
  intros Hp Hf. revert n Hp. induction p as [r|X op k IH|e k IH]; intros n Hp; simpl in *.
  - apply (bounded_mono m); [lia|done].
  - destruct n as [|n]; [done|]. simpl. intros x. by apply IH.
  - destruct n as [|n]; [done|]. simpl. by apply IH.
Qed.

(** A program bounded by [n] makes at most [n] round trips on any store. *)
Lemma bounded_round_trips {St} `{!Store St} {R} (n : nat) (p : Prog R) (s : St) :
  bounded n p → (round_trips p s ≤ n)%nat.
Proof.
  intros Hb. rewrite round_trips_trace.
  etrans; [apply length_filter|]. eapply bounded_path; [done|apply path_run].
Qed.

Lemma writes_app tr1 tr2 : writes (tr1 ++ tr2) = writes tr1 ++ writes tr2.
Proof. apply omap_app. Qed.

Lemma warnings_app tr1 tr2 : warnings (tr1 ++ tr2) = warnings tr1 ++ warnings tr2.
Proof. unfold warnings. by rewrite omap_app, filter_app. Qed.

(** The beginning of a run that keeps the contract has written the
    beginning of what the contract allows. *)
Lemma contract_prefix configType operation operator mutation tr rest resp :
  contract configType operation operator mutation (tr ++ rest) resp →
  audit_prefix configType operation operator (writes tr).
Proof.
  intros [_ Ha]. unfold audit_protocol, audited_write, audit_prefix in *.
  rewrite writes_app in Ha.
  destruct (writes tr) as [|w1 [|w2 [|w3 ws]]], mutation; repeat case_decide;
    naive_solver.
Qed.
