(* ===== verification/Protocol.v ===== *)
(** * The handlers follow the write-then-audit protocol

    Every path of every handler of backend.go and route.go satisfies
    [Trace.contract] and is at most five steps long.  The proofs walk the
    tree of each handler: at a store call every answer is considered, at a
    test of the request both outcomes.  Nothing is assumed of the store, so
    the statements hold for every implementation of [Store], for every
    failure and for every interleaving with other requests. *)

From S2P Require Import Prelude Json Entity Sql StoreApi StoreMySQL Http Handler.
From S2P Require Import HandlerBackend HandlerRoute HandlerHistory Trace.

#[local] Set Warnings "-clear-no-such-hyp".
#[local] Open Scope Z_scope.

(** The events of [recordHistory] after its call: the warning, if the call
    failed. *)
Definition history_events (res : Result unit) : list Event :=
  match res with
  | Err err => [EvLog (mkLogEntry WarnLevel "failed to record history" [zap_Error err])]
  | Ok _ => []
  end.

(** ** Walking a handler *)

Lemma every_path_record {T R} (marshal : T → json) ty id op old new r (k : Prog R) P :
  (∀ res, every_path
            (λ tr, P (EvCall (OpCreateHistory (history_entry marshal ty id op old new r)) res
                        :: history_events res ++ tr)) k) →
  every_path P (record_history marshal ty id op old new r ;;; k).
Proof. intros H. unfold record_history. simpl. intros [u|err]; simpl; apply H. Qed.

Lemma bounded_record {T R} (marshal : T → json) ty id op old new r (k : Prog R) n :
  bounded n k → bounded (S (S n)) (record_history marshal ty id op old new r ;;; k).
Proof.
  intros H. unfold record_history. simpl. intros [u|err]; simpl; [|done].
  by apply (bounded_mono n); [lia|].
Qed.

(** The three ways a path of a handler ends. *)
Lemma contract_read ty op operator tr resp :
  resp_status resp ∈ statuses → writes tr = [] → warnings tr = [] →
  contract ty op operator false tr resp.
Proof. by split. Qed.

Lemma contract_refused ty op operator tr resp :
  resp_status resp ∈ [400; 404; 409; 500] →
  writes tr = [] ∨ writes tr = [WEntity ty op false] → warnings tr = [] →
  contract ty op operator true tr resp.
Proof.
  intros Hst Hw Hl. split; [unfold statuses; set_solver|].
  unfold audit_protocol. rewrite decide_False; [done|]. set_unfold. lia.
Qed.

Lemma contract_audited ty op operator tr resp :
  resp_status resp ∈ [200; 201; 204] →
  audited_write ty op operator tr →
  contract ty op operator true tr resp.
Proof.
  intros Hst Hw. split; [unfold statuses; set_solver|].
  unfold audit_protocol. rewrite decide_True; [done|]. set_unfold. lia.
Qed.

Lemma not_found_or_500_cases notFound err :
  resp_status (not_found_or_500 notFound err) ∈ [400; 404; 409; 500].
Proof. unfold not_found_or_500. case_decide; cbn; set_solver. Qed.

Lemma bad_request_refused resp :
  resp_status resp = StatusBadRequest → resp_status resp ∈ [400; 404; 409; 500].
Proof. intros ->. set_solver. Qed.

(** An audited write, from the events [recordHistory] leaves. *)
Lemma audited_write_record {T} (marshal : T → json) ty id op old new r pre res :
  writes pre = [WEntity ty op true] → warnings pre = [] →
  audited_write ty op (Header_Get r "X-Operator")
    (pre ++ EvCall (OpCreateHistory (history_entry marshal ty id op old new r)) res
         :: history_events res ++ []).
Proof.
  intros Hw Hl. exists (history_entry marshal ty id op old new r), (is_Ok res).
  rewrite writes_app, warnings_app, Hw, Hl. by destruct res.
Qed.

(** Consider every answer and every test down to the responses. *)
Ltac walk :=
  repeat first
    [ apply every_path_record; intros ?
    | progress cbn [every_path bind call logger_Error logger_Warn]
    | match goal with
      | |- every_path _ (match ?x with _ => _ end) => destruct x eqn:?
      | |- every_path _ (bind (match ?x with _ => _ end) _) => destruct x eqn:?
      | |- ∀ x : Result _, _ => intros [?|?]
      | |- ∀ x : _, _ => intros ?
      end ].

Ltac walk_bounded :=
  repeat first
    [ apply bounded_record
    | progress cbn [bounded bind call logger_Error logger_Warn]
    | match goal with
      | |- bounded _ (match ?x with _ => _ end) => destruct x
      | |- bounded _ (bind (match ?x with _ => _ end) _) => destruct x
      | |- ∀ x : _, _ => intros ?
      | |- True => exact I
      end ].

(** The status of a response that is given or known by an equation. *)
Ltac status_in :=
  first [ apply not_found_or_500_cases
        | by apply (bool_decide_unpack _)
        | apply bad_request_refused;
          eauto using BackendHandler.validate_create_Some, BackendHandler.merge_update_inl,
            RouteHandler.route_validate_create_Some, RouteHandler.route_merge_update_inl ].

(** Close a path. *)
Ltac leaf :=
  cbn [BackendHandler.is_mutation BackendHandler.operation_of
       RouteHandler.is_mutation RouteHandler.operation_of];
  first
    [ apply contract_read; [status_in|done..]
    | apply contract_refused; [status_in|by (left + right)|done]
    | apply contract_audited; [status_in|];
      match goal with
      | |- audited_write _ _ _ (?e1 :: ?e2 :: ?e3 :: ?e4 :: ?rest) =>
          apply (audited_write_record _ _ _ _ _ _ _ [e1; e2; e3])
      | |- audited_write _ _ _ (?e1 :: ?e2 :: ?e3 :: ?rest) =>
          apply (audited_write_record _ _ _ _ _ _ _ [e1; e2])
      end; done ].

(** ** Backends *)

Section backend.
Import BackendHandler.

Lemma backend_contract e r :
  every_path
    (contract "backend" (operation_of e) (Header_Get r "X-Operator") (is_mutation e))
    (handle e r).
Proof.
  destruct e; unfold handle, ListBackends, GetBackend, CreateBackend, UpdateBackend,
    DeleteBackend, recordHistory; walk; leaf.
Qed.

Lemma backend_bounded e r : bounded 4 (handle e r).
Proof.
  destruct e; unfold handle, ListBackends, GetBackend, CreateBackend, UpdateBackend,
    DeleteBackend, recordHistory; walk_bounded.
Qed.

End backend.

(** ** Routes *)

Section route.
Import RouteHandler.

Lemma route_contract e r :
  every_path
    (contract "route" (operation_of e) (Header_Get r "X-Operator") (is_mutation e))
    (handle e r).
Proof.
  destruct e; unfold handle, ListRoutes, GetRoute, CreateRoute, UpdateRoute,
    DeleteRoute, verify_if_changed, verify_backend, create_and_record,
    update_and_record, recordHistory; walk; leaf.
Qed.

Lemma route_bounded e r : bounded 5 (handle e r).
Proof.
  destruct e; unfold handle, ListRoutes, GetRoute, CreateRoute, UpdateRoute,
    DeleteRoute, verify_if_changed, verify_backend, create_and_record,
    update_and_record, recordHistory; walk_bounded.
Qed.

End route.

(** ** The audit trail *)

Lemma history_contract r :
  every_path (contract "" "" (Header_Get r "X-Operator") false)
    (HistoryHandler.ListHistory r).
Proof. unfold HistoryHandler.ListHistory. walk; leaf. Qed.

Lemma history_bounded r : bounded 2 (HistoryHandler.ListHistory r).
Proof. unfold HistoryHandler.ListHistory. walk_bounded. Qed.
