(* ===== verification/Server.v ===== *)
(** * The server: routing table and dispatch of src/cmd/admin/main.go

    Module [Server] holds what [main] builds before it listens: the
    settings read from the environment, the table of routes registered on
    the chi router and the health endpoint.  [serve] is the router applied
    to a request: the handler of the entry that matches method and path,
    run on the request with the URL parameters bound; 404 when no entry
    matches the path and 405 when only the method differs.

    chi's matching is given for the patterns of this table: a path and a
    pattern are split at the slashes, a segment in braces matches any
    segment that is not empty, any other segment matches itself.

    The theorems: the table is unambiguous; the path built from a pattern
    is routed to the handler registered for it, with the parameter bound
    (a round trip); a request that is not routed is answered without a
    store call; and every path of [serve], for every request, satisfies the
    contract of [Trace] and ends after at most five steps, of which at most
    four are store calls. *)

From S2P Require Import Prelude Text Json Entity Sql StoreApi StoreMySQL Http.
From S2P Require Import Handler HandlerBackend HandlerRoute HandlerHistory Trace.
From S2P Require Import Protocol.
From Stdlib Require Import Ascii.

#[local] Set Warnings "-clear-no-such-hyp".

Module Server.

#[local] Open Scope string_scope.

(** ** Settings *)

(** [os.Getenv] *)
Definition Environ : Type := string → string.

(** [getEnv(key, defaultValue)] *)
Definition getEnv (env : Environ) (key defaultValue : string) : string :=
  let v := env key in
  if decide (v ≠ "") then v else defaultValue.

Record Settings : Type := mkSettings {
  dsn : string;
  listenAddr : string;
}.

(** The start of [main]: the DSN is required, the address has a default. *)
Definition settings (env : Environ) : Result Settings :=
  let dsn := env "ADMIN_DB_DSN" in
  if decide (dsn = "") then Err "ADMIN_DB_DSN environment variable is required"
  else
    let listenAddr := getEnv env "ADMIN_HTTP_LISTEN" ":8081" in
    Ok (mkSettings dsn listenAddr).

(** ** The routing table *)

(** The handlers [main] registers. *)
Inductive Handler : Type :=
| HBackend (e : BackendHandler.endpoint)
| HRoute (e : RouteHandler.endpoint)
| HHistory
| HHealth.

#[global] Instance Handler_eq_dec : EqDecision Handler.
Proof. solve_decision. Defined.

(** [r.Route("/api/v1", ...)]: method, pattern and handler of each entry. *)
Definition api_v1 : list (string * string * Handler) :=
  [ ("GET", "/backends", HBackend BackendHandler.EListBackends);
    ("GET", "/backends/{name}", HBackend BackendHandler.EGetBackend);
    ("POST", "/backends", HBackend BackendHandler.ECreateBackend);
    ("PUT", "/backends/{name}", HBackend BackendHandler.EUpdateBackend);
    ("DELETE", "/backends/{name}", HBackend BackendHandler.EDeleteBackend);
    ("GET", "/routes", HRoute RouteHandler.EListRoutes);
    ("GET", "/routes/{id}", HRoute RouteHandler.EGetRoute);
    ("POST", "/routes", HRoute RouteHandler.ECreateRoute);
    ("PUT", "/routes/{id}", HRoute RouteHandler.EUpdateRoute);
    ("DELETE", "/routes/{id}", HRoute RouteHandler.EDeleteRoute);
    ("GET", "/history", HHistory) ].

(** The whole table: the API under its prefix, then the health check. *)
Definition routes : list (string * string * Handler) :=
  ((λ e, (e.1.1, "/api/v1" +:+ e.1.2, e.2)) <$> api_v1) ++ [("GET", "/health", HHealth)].

(** The answer of the health check: status 200, content type JSON, and as
    body the text of this object. *)
Definition health : Response :=
  mkResponse StatusOK "application/json" (Json (JObj [("status", JStr "ok")])).

(** ** chi's matching *)

Inductive segment : Type :=
| Static (w : string)
| Param (name : string).

#[global] Instance segment_eq_dec : EqDecision segment.
Proof. solve_decision. Defined.

(** The string without its last byte. *)
Fixpoint drop_last (s : string) : string :=
  match s with
  | EmptyString => ""
  | String c EmptyString => ""
  | String c s' => String c (drop_last s')
  end.

Definition parse_segment (w : string) : segment :=
  match w with
  | String "{"%char rest => Param (drop_last rest)
  | _ => Static w
  end.

Definition parse_pattern (pattern : string) : list segment :=
  parse_segment <$> split_on "/"%char pattern.

(** The parameters a path binds when it matches a pattern. *)
Fixpoint match_segments (pat : list segment) (path : list string) :
    option (list (string * string)) :=
  match pat, path with
  | [], [] => Some []
  | Static w :: pat, v :: path =>
      if decide (w = v) then match_segments pat path else None
  | Param name :: pat, v :: path =>
      if decide (v = "") then None
      else (λ ps, (name, v) :: ps) <$> match_segments pat path
  | _, _ => None
  end.

Definition match_pattern (pattern path : string) : option (list (string * string)) :=
  match_segments (parse_pattern pattern) (split_on "/"%char path).

(** The methods chi knows. *)
Definition chi_methods : list string :=
  ["CONNECT"; "DELETE"; "GET"; "HEAD"; "OPTIONS"; "PATCH"; "POST"; "PUT"; "TRACE"].

Inductive Routed : Type :=
| Matched (params : list (string * string)) (h : Handler)
| MethodNotAllowed
| NotFound.

(** The entries whose pattern matches the path, with the parameters bound. *)
Definition hits (table : list (string * string * Handler)) (path : string) :
    list (string * list (string * string) * Handler) :=
  omap (λ e, (λ ps, (e.1.1, ps, e.2)) <$> match_pattern e.1.2 path) table.

Definition find_route (table : list (string * string * Handler))
    (method path : string) : Routed :=
  if decide (method ∈ chi_methods) then
    match list_find (λ hit, hit.1.1 = method) (hits table path) with
    | Some (_, hit) => Matched hit.1.2 hit.2
    | None => if decide (hits table path = []) then NotFound else MethodNotAllowed
    end
  else MethodNotAllowed.

(** ** Serving a request *)

Definition StatusMethodNotAllowed : Z := 405.

(** The request a handler sees: the URL parameters are those of the match. *)
Definition with_params (ps : list (string * string)) (r : Request) : Request :=
  mkRequest ps (req_query r) (req_headers r) (req_body r).

Definition dispatch (h : Handler) (r : Request) : Prog Response :=
  match h with
  | HBackend e => BackendHandler.handle e r
  | HRoute e => RouteHandler.handle e r
  | HHistory => HistoryHandler.ListHistory r
  | HHealth => Ret health
  end.

Definition route_of (r : Incoming) : Routed :=
  find_route routes (in_method r) (in_path r).

Definition serve (r : Incoming) : Prog Response :=
  match route_of r with
  | Matched ps h => dispatch h (with_params ps (in_request r))
  | MethodNotAllowed => Ret (write_status StatusMethodNotAllowed)
  | NotFound => Ret (http_Error "404 page not found" StatusNotFound)
  end.

(** ** What a request is, for the audit trail *)

Definition handler_type (h : Handler) : string :=
  match h with HBackend _ => "backend" | HRoute _ => "route" | _ => "" end.

Definition handler_operation (h : Handler) : string :=
  match h with
  | HBackend e => BackendHandler.operation_of e
  | HRoute e => RouteHandler.operation_of e
  | _ => ""
  end.

Definition handler_mutation (h : Handler) : bool :=
  match h with
  | HBackend e => BackendHandler.is_mutation e
  | HRoute e => RouteHandler.is_mutation e
  | _ => false
  end.

(** The handler a request is routed to, if any. *)
Definition handler_of (r : Incoming) : option Handler :=
  match route_of r with Matched _ h => Some h | _ => None end.

Definition request_type (r : Incoming) : string :=
  from_option handler_type "" (handler_of r).
Definition request_operation (r : Incoming) : string :=
  from_option handler_operation "" (handler_of r).
Definition is_mutation (r : Incoming) : bool :=
  from_option handler_mutation false (handler_of r).
Definition operator (r : Incoming) : string := Header_Get (in_request r) "X-Operator".

(** ** Paths built from patterns *)

Definition fill_segment (v : string) (seg : segment) : string :=
  match seg with Static w => w | Param _ => v end.

(** The path of a pattern with [v] for its parameter. *)
Definition fill (pattern v : string) : string :=
  join_on "/"%char (fill_segment v <$> parse_pattern pattern).

Definition bindings (v : string) (pat : list segment) : list (string * string) :=
  omap (λ seg, match seg with Param name => Some (name, v) | Static _ => None end) pat.

(** Whether two patterns can match the same path. *)
Fixpoint overlap (p q : list segment) : bool :=
  match p, q with
  | [], [] => true
  | Static a :: p, Static b :: q => bool_decide (a = b) && overlap p q
  | _ :: p, _ :: q => overlap p q
  | _, _ => false
  end.

(** A static segment that could be taken for a parameter, or that holds a
    slash or is empty where a parameter would not match. *)
Definition plain (seg : segment) : bool :=
  match seg with
  | Static w => negb (contains_byte "/"%char w)
  | Param _ => true
  end.

(** ** Examples *)

Definition example_get : Incoming :=
  mkIncoming "GET" "/api/v1/backends/account" (mkRequest [] [] [] None).

Definition example_put : Incoming :=
  mkIncoming "PUT" "/api/v1/routes/7" (mkRequest [] [] [("X-Operator", "alice")] None).

Definition example_patch : Incoming :=
  mkIncoming "PATCH" "/api/v1/backends" (mkRequest [] [] [] None).

Definition example_unknown : Incoming :=
  mkIncoming "GET" "/api/v1/backends/" (mkRequest [] [] [] None).

(** ** Facts *)

(** Decide a closed proposition by evaluation. *)
Ltac by_compute := apply (bool_decide_unpack _); vm_compute; exact I.

Lemma getEnv_fallback env key d : env key = "" → getEnv env key d = d.
Proof. unfold getEnv. intros ->. by rewrite decide_False by naive_solver. Qed.

(** The service does not start without a DSN. *)
Lemma settings_dsn env : is_Ok (settings env) = true ↔ env "ADMIN_DB_DSN" ≠ "".
Proof. unfold settings. by case_decide. Qed.

Lemma settings_default env st :
  settings env = Ok st → env "ADMIN_HTTP_LISTEN" = "" → listenAddr st = ":8081".
Proof.
  unfold settings. case_decide; [done|]. intros [= <-] H0. simpl. by apply getEnv_fallback.
Qed.

(** Two patterns that match the same path overlap. *)
Lemma match_overlap p q path ps1 ps2 :
  match_segments p path = Some ps1 → match_segments q path = Some ps2 →
  overlap p q = true.
Proof.
  revert q path ps1 ps2. induction p as [|[a|n] p IH]; intros [|[b|m] q] [|v path] ps1 ps2;
    simpl; try done; repeat case_decide; try done; subst;
    rewrite ?fmap_Some; try (rewrite bool_decide_true by done; simpl);
    naive_solver.
Qed.

(** A pattern matches the path built from it. *)
Lemma match_fill v pat :
  v ≠ "" → match_segments pat (fill_segment v <$> pat) = Some (bindings v pat).
Proof.
  intros Hv. induction pat as [|[w|n] pat IH]; csimpl; [done| |].
  - by rewrite decide_True.
  - by rewrite decide_False, IH.
Qed.

(** The patterns of the table, pairwise: those that overlap are the same. *)
Lemma routes_patterns_disjoint e1 e2 :
  e1 ∈ routes → e2 ∈ routes →
  overlap (parse_pattern e1.1.2) (parse_pattern e2.1.2) = true → e1.1.2 = e2.1.2.
Proof.
  intros H1 H2.
  assert (Forall (λ e1, Forall (λ e2,
    overlap (parse_pattern e1.1.2) (parse_pattern e2.1.2) = true → e1.1.2 = e2.1.2)
    routes) routes) as Hall by by_compute.
  rewrite Forall_forall in Hall. specialize (Hall _ H1).
  rewrite Forall_forall in Hall. by apply Hall.
Qed.

(** Method and pattern name an entry. *)
Lemma routes_keys e1 e2 :
  e1 ∈ routes → e2 ∈ routes → e1.1 = e2.1 → e1 = e2.
Proof.
  intros H1 H2.
  assert (Forall (λ e1, Forall (λ e2, e1.1 = e2.1 → e1 = e2) routes) routes) as Hall
    by by_compute.
  rewrite Forall_forall in Hall. specialize (Hall _ H1).
  rewrite Forall_forall in Hall. by apply Hall.
Qed.

Lemma elem_of_hits table path hit :
  hit ∈ hits table path ↔
  ∃ e, e ∈ table ∧ match_pattern e.1.2 path = Some hit.1.2 ∧ hit.1.1 = e.1.1 ∧ hit.2 = e.2.
Proof.
  unfold hits. rewrite list_elem_of_omap. split.
  - intros (e & He & Hm). apply fmap_Some in Hm as (ps & Hps & ->). by exists e.
  - intros (e & He & Hm & H1 & H2). exists e. split; [done|]. rewrite Hm. simpl.
    destruct hit as [[??]?]. simpl in *. by subst.
Qed.

(** At most one entry of the table matches a method and a path, so the
    order of registration does not matter. *)
Lemma routes_unambiguous e1 e2 path ps1 ps2 :
  e1 ∈ routes → e2 ∈ routes → e1.1.1 = e2.1.1 →
  match_pattern e1.1.2 path = Some ps1 → match_pattern e2.1.2 path = Some ps2 →
  e1 = e2.
Proof.
  intros H1 H2 Hm Hp1 Hp2. apply routes_keys; [done..|].
  destruct e1 as [[m1 p1] h1], e2 as [[m2 p2] h2]. simpl in *. f_equal; [done|].
  apply (routes_patterns_disjoint (m1, p1, h1) (m2, p2, h2)); [done..|].
  by eapply match_overlap.
Qed.

Lemma routes_methods e : e ∈ routes → e.1.1 ∈ chi_methods.
Proof.
  assert (Forall (λ e, e.1.1 ∈ chi_methods) routes) as Hall
    by by_compute.
  rewrite Forall_forall in Hall. apply Hall.
Qed.

(** The entry that matches is the one the router finds. *)
Lemma find_route_matched m pat h path ps :
  (m, pat, h) ∈ routes → match_pattern pat path = Some ps →
  find_route routes m path = Matched ps h.
Proof.
  intros He Hps. unfold find_route.
  rewrite decide_True by apply (routes_methods _ He).
  assert ((m, ps, h) ∈ hits routes path) as Hhit
    by (apply elem_of_hits; by exists (m, pat, h)).
  destruct (list_find_elem_of (λ hit, hit.1.1 = m) _ _ Hhit eq_refl) as [[i hit] Hfind].
  rewrite Hfind. apply list_find_Some in Hfind as (Hi & Hm & _).
  apply list_elem_of_lookup_2, elem_of_hits in Hi as (e & He' & Hps' & Hm' & Hh').
  assert (e = (m, pat, h)) as -> by (eapply routes_unambiguous; first [done|simpl; congruence]).
  cbn [fst snd] in Hps', Hh'. congruence.
Qed.

Lemma find_route_Matched_inv m path ps h :
  find_route routes m path = Matched ps h →
  ∃ pat, (m, pat, h) ∈ routes ∧ match_pattern pat path = Some ps.
Proof.
  unfold find_route. case_decide; [|done].
  destruct (list_find _ _) as [[i hit]|] eqn:Hfind; [|by case_decide].
  intros [= <- <-]. apply list_find_Some in Hfind as (Hi & Hm & _).
  apply list_elem_of_lookup_2, elem_of_hits in Hi as ([[m' pat] h'] & He & Hps & Hm' & Hh').
  exists pat. simpl in *. by subst.
Qed.

Lemma fill_segments_plain pattern v :
  contains_byte "/"%char v = false →
  Forall (λ w, contains_byte "/"%char w = false) (fill_segment v <$> parse_pattern pattern).
Proof.
  intros Hv. unfold parse_pattern. rewrite <-list_fmap_compose, Forall_fmap.
  eapply Forall_impl; [apply split_on_pieces|]. intros w Hw. simpl.
  unfold parse_segment. by repeat case_match.
Qed.

(** The path built from a pattern matches it, and binds the parameter. *)
Lemma match_pattern_fill pat v :
  v ≠ "" → contains_byte "/"%char v = false →
  match_pattern pat (fill pat v) = Some (bindings v (parse_pattern pat)).
Proof.
  intros Hv Hslash. unfold match_pattern, fill. rewrite split_join.
  - by apply match_fill.
  - unfold parse_pattern. intros Hnil%fmap_nil_inv%fmap_nil_inv.
    by apply split_on_nonempty in Hnil.
  - by apply fill_segments_plain.
Qed.

#[local] Open Scope Z_scope.

(** C31: the path built from the pattern of an entry, with any
    value for its parameter that is not empty and holds no slash, is routed
    to the handler of that entry with the parameter bound to the value. *)
Theorem route_path_roundtrip m pat h v req :
  (m, pat, h) ∈ routes → v ≠ "" → contains_byte "/"%char v = false →
  serve (mkIncoming m (fill pat v) req)
  = dispatch h (with_params (bindings v (parse_pattern pat)) req).
Proof.
  intros He Hv Hslash. unfold serve, route_of. simpl.
  rewrite (find_route_matched m pat h _ (bindings v (parse_pattern pat))); [done..|].
  by apply match_pattern_fill.
Qed.

Lemma route_path_roundtrip_witness :
  serve (mkIncoming "PUT" (fill "/api/v1/backends/{name}" "account") (mkRequest [] [] [] None))
  = dispatch (HBackend BackendHandler.EUpdateBackend)
      (with_params (bindings "account" (parse_pattern "/api/v1/backends/{name}"))
         (mkRequest [] [] [] None)).
Proof.
  apply (route_path_roundtrip "PUT" "/api/v1/backends/{name}"); [|done..].
  by_compute.
Defined.

(** A request no entry of the table matches is answered 404,
    or 405 when its path matches and its method does not or chi does not
    know the method, and no store call is made for it. *)
Theorem serve_unrouted r :
  handler_of r = None →
  ∃ resp, serve r = Ret resp ∧
          (resp_status resp = StatusNotFound ∨ resp_status resp = StatusMethodNotAllowed).
Proof.
  unfold handler_of, serve. destruct (route_of r); [done|..]; intros _; eauto.
Qed.

Lemma serve_unrouted_witness :
  ∃ resp, serve example_unknown = Ret resp ∧
          (resp_status resp = StatusNotFound ∨ resp_status resp = StatusMethodNotAllowed).
Proof. apply serve_unrouted. by vm_compute. Defined.

(** Every path of the server keeps the contract, for every request and
    whatever the store answers. *)
Lemma serve_contract r :
  every_path
    (contract (request_type r) (request_operation r) (operator r) (is_mutation r))
    (serve r).
Proof.
  unfold serve, request_type, request_operation, is_mutation, operator, handler_of.
  destruct (route_of r) as [ps [e|e| |]| |]; simpl.
  - apply (backend_contract e (with_params ps (in_request r))).
  - apply (route_contract e (with_params ps (in_request r))).
  - apply (history_contract (with_params ps (in_request r))).
  - by apply contract_read; [by_compute|..].
  - by apply contract_read; [by_compute|..].
  - by apply contract_read; [by_compute|..].
Qed.

(** Every request is answered after at most five steps: no handler retries
    or waits. *)
Lemma serve_bounded r : bounded 5 (serve r).
Proof.
  unfold serve. destruct (route_of r) as [ps [e|e| |]| |]; simpl; try done.
  - apply (bounded_mono 4); [lia|apply backend_bounded].
  - apply route_bounded.
  - apply (bounded_mono 2); [lia|apply history_bounded].
Qed.

(** C32: whatever the request and whatever the store answers, the status
    of the response is one of the eight the service uses: 200, 201, 204,
    400, 404, 405, 409 or 500. *)
Theorem serve_status {St} `{!Store St} r (s : St) :
  resp_status (result_of (serve r) s) ∈ statuses.
Proof.
  apply (every_path_run (λ _ resp, resp_status resp ∈ statuses)).
  eapply every_path_impl; [|apply serve_contract]. by intros tr resp [].
Qed.

(** C33: the handling of a request ends after at most five steps, calls of
    the store and log lines together, whatever the store answers. *)
Theorem serve_terminates {St} `{!Store St} r (s : St) :
  (length (trace_of (serve r) s) ≤ 5)%nat.
Proof. eapply bounded_path; [apply serve_bounded|apply path_run]. Qed.

(** Whatever the store answers, a request is answered after
    at most four round trips to the database: a handler never retries a call
    that failed and never loops. *)
Theorem serve_round_trips {St} `{!Store St} r (s : St) : (round_trips (serve r) s ≤ 4)%nat.
Proof.
  rewrite round_trips_trace.
  apply (every_path_run (λ tr _, (length (filter is_call tr) ≤ 4)%nat)).
  unfold serve. destruct (route_of r) as [ps [e|e| |]| |]; simpl; try lia.
  - destruct e; unfold BackendHandler.handle, BackendHandler.ListBackends,
      BackendHandler.GetBackend, BackendHandler.CreateBackend,
      BackendHandler.UpdateBackend, BackendHandler.DeleteBackend,
      BackendHandler.recordHistory; walk; try destruct res; simpl; lia.
  - destruct e; unfold RouteHandler.handle, RouteHandler.ListRoutes, RouteHandler.GetRoute,
      RouteHandler.CreateRoute, RouteHandler.UpdateRoute, RouteHandler.DeleteRoute,
      RouteHandler.verify_if_changed, RouteHandler.verify_backend,
      RouteHandler.create_and_record, RouteHandler.update_and_record,
      RouteHandler.recordHistory; walk; try destruct res; simpl; lia.
  - unfold HistoryHandler.ListHistory. walk; simpl; lia.
Qed.

End Server.
