(* ===== verification/Contract.v ===== *)
(** * What the handlers do on any store that keeps the contract

    The theorems of [HandlerBackend] and [HandlerRoute] are about the
    handlers over [MySQLStore].  Here the store is any type that implements
    the contract of [StoreSpec]: the handlers are read against [spec]
    alone, and what is shown holds of every implementation, [MySQLStore]
    with the unique key among them.

    A run of a handler is a path of its program ([Trace]) whose calls are
    steps of the contract, each from the state the one before left
    ([spec_trace]); the run of a program on an implementation is one
    ([run_spec_trace]).  What a call does to the state is read off the write
    [Trace] records of it ([spec_effect]), so that the write-then-audit
    contract of [Protocol], which is about the events of a path, says what
    the path does to the state; [spec_steps] reads the steps off a path
    that is given event by event.

    The theorems: a request that is answered with an error, and a request
    that only reads, leave the state of the contract as it was; a request
    changes one entity and adds one entry to the trail at most; each of the
    six writes, when it is answered as made, has done what the
    specification says of it: a backend is created under a name that was
    free, a route for a backend that is there and enabled, an update keeps
    the id and the creation time and re-checks the backend of a route only
    when the route names another, a delete leaves the entity in place,
    disabled. *)

From S2P Require Import Prelude Text Json Entity Sql StoreApi StoreMySQL StoreSpec Http.
From S2P Require Import Handler HandlerBackend HandlerRoute HandlerHistory Trace.
From S2P Require Import Protocol Server.

#[local] Set Warnings "-clear-no-such-hyp".

Import StoreSpec.

#[local] Open Scope Z_scope.

(** A database with a unique key on the name of a backend, one backend
    enabled. *)
Definition example_keyed : MySQLStore.t :=
  MySQLStore.mk
    [MySQLStore.mk_backend_row 1 "account" "127.0.0.1:50051" (Some "") 1 1000 1000]
    [] [] 2 1 1 1000 false true [].

(** The calls of a path as steps of the contract, from one abstract state
    to another. *)
Fixpoint spec_trace (tr : list Event) (a a' : state) : Prop :=
  match tr with
  | [] => a' = a
  | EvCall op x :: tr => ∃ a1, spec op a x a1 ∧ spec_trace tr a1 a'
  | EvLog _ :: tr => spec_trace tr a a'
  end.

(** A path that leaves the state as it was, when the request only reads or
    is answered with an error. *)
Definition leaves_state (mutation : bool) (tr : list Event) (resp : Response) : Prop :=
  ∀ a a', spec_trace tr a a' → mutation = false ∨ 400 ≤ resp_status resp → a' = a.

(** One backend or one route is written, the trail is not. *)
Definition entity_change (a a' : state) : Prop :=
  ((∃ name, ∀ n, n ≠ name → sp_backends a' !! n = sp_backends a !! n) ∧
     sp_routes a' = sp_routes a ∨
   sp_backends a' = sp_backends a ∧
     ∃ id, ∀ i, i ≠ id → sp_routes a' !! i = sp_routes a !! i) ∧
  sp_history a' = sp_history a.

(** One entry is added to the trail, nothing else is written. *)
Definition entry_added (a a' : state) : Prop :=
  sp_backends a' = sp_backends a ∧ sp_routes a' = sp_routes a ∧
  ∃ h, sp_history a' = sp_history a ++ [h].

(** What a writing call does to the state, by what [Trace] records of it. *)
Definition effect (w : Write) (a a' : state) : Prop :=
  match w with
  | WEntity _ _ true => entity_change a a'
  | WHistory _ true => entry_added a a'
  | _ => a' = a
  end.

Fixpoint effects (ws : list Write) (a a' : state) : Prop :=
  match ws with
  | [] => a' = a
  | w :: ws => ∃ a1, effect w a a1 ∧ effects ws a1 a'
  end.

(** What one request may change: one backend or one route, and one entry
    more in the trail at most. *)
Definition one_change (a a' : state) : Prop :=
  ∃ a1, (a1 = a ∨ entity_change a a1) ∧ (a' = a1 ∨ entry_added a1 a').

(** ** Paths and steps of the contract *)

Lemma answers_Ok {A} (ok : state → A → state → Prop) a v a' :
  answers ok a (Ok v) a' → ok a v a'.
Proof. unfold answers, failed. naive_solver. Qed.

Lemma answers_Err {A} (ok : state → A → state → Prop) a e a' :
  answers ok a (Err e) a' → a' = a.
Proof. unfold answers, failed. naive_solver. Qed.

Lemma spec_trace_app tr1 tr2 a a' :
  spec_trace (tr1 ++ tr2) a a' ↔ ∃ a1, spec_trace tr1 a a1 ∧ spec_trace tr2 a1 a'.
Proof.
  revert a. induction tr1 as [|[X op x|e] tr1 IH]; intros a; simpl.
  - naive_solver.
  - setoid_rewrite IH. naive_solver.
  - apply IH.
Qed.

Lemma spec_trace_grows tr a a' : spec_trace tr a a' → grows a a'.
Proof.
  revert a. induction tr as [|[X op x|e] tr IH]; intros a; simpl.
  - by intros ->.
  - intros (a1 & Hop%spec_grows & Htr%IH). by etrans.
  - apply IH.
Qed.

(** The runs the contract allows are the paths whose calls are steps of
    the contract. *)
Lemma spec_path_trace {R} (p : Prog R) a r a' :
  spec_path p a r a' ↔ ∃ tr, path p tr r ∧ spec_trace tr a a'.
Proof.
  revert a. induction p as [r0|X op k IH|e k IH]; intros a; simpl.
  - split; [intros [-> ->]; by exists []|]. by intros (tr & [-> ->] & ->).
  - split.
    + intros (x & a1 & Hop & (tr & Hp & Htr)%IH). exists (EvCall op x :: tr).
      split; [by eauto|]. simpl. eauto.
    + intros (? & (x & tr & -> & Hp) & a1 & Hop & Htr). exists x, a1.
      split; [done|]. apply IH. eauto.
  - rewrite IH. split.
    + intros (tr & Hp & Htr). exists (EvLog e :: tr). eauto.
    + intros (? & (tr & -> & Hp) & Htr). eauto.
Qed.

(** The run of a program on a store that implements the contract is a
    sequence of steps of the contract. *)
Lemma run_spec_trace `{Implements St} {R} (p : Prog R) (s : St) :
  valid s → spec_trace (trace_of p s) (abstraction s) (abstraction (store_after p s)).
Proof.
  unfold store_after. revert s.
  induction p as [r|X op k IH|e k IH]; intros s Hs; simpl.
  - done.
  - pose proof (exec_spec op s Hs) as Hop. pose proof (valid_exec op s Hs) as Hs'.
    destruct (exec op s) as [x s']. eexists. split; [done|]. by apply IH.
  - specialize (IH s Hs). by destruct (run k s) as [[??]?].
Qed.

(** The invariant of an implementation holds after every run. *)
Lemma run_valid `{Implements St} {R} (p : Prog R) (s : St) :
  valid s → valid (store_after p s).
Proof.
  unfold store_after. revert s.
  induction p as [r|X op k IH|e k IH]; intros s Hs; simpl; [done| |].
  - pose proof (valid_exec op s Hs) as Hs'. destruct (exec op s) as [x s']. by apply IH.
  - specialize (IH s Hs). by destruct (run k s) as [[??]?].
Qed.

(** Read the steps of the contract off a path: a call that failed left
    the state, a call that succeeded did what its case of [spec] says. *)
Ltac spec_steps :=
  repeat match goal with
    | H : ∃ _, _ |- _ => destruct H as (? & ? & ?)
    | H : answers _ _ (Ok _) _ |- _ => apply answers_Ok in H; cbv beta in H
    | H : answers _ _ (Err _) _ |- _ => apply answers_Err in H
    | H : _ = _ ∧ _ |- _ => destruct H
    | H : ok_GetHistory _ _ _ _ _ _ _ |- _ => destruct H as [? _]
    | H : ?x = _ :> state |- _ => subst x
    | H : Some _ = _ !! _ |- _ => symmetry in H
    end.

(** The steps of a path that is given event by event, the answer of the
    audit trail considered both ways. *)
Ltac open_path Htr :=
  try match goal with res : Result unit |- _ => destruct res as [[]|?] end;
  cbn [spec_trace spec history_events app] in Htr; spec_steps.

(** For a handler whose answer is known to be a success.  [lookup_answered]:
    the first call of the path [Hk] is a lookup, and it answered, for the
    handler answers 500 otherwise.  [refused]: the path ends here with an
    error; [write_failed]: with 404 or 500, after a write that failed.  [entry_offered]: the last call offers the entry to the trail,
    which takes it or not.  [others_kept]: an insertion leaves the other
    keys. *)
Ltac refused Hk := destruct Hk as [-> _]; done.

Ltac write_failed Hk Hst :=
  destruct Hk as [-> _]; unfold not_found_or_500 in Hst; by case_decide.

Ltac lookup_answered Hk :=
  let Hget := fresh "Hget" in
  destruct Hk as (? & ? & Hget & Hk);
  destruct Hget as [[-> [? ->]]|(? & -> & -> & ->)]; simpl in Hk; [refused Hk|].

Ltac entry_offered Hk :=
  let Hrec := fresh "Hrec" in
  destruct Hk as (? & ? & Hrec & Hk);
  destruct Hrec as [[-> [? ->]]|([] & -> & ? & ? & ->)]; simpl in Hk;
  destruct Hk as [-> ->]; simpl; rewrite ?lookup_insert_eq.

Ltac others_kept := intros ? ?; by rewrite lookup_insert_ne.

(** ** What the calls of a path do *)

(** A call does what its write says: a read and a failed call nothing. *)
Lemma spec_effect {X} (op : StoreOp X) a x a1 :
  spec op a x a1 →
  match op_write op x with None => a1 = a | Some w => effect w a a1 end.
Proof.
  destruct op; simpl; destruct x as [v|e]; simpl; intros Hop;
    try (by apply answers_Err in Hop); apply answers_Ok in Hop;
    try (by destruct Hop); destruct Hop as (? & ? & Hop); destruct_and?; subst; simpl.
  1-3: split; [left; split; [eexists; intros n Hn; by apply lookup_insert_ne|done]|done].
  1-3: split; [right; split; [done|eexists; intros i Hi; by apply lookup_insert_ne]|done].
  split_and!; [done..|by eexists].
Qed.

Lemma spec_trace_effects tr a a' : spec_trace tr a a' → effects (writes tr) a a'.
Proof.
  revert a. induction tr as [|[X op x|e] tr IH]; intros a; simpl; [done| |apply IH].
  intros (a1 & Hop%spec_effect & Htr%IH). unfold writes. simpl.
  destruct (op_write op x); [by exists a1|by subst].
Qed.

(** A path that keeps the write-then-audit contract changes one entity and
    adds one entry at most. *)
Lemma contract_one_change ty op who mutation tr resp a a' :
  contract ty op who mutation tr resp → spec_trace tr a a' → one_change a a'.
Proof.
  intros [_ Ha] Hw%spec_trace_effects. unfold audit_protocol, audited_write in Ha.
  assert (a' = a → one_change a a') as Hsame by (intros ->; exists a; eauto).
  destruct mutation; [case_decide|].
  - destruct Ha as (h & ok & Hws & _). rewrite Hws in Hw.
    destruct Hw as (a1 & Hent & a2 & Hhist & ->). exists a1.
    split; [by right|]. destruct ok; [by right|by left].
  - destruct Ha as [[Hws|Hws] _]; rewrite Hws in Hw; [by apply Hsame|].
    destruct Hw as (a1 & -> & ->). by apply Hsame.
  - destruct Ha as [Hws _]. rewrite Hws in Hw. by apply Hsame.
Qed.

(** ** Errors and reads leave the state *)

(** A path that keeps the write-then-audit contract has written nothing
    when it reads or ends in an error. *)
Lemma contract_leaves_state ty op who mutation tr resp :
  contract ty op who mutation tr resp → leaves_state mutation tr resp.
Proof.
  intros [_ Ha] a a' Hw%spec_trace_effects Hst. unfold audit_protocol in Ha.
  destruct mutation; [case_decide|].
  - destruct Hst as [|Hst]; [done|lia].
  - destruct Ha as [[Hws|Hws] _]; rewrite Hws in Hw; [done|].
    by destruct Hw as (a1 & -> & ->).
  - destruct Ha as [Hws _]. by rewrite Hws in Hw.
Qed.

Lemma serve_leaves_state r :
  every_path (leaves_state (Server.is_mutation r)) (Server.serve r).
Proof.
  eapply every_path_impl; [|apply Server.serve_contract]. apply contract_leaves_state.
Qed.

(** C14: on every store that implements the contract, a request that is
    answered with an error has changed nothing the contract speaks of, and
    neither has a request that only reads, however it is answered. *)
Theorem serve_error_no_change `{Implements St} r (s : St) :
  valid s →
  Server.is_mutation r = false ∨ 400 ≤ resp_status (result_of (Server.serve r) s) →
  abstraction (store_after (Server.serve r) s) = abstraction s.
Proof.
  intros Hs Hst.
  apply (every_path_run _ _ s (serve_leaves_state r) (abstraction s)); [|done].
  by apply run_spec_trace.
Qed.

Lemma serve_error_no_change_witness :
  let r := mkIncoming "DELETE" "/api/v1/backends/nobody" (mkRequest [] [] [] None) in
  abstraction (store_after (Server.serve r) example_keyed) = abstraction example_keyed.
Proof.
  apply (serve_error_no_change _ example_keyed);
    [apply (bool_decide_unpack _); by vm_compute|right; by vm_compute].
Defined.

(** ** What a request changes *)

(** C15: on every store that implements the contract, a request changes one
    backend or one route at most, adds one entry to the trail at most, and
    touches nothing else, however it is answered. *)
Theorem serve_one_change `{Implements St} r (s : St) :
  valid s → one_change (abstraction s) (abstraction (store_after (Server.serve r) s)).
Proof.
  intros Hs. eapply contract_one_change; [|by apply run_spec_trace].
  apply (every_path_run _ _ s (Server.serve_contract r)).
Qed.

Lemma serve_one_change_witness :
  one_change (abstraction example_keyed)
    (abstraction (store_after
       (Server.serve (mkIncoming "DELETE" "/api/v1/backends/account"
                        (mkRequest [] [] [] None))) example_keyed)).
Proof. apply serve_one_change. apply (bool_decide_unpack _). by vm_compute. Defined.

(** ** Creating a route *)

(** A route is created only for a backend that is there and enabled, under
    an id no route has; the backends are left as they are. *)
Lemma create_route_contract r route a resp a' :
  decode_body Route_fields Route_zero r = Ok route →
  spec_path (RouteHandler.CreateRoute r) a resp a' →
  resp_status resp = 201 →
  ∃ b id rt,
    sp_backends a !! Route_BackendName route = Some b ∧ Backend_Enabled b = true ∧
    sp_routes a !! id = None ∧ sp_routes a' !! id = Some rt ∧
    Route_BackendName rt = Route_BackendName route ∧ sp_backends a' = sp_backends a.
Proof.
  intros Hdec. unfold RouteHandler.CreateRoute. rewrite Hdec.
  destruct (RouteHandler.validate_create route) as [resp0|] eqn:Hv.
  { intros [-> _] Hst. apply RouteHandler.route_validate_create_Some in Hv.
    rewrite Hv in Hst. done. }
  unfold RouteHandler.verify_backend, RouteHandler.create_and_record, call. cbn [bind].
  simpl. intros Hk Hst. lookup_answered Hk.
  destruct (sp_backends a !! Route_BackendName route) as [b|] eqn:Hb; simpl in Hk;
    [|refused Hk].
  destruct (Backend_Enabled b) eqn:Hen; simpl in Hk; [|refused Hk].
  destruct Hk as (x & a2 & Hcreate & Hk).
  destruct Hcreate as [[-> [e ->]]|(rt & -> & id & ts & Hfree & -> & ->)]; cbn in Hk;
    [refused Hk|].
  exists b, id, (Route_with_UpdatedAt ts
                   (Route_with_CreatedAt ts
                      (Route_with_ID id (RouteHandler.default_values r route)))).
  entry_offered Hk; split_and!; try done;
    unfold RouteHandler.default_values; by repeat case_match.
Qed.

(** ** Deleting a backend *)

(** A delete that is answered 204 found the backend and has left it in
    place, disabled, with its id; the other backends and the routes are as
    they were. *)
Lemma delete_backend_contract r a resp a' :
  let name := URLParam r "name" in
  spec_path (BackendHandler.DeleteBackend r) a resp a' →
  resp_status resp = 204 →
  ∃ old b,
    sp_backends a !! name = Some old ∧ sp_backends a' !! name = Some b ∧
    Backend_Enabled b = false ∧ Backend_ID b = Backend_ID old ∧
    (∀ n, n ≠ name → sp_backends a' !! n = sp_backends a !! n) ∧
    sp_routes a' = sp_routes a.
Proof.
  intros name. unfold BackendHandler.DeleteBackend, call. fold name. cbn [bind]. simpl.
  intros Hk Hst. lookup_answered Hk.
  destruct (sp_backends a !! name) as [old|] eqn:Hold; simpl in Hk;
    [|refused Hk].
  destruct Hk as (x & a2 & Hdel & Hk).
  destruct Hdel as [[-> [e ->]]|([] & -> & old' & ts & Hold' & ->)]; cbn in Hk.
  { write_failed Hk Hst. }
  simplify_eq. exists old. eexists.
  entry_offered Hk; (split_and!; [done..| |done]); others_kept.
Qed.

(** On every store that implements the contract, a request to create a
    route that is answered 201 found the backend it names enabled, and has
    added a route to it under an id no route had. *)
Theorem create_route_implemented `{Implements St} r route (s : St) :
  valid s → decode_body Route_fields Route_zero r = Ok route →
  resp_status (result_of (RouteHandler.CreateRoute r) s) = 201 →
  let a := abstraction s in
  let a' := abstraction (store_after (RouteHandler.CreateRoute r) s) in
  ∃ b id rt,
    sp_backends a !! Route_BackendName route = Some b ∧ Backend_Enabled b = true ∧
    sp_routes a !! id = None ∧ sp_routes a' !! id = Some rt ∧
    Route_BackendName rt = Route_BackendName route ∧ sp_backends a' = sp_backends a.
Proof.
  intros Hs Hdec Hst. eapply create_route_contract; [done| |done]. by apply run_spec.
Qed.

Lemma create_route_implemented_witness :
  let s := example_keyed in
  let a := abstraction s in
  let a' := abstraction (store_after (RouteHandler.CreateRoute RouteHandler.example_create) s) in
  ∃ b id rt,
    sp_backends a !! "account" = Some b ∧ Backend_Enabled b = true ∧
    sp_routes a !! id = None ∧ sp_routes a' !! id = Some rt ∧
    Route_BackendName rt = "account" ∧ sp_backends a' = sp_backends a.
Proof.
  apply (create_route_implemented RouteHandler.example_create
           (RouteHandler.example_route "account") example_keyed);
    [apply (bool_decide_unpack _)|..]; by vm_compute.
Defined.

(** On every store that implements the contract: a request to delete a
    backend that is answered 204 has left the backend in place, disabled,
    and everything else as it was. *)
Theorem delete_backend_implemented `{Implements St} r (s : St) :
  valid s → resp_status (result_of (BackendHandler.DeleteBackend r) s) = 204 →
  let name := URLParam r "name" in
  let a := abstraction s in
  let a' := abstraction (store_after (BackendHandler.DeleteBackend r) s) in
  ∃ old b,
    sp_backends a !! name = Some old ∧ sp_backends a' !! name = Some b ∧
    Backend_Enabled b = false ∧ Backend_ID b = Backend_ID old ∧
    (∀ n, n ≠ name → sp_backends a' !! n = sp_backends a !! n) ∧
    sp_routes a' = sp_routes a.
Proof.
  intros Hs Hst. eapply delete_backend_contract; [|done]. by apply run_spec.
Qed.

Lemma delete_backend_implemented_witness :
  let s := example_keyed in
  let a := abstraction s in
  let a' := abstraction (store_after (BackendHandler.DeleteBackend BackendHandler.example_delete) s) in
  ∃ old b,
    sp_backends a !! "account" = Some old ∧ sp_backends a' !! "account" = Some b ∧
    Backend_Enabled b = false ∧ Backend_ID b = Backend_ID old ∧
    (∀ n, n ≠ "account" → sp_backends a' !! n = sp_backends a !! n) ∧
    sp_routes a' = sp_routes a.
Proof.
  apply (delete_backend_implemented BackendHandler.example_delete example_keyed);
    [apply (bool_decide_unpack _)|]; by vm_compute.
Defined.

(** ** The other writes *)

(** A backend is created only under a name that is free and an id no
    backend has; it is enabled unless the URL says otherwise, the other
    backends and the routes are as they were, and it is the one answered. *)
Lemma create_backend_contract r backend a resp a' :
  decode_body Backend_fields Backend_zero r = Ok backend →
  spec_path (BackendHandler.CreateBackend r) a resp a' →
  resp_status resp = 201 →
  ∃ b,
    sp_backends a !! Backend_Name backend = None ∧
    sp_backends a' !! Backend_Name backend = Some b ∧
    Backend_Name b = Backend_Name backend ∧ Backend_Addr b = Backend_Addr backend ∧
    (Query_Has r "enabled" = false → Backend_Enabled b = true) ∧
    (∀ n o, sp_backends a !! n = Some o → Backend_ID o ≠ Backend_ID b) ∧
    (∀ n, n ≠ Backend_Name backend → sp_backends a' !! n = sp_backends a !! n) ∧
    sp_routes a' = sp_routes a ∧
    resp = write_json StatusCreated (marshal_Backend b).
Proof.
  intros Hdec. unfold BackendHandler.CreateBackend. rewrite Hdec.
  destruct (BackendHandler.validate_create backend) as [resp0|] eqn:Hv.
  { intros [-> _] Hst. unfold BackendHandler.validate_create in Hv.
    repeat case_decide; by simplify_eq. }
  unfold call. cbn [bind]. simpl. intros Hk Hst. lookup_answered Hk.
  destruct (sp_backends a !! Backend_Name backend) as [b|] eqn:Hb; simpl in Hk;
    [refused Hk|].
  destruct Hk as (x & a2 & Hcreate & Hk).
  remember (if Query_Has r "enabled" then backend
            else Backend_with_Enabled true backend) as b0 eqn:Hb0.
  assert (Backend_Name b0 = Backend_Name backend ∧
          Backend_Addr b0 = Backend_Addr backend ∧
          (Query_Has r "enabled" = false → Backend_Enabled b0 = true))
    as (Hname & Haddr & Hen) by (subst b0; by destruct (Query_Has r "enabled")).
  clear Hb0.
  destruct Hcreate as [[-> [e ->]]|(v & -> & id & ts & Hfree & Hid & -> & ->)];
    cbn in Hk; [refused Hk|].
  eexists. entry_offered Hk; rewrite Hname, lookup_insert_eq;
    (split_and!; [done..| |done|done]); others_kept.
Qed.

(** An update that is answered 200 found the backend and has written what
    the merge of the request gives, under the name, the id and the creation
    time the backend had; the other backends and the routes are as they
    were. *)
Lemma update_backend_contract r a resp a' :
  let name := URLParam r "name" in
  spec_path (BackendHandler.UpdateBackend r) a resp a' →
  resp_status resp = 200 →
  ∃ old new b,
    sp_backends a !! name = Some old ∧
    BackendHandler.merge_update name old r = inr new ∧
    sp_backends a' !! name = Some b ∧ Backend_Name b = name ∧
    Backend_ID b = Backend_ID old ∧ Backend_CreatedAt b = Backend_CreatedAt old ∧
    Backend_Addr b = Backend_Addr new ∧ Backend_Enabled b = Backend_Enabled new ∧
    (∀ n, n ≠ name → sp_backends a' !! n = sp_backends a !! n) ∧
    sp_routes a' = sp_routes a.
Proof.
  intros name. unfold BackendHandler.UpdateBackend, call. fold name. cbn [bind]. simpl.
  intros Hk Hst. lookup_answered Hk.
  destruct (sp_backends a !! name) as [old|] eqn:Hold; simpl in Hk;
    [|refused Hk].
  destruct (BackendHandler.merge_update name old r) as [resp0|new] eqn:Hmerge;
    simpl in Hk.
  { destruct Hk as [-> _]. apply BackendHandler.merge_update_inl in Hmerge.
    rewrite Hmerge in Hst. done. }
  destruct Hk as (x & a2 & Hupd & Hk).
  destruct Hupd as [[-> [e ->]]|(v & -> & old' & ts & Hold' & -> & ->)]; cbn in Hk.
  { write_failed Hk Hst. }
  simplify_eq. exists old, new. eexists.
  entry_offered Hk; (split_and!; [done..| |done]); others_kept.
Qed.

(** The write of an update of a route and its entry: answered 200, the
    route is there under its id with the creation time it had. *)
Lemma update_and_record_contract id old new r a resp a' :
  spec_path (RouteHandler.update_and_record id old new r) a resp a' →
  resp_status resp = 200 →
  ∃ o rt,
    sp_routes a !! id = Some o ∧ sp_routes a' !! id = Some rt ∧
    Route_ID rt = id ∧ Route_CreatedAt rt = Route_CreatedAt o ∧
    Route_BackendName rt = Route_BackendName new ∧
    (∀ i, i ≠ id → sp_routes a' !! i = sp_routes a !! i) ∧
    sp_backends a' = sp_backends a.
Proof.
  unfold RouteHandler.update_and_record, call.
  cbn [bind]. simpl. intros (x & a2 & Hupd & Hk) Hst.
  destruct Hupd as [[-> [e ->]]|(v & -> & o & ts & Ho & -> & ->)]; cbn in Hk.
  { write_failed Hk Hst. }
  exists o. eexists.
  entry_offered Hk; (split_and!; [done..| |done]); others_kept.
Qed.

(** An update of a route that is answered 200 found the route and, when
    it names another backend than before, that backend enabled; the route
    keeps its id and its creation time, and the other routes and the
    backends are as they were. *)
Lemma update_route_contract r a resp a' :
  spec_path (RouteHandler.UpdateRoute r) a resp a' →
  resp_status resp = 200 →
  ∃ id old new rt,
    RouteHandler.route_id r = Ok id ∧ sp_routes a !! id = Some old ∧
    RouteHandler.merge_update old r = inr new ∧
    (Route_BackendName new ≠ Route_BackendName old →
     ∃ b, sp_backends a !! Route_BackendName new = Some b ∧ Backend_Enabled b = true) ∧
    sp_routes a' !! id = Some rt ∧ Route_ID rt = id ∧
    Route_CreatedAt rt = Route_CreatedAt old ∧
    Route_BackendName rt = Route_BackendName new ∧
    (∀ i, i ≠ id → sp_routes a' !! i = sp_routes a !! i) ∧
    sp_backends a' = sp_backends a.
Proof.
  unfold RouteHandler.UpdateRoute, call.
  destruct (RouteHandler.route_id r) as [id|] eqn:Hid; [|by intros [-> _]].
  cbn [bind]. simpl. intros Hk Hst. lookup_answered Hk.
  destruct (sp_routes a !! id) as [old|] eqn:Hold; simpl in Hk;
    [|refused Hk].
  destruct (RouteHandler.merge_update old r) as [resp0|new] eqn:Hmerge; simpl in Hk.
  { destruct Hk as [-> _]. apply RouteHandler.route_merge_update_inl in Hmerge.
    rewrite Hmerge in Hst. done. }
  exists id, old, new. unfold RouteHandler.verify_if_changed in Hk.
  case_decide as Hsame; cbn [bind] in Hk.
  { destruct (update_and_record_contract _ _ _ _ _ _ _ Hk Hst) as (o & rt & ? & ?).
    simplify_eq. exists rt. naive_solver. }
  unfold RouteHandler.verify_backend, call in Hk. cbn [bind] in Hk. simpl in Hk.
  lookup_answered Hk.
  destruct (sp_backends a !! Route_BackendName new) as [b|] eqn:Hb; simpl in Hk;
    [|refused Hk].
  destruct (Backend_Enabled b) eqn:Hen; simpl in Hk; [|refused Hk].
  destruct (update_and_record_contract _ _ _ _ _ _ _ Hk Hst) as (o & rt & ? & ?).
  simplify_eq. exists rt. naive_solver.
Qed.

(** A delete of a route that is answered 204 found the route and has left
    it in place, disabled, naming the backend it named; the other routes
    and the backends are as they were. *)
Lemma delete_route_contract r a resp a' :
  spec_path (RouteHandler.DeleteRoute r) a resp a' →
  resp_status resp = 204 →
  ∃ id old rt,
    RouteHandler.route_id r = Ok id ∧ sp_routes a !! id = Some old ∧
    sp_routes a' !! id = Some rt ∧ Route_Enabled rt = false ∧
    Route_ID rt = Route_ID old ∧ Route_BackendName rt = Route_BackendName old ∧
    (∀ i, i ≠ id → sp_routes a' !! i = sp_routes a !! i) ∧
    sp_backends a' = sp_backends a.
Proof.
  unfold RouteHandler.DeleteRoute, call.
  destruct (RouteHandler.route_id r) as [id|] eqn:Hid; [|by intros [-> _]].
  cbn [bind]. simpl. intros Hk Hst. lookup_answered Hk.
  destruct (sp_routes a !! id) as [old|] eqn:Hold; simpl in Hk;
    [|refused Hk].
  destruct Hk as (x & a2 & Hdel & Hk).
  destruct Hdel as [[-> [e ->]]|([] & -> & old' & ts & Hold' & ->)]; cbn in Hk.
  { write_failed Hk Hst. }
  simplify_eq. exists id, old. eexists.
  entry_offered Hk; (split_and!; [done..| |done]); others_kept.
Qed.

(** ** The writes on every store that implements the contract *)

Section implemented.
Context `{Implements St}.
Implicit Types (s : St) (r : Request).

(** What the contract says of a handler holds of its run on the store. *)
Lemma run_abstraction {R} (p : Prog R) s :
  valid s → spec_path p (abstraction s) (result_of p s) (abstraction (store_after p s)).
Proof. apply run_spec. Qed.

(** A name is taken by one backend at most: a create answered 201 found
    the name free, and the backend it answers is the one stored. *)
Theorem create_backend_implemented r backend s :
  valid s → decode_body Backend_fields Backend_zero r = Ok backend →
  resp_status (result_of (BackendHandler.CreateBackend r) s) = 201 →
  ∃ b,
    sp_backends (abstraction s) !! Backend_Name backend = None ∧
    sp_backends (abstraction (store_after (BackendHandler.CreateBackend r) s))
      !! Backend_Name backend = Some b ∧
    result_of (BackendHandler.CreateBackend r) s
    = write_json StatusCreated (marshal_Backend b).
Proof.
  intros Hs Hdec Hst.
  destruct (create_backend_contract r backend _ _ _ Hdec (run_abstraction _ s Hs) Hst)
    as (b & ? & ? & _ & _ & _ & _ & _ & _ & ?).
  by exists b.
Qed.

(** C19: an update answered 200 leaves the route under its id with its creation
    time, and the route names the backend it named or a backend that was
    there and enabled. *)
Theorem update_route_implemented r s :
  valid s → resp_status (result_of (RouteHandler.UpdateRoute r) s) = 200 →
  ∃ id old rt,
    sp_routes (abstraction s) !! id = Some old ∧
    sp_routes (abstraction (store_after (RouteHandler.UpdateRoute r) s)) !! id = Some rt ∧
    Route_ID rt = id ∧ Route_CreatedAt rt = Route_CreatedAt old ∧
    (Route_BackendName rt = Route_BackendName old ∨
     ∃ b, sp_backends (abstraction s) !! Route_BackendName rt = Some b ∧
          Backend_Enabled b = true).
Proof.
  intros Hs Hst.
  destruct (update_route_contract r _ _ _ (run_abstraction _ s Hs) Hst)
    as (id & old & new & rt & _ & ? & _ & Hb & ? & ? & ? & Hn & _).
  exists id, old, rt. split_and!; [done..|]. rewrite Hn.
  destruct (decide (Route_BackendName new = Route_BackendName old)); [by left|right; auto].
Qed.

End implemented.


Lemma create_backend_implemented_witness :
  ∃ b,
    sp_backends (abstraction example_keyed) !! "user" = None ∧
    sp_backends (abstraction (store_after (BackendHandler.CreateBackend
                                             BackendHandler.example_create)
                                example_keyed)) !! "user" = Some b ∧
    result_of (BackendHandler.CreateBackend BackendHandler.example_create) example_keyed
    = write_json StatusCreated (marshal_Backend b).
Proof.
  apply (create_backend_implemented BackendHandler.example_create
           (Backend_with_Addr "127.0.0.1:50052" (Backend_with_Name "user" Backend_zero))
           example_keyed);
    [apply (bool_decide_unpack _)|..]; by vm_compute.
Defined.

Lemma update_route_implemented_witness :
  let s := MySQLStore.with_routes_auto_increment 2
             (MySQLStore.with_routes (MySQLStore.routes RouteHandler.example_store)
                example_keyed) in
  ∃ id old rt,
    sp_routes (abstraction s) !! id = Some old ∧
    sp_routes (abstraction (store_after (RouteHandler.UpdateRoute
                                           RouteHandler.example_update) s)) !! id
    = Some rt ∧
    Route_ID rt = id ∧ Route_CreatedAt rt = Route_CreatedAt old ∧
    (Route_BackendName rt = Route_BackendName old ∨
     ∃ b, sp_backends (abstraction s) !! Route_BackendName rt = Some b ∧
          Backend_Enabled b = true).
Proof.
  apply (update_route_implemented RouteHandler.example_update
           (MySQLStore.with_routes_auto_increment 2
              (MySQLStore.with_routes (MySQLStore.routes RouteHandler.example_store)
                 example_keyed)));
    [apply (bool_decide_unpack _)|]; by vm_compute.
Defined.
