(* ===== verification/AuditTrail.v ===== *)
(** * The audit trail describes the state

    The trail is written to be read back: an entry of a create or an update
    holds the entity as answered, an entry of a delete names the entity
    disabled.  [replay] is that reading, entry by entry from the oldest: the
    entities an auditor reconstructs from the trail alone, by id.

    [described] says that the reconstruction is the state: every stored
    entity is what the replay holds under its id, up to the two timestamps,
    and the replay holds nothing else.  It is stated once for backends and
    routes, which are instances of the class [Entity], and proved on the
    contract of [StoreSpec], so for every store that implements it.

    The theorem: requests served one after the other keep [described] as
    long as no entry is refused by the trail, which the log shows by a
    warning.  It does not survive a refused entry, and it does not survive
    requests in flight together ([Concurrent]). *)

From S2P Require Import Prelude Json Entity Sql StoreApi StoreMySQL StoreSpec Http.
From S2P Require Import Handler HandlerBackend HandlerRoute HandlerHistory Trace.
From S2P Require Import Protocol Server Contract.

#[local] Set Warnings "-clear-no-such-hyp".

Import StoreSpec.

#[local] Open Scope Z_scope.

(** ** Entities the trail records *)

(** What the recorder and the replay need of a struct: the type it is
    recorded under, its codec, its id, what a delete does to it, and the
    struct without its timestamps. *)
Class Entity (T : Type) := {
  entity_type : string;
  entity_fields : list (string * setter T);
  entity_zero : T;
  entity_marshal : T → json;
  entity_id : T → N;
  entity_disable : T → T;
  timeless : T → T;
  representable : T → Prop;
  decode_marshal v :
    representable v → decode_struct entity_fields (entity_marshal v) entity_zero = Ok v;
  timeless_disable v : timeless (entity_disable v) = entity_disable (timeless v);
}.

Definition timeless_Backend (b : Backend) : Backend :=
  Backend_with_UpdatedAt zero_time (Backend_with_CreatedAt zero_time b).

Definition timeless_Route (r : Route) : Route :=
  Route_with_UpdatedAt zero_time (Route_with_CreatedAt zero_time r).

(** The values Go's [uint] and [int] hold. *)
Definition representable_Route (r : Route) : Prop :=
  fits_uint (Route_ID r) ∧ fits_int (Route_TimeoutMS r).

#[global] Instance Backend_entity : Entity Backend := {|
  entity_type := "backend";
  entity_fields := Backend_fields;
  entity_zero := Backend_zero;
  entity_marshal := marshal_Backend;
  entity_id := Backend_ID;
  entity_disable := Backend_with_Enabled false;
  timeless := timeless_Backend;
  representable b := fits_uint (Backend_ID b);
  decode_marshal := decode_marshal_Backend;
  timeless_disable := λ _, eq_refl;
|}.

#[global] Instance Route_entity : Entity Route := {|
  entity_type := "route";
  entity_fields := Route_fields;
  entity_zero := Route_zero;
  entity_marshal := marshal_Route;
  entity_id := Route_ID;
  entity_disable := Route_with_Enabled false;
  timeless := timeless_Route;
  representable := representable_Route;
  decode_marshal := λ r H, decode_marshal_Route r (proj1 H) (proj2 H);
  timeless_disable := λ _, eq_refl;
|}.

(** ** The replay *)

Section replay.
Context {T : Type} `{!Entity T}.

(** The value an entry records as new, when it decodes. *)
Definition recorded (h : ConfigHistory) : option T :=
  j ← ConfigHistory_NewValue h;
  match decode_struct entity_fields j entity_zero with Ok v => Some v | Err _ => None end.

(** What one entry tells the auditor: an entry of another type or without
    an id nothing, a delete that the entity is disabled, any other entry the
    entity as it is from then on. *)
Definition replay_entry (m : gmap N T) (h : ConfigHistory) : gmap N T :=
  if decide (ConfigHistory_ConfigType h = entity_type) then
    match ConfigHistory_ConfigID h with
    | None => m
    | Some id =>
        if decide (ConfigHistory_Operation h = "DELETE") then alter entity_disable id m
        else match recorded h with Some v => <[id := v]> m | None => m end
    end
  else m.

(** The trail read from its oldest entry. *)
Definition replay (l : list ConfigHistory) : gmap N T := foldl replay_entry ∅ l.

(** The entities of a table, under any key, are those of the replay, by
    id, up to the timestamps. *)
Record described {K} `{Countable K} (m : gmap K T) (l : list ConfigHistory) : Prop := {
  described_stored k v :
    m !! k = Some v → timeless <$> replay l !! entity_id v = Some (timeless v);
  described_only id v :
    replay l !! id = Some v → ∃ k w, m !! k = Some w ∧ entity_id w = id;
  described_ids k1 k2 v1 v2 :
    m !! k1 = Some v1 → m !! k2 = Some v2 → entity_id v1 = entity_id v2 → k1 = k2;
}.

End replay.

(** ** The state of the contract, described *)

(** Backends and routes are what the trail says, and a route is stored
    under its id. *)
Record audit_sound (a : state) : Prop := {
  sound_backends : described (sp_backends a) (sp_history a);
  sound_routes : described (sp_routes a) (sp_history a);
  sound_route_ids id r : sp_routes a !! id = Some r → Route_ID r = id;
}.

(** The ids in use are values of Go's [uint]. *)
Definition ids_fit (a : state) : Prop :=
  map_Forall (λ _ b, fits_uint (Backend_ID b)) (sp_backends a) ∧
  map_Forall (λ id _, fits_uint id) (sp_routes a).

#[global] Instance ids_fit_dec a : Decision (ids_fit a).
Proof. unfold ids_fit. apply _. Defined.

(** A path keeps the description: from a state the trail describes, with
    no warning logged and ids a [uint] holds, it ends in a state the trail
    describes. *)
Definition keeps_sound {R} (tr : list Event) (resp : R) : Prop :=
  ∀ a a', spec_trace tr a a' → warnings tr = [] → ids_fit a' → audit_sound a → audit_sound a'.

(** No entry offered to the trail on a path was refused. *)
Definition unrefused (tr : list Event) : Prop := ∀ h, WHistory h false ∉ writes tr.

(** A store whose trail takes every entry. *)
Definition reliable (St : Type) `{!Store St} : Prop :=
  ∀ h (s : St), (exec (OpCreateHistory h) s).1 = Ok ().

(** ** Requests one after the other *)

(** The requests of a list, each served when the one before is answered. *)
Fixpoint serve_all (rs : list Incoming) : Prog (list Response) :=
  match rs with
  | [] => Ret []
  | r :: rs =>
      resp <- Server.serve r ;;
      resps <- serve_all rs ;;
      Ret (resp :: resps)
  end.

(** ** Examples *)

(** A backend is created, updated and made the target of a route, then
    deleted. *)
Definition example_session : list Incoming :=
  [ mkIncoming "POST" "/api/v1/backends" BackendHandler.example_create;
    mkIncoming "PUT" "/api/v1/backends/user"
      (mkRequest [] [] [("X-Operator", "alice")]
         (Some (JObj [("addr", JStr "127.0.0.1:9999")])));
    mkIncoming "POST" "/api/v1/routes"
      (mkRequest [] [] [] (Some (JObj (RouteHandler.example_fields "user"))));
    mkIncoming "DELETE" "/api/v1/backends/user" (mkRequest [] [] [] None) ].

(** ** Facts on the replay *)

Section replay_facts.
Context {T : Type} `{!Entity T} {K : Type} `{Countable K}.
Implicit Types (m : gmap K T) (l : list ConfigHistory) (h : ConfigHistory).

Lemma replay_snoc l h : replay (l ++ [h]) = replay_entry (replay l) h.
Proof. unfold replay. by rewrite foldl_app. Qed.

Lemma replay_entry_other (g : gmap N T) h :
  ConfigHistory_ConfigType h ≠ entity_type → replay_entry g h = g.
Proof. intros Hty. unfold replay_entry. by rewrite decide_False. Qed.

(** An entry that records [v] under its id puts [v] there. *)
Lemma replay_entry_put (g : gmap N T) h v :
  ConfigHistory_ConfigType h = entity_type →
  ConfigHistory_ConfigID h = Some (entity_id v) →
  ConfigHistory_Operation h ≠ "DELETE" →
  ConfigHistory_NewValue h = Some (entity_marshal v) →
  representable v →
  replay_entry g h = <[entity_id v := v]> g.
Proof.
  intros Hty Hid Hop Hnew Hv. unfold replay_entry, recorded.
  rewrite decide_True, Hid, decide_False, Hnew by done. simpl.
  by rewrite decode_marshal.
Qed.

Lemma replay_entry_delete (g : gmap N T) h id :
  ConfigHistory_ConfigType h = entity_type →
  ConfigHistory_ConfigID h = Some id →
  ConfigHistory_Operation h = "DELETE" →
  replay_entry g h = alter entity_disable id g.
Proof.
  intros Hty Hid Hop. unfold replay_entry. by rewrite decide_True, Hid, decide_True.
Qed.

(** An entry of another type changes nothing of what is described. *)
Lemma described_other m l h :
  ConfigHistory_ConfigType h ≠ entity_type → described m l → described m (l ++ [h]).
Proof.
  intros Hty [Hs Ho Hi].
  split; [| |done]; intros ??; rewrite replay_snoc, replay_entry_other by done; eauto.
Qed.

(** The entity recorded is stored under [k], up to the timestamps, and its
    id belongs to [k] alone. *)
Lemma described_put m l h k v v' :
  described m l →
  (∀ w, m !! k = Some w → entity_id w = entity_id v) →
  (∀ k' w, k' ≠ k → m !! k' = Some w → entity_id w ≠ entity_id v) →
  entity_id v' = entity_id v → timeless v' = timeless v →
  replay_entry (replay l) h = <[entity_id v := v]> (replay l) →
  described (<[k := v']> m) (l ++ [h]).
Proof.
  intros [Hs Ho Hi] Hk Hfresh Hid Ht Hh. split.
  - intros k0 w. rewrite replay_snoc, Hh. destruct (decide (k0 = k)) as [->|Hne].
    + rewrite lookup_insert_eq. intros [= <-]. rewrite Hid, lookup_insert_eq. simpl.
      by rewrite Ht.
    + rewrite lookup_insert_ne by done. intros Hw.
      rewrite lookup_insert_ne by (by apply not_eq_sym, (Hfresh k0)). eauto.
  - intros id w. rewrite replay_snoc, Hh. destruct (decide (id = entity_id v)) as [->|Hne].
    + intros _. exists k, v'. by rewrite lookup_insert_eq.
    + rewrite lookup_insert_ne by done. intros (k0 & w0 & Hw0 & <-)%Ho.
      exists k0, w0. split; [|done]. rewrite lookup_insert_ne; [done|].
      intros <-. by apply Hne, Hk.
  - intros k1 k2 v1 v2.
    destruct (decide (k1 = k)) as [->|H1], (decide (k2 = k)) as [->|H2]; [done|..].
    + rewrite lookup_insert_eq, lookup_insert_ne by done. intros [= <-] H2v Heq.
      destruct (Hfresh k2 v2); congruence.
    + rewrite lookup_insert_eq, lookup_insert_ne by done. intros H1v [= <-] Heq.
      destruct (Hfresh k1 v1); congruence.
    + rewrite !lookup_insert_ne by done. apply Hi.
Qed.

(** The entity deleted stays under [k], disabled. *)
Lemma described_delete m l h k old v' :
  described m l → m !! k = Some old →
  entity_id v' = entity_id old → timeless v' = timeless (entity_disable old) →
  replay_entry (replay l) h = alter entity_disable (entity_id old) (replay l) →
  described (<[k := v']> m) (l ++ [h]).
Proof.
  intros [Hs Ho Hi] Hold Hid Ht Hh. split.
  - intros k0 w. rewrite replay_snoc, Hh. destruct (decide (k0 = k)) as [->|Hne].
    + rewrite lookup_insert_eq. intros [= <-]. rewrite Hid, lookup_alter_eq.
      specialize (Hs _ _ Hold). destruct (replay l !! entity_id old) as [r|]; [|done].
      simpl in *. rewrite Ht, !timeless_disable. congruence.
    + rewrite lookup_insert_ne by done. intros Hw. rewrite lookup_alter_ne; [eauto|].
      intros Heq. by destruct Hne; apply (Hi _ _ _ _ Hw Hold).
  - intros id w. rewrite replay_snoc, Hh. intros Hw.
    assert (is_Some (replay l !! id)) as [w0 Hw0].
    { destruct (decide (id = entity_id old)) as [->|Hne].
      - rewrite lookup_alter_eq in Hw. by destruct (replay l !! entity_id old).
      - rewrite lookup_alter_ne in Hw by done. eauto. }
    apply Ho in Hw0 as (k0 & w1 & Hw1 & <-). destruct (decide (k0 = k)) as [->|Hne].
    + exists k, v'. rewrite lookup_insert_eq. split; [done|]. congruence.
    + exists k0, w1. by rewrite lookup_insert_ne.
  - intros k1 k2 v1 v2.
    destruct (decide (k1 = k)) as [->|H1], (decide (k2 = k)) as [->|H2]; [done|..].
    + rewrite lookup_insert_eq, lookup_insert_ne by done. intros [= <-] H2v Heq.
      symmetry. apply (Hi _ _ _ _ H2v Hold). congruence.
    + rewrite lookup_insert_eq, lookup_insert_ne by done. intros H1v [= <-] Heq.
      apply (Hi _ _ _ _ H1v Hold). congruence.
    + rewrite !lookup_insert_ne by done. apply Hi.
Qed.

Lemma described_empty : described (∅ : gmap K T) [].
Proof. split; intros *; by rewrite ?lookup_empty. Qed.

End replay_facts.

Section steps.
Context (a : state) (r : Request).
Hypothesis Ha : audit_sound a.

Lemma sound_create_backend backend v a1 a2 :
  ok_CreateBackend backend a v a1 →
  ok_CreateHistory (history_entry marshal_Backend "backend" (Some (Backend_ID v)) "CREATE"
                      None (Some v) r) a1 tt a2 →
  ids_fit a2 → audit_sound a2.
Proof.
  destruct Ha as [Hb Hr Hid].
  intros (id & ts & Hfree & Hfresh & -> & ->) (id' & ts' & ->) [Hfit _].
  specialize (Hfit _ _ (lookup_insert_eq _ _ _)). split; simpl.
  - eapply described_put; [done| | |done..|by apply replay_entry_put].
    + intros w. by rewrite Hfree.
    + intros k' w _. apply Hfresh.
  - by apply described_other.
  - done.
Qed.

Lemma sound_update_backend name backend old v a1 a2 :
  sp_backends a !! name = Some old → Backend_ID backend = Backend_ID old →
  ok_UpdateBackend name backend a v a1 →
  ok_CreateHistory (history_entry marshal_Backend "backend" (Some (Backend_ID v)) "UPDATE"
                      (Some old) (Some v) r) a1 tt a2 →
  ids_fit a2 → audit_sound a2.
Proof.
  destruct Ha as [Hb Hr Hid].
  intros Hold Hbid (old' & ts & Hold' & -> & ->) (id' & ts' & ->) [Hfit _].
  specialize (Hfit _ _ (lookup_insert_eq _ _ _)). simplify_eq. split; simpl; rewrite <-?Hbid.
  - apply (described_put _ _ _ _ (Backend_with_UpdatedAt ts (Backend_with_Name name backend)));
      [done| | |done..|apply replay_entry_put; simpl; rewrite ?Hbid; done].
    + intros w ?. by simplify_eq.
    + intros k' w Hk' Hw Heq. apply Hk'.
      apply (described_ids _ _ Hb _ _ _ _ Hw Hold). simpl in *. congruence.
  - by apply described_other.
  - done.
Qed.

Lemma sound_delete_backend name old a1 a2 :
  sp_backends a !! name = Some old →
  ok_DeleteBackend name a tt a1 →
  ok_CreateHistory (history_entry marshal_Backend "backend"
                      (Some (Backend_ID (Backend_with_Enabled false old))) "DELETE"
                      (Some (Backend_with_Enabled false old)) None r) a1 tt a2 →
  audit_sound a2.
Proof.
  destruct Ha as [Hb Hr Hid].
  intros Hold (old' & ts & Hold' & ->) (id' & ts' & ->). simplify_eq. split; simpl.
  - eapply described_delete; [done..|by apply replay_entry_delete].
  - by apply described_other.
  - done.
Qed.

Lemma sound_create_route route v a1 a2 :
  ok_CreateRoute route a v a1 →
  ok_CreateHistory (history_entry marshal_Route "route" (Some (Route_ID v)) "CREATE"
                      None (Some v) r) a1 tt a2 →
  fits_int (Route_TimeoutMS route) → ids_fit a2 → audit_sound a2.
Proof.
  destruct Ha as [Hb Hr Hid].
  intros (id & ts & Hfree & -> & ->) (id' & ts' & ->) Ht [_ Hfit].
  specialize (Hfit _ _ (lookup_insert_eq _ _ _)). split; simpl.
  - by apply described_other.
  - eapply described_put; [done| | |done..|by apply replay_entry_put].
    + intros w. by rewrite Hfree.
    + intros k' w Hk' Hw. simpl. by rewrite (Hid _ _ Hw).
  - intros id0 r0. destruct (decide (id0 = id)) as [->|Hne].
    + rewrite lookup_insert_eq. by intros [= <-].
    + rewrite lookup_insert_ne by done. apply Hid.
Qed.

Lemma sound_update_route id route v a1 a2 old :
  ok_UpdateRoute id (Route_with_ID id route) a v a1 →
  ok_CreateHistory (history_entry marshal_Route "route" (Some (Route_ID v)) "UPDATE"
                      (Some old) (Some v) r) a1 tt a2 →
  fits_int (Route_TimeoutMS route) → ids_fit a2 → audit_sound a2.
Proof.
  destruct Ha as [Hb Hr Hid].
  intros (old' & ts & Hold' & -> & ->) (id' & ts' & ->) Ht [_ Hfit].
  specialize (Hfit _ _ (lookup_insert_eq _ _ _)). split; simpl.
  - by apply described_other.
  - apply (described_put _ _ _ _ (Route_with_UpdatedAt ts (Route_with_ID id (Route_with_ID id route))));
      [done| | |done..|apply replay_entry_put; try done; by split].
    + intros w Hw. simpl. by rewrite (Hid _ _ Hw).
    + intros k' w Hk' Hw. simpl. by rewrite (Hid _ _ Hw).
  - intros id0 r0. destruct (decide (id0 = id)) as [->|Hne].
    + rewrite lookup_insert_eq. by intros [= <-].
    + rewrite lookup_insert_ne by done. apply Hid.
Qed.

Lemma sound_delete_route id old a1 a2 :
  sp_routes a !! id = Some old →
  ok_DeleteRoute id a tt a1 →
  ok_CreateHistory (history_entry marshal_Route "route"
                      (Some (Route_ID (Route_with_Enabled false old))) "DELETE"
                      (Some (Route_with_Enabled false old)) None r) a1 tt a2 →
  audit_sound a2.
Proof.
  destruct Ha as [Hb Hr Hid].
  intros Hold (old' & ts & Hold' & ->) (id' & ts' & ->). simplify_eq. split; simpl.
  - by apply described_other.
  - eapply described_delete; [done..|by apply replay_entry_delete].
  - intros id0 r0. destruct (decide (id0 = id)) as [->|Hne].
    + rewrite lookup_insert_eq. intros [= <-]. simpl. by apply Hid.
    + rewrite lookup_insert_ne by done. apply Hid.
Qed.

End steps.

(** ** Every handler keeps the trail true *)

Ltac settle :=
  intros ? ? Htr Hw Hfit Ha; open_path Htr;
  first
    [ assumption
    | by cbn in Hw
    | eauto using sound_create_backend, sound_update_backend, sound_delete_backend,
        sound_create_route, sound_update_route, sound_delete_route,
        BackendHandler.merge_update_ID, RouteHandler.route_merge_update_timeout,
        RouteHandler.route_default_values_timeout, RouteHandler.route_decode_body_timeout ].

Section backend.
Import BackendHandler.

Lemma backend_keeps_sound e r : every_path keeps_sound (handle e r).
Proof.
  destruct e; unfold handle, ListBackends, GetBackend, CreateBackend, UpdateBackend,
    DeleteBackend, recordHistory; walk; settle.
Qed.

End backend.

Section route.
Import RouteHandler.

Lemma route_keeps_sound e r : every_path keeps_sound (handle e r).
Proof.
  destruct e; unfold handle, ListRoutes, GetRoute, CreateRoute, UpdateRoute,
    DeleteRoute, verify_if_changed, verify_backend, create_and_record,
    update_and_record, recordHistory; walk; settle.
Qed.

End route.

(** ** Sequences of requests *)

(** Ids stay in use. *)
Lemma ids_fit_grows a a' : grows a a' → ids_fit a' → ids_fit a.
Proof.
  intros (Hb & Hr & _) [Hfb Hfr]. split.
  - intros name b (b' & Hb' & <- & _)%Hb. eauto.
  - intros id r (r' & Hr' & _)%Hr. eauto.
Qed.

(** Two paths that keep the description, one after the other, keep it. *)
Lemma keeps_sound_app {R1 R2 R} tr1 tr2 (resp1 : R1) (resp2 : R2) (resp : R) :
  keeps_sound tr1 resp1 → keeps_sound tr2 resp2 → keeps_sound (tr1 ++ tr2) resp.
Proof.
  intros H1 H2 a a' (a1 & Htr1 & Htr2)%spec_trace_app.
  rewrite warnings_app. intros [Hw1 Hw2]%app_eq_nil Hfit Ha.
  apply (H2 a1); [done..|]. apply (H1 a); [done..| |done].
  eapply ids_fit_grows; [|done]. by eapply spec_trace_grows.
Qed.

Lemma keeps_sound_nil {R} (resp : R) : keeps_sound [] resp.
Proof. by intros a a' ->. Qed.

Lemma serve_keeps_sound r : every_path keeps_sound (Server.serve r).
Proof.
  unfold Server.serve, Server.dispatch.
  destruct (Server.route_of r) as [ps [e|e| |]| |]; try apply keeps_sound_nil.
  - apply backend_keeps_sound.
  - apply route_keeps_sound.
  - unfold HistoryHandler.ListHistory. walk; settle.
Qed.

Lemma serve_all_keeps_sound rs : every_path keeps_sound (serve_all rs).
Proof.
  induction rs as [|r rs IH]; simpl; [apply keeps_sound_nil|].
  apply every_path_bind. eapply every_path_impl; [|apply serve_keeps_sound].
  intros tr1 resp1 H1. apply every_path_bind. eapply every_path_impl; [|apply IH].
  intros tr2 resps H2. simpl. rewrite app_nil_r. by eapply keeps_sound_app.
Qed.

(** What holds of the paths of a program holds of its runs on a store that
    implements the contract. *)
Lemma run_keeps_sound `{Implements St} {R} (p : Prog R) (s : St) :
  every_path keeps_sound p →
  valid s → audit_sound (abstraction s) →
  warnings (trace_of p s) = [] →
  ids_fit (abstraction (store_after p s)) →
  audit_sound (abstraction (store_after p s)).
Proof.
  intros Hp Hs Ha Hw Hfit.
  apply (every_path_run _ _ s Hp (abstraction s)); try done. by apply run_spec_trace.
Qed.

(** ** A trail that refuses nothing *)

Lemma unrefused_app tr1 tr2 : unrefused (tr1 ++ tr2) ↔ unrefused tr1 ∧ unrefused tr2.
Proof. unfold unrefused. setoid_rewrite writes_app. set_solver. Qed.

(** Only a refusal of the trail is logged as a warning. *)
Lemma contract_quiet ty op who mutation tr resp :
  contract ty op who mutation tr resp → unrefused tr → warnings tr = [].
Proof.
  intros [_ Ha] Hun. unfold audit_protocol in Ha.
  destruct mutation; [case_decide|]; [|by destruct Ha..].
  destruct Ha as (h & [] & Hw & _ & _ & _ & Hlog); [done|].
  destruct (Hun h). rewrite Hw. set_solver.
Qed.

Lemma serve_all_quiet rs : every_path (λ tr _, unrefused tr → warnings tr = []) (serve_all rs).
Proof.
  induction rs as [|r rs IH]; simpl; [done|].
  apply every_path_bind. eapply every_path_impl; [|apply Server.serve_contract].
  intros tr1 resp1 H1. apply every_path_bind.
  eapply every_path_impl; [|apply IH]. intros tr2 resps H2. simpl.
  rewrite app_nil_r, unrefused_app, warnings_app. intros [Hu1 Hu2].
  by rewrite (contract_quiet _ _ _ _ _ _ H1 Hu1), (H2 Hu2).
Qed.

(** On a reliable store no path has a refused entry. *)
Lemma reliable_unrefused {St} `{!Store St} {R} (p : Prog R) (s : St) :
  reliable St → unrefused (trace_of p s).
Proof.
  intros Hrel. revert s. induction p as [r|X op k IH|e k IH]; intros s h; simpl.
  - apply not_elem_of_nil.
  - pose proof Hrel as Hh. destruct (exec op s) as [x s'] eqn:Hx.
    unfold writes. simpl. destruct op; simpl; try apply IH;
      rewrite not_elem_of_cons; (split; [|apply IH]); try done.
    specialize (Hh history s). rewrite Hx in Hh. simpl in Hh. by rewrite Hh.
  - apply IH.
Qed.

(** On a reliable store that implements the contract, requests served one
    after the other keep the trail a description of the state. *)
Theorem reliable_trail_describes_state `{Implements St} (rs : list Incoming) (s : St) :
  reliable St → valid s → audit_sound (abstraction s) →
  ids_fit (abstraction (store_after (serve_all rs) s)) →
  audit_sound (abstraction (store_after (serve_all rs) s)).
Proof.
  intros Hrel Hs Ha Hfit. apply run_keeps_sound; try done; [apply serve_all_keeps_sound|].
  by apply (every_path_run _ _ s (serve_all_quiet rs)), reliable_unrefused.
Qed.

(** ** On the database *)

(** The ids of a well-formed database are below its counters. *)
Lemma mysql_ids_fit (s : MySQLStore.t) :
  MySQLStore.wf s →
  fits_uint (MySQLStore.backends_auto_increment s) →
  fits_uint (MySQLStore.routes_auto_increment s) →
  ids_fit (abs s).
Proof.
  intros ((_ & Hb & _) & (_ & Hr & _) & _) Hbn Hrn. unfold fits_uint in *.
  rewrite Forall_forall in Hb. rewrite Forall_forall in Hr. split; intros k v.
  - rewrite lookup_abs_backends. intros (r & (_ & Hin)%sql_first_Some & ->)%fmap_Some.
    destruct (Hb r Hin) as [? _]. unfold fits_uint. simpl. lia.
  - rewrite lookup_abs_routes. intros (r & (Hid & Hin)%sql_first_Some & ->)%fmap_Some.
    destruct (Hr r Hin) as [? _]. unfold fits_uint. simpl in Hid. subst k. lia.
Qed.

(** On [MySQLStore] with the unique key, requests served one after the
    other keep the trail a description of the state as long as no warning
    is logged and the counters of the ids stay values of [uint]. *)
Theorem mysql_trail_describes_state (rs : list Incoming) (s : MySQLStore.t) :
  let s' := store_after (serve_all rs) s in
  keyed s → audit_sound (abs s) → warnings (trace_of (serve_all rs) s) = [] →
  fits_uint (MySQLStore.backends_auto_increment s') →
  fits_uint (MySQLStore.routes_auto_increment s') →
  audit_sound (abs s').
Proof.
  intros s' Hs Ha Hw Hb Hr.
  apply (run_keeps_sound (H := mysql_implements)); try done; [apply serve_all_keeps_sound|].
  apply mysql_ids_fit; [|done..]. by apply (run_valid (H := mysql_implements) (serve_all rs) s).
Qed.

Lemma sound_empty : audit_sound (mk_state ∅ ∅ []).
Proof. split; [apply described_empty..|]. intros id r. simpl. by rewrite lookup_empty. Qed.

(** C12: Requests served one after the other, on any store that implements
    the contract, leave a state the audit trail describes -- every stored
    backend and route is what a replay of the trail holds under its id, up
    to the timestamps, and the replay holds no other -- as long as the log
    shows no warning and the ids are values of [uint]. *)
Theorem trail_describes_state `{Implements St} (rs : list Incoming) (s : St) :
  valid s → audit_sound (abstraction s) →
  warnings (trace_of (serve_all rs) s) = [] →
  ids_fit (abstraction (store_after (serve_all rs) s)) →
  audit_sound (abstraction (store_after (serve_all rs) s)).
Proof. apply run_keeps_sound, serve_all_keeps_sound. Qed.

Lemma trail_describes_state_witness :
  audit_sound
    (abstraction (store_after (serve_all example_session) (MySQLStore.empty 1000 false true []))).
Proof.
  apply (trail_describes_state example_session (MySQLStore.empty 1000 false true []));
    [apply (bool_decide_unpack _); by vm_compute|apply sound_empty|by vm_compute|].
  apply (bool_decide_unpack _). by vm_compute.
Defined.

(** An entry the trail refuses leaves a state it does not describe: the
    backend is created, answered 201, and the replay does not know it. *)
Lemma refused_entry_not_described :
  let s := MySQLStore.empty 1000 false true [None; None; Some "Error 1114: table is full"] in
  let p := serve_all (take 1 example_session) in
  resp_status <$> result_of p s = [201] ∧
  length (warnings (trace_of p s)) = 1%nat ∧
  ¬ audit_sound (abstraction (store_after p s)).
Proof.
  intros s p. split_and!; [by vm_compute..|]. intros [Hb _ _].
  assert (sp_backends (abstraction (store_after p s)) !! "user"
          = Some (mkBackend 1 "user" "127.0.0.1:50052" "" true 1000 1000)) as Hu
    by (by vm_compute).
  apply (described_stored _ _ Hb) in Hu. by vm_compute in Hu.
Qed.
