(* ===== verification/StoreMem.v ===== *)
(** * A store in memory

    The [Store] interface is there so that another store can stand in for
    [MySQLStore].  Module [MemStore] is the plainest one: its state is the
    state of the contract of [StoreSpec] itself, two finite maps and a
    list, with the counters of the ids and a clock.  A call fails only for
    what the caller asked: a name that is taken, a backend or a route that
    is not there.

    The theorems: the counters stay above every id in use ([fresh]); every
    call is one the contract allows, so [MemStore] is a second instance of
    [Implements] and what is proved against the contract holds of it; no
    call of [CreateHistory] fails, so on this store requests served one
    after the other keep the audit trail a description of the state with
    no condition on the log. *)

From S2P Require Import Prelude Json Entity Sql StoreApi StoreMySQL StoreSpec Http.
From S2P Require Import Handler HandlerBackend HandlerRoute HandlerHistory Trace.
From S2P Require Import Protocol Server Contract AuditTrail.

#[local] Set Warnings "-clear-no-such-hyp".

Module MemStore.
Import StoreSpec.

#[local] Open Scope string_scope.

(** ** The state *)

Record t : Type := mk {
  mem : state;
  next_backend : N;
  next_route : N;
  next_history : N;
  now : Z;
}.

Definition with_mem (a : state) (s : t) : t :=
  mk a (next_backend s) (next_route s) (next_history s) (now s).

Definition empty (now : Z) : t := mk (mk_state ∅ ∅ []) 1 1 1 now.

(** ** The methods *)

Definition GetBackends (enabled : option bool) (s : t) : Result (list Backend) * t :=
  (Ok (order_by (by_key String.le Backend_Name)
         (filter (λ b, MySQLStore.enabled_matches enabled (Backend_Enabled b))
            (map_to_list (sp_backends (mem s))).*2)), s).

Definition GetBackendByName (name : string) (s : t) : Result (option Backend) * t :=
  (Ok (sp_backends (mem s) !! name), s).

Definition CreateBackend (backend : Backend) (s : t) : Result Backend * t :=
  match sp_backends (mem s) !! Backend_Name backend with
  | Some _ => (Err "backend already exists", s)
  | None =>
      let v := Backend_with_UpdatedAt (now s)
                 (Backend_with_CreatedAt (now s)
                    (Backend_with_ID (next_backend s) backend)) in
      (Ok v,
       mk (set_backends (<[Backend_Name backend := v]> (sp_backends (mem s))) (mem s))
          (next_backend s + 1) (next_route s) (next_history s) (now s))
  end.

Definition UpdateBackend (name : string) (backend : Backend) (s : t) : Result Backend * t :=
  match sp_backends (mem s) !! name with
  | None => (Err "backend not found", s)
  | Some old =>
      let v := Backend_with_UpdatedAt (now s) (Backend_with_Name name backend) in
      (Ok v,
       with_mem (set_backends
                   (<[name := Backend_with_CreatedAt (Backend_CreatedAt old)
                                (Backend_with_ID (Backend_ID old) v)]>
                      (sp_backends (mem s))) (mem s)) s)
  end.

Definition DeleteBackend (name : string) (s : t) : Result unit * t :=
  match sp_backends (mem s) !! name with
  | None => (Err "backend not found", s)
  | Some old =>
      (Ok (),
       with_mem (set_backends
                   (<[name := Backend_with_UpdatedAt (now s)
                                (Backend_with_Enabled false old)]>
                      (sp_backends (mem s))) (mem s)) s)
  end.

Definition GetRoutes (enabled : option bool) (s : t) : Result (list Route) * t :=
  (Ok (order_by (by_key lex_le (λ r, (Route_HTTPMethod r, Route_HTTPPattern r)))
         (filter (λ r, MySQLStore.enabled_matches enabled (Route_Enabled r))
            (map_to_list (sp_routes (mem s))).*2)), s).

Definition GetRouteByID (id : N) (s : t) : Result (option Route) * t :=
  (Ok (sp_routes (mem s) !! id), s).

Definition CreateRoute (route : Route) (s : t) : Result Route * t :=
  let v := Route_with_UpdatedAt (now s)
             (Route_with_CreatedAt (now s) (Route_with_ID (next_route s) route)) in
  (Ok v,
   mk (set_routes (<[next_route s := v]> (sp_routes (mem s))) (mem s))
      (next_backend s) (next_route s + 1) (next_history s) (now s)).

Definition UpdateRoute (id : N) (route : Route) (s : t) : Result Route * t :=
  match sp_routes (mem s) !! id with
  | None => (Err "route not found", s)
  | Some old =>
      let v := Route_with_UpdatedAt (now s) (Route_with_ID id route) in
      (Ok v,
       with_mem (set_routes
                   (<[id := Route_with_CreatedAt (Route_CreatedAt old) v]>
                      (sp_routes (mem s))) (mem s)) s)
  end.

Definition DeleteRoute (id : N) (s : t) : Result unit * t :=
  match sp_routes (mem s) !! id with
  | None => (Err "route not found", s)
  | Some old =>
      (Ok (),
       with_mem (set_routes
                   (<[id := Route_with_UpdatedAt (now s) (Route_with_Enabled false old)]>
                      (sp_routes (mem s))) (mem s)) s)
  end.

Definition CreateHistory (h : ConfigHistory) (s : t) : Result unit * t :=
  (Ok (),
   mk (set_history
         (sp_history (mem s) ++
            [mkConfigHistory (next_history s) (ConfigHistory_ConfigType h)
               (ConfigHistory_ConfigID h) (ConfigHistory_Operation h)
               (ConfigHistory_OldValue h) (ConfigHistory_NewValue h)
               (ConfigHistory_Operator h) (now s)]) (mem s))
      (next_backend s) (next_route s) (next_history s + 1) (now s)).

Definition GetHistory (ty : option string) (id : option N) (limit offset : Z) (s : t) :
    Result (list ConfigHistory * Z) * t :=
  let rows := filter (MySQLStore.history_matches ty id) (sp_history (mem s)) in
  (Ok (limit_offset limit offset
         (order_by (by_key (flip Z.le) ConfigHistory_CreatedAt) rows),
       Z.of_nat (length rows)), s).

#[global] Instance store : Store t := {|
  StoreApi.GetBackends := GetBackends;
  StoreApi.GetBackendByName := GetBackendByName;
  StoreApi.CreateBackend := CreateBackend;
  StoreApi.UpdateBackend := UpdateBackend;
  StoreApi.DeleteBackend := DeleteBackend;
  StoreApi.GetRoutes := GetRoutes;
  StoreApi.GetRouteByID := GetRouteByID;
  StoreApi.CreateRoute := CreateRoute;
  StoreApi.UpdateRoute := UpdateRoute;
  StoreApi.DeleteRoute := DeleteRoute;
  StoreApi.CreateHistory := CreateHistory;
  StoreApi.GetHistory := GetHistory;
|}.

(** ** The invariant *)

(** The counters are above every id in use. *)
Definition fresh (s : t) : Prop :=
  map_Forall (λ _ b, (Backend_ID b < next_backend s)%N) (sp_backends (mem s)) ∧
  map_Forall (λ id _, (id < next_route s)%N) (sp_routes (mem s)).

#[global] Instance fresh_dec s : Decision (fresh s).
Proof. unfold fresh. apply _. Defined.

(** ** Facts *)

Lemma fresh_empty now : fresh (empty now).
Proof. split; apply map_Forall_empty. Qed.

(** Every call keeps the counters above the ids. *)
Lemma fresh_exec {X} (op : StoreOp X) (s : t) : fresh s → fresh (exec op s).2.
Proof.
  intros [Hb Hr]. unfold fresh.
  destruct op; unfold exec; simpl; try done;
    unfold CreateBackend, UpdateBackend, DeleteBackend, UpdateRoute, DeleteRoute;
    repeat case_match; simpl; try done; (split; [|try done]); try done;
    try apply map_Forall_insert_2; simpl;
    try (eapply map_Forall_impl; [done|]; simpl; intros; lia);
    try lia.
  all: first [ by eapply (map_Forall_lookup_1 _ _ _ _ Hb)
             | by eapply (map_Forall_lookup_1 _ _ _ _ Hr) ].
Qed.

(** Every call is one the contract allows. *)
Lemma exec_allowed {X} (op : StoreOp X) (s : t) :
  fresh s → spec op (mem s) (exec op s).1 (mem (exec op s).2).
Proof.
  intros [Hb Hr].
  destruct op; unfold exec; simpl;
    unfold CreateBackend, UpdateBackend, DeleteBackend, UpdateRoute, DeleteRoute;
    repeat case_match;
    try (left; split; [done|by eexists]); right; eexists; (split; [done|]).
  - split; [done|]. split; [apply order_by_perm|apply order_by_sorted, _].
  - done.
  - exists (next_backend s), (now s). split_and!; try done.
    intros name b Hn Hid. apply (map_Forall_lookup_1 _ _ _ _ Hb) in Hn. simpl in Hn. lia.
  - by exists b, (now s).
  - by exists b, (now s).
  - split; [done|]. split; [apply order_by_perm|apply order_by_sorted, _].
  - done.
  - exists (next_route s), (now s). split_and!; try done.
    destruct (sp_routes (mem s) !! next_route s) eqn:Hn; [|done].
    apply (map_Forall_lookup_1 _ _ _ _ Hr) in Hn. simpl in Hn. lia.
  - by exists r, (now s).
  - by exists r, (now s).
  - by exists (next_history s), (now s).
  - split_and!; try done.
    exists (order_by (by_key (flip Z.le) ConfigHistory_CreatedAt)
              (filter (MySQLStore.history_matches configType configID) (sp_history (mem s)))).
    split_and!; [apply order_by_perm|apply order_by_sorted, _|done].
Qed.

#[global] Instance mem_implements : Implements t := {|
  valid := fresh;
  abstraction := mem;
  valid_exec := @fresh_exec;
  exec_spec := @exec_allowed;
|}.

(** ** The theorems *)

(** Every run of every program over the store in memory is a run the
    contract allows, on the state the store holds. *)
Theorem mem_run_refines {R} (p : Prog R) (s : t) :
  fresh s → spec_path p (mem s) (result_of p s) (mem (store_after p s)).
Proof. apply (run_spec (H := mem_implements) p s). Qed.

(** No entry of the trail is refused. *)
Lemma mem_reliable : reliable t.
Proof. by intros h s. Qed.

(** The ids in use are below the counters. *)
Lemma mem_ids_fit s :
  fresh s → fits_uint (next_backend s) → fits_uint (next_route s) → ids_fit (mem s).
Proof.
  unfold fits_uint. intros [Hb Hr] Hbn Hrn.
  split; (eapply map_Forall_impl; [done|]); simpl; intros; unfold fits_uint; lia.
Qed.

(** On the store in memory requests served one after the other keep the
    trail a description of the state, as long as the counters of the ids
    stay values of [uint]. *)
Theorem mem_trail_describes_state (rs : list Incoming) (s : t) :
  let s' := store_after (serve_all rs) s in
  fresh s → audit_sound (mem s) →
  fits_uint (next_backend s') → fits_uint (next_route s') →
  audit_sound (mem s').
Proof.
  intros s' Hs Ha Hb Hr.
  apply (reliable_trail_describes_state (H := mem_implements));
    [apply mem_reliable|done..|].
  apply mem_ids_fit; [|done..]. by apply (run_valid (H := mem_implements) (serve_all rs) s).
Qed.

(** The session of [AuditTrail] on the store in memory: the same answers
    as on [MySQLStore], and a trail that describes the state. *)
Lemma mem_session :
  let s := store_after (serve_all example_session) (empty 1000) in
  resp_status <$> result_of (serve_all example_session) (empty 1000)
  = resp_status <$> result_of (serve_all example_session)
                      (MySQLStore.empty 1000 false true []) ∧
  length (sp_history (mem s)) = 4%nat ∧ audit_sound (mem s).
Proof.
  intros s. split_and!; [by vm_compute..|].
  apply mem_trail_describes_state; [apply fresh_empty|apply sound_empty|by vm_compute..].
Qed.

End MemStore.
