(* ===== verification/Process.v ===== *)
(** * The process: start, serving and shutdown

    Module [Process] holds [main] of src/cmd/admin/main.go from its first
    line to its last, with [NewMySQLStore] and [Close] of
    src/internal/config/mysql_store.go.  What the operating system, the
    logging library, the driver and the HTTP server answer is a record,
    [World]; [main] is a function from it to what the process leaves: how
    it ended, the lines it logged, the database handle, the deferred calls
    that ran and the server it listened with.  [log.Fatal] and zap's
    [Fatal] end the process with status 1 without running what was
    deferred; a return from [main] runs it, last deferred first: the
    context of the shutdown is cancelled, the store closed, the logger
    synced.

    The goroutine that listens and the wait for the signal are read as
    one choice: the listener fails, or it serves until the signal.

    The theorems: the process listens exactly when the four steps before
    succeed; it returns only after a signal, with the handle closed and the
    logger synced, in that order; every end with status 1 skips what was
    deferred, and after a failed ping or a failed listener the handle that
    was opened is never closed; the pool of a store that was built is
    bounded. *)

From S2P Require Import Prelude StoreApi Server.

#[local] Set Warnings "-clear-no-such-hyp".

Module Process.
Import Server.

#[local] Open Scope string_scope.
#[local] Open Scope Z_scope.

(** ** The database handle *)

(** A [*sql.DB]: the data source, the limits of its pool (0: no limit),
    whether it was closed.  Times are in seconds. *)
Record DB : Type := mkDB {
  dataSourceName : string;
  maxOpenConns : Z;
  maxIdleConns : Z;
  connMaxLifetime : Z;
  closed : bool;
}.

#[global] Instance DB_eq_dec : EqDecision DB.
Proof. solve_decision. Defined.

(** What [sql.Open] returns when it succeeds: no limit on open connections,
    two idle connections, no limit on their age. *)
Definition sql_Open (dsn : string) : DB := mkDB dsn 0 2 0 false.

Definition SetMaxOpenConns (n : Z) (db : DB) : DB :=
  mkDB (dataSourceName db) n (maxIdleConns db) (connMaxLifetime db) (closed db).

Definition SetMaxIdleConns (n : Z) (db : DB) : DB :=
  mkDB (dataSourceName db) (maxOpenConns db) n (connMaxLifetime db) (closed db).

Definition SetConnMaxLifetime (d : Z) (db : DB) : DB :=
  mkDB (dataSourceName db) (maxOpenConns db) (maxIdleConns db) d (closed db).

(** [MySQLStore.Close] *)
Definition Close (db : DB) : DB :=
  mkDB (dataSourceName db) (maxOpenConns db) (maxIdleConns db) (connMaxLifetime db) true.

(** ** What the process is answered *)

(** [None] is [err == nil].  [ListenAndServe] answers an error at once, or
    serves until [Shutdown] is called and answers [http.ErrServerClosed]
    then, which is [None] here. *)
Record World : Type := mkWorld {
  environ : Environ;
  zap_NewProduction : option error;
  open_error : option error;
  ping_error : option error;
  ListenAndServe : option error;
  Shutdown : option error;
}.

(** [NewMySQLStore(dsn)]: the store or the error, and the handle
    [sql.Open] has created, if any. *)
Definition NewMySQLStore (w : World) (dsn : string) : Result DB * option DB :=
  match open_error w with
  | Some err => (Err err, None)
  | None =>
      let db := sql_Open dsn in
      match ping_error w with
      | Some err => (Err err, Some db)
      | None =>
          let db := SetMaxOpenConns 25 db in
          let db := SetMaxIdleConns 5 db in
          let db := SetConnMaxLifetime (5 * 60) db in
          (Ok db, Some db)
      end
  end.

(** ** The process *)

(** A line the process writes: by the standard logger before zap is
    built, by zap after. *)
Inductive Line : Type :=
| log_Fatal (msg : string)
| logger_Fatal (msg : string) (fields : list Field)
| logger_Info (msg : string) (fields : list Field)
| logger_Error (msg : string) (fields : list Field).

#[global] Instance Line_eq_dec : EqDecision Line.
Proof. solve_decision. Defined.

(** The calls [main] defers: of the logger, of the store, and of the
    context of the shutdown. *)
Inductive Deferred : Type := logger_Sync | store_Close | cancel.

#[global] Instance Deferred_eq_dec : EqDecision Deferred.
Proof. solve_decision. Defined.

(** [&http.Server{...}], times in seconds. *)
Record http_Server : Type := mk_http_Server {
  Addr : string;
  ReadTimeout : Z;
  WriteTimeout : Z;
  IdleTimeout : Z;
}.

#[global] Instance http_Server_eq_dec : EqDecision http_Server.
Proof. solve_decision. Defined.

Definition srv (listenAddr : string) : http_Server :=
  mk_http_Server listenAddr 15 15 60.

(** How the process ended: [main] returned, or [os.Exit(code)]. *)
Inductive Exit : Type := Returned | Exited (code : Z).

#[global] Instance Exit_eq_dec : EqDecision Exit.
Proof. solve_decision. Defined.

Record Outcome : Type := mkOutcome {
  exit : Exit;
  lines : list Line;
  handle : option DB;
  ran : list Deferred;
  listened : option http_Server;
}.

(** [os.Exit(1)] after a fatal line: nothing deferred runs. *)
Definition fatal (ls : list Line) (h : option DB) (server : option http_Server) : Outcome :=
  mkOutcome (Exited 1) ls h [] server.

(** The lines of the shutdown: the announcement, and the error of
    [Shutdown] when there is one. *)
Definition shutdown_lines (w : World) : list Line :=
  logger_Info "shutting down admin service..." [] ::
  match Shutdown w with
  | Some err => [logger_Error "HTTP server shutdown error" [zap_Error err]]
  | None => []
  end.

Definition main (w : World) : Outcome :=
  match settings (environ w) with
  | Err msg => fatal [log_Fatal msg] None None
  | Ok st =>
      match zap_NewProduction w with
      | Some err => fatal [log_Fatal ("failed to initialize logger: " +:+ err)] None None
      | None =>
          match NewMySQLStore w (dsn st) with
          | (Err err, h) =>
              fatal [logger_Fatal "failed to create mysql store" [zap_Error err]] h None
          | (Ok store, _) =>
              let server := srv (listenAddr st) in
              let listening :=
                logger_Info "admin service listening" [zap_String "addr" (listenAddr st)] in
              match ListenAndServe w with
              | Some err =>
                  fatal [listening; logger_Fatal "HTTP server error" [zap_Error err]]
                    (Some store) (Some server)
              | None =>
                  mkOutcome Returned (listening :: shutdown_lines w)
                    (Some (Close store)) [cancel; store_Close; logger_Sync] (Some server)
              end
          end
      end
  end.

(** The steps before the server listens all succeed. *)
Definition starts (w : World) : Prop :=
  environ w "ADMIN_DB_DSN" ≠ "" ∧ zap_NewProduction w = None ∧
  open_error w = None ∧ ping_error w = None.

#[global] Instance starts_dec w : Decision (starts w).
Proof. unfold starts. apply _. Defined.

(** ** Examples *)

Definition example_environ : Environ :=
  λ key, if decide (key = "ADMIN_DB_DSN") then "admin@tcp(db:3306)/gateway" else "".

Definition example_world : World :=
  mkWorld example_environ None None None None None.

Definition example_no_database : World :=
  mkWorld example_environ None None (Some "connection refused") None None.

Definition example_port_taken : World :=
  mkWorld example_environ None None None (Some "address already in use") None.

(** ** Facts *)

Lemma NewMySQLStore_cases w dsn :
  (∃ err, open_error w = Some err ∧ NewMySQLStore w dsn = (Err err, None)) ∨
  (∃ err, open_error w = None ∧ ping_error w = Some err ∧
          NewMySQLStore w dsn = (Err err, Some (sql_Open dsn))) ∨
  (open_error w = None ∧ ping_error w = None ∧
   ∃ db, NewMySQLStore w dsn = (Ok db, Some db) ∧ db = mkDB dsn 25 5 300 false).
Proof.
  unfold NewMySQLStore. destruct (open_error w), (ping_error w); eauto 10.
Qed.

Lemma settings_Ok env st :
  settings env = Ok st ↔
  env "ADMIN_DB_DSN" ≠ "" ∧
  st = mkSettings (env "ADMIN_DB_DSN") (getEnv env "ADMIN_HTTP_LISTEN" ":8081").
Proof. unfold settings. case_decide; naive_solver. Qed.

(** How a process that starts goes on. *)
Lemma main_started w :
  starts w →
  main w =
  let st := mkSettings (environ w "ADMIN_DB_DSN")
              (getEnv (environ w) "ADMIN_HTTP_LISTEN" ":8081") in
  let store := mkDB (dsn st) 25 5 300 false in
  let listening :=
    logger_Info "admin service listening" [zap_String "addr" (listenAddr st)] in
  match ListenAndServe w with
  | Some err =>
      fatal [listening; logger_Fatal "HTTP server error" [zap_Error err]]
        (Some store) (Some (srv (listenAddr st)))
  | None =>
      mkOutcome Returned (listening :: shutdown_lines w) (Some (Close store))
        [cancel; store_Close; logger_Sync] (Some (srv (listenAddr st)))
  end.
Proof.
  intros (Hdsn & Hzap & Hopen & Hping). unfold main, settings, NewMySQLStore.
  rewrite decide_False, Hzap, Hopen, Hping by done. done.
Qed.

(** A process that does not start ends with status 1 before it listens. *)
Lemma main_not_started w :
  ¬ starts w → exit (main w) = Exited 1 ∧ ran (main w) = [] ∧ listened (main w) = None.
Proof.
  intros Hno. unfold main, settings, NewMySQLStore.
  case_decide; [done|].
  destruct (zap_NewProduction w) eqn:?; [done|].
  destruct (open_error w) eqn:?; [done|].
  destruct (ping_error w) eqn:?; [done|].
  by destruct Hno.
Qed.

(** The server listens exactly when the data source is set, the logger
    is built, the handle is opened and the database answers the ping; it
    listens on the address of the environment, or on port 8081. *)
Theorem main_listens w :
  listened (main w) =
  if decide (starts w)
  then Some (srv (getEnv (environ w) "ADMIN_HTTP_LISTEN" ":8081"))
  else None.
Proof.
  case_decide as Hs; [|by apply main_not_started].
  rewrite main_started by done. by destruct (ListenAndServe w).
Qed.

(** The process returns from [main] only when it started and the
    listener served until the signal; the store is closed then and the
    logger synced after it, and the pool was bounded: 25 connections, 5 of
    them idle, none older than five minutes. *)
Theorem main_returns w :
  exit (main w) = Returned →
  starts w ∧ ListenAndServe w = None ∧
  ran (main w) = [cancel; store_Close; logger_Sync] ∧
  handle (main w) = Some (mkDB (environ w "ADMIN_DB_DSN") 25 5 300 true).
Proof.
  destruct (decide (starts w)) as [Hs|Hs].
  - rewrite main_started by done. by destruct (ListenAndServe w).
  - destruct (main_not_started w Hs) as (-> & _). done.
Qed.

(** C40: an end with status 1 runs nothing that was deferred, and a handle
    that was opened stays open: after a ping that failed and after a
    listener that failed the database handle is never closed. *)
Theorem main_fatal_skips_deferred w code :
  exit (main w) = Exited code →
  code = 1 ∧ ran (main w) = [] ∧
  (∀ db, handle (main w) = Some db → closed db = false) ∧
  (open_error w = None → zap_NewProduction w = None → environ w "ADMIN_DB_DSN" ≠ "" →
   is_Some (handle (main w))).
Proof.
  unfold main, settings, NewMySQLStore, fatal.
  case_decide;
    destruct (zap_NewProduction w), (open_error w), (ping_error w), (ListenAndServe w);
    simpl; intros [= <-]; split_and!; try done; try (intros ? ?; by simplify_eq); eauto.
Qed.

Lemma main_returns_witness :
  starts example_world ∧ ListenAndServe example_world = None ∧
  ran (main example_world) = [cancel; store_Close; logger_Sync] ∧
  handle (main example_world) =
    Some (mkDB (environ example_world "ADMIN_DB_DSN") 25 5 300 true).
Proof. by apply main_returns. Defined.

Lemma main_fatal_skips_deferred_witness :
  ran (main example_port_taken) = [] ∧
  handle (main example_no_database) = Some (sql_Open "admin@tcp(db:3306)/gateway").
Proof.
  split; [by apply (main_fatal_skips_deferred example_port_taken 1)|done].
Defined.

End Process.
