(* ===== verification/Lifecycle.v ===== *)
(** * The process while it serves: two goroutines and a signal

    From [go func] to its last line, [main] of src/cmd/admin/main.go is two
    goroutines.  The listener writes that the service listens, calls
    [ListenAndServe] and ends the process with a fatal line when that
    answers an error other than [http.ErrServerClosed].  [main] waits for
    SIGINT or SIGTERM, writes that the service shuts down, calls
    [Shutdown] and returns, which runs what was deferred and ends the
    process whatever the listener does.

    Module [Lifecycle] is that part as a step relation on [Running]: where
    each goroutine is, whether the server is shutting down, the lines
    written, the database handle, the deferred calls that ran and how the
    process ended.  A step is the signal, a step of [main] or a step of the
    listener; [play] takes the steps of a schedule, [finals] every end the
    schedules reach.  [ListenAndServe] answers [http.ErrServerClosed] when
    [Shutdown] was called, before or after it listened; an error of the
    listener is the one of [Process.World].

    The theorems: every run is of seven steps at most; the process is at
    rest only while it serves and waits for the signal, and after the
    signal [main] is never blocked; an end by return has closed the store
    and synced the logger, an end by a fatal line has status 1, runs
    nothing deferred and leaves the handle open; [Process.main] is the run
    in which the listener is scheduled first.  The runs in which the signal
    comes first end otherwise: an address that cannot be bound goes
    unreported when [main] has returned before the listener ran. *)

From S2P Require Import Prelude StoreApi Server Process.

#[local] Set Warnings "-clear-no-such-hyp".

Module Lifecycle.
Import Server Process.

#[local] Open Scope string_scope.

(** ** The state *)

(** Where [main] is: at [<-stop], at the line that announces the
    shutdown, at [srv.Shutdown(ctx)], at its return. *)
Inductive MainAt : Type := AtWait | AtAnnounce | AtShutdown | AtReturn.

(** Where the listener is: at its first line, at the call of
    [ListenAndServe], inside it serving, at its end. *)
Inductive ListenerAt : Type := AtInfo | AtListen | AtServe | AtEnd.

#[global] Instance MainAt_eq_dec : EqDecision MainAt.
Proof. solve_decision. Defined.

#[global] Instance ListenerAt_eq_dec : EqDecision ListenerAt.
Proof. solve_decision. Defined.

Record Running : Type := mkRunning {
  at_main : MainAt;
  at_listener : ListenerAt;
  inShutdown : bool;
  written : list Line;
  store : DB;
  deferred : list Deferred;
  ended : option Exit;
}.

#[global] Instance Running_eq_dec : EqDecision Running.
Proof. solve_decision. Defined.

(** The process when the listener is spawned: the store is built. *)
Definition spawned (db : DB) : Running := mkRunning AtWait AtInfo false [] db [] None.

(** ** The steps *)

Definition main_to (pc : MainAt) (ls : list Line) (c : Running) : Running :=
  mkRunning pc (at_listener c) (inShutdown c) (written c ++ ls) (store c) (deferred c)
    (ended c).

Definition listener_to (pc : ListenerAt) (ls : list Line) (c : Running) : Running :=
  mkRunning (at_main c) pc (inShutdown c) (written c ++ ls) (store c) (deferred c)
    (ended c).

(** [Shutdown] marks the server before it closes the listeners. *)
Definition shut (c : Running) : Running :=
  mkRunning (at_main c) (at_listener c) true (written c) (store c) (deferred c) (ended c).

(** [os.Exit(1)] of a fatal line. *)
Definition exits (c : Running) : Running :=
  mkRunning (at_main c) (at_listener c) (inShutdown c) (written c) (store c) (deferred c)
    (Some (Exited 1)).

(** The return of [main]: the deferred calls, last deferred first. *)
Definition returns (c : Running) : Running :=
  mkRunning (at_main c) (at_listener c) (inShutdown c) (written c) (Close (store c))
    [cancel; store_Close; logger_Sync] (Some Returned).

Inductive Action : Type := Signal | Main | Listener.

#[global] Instance Action_eq_dec : EqDecision Action.
Proof. solve_decision. Defined.

Section steps.
Context (w : World) (addr : string).

(** SIGINT or SIGTERM reaches the channel and [main] receives it. *)
Definition signal (c : Running) : option Running :=
  match at_main c with
  | AtWait => Some (main_to AtAnnounce [] c)
  | _ => None
  end.

(** The next line of [main]; none while it waits. *)
Definition main_step (c : Running) : option Running :=
  match at_main c with
  | AtWait => None
  | AtAnnounce => Some (main_to AtShutdown [logger_Info "shutting down admin service..." []] c)
  | AtShutdown =>
      Some (shut (main_to AtReturn
                    match Shutdown w with
                    | Some err => [logger_Error "HTTP server shutdown error" [zap_Error err]]
                    | None => []
                    end c))
  | AtReturn => Some (returns c)
  end.

(** The next line of the listener; none while it serves. *)
Definition listener_step (c : Running) : option Running :=
  match at_listener c with
  | AtInfo =>
      Some (listener_to AtListen
              [logger_Info "admin service listening" [zap_String "addr" addr]] c)
  | AtListen =>
      if inShutdown c then Some (listener_to AtEnd [] c)
      else match ListenAndServe w with
           | Some err =>
               Some (exits (listener_to AtEnd
                              [logger_Fatal "HTTP server error" [zap_Error err]] c))
           | None => Some (listener_to AtServe [] c)
           end
  | AtServe => if inShutdown c then Some (listener_to AtEnd [] c) else None
  | AtEnd => None
  end.

(** A process that has ended takes no step. *)
Definition act (a : Action) (c : Running) : option Running :=
  match ended c with
  | Some _ => None
  | None =>
      match a with
      | Signal => signal c
      | Main => main_step c
      | Listener => listener_step c
      end
  end.

Inductive proc_step : Running → Running → Prop :=
| step_signal c c' : ended c = None → signal c = Some c' → proc_step c c'
| step_main c c' : ended c = None → main_step c = Some c' → proc_step c c'
| step_listener c c' : ended c = None → listener_step c = Some c' → proc_step c c'.

(** The steps of a schedule; a step that is not enabled is skipped. *)
Definition play (sched : list Action) (c : Running) : Running :=
  foldl (λ c a, default c (act a c)) c sched.

(** Every end the schedules of [fuel] steps reach. *)
Fixpoint finals (fuel : nat) (c : Running) : list Running :=
  match ended c, fuel with
  | Some _, _ => [c]
  | None, 0 => []
  | None, S fuel =>
      a ← [Signal; Main; Listener];
      match act a c with Some c' => finals fuel c' | None => [] end
  end.

(** What the process leaves when it has ended. *)
Definition outcome (c : Running) : option Outcome :=
  e ← ended c;
  Some (mkOutcome e (written c) (Some (store c)) (deferred c) (Some (srv addr))).

(** ** What is left to do *)

Definition main_left (pc : MainAt) : nat :=
  match pc with AtWait => 4 | AtAnnounce => 3 | AtShutdown => 2 | AtReturn => 1 end.

Definition listener_left (pc : ListenerAt) : nat :=
  match pc with AtInfo => 3 | AtListen => 2 | AtServe => 1 | AtEnd => 0 end.

Definition left (c : Running) : nat :=
  match ended c with
  | Some _ => 0
  | None => main_left (at_main c) + listener_left (at_listener c)
  end.

(** ** The states the process reaches *)

(** The server is shutting down from the call of [Shutdown] on; the
    listener serves only an address it could bind and ends only when the
    server shuts down or the process ends; the deferred calls ran
    when [main] returned and only then, and a fatal end is the listener's. *)
Record sound (db : DB) (c : Running) : Prop := {
  sound_shutdown : inShutdown c = bool_decide (at_main c = AtReturn);
  sound_serve : at_listener c = AtServe → ListenAndServe w = None;
  sound_end : at_listener c = AtEnd → inShutdown c = true ∨ is_Some (ended c);
  sound_ended :
    match ended c with
    | None => deferred c = [] ∧ store c = db
    | Some Returned =>
        deferred c = [cancel; store_Close; logger_Sync] ∧ store c = Close db ∧
        at_main c = AtReturn
    | Some (Exited code) =>
        code = 1%Z ∧ deferred c = [] ∧ store c = db ∧
        ∃ err, ListenAndServe w = Some err ∧
               last (written c) = Some (logger_Fatal "HTTP server error" [zap_Error err])
    end;
}.

(** The process serves: the listener is inside [ListenAndServe], [main]
    waits for the signal. *)
Definition serving (c : Running) : Prop := at_main c = AtWait ∧ at_listener c = AtServe.

End steps.

(** ** Examples *)

Definition example_handle : DB := mkDB "admin@tcp(db:3306)/gateway" 25 5 300 false.

(** The listener runs to where it blocks, then the signal comes. *)
Definition listener_first : list Action := [Listener; Listener; Signal; Main; Main; Main].

(** The signal comes and [main] returns before the listener has run. *)
Definition signal_first : list Action := [Signal; Main; Main; Main; Listener; Listener].

(** ** Facts *)

Section facts.
Context (w : World) (addr : string).
Implicit Types (c : Running) (a : Action).

Lemma act_step a c c' : act w addr a c = Some c' → proc_step w addr c c'.
Proof.
  unfold act. destruct (ended c) eqn:He; [done|].
  destruct a; [apply step_signal|apply step_main|apply step_listener]; done.
Qed.

Lemma step_act c c' : proc_step w addr c c' → ∃ a, act w addr a c = Some c'.
Proof.
  intros [? ? He Hs|? ? He Hs|? ? He Hs];
    [exists Signal|exists Main|exists Listener]; unfold act; by rewrite He.
Qed.

Lemma play_reachable sched c : rtc (proc_step w addr) c (play w addr sched c).
Proof.
  revert c. induction sched as [|a sched IH]; intros c; [done|]. simpl.
  destruct (act w addr a c) as [c'|] eqn:Ha; simpl; [|done].
  eapply rtc_l; [by eapply act_step|done].
Qed.

(** Every step takes from what is left. *)
Lemma act_left a c c' : act w addr a c = Some c' → (left c' < left c)%nat.
Proof.
  unfold act, left, signal, main_step, listener_step.
  destruct (ended c) eqn:He; [done|].
  destruct a, (at_main c) eqn:Hm, (at_listener c) eqn:Hl, (inShutdown c),
    (ListenAndServe w); intros; simplify_eq; simpl; rewrite ?He, ?Hm, ?Hl; simpl; lia.
Qed.

Lemma nsteps_left n c c' : nsteps (proc_step w addr) n c c' → (n + left c' ≤ left c)%nat.
Proof.
  induction 1 as [|n c c1 c2 Hs _ IH]; [lia|].
  apply step_act in Hs as [a Ha%act_left]. lia.
Qed.

(** A step keeps the state sound. *)
Lemma act_sound db a c c' : act w addr a c = Some c' → sound w db c → sound w db c'.
Proof.
  unfold act, signal, main_step, listener_step. intros Ha [Hsh Hsv Hle He].
  destruct (ended c) eqn:Hend; [done|]. destruct He as [Hd Hst].
  destruct a, (at_main c) eqn:Hm, (at_listener c) eqn:Hl, (inShutdown c) eqn:Hi,
    (ListenAndServe w) eqn:Hls; simplify_eq; split; simpl;
    rewrite ?Hend, ?Hm, ?Hl, ?Hd, ?Hst, ?last_snoc; naive_solver.
Qed.

Lemma start_sound db : sound w db (spawned db).
Proof. by split. Qed.

Lemma reachable_sound db c : rtc (proc_step w addr) (spawned db) c → sound w db c.
Proof.
  revert c. apply rtc_ind_r; [apply start_sound|].
  intros c c' _ [a Ha]%step_act. by apply (act_sound db a c).
Qed.

(** [finals] holds ends of runs and nothing else. *)
Lemma finals_sound fuel c c' :
  c' ∈ finals w addr fuel c → rtc (proc_step w addr) c c' ∧ is_Some (ended c').
Proof.
  revert c. induction fuel as [|fuel IH]; intros c; simpl;
    destruct (ended c) eqn:He; try (intros ->%list_elem_of_singleton; by rewrite He);
    [by intros ?%elem_of_nil|].
  rewrite !elem_of_app. intros [Hc'|[Hc'|[Hc'|Hc']]]; [..|by apply elem_of_nil in Hc'];
    (destruct (act w addr _ c) as [c1|] eqn:Ha; [|by apply elem_of_nil in Hc']);
    destruct (IH _ Hc'); eauto using rtc_l, act_step.
Qed.

(** [finals] misses no end within its fuel. *)
Lemma finals_nsteps n fuel c c' :
  nsteps (proc_step w addr) n c c' → is_Some (ended c') → (n ≤ fuel)%nat → c' ∈ finals w addr fuel c.
Proof.
  intros Hn [e He]. revert fuel. induction Hn as [c|n c c1 c2 Hs _ IH]; intros fuel Hle.
  - destruct fuel; simpl; rewrite He; by apply list_elem_of_singleton.
  - destruct fuel as [|fuel]; [lia|]. apply step_act in Hs as [a Ha].
    assert (ended c = None) as Hc by (unfold act in Ha; by destruct (ended c)).
    specialize (IH He fuel ltac:(lia)). simpl. rewrite Hc.
    destruct a; rewrite Ha, !elem_of_app; auto.
Qed.

End facts.

(** ** The theorems *)

Section theorems.
Context (w : World) (addr : string).
Implicit Types (c : Running) (db : DB).

(** Every run from the start is of seven steps at most: nothing in the
    serving part of [main] loops. *)
Theorem lifecycle_ends n db c : nsteps (proc_step w addr) n (spawned db) c → (n ≤ 7)%nat.
Proof. intros Hn%nsteps_left. simpl in Hn. unfold left in Hn. simpl in Hn. lia. Qed.

(** Every end of the process is one of [finals]. *)
Theorem finals_complete db c :
  rtc (proc_step w addr) (spawned db) c → is_Some (ended c) → c ∈ finals w addr 7 (spawned db).
Proof.
  intros [n Hn]%rtc_nsteps He. eapply finals_nsteps; [done..|]. by eapply lifecycle_ends.
Qed.

(** The process is at rest, the signal apart, only while it serves. *)
Theorem rests_serving db c :
  rtc (proc_step w addr) (spawned db) c → ended c = None →
  main_step w c = None → listener_step w addr c = None → serving c.
Proof.
  intros [Hsh _ Hle _]%reachable_sound He. unfold main_step, listener_step, serving.
  rewrite He in Hle. destruct (at_main c) eqn:Hm; [|done..]. rewrite Hsh in *. simpl in *.
  destruct (at_listener c); [done| |done|]; [by destruct (ListenAndServe w)|].
  destruct Hle as [?|[]]; done.
Qed.

(** After the signal [main] is never blocked: until the process has ended
    its next line can be taken, and it ends within three of them. *)
Theorem shutdown_proceeds c :
  ended c = None → at_main c ≠ AtWait →
  is_Some (act w addr Main c) ∧ is_Some (ended (play w addr [Main; Main; Main] c)).
Proof.
  intros He Hm. destruct c as [pc ? ? ? ? ? e]. simpl in *. subst e.
  destruct pc; [done|..]; split; by eexists.
Qed.

(** C39: how the process ends: by the return of [main] with the server shut
    down, the store closed and the logger synced after it; or with status
    1 by the listener that could not serve, with nothing deferred run and
    the store open. *)
Theorem exit_discipline db c e :
  rtc (proc_step w addr) (spawned db) c → ended c = Some e →
  match e with
  | Returned =>
      deferred c = [cancel; store_Close; logger_Sync] ∧ store c = Close db ∧
      inShutdown c = true
  | Exited code =>
      code = 1%Z ∧ deferred c = [] ∧ store c = db ∧ is_Some (ListenAndServe w)
  end.
Proof.
  intros [Hsh _ _ He]%reachable_sound Hend. rewrite Hend in He. destruct e.
  - destruct He as (? & ? & Hm). by rewrite Hsh, Hm.
  - destruct He as (? & ? & ? & err & -> & _). eauto.
Qed.

End theorems.

(** For a process that starts, what [Process.main] computes is what the
    two goroutines leave in the run in which the listener is scheduled
    until it blocks or fails and the signal comes then. *)
Theorem main_is_a_run w :
  starts w →
  let st := mkSettings (environ w "ADMIN_DB_DSN")
              (getEnv (environ w) "ADMIN_HTTP_LISTEN" ":8081") in
  outcome (listenAddr st)
    (play w (listenAddr st) listener_first (spawned (mkDB (dsn st) 25 5 300 false)))
  = Some (main w).
Proof.
  intros Hs. rewrite main_started by done. clear Hs.
  destruct w as [env ? ? ? listen shutdown]. by destruct listen, shutdown.
Qed.

Lemma main_is_a_run_witness :
  outcome ":8081" (play example_world ":8081" listener_first (spawned example_handle))
  = Some (main example_world).
Proof. apply (main_is_a_run example_world). by vm_compute. Defined.

Lemma exit_discipline_witness :
  let c := play example_port_taken ":8081" listener_first (spawned example_handle) in
  deferred c = [] ∧ store c = example_handle.
Proof.
  intros c.
  destruct (exit_discipline example_port_taken ":8081" example_handle c (Exited 1))
    as (_ & ? & ? & _); [apply play_reachable|done|done].
Defined.

(** When the signal comes first the address that cannot be bound is never
    tried: [main] returns, the process ends with status 0 and neither of
    the listener's lines is written, where [Process.main] ends with status
    1.  Both ends are among those of the process, and there is no other
    status. *)
Lemma failure_lost_in_shutdown :
  let c := play example_port_taken ":8081" signal_first (spawned example_handle) in
  ended c = Some Returned ∧
  written c = [logger_Info "shutting down admin service..." []] ∧
  exit (main example_port_taken) = Exited 1 ∧
  remove_dups (ended <$> finals example_port_taken ":8081" 7 (spawned example_handle))
  = [Some Returned; Some (Exited 1)].
Proof. by vm_compute. Qed.

End Lifecycle.
