(* ===== verification/Concurrent.v ===== *)
(** * Requests in flight together

    The service handles each request on a goroutine of its own; the
    goroutines share the store and nothing else, and no transaction spans
    two calls of a handler.  A [Config] is the requests in flight, each the
    rest of its handler, the store and the events so far; a step is one
    thread making its next store call, which is atomic, or writing its next
    log line.  [pool_step] is the step relation, [interleave] runs a
    schedule (the thread to step, tick by tick).  [GetHistory], the one
    method of two statements, is one step here; what comes between the two
    is [MySQLStore.GetHistory_with].

    The theorems, for every schedule: an invariant of the store calls is an
    invariant of the pool; the events of a thread are a path of its program,
    so what [Trace] and [Protocol] show of paths holds of each request, and
    of a request part of the way they are the beginning of one
    ([thread_prefix], [thread_cut]); a
    schedule that lets every thread step often enough answers every
    request; running the requests one after the other is one of the
    schedules; on a store that implements the contract of [StoreSpec] the
    store calls of the events are steps of the contract, in their order.
    On [MySQLStore]: [wf] holds throughout, the database only
    grows, and when all requests are answered the audit trail has gained
    one entry for each change that was answered as made, less one for each
    warning logged.  And the races the protocol does not exclude, each for
    every database and every pair of requests of its kind, on the schedule
    that exhibits it: two creates of one name, a route created while its
    backend is deleted, a delete undone by an update in flight. *)

From S2P Require Import Prelude Text Json Entity Sql StoreApi StoreMySQL StoreSpec Http.
From S2P Require Import Handler HandlerBackend HandlerRoute HandlerHistory Trace.
From S2P Require Import Protocol Server Contract AuditTrail.
From Stdlib Require Import Ascii.

#[local] Set Warnings "-clear-no-such-hyp".

(** ** The pool *)

Section pool.
Context {St : Type} `{!Store St} {R : Type}.

Record Config : Type := mkConfig {
  threads : list (Prog R);
  shared : St;
  events : list (nat * Event);
}.

(** One thread takes its next step on the shared store. *)
Inductive pool_step : Config → Config → Prop :=
| step_call i {X} (op : StoreOp X) k c :
    threads c !! i = Some (Call op k) →
    pool_step c
      (mkConfig (<[i := k (exec op (shared c)).1]> (threads c))
         (exec op (shared c)).2
         (events c ++ [(i, EvCall op (exec op (shared c)).1)]))
| step_log i e k c :
    threads c !! i = Some (Log e k) →
    pool_step c (mkConfig (<[i := k]> (threads c)) (shared c) (events c ++ [(i, EvLog e)])).

(** The step of thread [i]; nothing happens when it has returned or does
    not exist. *)
Definition thread_step (i : nat) (c : Config) : Config :=
  match threads c !! i with
  | Some (Call op k) =>
      mkConfig (<[i := k (exec op (shared c)).1]> (threads c))
        (exec op (shared c)).2
        (events c ++ [(i, EvCall op (exec op (shared c)).1)])
  | Some (Log e k) =>
      mkConfig (<[i := k]> (threads c)) (shared c) (events c ++ [(i, EvLog e)])
  | _ => c
  end.

(** Run a schedule: the threads to step, in order. *)
Definition interleave (sched : list nat) (c : Config) : Config :=
  foldl (λ c i, thread_step i c) c sched.

(** The requests arrive. *)
Definition start (ps : list (Prog R)) (s : St) : Config := mkConfig ps s [].

(** The events of one thread. *)
Definition thread_events (i : nat) (evs : list (nat * Event)) : list Event :=
  (filter (λ e, e.1 = i) evs).*2.

Definition is_Ret (p : Prog R) : bool :=
  match p with Ret _ => true | _ => false end.

(** Every request has its response. *)
Definition finished (c : Config) : Prop := Forall (λ p, is_Ret p = true) (threads c).

(** [after p tr p']: having made the calls of [tr] and received the answers
    of [tr], program [p] has [p'] left to do. *)
Fixpoint after (p : Prog R) (tr : list Event) (p' : Prog R) {struct tr} : Prop :=
  match tr with
  | [] => p' = p
  | ev :: tr =>
      match p with
      | Ret _ => False
      | Call op k => ∃ x, ev = EvCall op x ∧ after (k x) tr p'
      | Log e k => ev = EvLog e ∧ after k tr p'
      end
  end.

(** The requests one after the other: the responses and the final store. *)
Fixpoint serial (ps : list (Prog R)) (s : St) : list R * St :=
  match ps with
  | [] => ([], s)
  | p :: ps =>
      let rs := serial ps (store_after p s) in
      (result_of p s :: rs.1, rs.2)
  end.

(** The schedule that runs them so, the first being thread [i]. *)
Fixpoint serial_schedule (i : nat) (ps : list (Prog R)) (s : St) : list nat :=
  match ps with
  | [] => []
  | p :: ps =>
      replicate (length (trace_of p s)) i ++ serial_schedule (S i) ps (store_after p s)
  end.

(** Every thread in turn, [n] times over. *)
Definition round_robin (n k : nat) : list nat := mjoin (replicate n (seq 0 k)).

(** What every thread has left is what its program has left after its events. *)
Definition tracked (ps : list (Prog R)) (c : Config) : Prop :=
  ∀ i p, ps !! i = Some p →
    ∃ p', threads c !! i = Some p' ∧ after p (thread_events i (events c)) p'.

End pool.

Arguments Config : clear implicits.

(** The store calls of the events, in their order, as steps of the contract
    of [StoreSpec] from one abstract state to another. *)
Definition spec_events (evs : list (nat * Event)) (a a' : StoreSpec.state) : Prop :=
  spec_trace evs.*2 a a'.

(** ** On MySQLStore *)

Import MySQLStore.

(** An entry the audit trail accepted, and a warning logged. *)
Definition history_stored (w : Write) : Prop :=
  match w with WHistory _ true => True | _ => False end.

Definition audit_stored (ev : Event) : Prop :=
  from_option history_stored False (event_write ev).

Definition is_warning (ev : Event) : Prop :=
  match ev with EvLog e => log_level e = WarnLevel | EvCall _ _ => False end.

#[global] Instance history_stored_dec w : Decision (history_stored w).
Proof. destruct w as [| ? []]; simpl; apply _. Defined.

#[global] Instance audit_stored_dec ev : Decision (audit_stored ev).
Proof. unfold audit_stored. destruct (event_write ev); simpl; apply _. Defined.

#[global] Instance is_warning_dec ev : Decision (is_warning ev).
Proof. destruct ev; simpl; apply _. Defined.

(** A change that was answered as made. *)
Definition answered_change (rr : Incoming * Response) : Prop :=
  Server.is_mutation rr.1 = true ∧ (resp_status rr.2 < 400)%Z.

#[global] Instance answered_change_dec rr : Decision (answered_change rr).
Proof. unfold answered_change. apply _. Defined.

(** ** Examples *)

(** The responses given so far. *)
Definition responses {St R} (c : Config St R) : list R :=
  omap (λ p, match p with Ret r => Some r | _ => None end) (threads c).

(** Whether a backend row and a route row are enabled. *)
Definition backend_enabled (name : string) (s : t) : option bool :=
  Backend_Enabled <$> backend_by_name name s.

Definition create_user : Incoming :=
  mkIncoming "POST" "/api/v1/backends" BackendHandler.example_create.

Definition create_route : Incoming :=
  mkIncoming "POST" "/api/v1/routes" RouteHandler.example_create.

Definition delete_account : Incoming :=
  mkIncoming "DELETE" "/api/v1/backends/account"
    (mkRequest [] [] [("X-Operator", "bob")] None).

Definition update_account : Incoming :=
  mkIncoming "PUT" "/api/v1/backends/account" BackendHandler.example_update.

(** The database of [BackendHandler.example_store] with a unique key on
    the name of a backend. *)
Definition example_unique : t :=
  mk (backends BackendHandler.example_store) [] [] 2 1 1 1000 false true [].

(** The scenario of section 8 of the specification, request by request:
    two backends are created and a route to the first; both backends are
    deleted; the route is moved to the second, then updated in place. *)
Definition scenario_route (backend description : string) : option json :=
  Some (JObj [("http_method", JStr "POST"); ("http_pattern", JStr "/v1/user/login");
              ("backend_name", JStr backend);
              ("backend_service", JStr "user.v1.UserService");
              ("backend_method", JStr "Login"); ("description", JStr description)]).

Definition scenario : list Incoming :=
  [ mkIncoming "POST" "/api/v1/backends"
      (mkRequest [] [] [] (Some (JObj [("name", JStr "account");
                                       ("addr", JStr "127.0.0.1:50051")])));
    mkIncoming "POST" "/api/v1/backends"
      (mkRequest [] [] [] (Some (JObj [("name", JStr "legacy");
                                       ("addr", JStr "127.0.0.1:50052")])));
    mkIncoming "POST" "/api/v1/routes" (mkRequest [] [] [] (scenario_route "account" ""));
    mkIncoming "DELETE" "/api/v1/backends/account" (mkRequest [] [] [] None);
    mkIncoming "DELETE" "/api/v1/backends/legacy" (mkRequest [] [] [] None);
    mkIncoming "PUT" "/api/v1/routes/1" (mkRequest [] [] [] (scenario_route "legacy" ""));
    mkIncoming "PUT" "/api/v1/routes/1"
      (mkRequest [] [] [] (scenario_route "account" "login")) ].

(** Both requests check, then both write. *)
Definition check_check_write_write : list nat := [0; 1; 0; 1; 0; 1].

(** The second request reads, the first runs to its end, the second goes on. *)
Definition read_then_overtaken : list nat := [1; 0; 0; 0; 1; 1].

(** The first request checks, the second runs to its end, the first goes on. *)
Definition check_then_overtaken : list nat := [0; 1; 1; 1; 0; 0].

(** Both read, both write in one order and record in the other. *)
Definition write_order_inverted : list nat := [0; 1; 0; 1; 1; 0].

(** ** Facts *)

(** A filter no element passes. *)
Lemma filter_none {A} (P : A → Prop) `{!∀ x, Decision (P x)} (l : list A) :
  Forall (λ x, ¬ P x) l → filter P l = [].
Proof. induction 1; [done|]. by rewrite filter_cons_False. Qed.

Section pool_facts.
Context {St : Type} `{!Store St} {R : Type}.
Implicit Types (c : Config St R) (p : Prog R) (ps : list (Prog R)) (s : St).

(** ** Steps and schedules *)

Arguments interleave : simpl never.

Lemma thread_step_spec i c : thread_step i c = c ∨ pool_step c (thread_step i c).
Proof.
  unfold thread_step. destruct (threads c !! i) as [[r|X op k|e k]|] eqn:E; auto.
  - right. by apply step_call.
  - right. by apply step_log.
Qed.

Lemma pool_step_thread c c' : pool_step c c' → ∃ i, c' = thread_step i c.
Proof. intros [i X op k c0 H|i e k c0 H]; exists i; unfold thread_step; by rewrite H. Qed.

Lemma interleave_cons i sched c :
  interleave (i :: sched) c = interleave sched (thread_step i c).
Proof. done. Qed.

Lemma interleave_app sched1 sched2 c :
  interleave (sched1 ++ sched2) c = interleave sched2 (interleave sched1 c).
Proof. unfold interleave. apply foldl_app. Qed.

(** What a schedule reaches, the steps reach. *)
Lemma interleave_reachable sched c : rtc pool_step c (interleave sched c).
Proof.
  revert c. induction sched as [|i sched IH]; intros c; [apply rtc_refl|].
  rewrite interleave_cons.
  destruct (thread_step_spec i c) as [->|Hstep]; [done|]. by eapply rtc_l.
Qed.

(** And what the steps reach, some schedule reaches. *)
Lemma reachable_interleave c c' : rtc pool_step c c' → ∃ sched, c' = interleave sched c.
Proof.
  induction 1 as [c|c c1 c2 Hstep _ [sched ->]]; [by exists []|].
  apply pool_step_thread in Hstep as [i ->]. by exists (i :: sched).
Qed.

(** The store moves by store calls only. *)
Lemma pool_step_store c c' :
  pool_step c c' → shared c' = shared c ∨ ∃ X (op : StoreOp X), shared c' = (exec op (shared c)).2.
Proof. intros [i X op k c0 H|i e k c0 H]; simpl; eauto. Qed.

(** An invariant of the store calls is an invariant of the pool. *)
Lemma reachable_invariant (I : St → Prop) c c' :
  (∀ X (op : StoreOp X) s, I s → I (exec op s).2) →
  rtc pool_step c c' → I (shared c) → I (shared c').
Proof.
  intros Hop. induction 1 as [c|c c1 c2 Hstep _ IH]; [done|]. intros Hc. apply IH.
  destruct (pool_step_store _ _ Hstep) as [->|(X & op & ->)]; auto.
Qed.

(** A preorder every store call moves along relates the store to any later one. *)
Lemma reachable_preorder (Rel : relation St) `{!PreOrder Rel} c c' :
  (∀ X (op : StoreOp X) s, Rel s (exec op s).2) →
  rtc pool_step c c' → Rel (shared c) (shared c').
Proof.
  intros Hop Hsteps. apply (reachable_invariant (Rel (shared c)) c c'); [|done..].
  intros X op s Hs. by etrans.
Qed.

Lemma pool_step_length c c' : pool_step c c' → length (threads c') = length (threads c).
Proof. intros [i X op k c0 H|i e k c0 H]; simpl; by rewrite length_insert. Qed.

Lemma reachable_length c c' : rtc pool_step c c' → length (threads c') = length (threads c).
Proof.
  induction 1 as [c|c c1 c2 Hstep _ IH]; [done|]. by rewrite IH, (pool_step_length _ _ Hstep).
Qed.

(** ** The events of a thread are a path of its program *)

Lemma thread_events_app i evs1 evs2 :
  thread_events i (evs1 ++ evs2) = thread_events i evs1 ++ thread_events i evs2.
Proof. unfold thread_events. by rewrite filter_app, fmap_app. Qed.

Lemma thread_events_snoc i j ev evs :
  thread_events i (evs ++ [(j, ev)])
  = thread_events i evs ++ (if decide (j = i) then [ev] else []).
Proof.
  rewrite thread_events_app. f_equal. unfold thread_events.
  case_decide; [by rewrite filter_cons_True|by rewrite filter_cons_False].
Qed.

Lemma after_refl p : after p [] p.
Proof. done. Qed.

Lemma after_call p tr {X} (op : StoreOp X) k x :
  after p tr (Call op k) → after p (tr ++ [EvCall op x]) (k x).
Proof.
  revert p. induction tr as [|ev tr IH]; intros p; simpl.
  - intros <-. by exists x.
  - destruct p as [r|Y op' k'|e k']; [done|..]; naive_solver.
Qed.

Lemma after_log p tr e k : after p tr (Log e k) → after p (tr ++ [EvLog e]) k.
Proof.
  revert p. induction tr as [|ev tr IH]; intros p; simpl.
  - by intros <-.
  - destruct p as [r|Y op' k'|e' k']; [done|..]; naive_solver.
Qed.

Lemma after_path p tr r : after p tr (Ret r) → path p tr r.
Proof.
  revert p. induction tr as [|ev tr IH]; intros p; simpl.
  - by intros <-.
  - destruct p as [r'|Y op' k'|e' k']; [done|..]; naive_solver.
Qed.

Lemma tracked_start ps s : tracked ps (start ps s).
Proof. intros i p Hp. by exists p. Qed.

Lemma tracked_step ps c c' : pool_step c c' → tracked ps c → tracked ps c'.
Proof.
  intros [j X op k c0 Hj|j e k c0 Hj] Htr i p Hp;
    destruct (Htr i p Hp) as (p' & Hi & Hafter); simpl;
    rewrite thread_events_snoc; case_decide as Hji.
  - subst j. rewrite Hj in Hi. simplify_eq. eexists. split; [|by apply after_call].
    apply list_lookup_insert_eq. by eapply lookup_lt_Some.
  - exists p'. by rewrite list_lookup_insert_ne, app_nil_r.
  - subst j. rewrite Hj in Hi. simplify_eq. eexists. split; [|by apply after_log].
    apply list_lookup_insert_eq. by eapply lookup_lt_Some.
  - exists p'. by rewrite list_lookup_insert_ne, app_nil_r.
Qed.

Lemma reachable_tracked ps s c : rtc pool_step (start ps s) c → tracked ps c.
Proof.
  revert c. apply (rtc_ind_r (tracked ps) (start ps s));
    eauto using tracked_start, tracked_step.
Qed.

(** The events of a thread that has returned are a path of its program to
    the response, whatever the other threads did in between. *)
Lemma thread_path ps s c i p r :
  rtc pool_step (start ps s) c → ps !! i = Some p → threads c !! i = Some (Ret r) →
  path p (thread_events i (events c)) r.
Proof.
  intros Hsteps Hp Hr. destruct (reachable_tracked ps s c Hsteps i p Hp) as (p' & Hi & Ha).
  rewrite Hr in Hi. simplify_eq. by apply after_path.
Qed.

Lemma after_app p tr p' rest r : after p tr p' → path p' rest r → path p (tr ++ rest) r.
Proof.
  revert p. induction tr as [|ev tr IH]; intros p; simpl.
  - by intros ->.
  - destruct p as [r'|Y op' k'|e' k']; [done|..]; naive_solver.
Qed.

(** The events of a thread that is part of the way are the beginning of a
    path of its program: what is left of the thread, run to its end,
    completes them. *)
Lemma thread_prefix ps s c i p :
  rtc pool_step (start ps s) c → ps !! i = Some p →
  ∃ p', threads c !! i = Some p' ∧
    ∀ rest r, path p' rest r → path p (thread_events i (events c) ++ rest) r.
Proof.
  intros Hsteps Hp. destruct (reachable_tracked ps s c Hsteps i p Hp) as (p' & Hi & Ha).
  exists p'. split; [done|]. intros rest r. by apply after_app.
Qed.

(** ** A schedule that is fair answers every request *)

Lemma bounded_0_Ret (p : Prog R) : bounded 0 p → is_Ret p = true.
Proof. by destruct p. Qed.

Lemma bounded_after_call n {X} (op : StoreOp X) (k : X → Prog R) x :
  bounded n (Call op k) → bounded (n - 1) (k x).
Proof. destruct n; simpl; [done|]. rewrite Nat.sub_0_r. auto. Qed.

Lemma bounded_after_log n e (k : Prog R) : bounded n (Log e k) → bounded (n - 1) k.
Proof. destruct n; simpl; [done|]. by rewrite Nat.sub_0_r. Qed.

(** A step of thread [j] uses up one step of its bound and none of the others. *)
Lemma thread_step_bounded (b : nat → nat) j c :
  (∀ i p, threads c !! i = Some p → bounded (b i) p) →
  ∀ i p, threads (thread_step j c) !! i = Some p →
         bounded (if decide (i = j) then b i - 1 else b i) p.
Proof.
  intros Hb i p. unfold thread_step.
  destruct (threads c !! j) as [[r|X op k|e k]|] eqn:Hj; simpl.
  1,4: intros Hi; case_decide; [|by apply Hb];
       subst; rewrite Hj in Hi; by simplify_eq.
  all: case_decide as Hij;
    [subst i; rewrite list_lookup_insert_eq by (by eapply lookup_lt_Some);
     intros [= <-]; eauto using bounded_after_call, bounded_after_log
    |rewrite list_lookup_insert_ne by done; apply Hb].
Qed.

Lemma interleave_bounded (b : nat → nat) sched c :
  (∀ i p, threads c !! i = Some p → bounded (b i) p) →
  ∀ i p, threads (interleave sched c) !! i = Some p →
         bounded (b i - length (filter (λ j, j = i) sched)) p.
Proof.
  revert b c. induction sched as [|j sched IH]; intros b c Hb i p; simpl.
  - rewrite Nat.sub_0_r. apply Hb.
  - intros Hi.
    pose proof (IH _ _ (thread_step_bounded b j c Hb) i p Hi) as Hp. simpl in Hp.
    destruct (decide (j = i)) as [->|Hji].
    + rewrite filter_cons_True by done. rewrite decide_True in Hp by done. simpl.
      by replace (b i - S (length (filter (λ j, j = i) sched)))
        with (b i - 1 - length (filter (λ j, j = i) sched)) by lia.
    + rewrite filter_cons_False by done. by rewrite decide_False in Hp by done.
Qed.

Lemma interleave_length sched c :
  length (threads (interleave sched c)) = length (threads c).
Proof. apply reachable_length, interleave_reachable. Qed.

Lemma round_robin_count n k i :
  i < k → length (filter (λ j, j = i) (round_robin n k)) = n.
Proof.
  intros Hi. unfold round_robin. induction n as [|n IH]; [done|].
  simpl. rewrite filter_app, length_app, IH. f_equal.
  assert (seq 0 k = seq 0 i ++ i :: seq (S i) (k - S i)) as ->.
  { replace k with (i + S (k - S i)) at 1 by lia. by rewrite seq_app. }
  rewrite filter_app, length_app, filter_cons_True by done. simpl.
  rewrite !filter_none; [done|..];
    apply Forall_forall; intros j Hj%elem_of_seq; lia.
Qed.

Lemma fair_schedule_finishes n sched c :
  Forall (bounded n) (threads c) →
  (∀ i, i < length (threads c) → n ≤ length (filter (λ j, j = i) sched)) →
  finished (interleave sched c).
Proof.
  intros Hb Hfair. apply Forall_lookup. intros i p Hi. apply bounded_0_Ret.
  assert (i < length (threads c)) as Hlt
    by (rewrite <-(interleave_length sched c); by eapply lookup_lt_Some).
  replace 0 with (n - length (filter (λ j, j = i) sched)) by (specialize (Hfair i Hlt); lia).
  apply (interleave_bounded (λ _, n) sched c); [|done].
  intros j q Hq. by eapply Forall_lookup_1.
Qed.

(** ** Running the requests one after the other is a schedule *)

Lemma interleave_thread_run i p ts s evs :
  ts !! i = Some p →
  interleave (replicate (length (trace_of p s)) i) (mkConfig ts s evs)
  = mkConfig (<[i := Ret (result_of p s)]> ts) (store_after p s)
      (evs ++ ((λ ev, (i, ev)) <$> trace_of p s)).
Proof.
  unfold result_of, store_after. revert ts s evs.
  induction p as [r|X op k IH|e k IH]; intros ts s evs Hi; cbn.
  - by rewrite list_insert_id, app_nil_r.
  - destruct (exec op s) as [x s'] eqn:E. cbn.
    rewrite interleave_cons. unfold thread_step. cbn. rewrite Hi, E. cbn.
    rewrite IH by (apply list_lookup_insert_eq; by eapply lookup_lt_Some).
    by rewrite list_insert_insert_eq, <-(assoc_L (++)).
  - rewrite interleave_cons. unfold thread_step. cbn. rewrite Hi.
    rewrite IH by (apply list_lookup_insert_eq; by eapply lookup_lt_Some).
    rewrite list_insert_insert_eq, <-(assoc_L (++)).
    by destruct (run k s) as [[??]?].
Qed.

Lemma serial_schedule_runs pre ps s evs :
  let c := interleave (serial_schedule (length pre) ps s) (mkConfig (pre ++ ps) s evs) in
  threads c = pre ++ (Ret <$> (serial ps s).1) ∧ shared c = (serial ps s).2.
Proof.
  revert pre s evs. induction ps as [|p ps IH]; intros pre s evs; [done|].
  cbn [serial_schedule serial fst snd].
  rewrite interleave_app.
  rewrite (interleave_thread_run (length pre) p).
  2: { rewrite lookup_app_r by lia. by rewrite Nat.sub_diag. }
  rewrite insert_app_r_alt by lia. rewrite Nat.sub_diag. cbn [insert list_insert].
  specialize (IH (pre ++ [Ret (result_of p s)]) (store_after p s)).
  rewrite length_app, Nat.add_1_r in IH.
  rewrite fmap_cons, (cons_middle _ pre ps), (cons_middle _ pre (Ret <$> _)).
  rewrite !(assoc_L (++)). apply IH.
Qed.

(** Running the requests one after the other, each to its
    response before the next starts, is one of the interleavings: the
    schedule [serial_schedule] ends with every request answered as in the
    serial run and with the store of the serial run. *)
Theorem serial_is_a_schedule ps s :
  let c := interleave (serial_schedule 0 ps s) (start ps s) in
  threads c = Ret <$> (serial ps s).1 ∧ shared c = (serial ps s).2.
Proof. apply (serial_schedule_runs [] ps s []). Qed.

End pool_facts.

(** The requests served one after the other, as a list of programs and as
    one program. *)
Lemma serial_serve_all {St} `{!Store St} (rs : list Incoming) (s : St) :
  serial (Server.serve <$> rs) s = (result_of (serve_all rs) s, store_after (serve_all rs) s).
Proof.
  revert s. induction rs as [|r rs IH]; intros s; [done|].
  cbn [serial fmap list_fmap serve_all]. rewrite IH.
  by rewrite !result_of_bind, !store_after_bind.
Qed.

(** ** Counting over the threads *)

Lemma sum_list_fmap_add_at {A} `{!EqDecision A} (j : A) (a : nat) (g : A → nat) (l : list A) :
  sum_list ((λ i, (if decide (i = j) then a else 0) + g i) <$> l)
  = a * length (filter (λ i, i = j) l) + sum_list (g <$> l).
Proof.
  induction l as [|i l IH]; csimpl; [lia|]. rewrite IH.
  case_decide; [rewrite filter_cons_True by done|rewrite filter_cons_False by done];
    simpl; lia.
Qed.

Lemma seq_count n j : j < n → length (filter (λ i, i = j) (seq 0 n)) = 1.
Proof.
  intros Hj. rewrite <-(round_robin_count 1 n j) by done.
  unfold round_robin. simpl. by rewrite (right_id_L [] (++)).
Qed.

(** A count over all events is the sum of the counts over the threads. *)
Lemma count_by_thread (P : Event → Prop) `{!∀ ev, Decision (P ev)} n
    (evs : list (nat * Event)) :
  Forall (λ e, e.1 < n) evs →
  length (filter P evs.*2)
  = sum_list ((λ i, length (filter P (thread_events i evs))) <$> seq 0 n).
Proof.
  induction 1 as [|[j ev] evs Hj _ IH]; csimpl in *.
  - by rewrite sum_list_fmap_const.
  - rewrite (list_fmap_ext _
      (λ i, (if decide (i = j) then if decide (P ev) then 1 else 0 else 0)
            + length (filter P (thread_events i evs)))).
    + rewrite sum_list_fmap_add_at, seq_count, <-IH by done.
      case_decide; [rewrite filter_cons_True by done
                   |rewrite filter_cons_False by done]; simpl; lia.
    + intros _ i _. unfold thread_events. destruct (decide (i = j)) as [->|Hij].
      * rewrite filter_cons_True by done. csimpl.
        case_decide; [by rewrite filter_cons_True|by rewrite filter_cons_False].
      * by rewrite filter_cons_False by (simpl; congruence).
Qed.

(** The sum, index by index, of what the elements of a list count for. *)
Lemma sum_list_lookup {A} (w : A → nat) (l : list A) :
  sum_list ((λ i, from_option w 0 (l !! i)) <$> seq 0 (length l)) = sum_list (w <$> l).
Proof.
  induction l as [|x l IH]; [done|]. csimpl. f_equal.
  by rewrite <-IH, <-fmap_S_seq, <-list_fmap_compose.
Qed.

Lemma sum_list_indicator {A} (P : A → Prop) `{!∀ x, Decision (P x)} (l : list A) :
  sum_list ((λ x, if decide (P x) then 1 else 0) <$> l) = length (filter P l).
Proof.
  induction l as [|x l IH]; [done|]. csimpl. rewrite IH.
  case_decide; [by rewrite filter_cons_True|by rewrite filter_cons_False].
Qed.

(** The events name threads of the pool. *)
Lemma reachable_thread_ids {St} `{!Store St} {R} (c c' : Config St R) :
  rtc pool_step c c' →
  Forall (λ e, e.1 < length (threads c)) (events c) →
  Forall (λ e, e.1 < length (threads c')) (events c').
Proof.
  induction 1 as [c|c c1 c2 Hstep _ IH]; [done|]. intros Hc. apply IH.
  destruct Hstep as [i X op k c0 Hi|i e k c0 Hi]; simpl; rewrite length_insert;
    apply Forall_app; (split; [done|]); repeat constructor; by eapply lookup_lt_Some.
Qed.

Lemma warnings_filter tr : length (warnings tr) = length (filter is_warning tr).
Proof.
  unfold warnings. induction tr as [|[X op x|e] tr IH]; csimpl; [done| |].
  - by rewrite filter_cons_False by (by intros []).
  - destruct (decide (log_level e = WarnLevel));
      [rewrite !filter_cons_True by done|rewrite !filter_cons_False by done];
      simpl; by rewrite IH.
Qed.

Lemma audit_stored_writes tr :
  length (filter audit_stored tr) = length (filter history_stored (writes tr)).
Proof.
  unfold writes. induction tr as [|ev tr IH]; [done|]. csimpl.
  assert (audit_stored ev ↔ from_option history_stored False (event_write ev)) as Hev by done.
  destruct (event_write ev) as [w|] eqn:E; csimpl.
  - destruct (decide (history_stored w)).
    + rewrite (filter_cons_True audit_stored), (filter_cons_True history_stored)
        by naive_solver. simpl. by f_equal.
    + by rewrite (filter_cons_False audit_stored), (filter_cons_False history_stored)
        by naive_solver.
  - by rewrite (filter_cons_False audit_stored) by naive_solver.
Qed.

(** A path that keeps the contract leaves one entry or one warning when it
    ends in a change answered as made, and neither otherwise. *)
Lemma contract_audit_count ty op oper (mut : bool) tr resp :
  contract ty op oper mut tr resp →
  length (filter audit_stored tr) + length (filter is_warning tr)
  = if decide (mut = true ∧ (resp_status resp < 400)%Z) then 1 else 0.
Proof.
  intros [_ Hp]. rewrite audit_stored_writes, <-warnings_filter.
  unfold audit_protocol in Hp. destruct mut.
  - case_decide as Hst.
    + rewrite decide_True by done.
      by destruct Hp as (h & [|] & -> & _ & _ & _ & ->).
    + rewrite decide_False by naive_solver. by destruct Hp as [[-> | ->] ->].
  - rewrite decide_False by naive_solver. by destruct Hp as [-> ->].
Qed.

Lemma exec_history_count {X} (op : StoreOp X) (s : t) :
  length (history (exec op s).2)
  = length (history s) + (if decide (audit_stored (EvCall op (exec op s).1)) then 1 else 0).
Proof.
  destruct (writes_history op) eqn:Hw.
  - destruct op; try done.
    destruct (exec_history_cases history0 s) as [(err & Hx & Hs)|[Hx Hh]]; simpl in *.
    + rewrite (history_proper _ _ Hs). unfold audit_stored. simpl. rewrite Hx. simpl. lia.
    + rewrite Hh, length_app. unfold audit_stored. simpl. rewrite Hx. simpl. lia.
  - rewrite exec_history by done. destruct op; try done; simpl; lia.
Qed.

Section mysql.
Context {R : Type}.
Implicit Types c : Config t R.

Lemma pool_step_history_count c c' :
  pool_step c c' →
  length (history (shared c')) + length (filter audit_stored (events c).*2)
  = length (history (shared c)) + length (filter audit_stored (events c').*2).
Proof.
  intros [i X op k c0 Hi|i e k c0 Hi]; simpl.
  - rewrite fmap_app, filter_app, length_app, exec_history_count.
    rewrite fmap_cons, filter_cons. cbn [snd]. case_decide; simpl; lia.
  - rewrite fmap_app, filter_app, length_app.
    rewrite fmap_cons, filter_cons_False by (by intros []). simpl. lia.
Qed.

Lemma reachable_history_count c c' :
  rtc pool_step c c' →
  length (history (shared c')) + length (filter audit_stored (events c).*2)
  = length (history (shared c)) + length (filter audit_stored (events c').*2).
Proof.
  induction 1 as [c|c c1 c2 Hstep%pool_step_history_count _ IH]; [done|]. lia.
Qed.

End mysql.

Lemma sum_list_fmap_plus {A} (f g : A → nat) (l : list A) :
  sum_list (f <$> l) + sum_list (g <$> l) = sum_list ((λ x, f x + g x) <$> l).
Proof. induction l as [|x l IH]; csimpl; lia. Qed.

(** ** The server under concurrency *)

Section server_pool.
Context {St : Type} `{!Store St}.
Implicit Types (reqs : list Incoming) (s : St) (c : Config St Response).

Lemma thread_contract reqs s c i req resp :
  rtc pool_step (start (Server.serve <$> reqs) s) c →
  reqs !! i = Some req → threads c !! i = Some (Ret resp) →
  contract (Server.request_type req) (Server.request_operation req)
    (Server.operator req) (Server.is_mutation req) (thread_events i (events c)) resp.
Proof.
  intros Hsteps Hreq Hresp.
  apply (proj1 (every_path_spec _ _) (Server.serve_contract req)).
  eapply thread_path; [done| |done]. by rewrite list_lookup_fmap, Hreq.
Qed.

(** A request that is part of the way has written the beginning of what
    the contract of its handler allows, whatever the others do. *)
Lemma thread_cut reqs s c i req :
  rtc pool_step (start (Server.serve <$> reqs) s) c → reqs !! i = Some req →
  audit_prefix (Server.request_type req) (Server.request_operation req)
    (Server.operator req) (writes (thread_events i (events c))).
Proof.
  intros Hsteps Hreq.
  destruct (thread_prefix (Server.serve <$> reqs) s c i (Server.serve req))
    as (p' & _ & Hrest); [done|by rewrite list_lookup_fmap, Hreq|].
  eapply (contract_prefix _ _ _ (Server.is_mutation req)).
  apply (proj1 (every_path_spec _ _) (Server.serve_contract req)).
  apply Hrest, (path_run p' (shared c)).
Qed.

(** C17: whatever the other requests in flight do and whatever
    the store answers, the events of a request that has been answered keep
    the contract: the status is one of eight; a request that changes a
    backend or a route and is answered below 400 has made exactly one write
    of that entity, accepted by the store, then offered exactly one entry to
    the audit trail, which names the type, the operation and the operator,
    and a warning is logged exactly when the trail refused the entry;
    answered 400 or above it has made no write that was accepted and has
    offered nothing; any other request has made no write. *)
Theorem concurrent_protocol reqs s c i req resp :
  rtc pool_step (start (Server.serve <$> reqs) s) c →
  reqs !! i = Some req → threads c !! i = Some (Ret resp) →
  resp_status resp ∈ statuses ∧
  audit_protocol (Server.request_type req) (Server.request_operation req)
    (Server.operator req) (Server.is_mutation req) (thread_events i (events c)) resp.
Proof. intros Hsteps Hreq Hresp. by destruct (thread_contract reqs s c i req resp). Qed.

(** A schedule that lets every request step five times
    answers every request, whatever the store answers and however the steps
    of the requests are interleaved: no request waits for another. *)
Theorem server_liveness reqs s sched :
  (∀ i, i < length reqs → 5 ≤ length (filter (λ j, j = i) sched)) →
  finished (interleave sched (start (Server.serve <$> reqs) s)).
Proof.
  intros Hfair. apply (fair_schedule_finishes 5); simpl.
  - apply Forall_fmap, Forall_forall. intros req _. apply Server.serve_bounded.
  - by rewrite length_fmap.
Qed.

End server_pool.

(** ** The server on MySQLStore *)

Section server_mysql.
Implicit Types (reqs : list Incoming) (s : t) (c : Config t Response).

(** The representation invariant of the database holds in
    every state the requests in flight can reach, in every interleaving of
    their store calls. *)
Theorem concurrent_wf c c' : rtc pool_step c c' → wf (shared c) → wf (shared c').
Proof. apply (reachable_invariant wf). intros X op s. apply wf_exec. Qed.

Lemma concurrent_extends c c' : rtc pool_step c c' → extends (shared c) (shared c').
Proof. apply (reachable_preorder extends). intros X op s. apply exec_extends. Qed.

(** What a thread adds to the count: one for a change answered as made. *)
Lemma thread_audit_count reqs s c resps i rr :
  rtc pool_step (start (Server.serve <$> reqs) s) c → threads c = Ret <$> resps →
  zip reqs resps !! i = Some rr →
  length (filter audit_stored (thread_events i (events c)))
  + length (filter is_warning (thread_events i (events c)))
  = if decide (answered_change rr) then 1 else 0.
Proof.
  intros Hsteps Hfin Hrr. destruct rr as [req resp].
  apply lookup_zip_with_Some in Hrr as (req' & resp' & [= <- <-] & Hreq & Hresp).
  assert (threads c !! i = Some (Ret resp)) as Hi
    by by rewrite Hfin, list_lookup_fmap, Hresp.
  by rewrite (contract_audit_count _ _ _ _ _ _ (thread_contract reqs s c i req resp Hsteps Hreq Hi)).
Qed.

(** C16: in every interleaving of the requests in flight and for
    every failure of the database, once all requests are answered the audit
    trail has gained exactly one entry for each change that was answered as
    made, less one for each warning logged: no change is recorded twice, no
    refused or failed request is recorded, and an entry is missing only
    where a warning says so. *)
Theorem concurrent_audit_complete reqs s c resps :
  rtc pool_step (start (Server.serve <$> reqs) s) c → threads c = Ret <$> resps →
  length (history (shared c)) + length (filter is_warning (events c).*2)
  = length (history s) + length (filter answered_change (zip reqs resps)).
Proof.
  intros Hsteps Hfin.
  pose proof (reachable_history_count _ _ Hsteps) as Hh. simpl in Hh.
  pose proof (reachable_length _ _ Hsteps) as Hlen.
  pose proof (reachable_thread_ids _ _ Hsteps (Forall_nil_2 _)) as Hids.
  simpl in Hlen. rewrite Hfin, !length_fmap in Hlen. rewrite Hfin, length_fmap in Hids.
  rewrite (count_by_thread _ (length resps)) in Hh by done.
  rewrite (count_by_thread _ (length resps)) by done.
  rewrite <-sum_list_indicator, <-(sum_list_lookup _ (zip reqs resps)).
  rewrite length_zip_with, <-Hlen, Nat.min_id.
  rewrite Nat.add_0_r in Hh. rewrite Hh, <-(assoc_L Nat.add), sum_list_fmap_plus.
  do 2 f_equal. apply list_fmap_ext. intros k i Hi%lookup_seq.
  destruct (lookup_lt_is_Some_2 (zip reqs resps) i) as [rr Hrr];
    [rewrite length_zip_with; lia|].
  rewrite Hrr. by apply (thread_audit_count reqs s c resps i rr).
Qed.

End server_mysql.

(** ** The contract of the store, under concurrency *)

Lemma spec_events_app evs1 evs2 a a' :
  spec_events (evs1 ++ evs2) a a' ↔ ∃ a1, spec_events evs1 a a1 ∧ spec_events evs2 a1 a'.
Proof. unfold spec_events. rewrite fmap_app. apply spec_trace_app. Qed.

(** On every store that implements the contract, and so on MySQLStore
    with the unique key, every interleaving of the requests in flight is a
    sequence of steps the contract allows: the invariant of the store holds
    in every reachable state, and the store calls, in the order of the
    events, lead from the abstract state at the start to the abstract state
    reached. *)
Theorem concurrent_refines `{StoreSpec.Implements St} {R} (ps : list (Prog R)) (s : St) c :
  StoreSpec.valid s → rtc pool_step (start ps s) c →
  StoreSpec.valid (shared c) ∧
  spec_events (events c) (StoreSpec.abstraction s) (StoreSpec.abstraction (shared c)).
Proof.
  intros Hs. revert c. apply rtc_ind_r; [done|].
  intros c c' _ Hstep [Hv Hev]. destruct Hstep as [i X op k c Hi|i e k c Hi]; simpl.
  - split; [by apply StoreSpec.valid_exec|]. apply spec_events_app.
    eexists. split; [done|]. simpl. eexists. split; [by apply StoreSpec.exec_spec|done].
  - split; [done|]. apply spec_events_app. by eexists.
Qed.

(** ** Races *)

#[local] Arguments interleave : simpl never.
#[local] Arguments thread_step : simpl never.

(** *** Where the server sends the requests of the races *)

Lemma serve_create_backend r :
  Server.serve (mkIncoming "POST" "/api/v1/backends" r)
  = BackendHandler.CreateBackend (Server.with_params [] r).
Proof.
  unfold Server.serve, Server.route_of. cbn [in_method in_path in_request].
  by replace (Server.find_route Server.routes "POST" "/api/v1/backends")
    with (Server.Matched [] (Server.HBackend BackendHandler.ECreateBackend)) by by vm_compute.
Qed.

Lemma thread_step_call {St} `{!Store St} {R X} i (ts : list (Prog R)) (s : St) evs
    (op : StoreOp X) k :
  ts !! i = Some (Call op k) →
  thread_step i (mkConfig ts s evs)
  = mkConfig (<[i := k (exec op s).1]> ts) (exec op s).2
      (evs ++ [(i, EvCall op (exec op s).1)]).
Proof. intros H. unfold thread_step. cbn. by rewrite H. Qed.

Lemma exec_CreateBackend_no_key b (s : t) :
  faults s = [] → unique_name s = false →
  (exec (OpCreateBackend b) s).1 = Ok (created_backend b s).
Proof.
  intros Hf Hu. change (exec (OpCreateBackend b) s) with (CreateBackend b s).
  unfold CreateBackend.
  by rewrite round_trip_spec, next_fault_nil, skip_fault_nil, Hu by done.
Qed.

Lemma exec_CreateHistory_ok h (s : t) :
  faults s = [] → (exec (OpCreateHistory h) s).1 = Ok tt.
Proof.
  intros Hf. change (exec (OpCreateHistory h) s) with (CreateHistory h s).
  apply CreateHistory_ok. by apply next_fault_nil.
Qed.

Lemma exec_faults {X} (op : StoreOp X) (s : t) : faults s = [] → faults (exec op s).2 = [].
Proof. intros Hf. by destruct (exec_frame op s) as (_ & _ & _ & H & _); apply H. Qed.

Lemma exec_unique_name {X} (op : StoreOp X) (s : t) :
  unique_name (exec op s).2 = unique_name s.
Proof. by destruct (exec_frame op s) as (_ & _ & H & _). Qed.

Lemma thread_step_log {St} `{!Store St} {R} i (ts : list (Prog R)) (s : St) evs e k :
  ts !! i = Some (Log e k) →
  thread_step i (mkConfig ts s evs) = mkConfig (<[i := k]> ts) s (evs ++ [(i, EvLog e)]).
Proof. intros H. unfold thread_step. cbn. by rewrite H. Qed.

Lemma exec_CreateBackend_free b (s : t) :
  faults s = [] → backend_by_name (Backend_Name b) s = None →
  (exec (OpCreateBackend b) s).1 = Ok (created_backend b s) ∧
  is_Some (backend_by_name (Backend_Name b) (exec (OpCreateBackend b) s).2).
Proof.
  intros Hf Hfree. destruct (CreateBackend_ok b s) as [Hres Hlook];
    [by apply next_fault_nil|done|].
  split; [done|]. change (exec (OpCreateBackend b) s) with (CreateBackend b s).
  rewrite Hlook, decide_True by done. eauto.
Qed.

Lemma exec_CreateBackend_duplicate b (s : t) :
  faults s = [] → unique_name s = true → is_Some (backend_by_name (Backend_Name b) s) →
  (exec (OpCreateBackend b) s).1 = Err duplicate_entry.
Proof.
  intros Hf Hu [x Hx]. change (exec (OpCreateBackend b) s) with (CreateBackend b s).
  unfold CreateBackend, backend_by_name in *.
  rewrite round_trip_spec, next_fault_nil, skip_fault_nil, Hu by done.
  apply fmap_Some in Hx as (row & -> & _). by rewrite bool_decide_eq_true_2 by eauto.
Qed.

Ltac step_call :=
  rewrite interleave_cons; erewrite thread_step_call by (cbn; reflexivity).
Ltac step_log :=
  rewrite interleave_cons; erewrite thread_step_log by (cbn; reflexivity).

(** *** Two creates of one name *)

Section create_race.
Context (r : Request) (backend : Backend) (s : t).
Context (Hf : faults s = [])
  (Hdec : decode_body Backend_fields Backend_zero r = Ok backend)
  (Hname : Backend_Name backend ≠ "") (Haddr : Backend_Addr backend ≠ "")
  (Hfree : backend_by_name (Backend_Name backend) s = None).

(** Both requests look the name up, the first inserts. *)
Ltac both_check b0 Hb0 s1 :=
  unfold check_check_write_write, start; cbn [fmap list_fmap];
  rewrite serve_create_backend; unfold BackendHandler.CreateBackend;
  change (decode_body Backend_fields Backend_zero (Server.with_params [] r))
    with (decode_body Backend_fields Backend_zero r);
  rewrite Hdec, (proj2 (BackendHandler.validate_create_None backend)) by done;
  set (b0 := if Query_Has _ "enabled" then _ else _);
  assert (Backend_Name b0 = Backend_Name backend) as Hb0
    by apply BackendHandler.Backend_Name_default_enabled;
  unfold call, BackendHandler.recordHistory, record_history; cbn [bind];
  step_call; rewrite exec_GetBackendByName, Hfree by done; cbn;
  step_call; rewrite exec_GetBackendByName, Hfree by done; cbn;
  destruct (exec_CreateBackend_free b0 s) as [Hres Hsome]; [done|by rewrite Hb0|];
  step_call; rewrite Hres; cbn;
  set (s1 := (exec (OpCreateBackend b0) s).2) in *;
  assert (faults s1 = []) by (by apply exec_faults);
  assert (unique_name s1 = unique_name s) by apply exec_unique_name.

Lemma create_race_no_key :
  unique_name s = false →
  let req := mkIncoming "POST" "/api/v1/backends" r in
  let c := interleave check_check_write_write (start (Server.serve <$> [req; req]) s) in
  resp_status <$> responses c = [201; 201]%Z ∧
  backend_names (shared c) = backend_names s ++ [Backend_Name backend; Backend_Name backend].
Proof.
  intros Hu req c. subst req c. both_check b0 Hb0 s1.
  step_call. rewrite exec_CreateBackend_no_key by congruence. cbn.
  set (s2 := (exec (OpCreateBackend b0) s1).2).
  assert (faults s2 = []) as Hf2 by by apply exec_faults.
  step_call. rewrite exec_CreateHistory_ok by done. cbn.
  step_call. rewrite exec_CreateHistory_ok by (by apply exec_faults). cbn -[backend_names].
  split; [done|]. unfold interleave. cbn [foldl shared].
  rewrite !exec_backend_names. subst s2 s1. rewrite !exec_backend_names.
  rewrite Hres, exec_CreateBackend_no_key by (done || congruence).
  cbn. by rewrite Hb0, !app_nil_r, <-app_assoc.
Qed.

Lemma create_race_key :
  unique_name s = true →
  let req := mkIncoming "POST" "/api/v1/backends" r in
  let c := interleave check_check_write_write (start (Server.serve <$> [req; req]) s) in
  resp_status <$> responses c = [201; 500]%Z ∧
  backend_names (shared c) = backend_names s ++ [Backend_Name backend].
Proof.
  intros Hu req c. subst req c. both_check b0 Hb0 s1.
  step_call. rewrite exec_CreateBackend_duplicate by (done || congruence). cbn.
  set (s2 := (exec (OpCreateBackend b0) s1).2).
  assert (faults s2 = []) as Hf2 by by apply exec_faults.
  step_call. rewrite exec_CreateHistory_ok by done. cbn.
  step_log. cbn -[backend_names].
  split; [done|]. unfold interleave. cbn [foldl shared].
  rewrite !exec_backend_names. subst s2 s1. rewrite !exec_backend_names.
  rewrite Hres, exec_CreateBackend_duplicate by (done || congruence).
  cbn. by rewrite Hb0, !app_nil_r.
Qed.

End create_race.

(** C21: the uniqueness of backend names does not survive concurrency.  For
    every database whose driver does not fail and every valid request to
    create a backend whose name is free: when two such requests are in
    flight and each looks the name up before either inserts, both are
    answered 201 and the table holds the name twice, on a schema without a
    unique key; with the key the name is held once, and the request that
    loses is answered 500, not 409. *)
Theorem race_duplicate_backend r backend s :
  faults s = [] →
  decode_body Backend_fields Backend_zero r = Ok backend →
  Backend_Name backend ≠ "" → Backend_Addr backend ≠ "" →
  backend_by_name (Backend_Name backend) s = None →
  let req := mkIncoming "POST" "/api/v1/backends" r in
  let c := interleave check_check_write_write (start (Server.serve <$> [req; req]) s) in
  resp_status <$> responses c = [201; if unique_name s then 500 else 201]%Z ∧
  backend_names (shared c) =
    backend_names s ++
    Backend_Name backend :: (if unique_name s then [] else [Backend_Name backend]).
Proof.
  intros Hf Hdec Hname Haddr Hfree. destruct (unique_name s) eqn:Hu.
  - by apply create_race_key.
  - by apply create_race_no_key.
Qed.

(** *** A route created while its backend is deleted *)

Lemma serve_delete_backend name r :
  name ≠ "" → contains_byte "/"%char name = false →
  Server.serve (mkIncoming "DELETE" (Server.fill "/api/v1/backends/{name}" name) r)
  = BackendHandler.DeleteBackend (Server.with_params [("name", name)] r).
Proof.
  intros Hn Hs. unfold Server.serve, Server.route_of. cbn [in_method in_path in_request].
  rewrite (Server.find_route_matched "DELETE" "/api/v1/backends/{name}"
             (Server.HBackend BackendHandler.EDeleteBackend) _ [("name", name)]);
    [done|Server.by_compute|].
  by rewrite Server.match_pattern_fill.
Qed.

Lemma serve_create_route r :
  Server.serve (mkIncoming "POST" "/api/v1/routes" r)
  = RouteHandler.CreateRoute (Server.with_params [] r).
Proof.
  unfold Server.serve, Server.route_of. cbn [in_method in_path in_request].
  by replace (Server.find_route Server.routes "POST" "/api/v1/routes")
    with (Server.Matched [] (Server.HRoute RouteHandler.ECreateRoute)) by by vm_compute.
Qed.

(** A delete of an enabled backend succeeds, whatever the driver counts. *)
Lemma exec_DeleteBackend_enabled name (s : t) old :
  faults s = [] → backend_by_name name s = Some old → Backend_Enabled old = true →
  (exec (OpDeleteBackend name) s).1 = Ok tt ∧
  backend_enabled name (exec (OpDeleteBackend name) s).2 = Some false.
Proof.
  intros Hf Hold Hen. change (exec (OpDeleteBackend name) s) with (DeleteBackend name s).
  pose proof (next_fault_nil s Hf) as Hnf. split.
  - destruct (clientFoundRows s) eqn:Hc.
    + by rewrite DeleteBackend_found_rows, Hold.
    + rewrite DeleteBackend_changed_rows by done. rewrite decide_False; [done|].
      unfold backend_by_name in Hold. apply fmap_Some in Hold as (row & Hrow & ->).
      apply sql_first_Some in Hrow as [Hn Hrow]. rewrite Forall_forall. intros Hall.
      destruct (Hall row Hrow Hn) as [H0 _]. unfold scan_backend in Hen. simpl in Hen.
      rewrite H0 in Hen. done.
  - unfold backend_enabled. by rewrite DeleteBackend_lookup, decide_True, Hold.
Qed.

Lemma exec_CreateRoute_ok rt (s : t) :
  wf s → faults s = [] →
  (exec (OpCreateRoute rt) s).1 = Ok (created_route rt s) ∧
  route_by_id (routes_auto_increment s) (exec (OpCreateRoute rt) s).2
  = Some (created_route rt s).
Proof.
  intros Hwf Hf. destruct (CreateRoute_ok rt s Hwf) as [Hres Hlook]; [by apply next_fault_nil|].
  split; [done|]. change (exec (OpCreateRoute rt) s) with (CreateRoute rt s).
  by rewrite Hlook, decide_True.
Qed.

(** What a call that does not write to the routes leaves for the route
    created next. *)
Lemma exec_before_route {X} (op : StoreOp X) (s : t) rt :
  writes_routes op = false → created_route rt (exec op s).2 = created_route rt s ∧
  routes_auto_increment (exec op s).2 = routes_auto_increment s.
Proof.
  intros Hop. destruct (exec_frame op s) as (Hnow & _ & _ & _ & _ & Hr & _).
  destruct (Hr Hop) as [_ Hc]. unfold created_route. by rewrite Hnow, Hc.
Qed.

Section route_race.
Context (r r' : Request) (route : Route) (old : Backend) (s : t).
Context (Hwf : wf s) (Hf : faults s = [])
  (Hdec : decode_body Route_fields Route_zero r = Ok route)
  (Hvalid : RouteHandler.validate_create route = None)
  (Hold : backend_by_name (Route_BackendName route) s = Some old)
  (Hen : Backend_Enabled old = true)
  (Hslash : contains_byte "/"%char (Route_BackendName route) = false).

(** The two handlers of the pool, on their requests. *)
Ltac handlers_of_pool :=
  unfold check_then_overtaken, start; cbn [fmap list_fmap];
  rewrite serve_create_route, serve_delete_backend by done;
  unfold RouteHandler.CreateRoute, BackendHandler.DeleteBackend;
  change (decode_body Route_fields Route_zero (Server.with_params [] r))
    with (decode_body Route_fields Route_zero r);
  rewrite Hdec, Hvalid;
  change (URLParam (Server.with_params [("name", Route_BackendName route)] r') "name")
    with (Route_BackendName route);
  change (RouteHandler.default_values (Server.with_params [] r) route)
    with (RouteHandler.default_values r route);
  unfold RouteHandler.verify_backend, RouteHandler.create_and_record,
    RouteHandler.recordHistory, BackendHandler.recordHistory, record_history, call;
  cbn [bind].

(** C22: the check of a route's backend does not survive concurrency.  For
    every well-formed database whose driver does not fail, every valid
    request to create a route to a backend that is enabled and every
    request to delete that backend: when the first has checked the backend
    and the second then runs to its end, the route is inserted all the
    same; both are answered as done, the backend is disabled and the route
    that names it is stored, enabled unless the request said otherwise. *)
Theorem race_route_to_disabled_backend :
  let name := Route_BackendName route in
  let create := mkIncoming "POST" "/api/v1/routes" r in
  let delete := mkIncoming "DELETE" (Server.fill "/api/v1/backends/{name}" name) r' in
  let c := interleave check_then_overtaken (start (Server.serve <$> [create; delete]) s) in
  let rt := created_route (RouteHandler.default_values r route) s in
  resp_status <$> responses c = [201; 204]%Z ∧
  backend_enabled name (shared c) = Some false ∧
  route_by_id (routes_auto_increment s) (shared c) = Some rt ∧
  Route_BackendName rt = name ∧
  Route_Enabled rt = (if Query_Has r "enabled" then Route_Enabled route else true).
Proof.
  intros name create delete c rt. subst name create delete c.
  assert (Route_BackendName route ≠ "") as Hname.
  { unfold RouteHandler.validate_create in Hvalid. by repeat case_decide. }
  handlers_of_pool.
  set (rt0 := RouteHandler.default_values r route) in *.
  step_call. rewrite exec_GetBackendByName, Hold by done. cbn.
  rewrite Hen. cbn.
  step_call. rewrite exec_GetBackendByName, Hold by done. cbn.
  destruct (exec_DeleteBackend_enabled (Route_BackendName route) s old) as [Hdel Hoff]; [done..|].
  step_call. rewrite Hdel. cbn.
  set (s1 := (exec (OpDeleteBackend _) s).2) in *.
  assert (faults s1 = []) as Hf1 by by apply exec_faults.
  step_call. rewrite exec_CreateHistory_ok by done. cbn.
  set (s2 := (exec (OpCreateHistory _) s1).2).
  assert (faults s2 = [] ∧ wf s2) as [Hf2 Hwf2].
  { split; [by apply exec_faults|by do 2 apply wf_exec]. }
  destruct (exec_CreateRoute_ok rt0 s2) as [Hres Hlook]; [done..|].
  step_call. rewrite Hres. cbn.
  step_call. rewrite exec_CreateHistory_ok by (by apply exec_faults).
  cbn -[backend_enabled route_by_id].
  unfold interleave. cbn [foldl shared].
  assert (created_route rt0 s2 = created_route rt0 s ∧
          routes_auto_increment s2 = routes_auto_increment s) as [Hcr Hid].
  { unfold s2, s1. destruct (exec_before_route (OpDeleteBackend (Route_BackendName route)) s rt0)
      as [<- <-]; [done|]. by apply exec_before_route. }
  split_and!.
  - done.
  - unfold backend_enabled, s2 in *. by rewrite !exec_backend_by_name.
  - rewrite exec_route_by_id, <-Hid, Hlook by done. by rewrite Hcr.
  - unfold rt, rt0, RouteHandler.default_values. by repeat case_match.
  - unfold rt, rt0, RouteHandler.default_values. by repeat case_match.
Qed.
End route_race.

(** *** A delete undone by an update in flight *)

Lemma serve_update_backend name r :
  name ≠ "" → contains_byte "/"%char name = false →
  Server.serve (mkIncoming "PUT" (Server.fill "/api/v1/backends/{name}" name) r)
  = BackendHandler.UpdateBackend (Server.with_params [("name", name)] r).
Proof.
  intros Hn Hs. unfold Server.serve, Server.route_of. cbn [in_method in_path in_request].
  rewrite (Server.find_route_matched "PUT" "/api/v1/backends/{name}"
             (Server.HBackend BackendHandler.EUpdateBackend) _ [("name", name)]);
    [done|Server.by_compute|].
  by rewrite Server.match_pattern_fill.
Qed.

(** An update of a backend that exists succeeds when the driver counts the
    rows it found, and leaves the backend enabled as the update says. *)
Lemma exec_UpdateBackend_found name backend (s : t) :
  faults s = [] → clientFoundRows s = true → is_Some (backend_by_name name s) →
  (exec (OpUpdateBackend name backend) s).1 = Ok (updated_backend name backend s) ∧
  backend_enabled name (exec (OpUpdateBackend name backend) s).2
  = Some (Backend_Enabled backend).
Proof.
  intros Hf Hc [old Hold]. pose proof (next_fault_nil s Hf) as Hnf.
  change (exec (OpUpdateBackend name backend) s) with (UpdateBackend name backend s).
  split; [by rewrite UpdateBackend_found_rows, Hold|].
  unfold backend_enabled. by rewrite UpdateBackend_lookup, decide_True, Hold.
Qed.

Lemma exec_CreateHistory_history h (s : t) :
  faults s = [] →
  ConfigHistory_Operation <$> history (exec (OpCreateHistory h) s).2
  = (ConfigHistory_Operation <$> history s) ++ [ConfigHistory_Operation h].
Proof.
  intros Hf. change (exec (OpCreateHistory h) s) with (CreateHistory h s).
  destruct (CreateHistory_ok h s) as [_ ->]; [by apply next_fault_nil|].
  by rewrite fmap_app.
Qed.

(** After a delete and its audit entry the backend is still there. *)
Lemma after_delete name h (s : t) old :
  faults s = [] → clientFoundRows s = true → backend_by_name name s = Some old →
  let s2 := (exec (OpCreateHistory h) (exec (OpDeleteBackend name) s).2).2 in
  faults s2 = [] ∧ clientFoundRows s2 = true ∧ is_Some (backend_by_name name s2).
Proof.
  intros Hf Hc Hold s2. subst s2. split_and!.
  - by do 2 apply exec_faults.
  - destruct (exec_frame (OpCreateHistory h) (exec (OpDeleteBackend name) s).2) as (_ & -> & _).
    by destruct (exec_frame (OpDeleteBackend name) s) as (_ & -> & _).
  - rewrite exec_backend_by_name by done.
    change (exec (OpDeleteBackend name) s) with (DeleteBackend name s).
    rewrite DeleteBackend_lookup, decide_True, Hold by (done || by apply next_fault_nil).
    eauto.
Qed.

Section delete_race.
Context (name : string) (r r' : Request) (old backend : Backend) (s : t).
Context (Hf : faults s = []) (Hc : clientFoundRows s = true)
  (Hname : name ≠ "") (Hslash : contains_byte "/"%char name = false)
  (Hold : backend_by_name name s = Some old) (Hen : Backend_Enabled old = true)
  (Hmerge : BackendHandler.merge_update name old r = inr backend)
  (Homit : ∀ m, decode_body_map r = Ok m → enabled_of_map m = None).

(** C23: a delete does not survive a concurrent update.  For every
    database whose driver does not fail and counts the rows it finds, every
    enabled backend, every request to delete it and every valid update of
    it that does not name [enabled]: when the update has read the backend
    and the delete then runs to its end, answered 204, the update writes
    [enabled] as it read it; the backend is enabled again, and the audit
    trail ends with DELETE, UPDATE. *)
Theorem race_delete_undone :
  let path := Server.fill "/api/v1/backends/{name}" name in
  let pool := Server.serve <$> [mkIncoming "DELETE" path r'; mkIncoming "PUT" path r] in
  let c := interleave read_then_overtaken (start pool s) in
  resp_status <$> responses c = [204; 200]%Z ∧
  backend_enabled name (shared c) = Some true ∧
  ConfigHistory_Operation <$> history (shared c)
  = (ConfigHistory_Operation <$> history s) ++ ["DELETE"; "UPDATE"].
Proof.
  intros path pool c. subst path pool c.
  assert (Backend_Enabled backend = true) as Hstill.
  { apply BackendHandler.merge_update_inr in Hmerge as (m & b0 & Hm & _ & -> & _).
    by rewrite (Homit m Hm), <-Hen. }
  unfold read_then_overtaken, start. cbn [fmap list_fmap].
  rewrite serve_delete_backend, serve_update_backend by done.
  unfold BackendHandler.UpdateBackend, BackendHandler.DeleteBackend.
  change (URLParam (Server.with_params [("name", name)] r') "name") with name.
  change (URLParam (Server.with_params [("name", name)] r) "name") with name.
  unfold BackendHandler.recordHistory, record_history, call. cbn [bind].
  step_call. rewrite exec_GetBackendByName, Hold by done.
  cbn -[BackendHandler.merge_update].
  change (BackendHandler.merge_update name old (Server.with_params [("name", name)] r))
    with (BackendHandler.merge_update name old r).
  rewrite Hmerge. cbn.
  step_call. rewrite exec_GetBackendByName, Hold by done. cbn.
  destruct (exec_DeleteBackend_enabled name s old) as [Hdel _]; [done..|].
  step_call. rewrite Hdel. cbn.
  set (s1 := (exec (OpDeleteBackend name) s).2) in *.
  assert (faults s1 = []) as Hf1 by by apply exec_faults.
  step_call. rewrite exec_CreateHistory_ok by done. cbn.
  set (s2 := (exec (OpCreateHistory _) s1).2).
  assert (faults s2 = [] ∧ clientFoundRows s2 = true ∧ is_Some (backend_by_name name s2))
    as (Hf2 & Hc2 & Hsome2) by (by apply (after_delete name _ s old)).
  destruct (exec_UpdateBackend_found name backend s2) as [Hres Hon]; [done..|].
  step_call. rewrite Hres. cbn.
  step_call. rewrite exec_CreateHistory_ok by (by apply exec_faults).
  cbn -[backend_enabled history]. unfold interleave. cbn [foldl shared].
  split_and!; [done| |].
  - unfold backend_enabled in *. by rewrite exec_backend_by_name, Hon, Hstill.
  - rewrite exec_CreateHistory_history, exec_history by (done || by apply exec_faults).
    unfold s2. rewrite exec_CreateHistory_history by done. unfold s1.
    by rewrite exec_history, <-app_assoc.
Qed.
End delete_race.

(** *** The races on the example databases *)

(** One after the other, the second create of a name is answered 409. *)
Lemma serial_creates_conflict :
  resp_status <$> (serial (Server.serve <$> [create_user; create_user])
                     BackendHandler.example_store).1 = [201; 409]%Z.
Proof. by vm_compute. Qed.

(** When both requests write before either records, the audit trail can
    tell their order wrongly: the update wrote last and DELETE is recorded
    last. *)
Lemma audit_order_inverted :
  let pool := Server.serve <$> [delete_account; update_account] in
  let c := interleave write_order_inverted (start pool BackendHandler.example_found_rows) in
  resp_status <$> responses c = [204; 200]%Z ∧
  backend_enabled "account" (shared c) = Some true ∧
  ConfigHistory_Operation <$> history (shared c) = ["UPDATE"; "DELETE"].
Proof. by vm_compute. Qed.

(** The same schedule from a database the audit trail describes, the
    backend having been created by a request: no entry is refused and no
    warning logged, and the trail no longer describes the state.  Its replay
    ends with the delete and holds the backend disabled; the row is
    enabled. *)
Lemma inverted_order_not_described :
  let s0 := store_after (serve_all (take 1 scenario)) (empty 1000 true true []) in
  let pool := Server.serve <$> [delete_account; update_account] in
  let c := interleave write_order_inverted (start pool s0) in
  audit_sound (StoreSpec.abs s0) ∧
  resp_status <$> responses c = [204; 200]%Z ∧
  warnings (events c).*2 = [] ∧
  Backend_Enabled <$> replay (history (shared c)) !! 1%N = Some false ∧
  ¬ audit_sound (StoreSpec.abs (shared c)).
Proof.
  intros s0 pool c. split_and!; [|by vm_compute..|].
  - apply (run_keeps_sound (H := StoreSpec.mysql_implements) _ _ (serve_all_keeps_sound _));
      [apply (bool_decide_unpack _); by vm_compute|apply sound_empty|by vm_compute|].
    apply (bool_decide_unpack _). by vm_compute.
  - intros [Hb _ _].
    assert (StoreSpec.sp_backends (StoreSpec.abs (shared c)) !! "account"
            = Some (mkBackend 1 "account" "127.0.0.1:9999" "" true 1000 1000)) as Hu
      by (by vm_compute).
    apply (described_stored _ _ Hb) in Hu. by vm_compute in Hu.
Qed.

(** ** The scenario of the specification *)

(** The end-to-end scenario of the specification, through the router,
    the handlers and the store, on an empty database: the backends and the
    route are created, the route with the default timeout of 5000; the
    backends are disabled; moving the route to the other disabled backend
    is refused with 400 and changes nothing; updating the route in place
    succeeds although its backend is disabled.  The update, which does not
    name the timeout, leaves it 0; the audit trail holds the six changes
    in order. *)
Theorem end_to_end_scenario :
  let db := empty 1000 false true [] in
  let created := (serial (Server.serve <$> take 3 scenario) db).2 in
  let run := serial (Server.serve <$> scenario) db in
  resp_status <$> run.1 = [201; 201; 201; 204; 204; 400; 200]%Z ∧
  (Route_TimeoutMS <$> route_by_id 1 created) = Some 5000%Z ∧
  backend_enabled "account" created = Some true ∧
  backend_enabled "account" run.2 = Some false ∧
  backend_enabled "legacy" run.2 = Some false ∧
  (Route_BackendName <$> route_by_id 1 run.2) = Some "account" ∧
  (Route_Description <$> route_by_id 1 run.2) = Some "login" ∧
  (Route_TimeoutMS <$> route_by_id 1 run.2) = Some 0%Z ∧
  ConfigHistory_Operation <$> history run.2
  = ["CREATE"; "CREATE"; "CREATE"; "DELETE"; "DELETE"; "UPDATE"].
Proof. by vm_compute. Qed.

(** ** The theorems at work *)

Lemma concurrent_protocol_witness :
  let c := interleave check_check_write_write
             (start (Server.serve <$> [create_user; create_user])
                BackendHandler.example_store) in
  let resp := write_json StatusCreated (marshal_Backend BackendHandler.example_created) in
  resp_status resp ∈ statuses ∧
  audit_protocol (Server.request_type create_user) (Server.request_operation create_user)
    (Server.operator create_user) (Server.is_mutation create_user)
    (thread_events 0 (events c)) resp.
Proof.
  apply (concurrent_protocol [create_user; create_user] BackendHandler.example_store _ 0);
    [apply interleave_reachable|done|by vm_compute].
Defined.

Lemma server_liveness_witness :
  finished (interleave (round_robin 5 2)
              (start (Server.serve <$> [create_route; delete_account])
                 RouteHandler.example_store)).
Proof.
  apply server_liveness. intros i Hi. rewrite round_robin_count; simpl in *; lia.
Defined.

Lemma concurrent_wf_witness :
  wf (shared (interleave check_then_overtaken
                (start (Server.serve <$> [create_route; delete_account])
                   RouteHandler.example_store))).
Proof.
  apply (concurrent_wf (start (Server.serve <$> [create_route; delete_account])
                          RouteHandler.example_store));
    [apply interleave_reachable|apply (bool_decide_unpack _); by vm_compute].
Defined.

Lemma concurrent_audit_complete_witness :
  let reqs := [create_user; create_user] in
  let c := interleave check_check_write_write
             (start (Server.serve <$> reqs) BackendHandler.example_store) in
  length (history (shared c)) + length (filter is_warning (events c).*2)
  = length (history BackendHandler.example_store)
    + length (filter answered_change (zip reqs (responses c))).
Proof.
  apply concurrent_audit_complete; [apply interleave_reachable|by vm_compute].
Defined.

Lemma race_duplicate_backend_witness :
  let pool := Server.serve <$> [create_user; create_user] in
  let raced := interleave check_check_write_write (start pool BackendHandler.example_store) in
  let keyed := interleave check_check_write_write (start pool example_unique) in
  (resp_status <$> responses raced = [201; 201]%Z ∧
   backend_names (shared raced) = ["account"; "user"; "user"]) ∧
  (resp_status <$> responses keyed = [201; 500]%Z ∧
   backend_names (shared keyed) = ["account"; "user"]).
Proof.
  split;
    apply (race_duplicate_backend BackendHandler.example_create
             (mkBackend 0 "user" "127.0.0.1:50052" "" false zero_time zero_time));
    by vm_compute.
Defined.

Lemma race_route_to_disabled_backend_witness :
  let pool := Server.serve <$> [create_route; delete_account] in
  let c := interleave check_then_overtaken (start pool RouteHandler.example_store) in
  resp_status <$> responses c = [201; 204]%Z ∧
  backend_enabled "account" (shared c) = Some false ∧
  route_by_id 2 (shared c)
  = Some (created_route
            (RouteHandler.default_values RouteHandler.example_create
               (RouteHandler.example_route "account")) RouteHandler.example_store) ∧
  Route_BackendName
    (created_route
       (RouteHandler.default_values RouteHandler.example_create
          (RouteHandler.example_route "account")) RouteHandler.example_store) = "account" ∧
  Route_Enabled
    (created_route
       (RouteHandler.default_values RouteHandler.example_create
          (RouteHandler.example_route "account")) RouteHandler.example_store) = true.
Proof.
  apply (race_route_to_disabled_backend RouteHandler.example_create
           (mkRequest [] [] [("X-Operator", "bob")] None)
           (RouteHandler.example_route "account") RouteHandler.example_account
           RouteHandler.example_store);
    first [by vm_compute|apply (bool_decide_unpack _); by vm_compute].
Defined.

Lemma race_delete_undone_witness :
  let pool := Server.serve <$> [delete_account; update_account] in
  let c := interleave read_then_overtaken (start pool BackendHandler.example_found_rows) in
  resp_status <$> responses c = [204; 200]%Z ∧
  backend_enabled "account" (shared c) = Some true ∧
  ConfigHistory_Operation <$> history (shared c) = ["DELETE"; "UPDATE"].
Proof.
  apply (race_delete_undone "account" BackendHandler.example_update
           (mkRequest [] [] [("X-Operator", "bob")] None)
           BackendHandler.example_old BackendHandler.example_merged
           BackendHandler.example_found_rows); try by vm_compute.
  intros m Hm. vm_compute in Hm. injection Hm as <-. by vm_compute.
Defined.

Lemma concurrent_refines_witness :
  let c := interleave check_check_write_write
             (start (Server.serve <$> [create_user; create_user]) example_unique) in
  StoreSpec.valid (shared c) ∧
  spec_events (events c) (StoreSpec.abstraction example_unique)
    (StoreSpec.abstraction (shared c)).
Proof.
  apply (concurrent_refines (Server.serve <$> [create_user; create_user]) example_unique);
    [apply (bool_decide_unpack _); by vm_compute|].
  apply interleave_reachable.
Defined.
