(* ===== verification/ConnPool.v ===== *)
(** * Requests in flight over a bounded pool of connections

    [NewMySQLStore] limits the pool of [sql.DB] to 25 open connections.
    Every method of the store runs its statement on a connection of the
    pool and gives it back before it returns; a request that finds no
    connection free waits.  [Pool] is the pool of [Concurrent] with that
    wait: a thread is [Ready] with the rest of its handler, or [Holding] a
    connection with the call it is about to make.  A step acquires a
    connection when one is free, makes the call and releases, or logs.

    The theorems, for every limit and every store: the calls in the
    database at once never exceed the limit; forgetting the connections, a
    run of the bounded pool is a run of the pool of [Concurrent], so what
    holds there in every reachable state holds here; when every request is
    answered no connection is held; and the wait ends: a scheduler that
    takes the requests in turn answers every one of them, however few the
    connections, because no request waits for a connection while it holds
    one. *)

From S2P Require Import Prelude Text Json Entity Sql StoreApi StoreMySQL Http.
From S2P Require Import Handler HandlerBackend HandlerRoute HandlerHistory Trace.
From S2P Require Import Protocol Server Process Concurrent.

#[local] Set Warnings "-clear-no-such-hyp".

(** The limit [db.SetMaxOpenConns] has set: 0 is no limit. *)
Definition pool_limit (db : Process.DB) : nat := Z.to_nat (Process.maxOpenConns db).

Section conn.
Context {St : Type} `{!Store St} {R : Type}.

(** A request between two calls, or in a call with a connection. *)
Inductive Thread : Type :=
| Ready (p : Prog R)
| Holding {X : Type} (op : StoreOp X) (k : X → Prog R).

Record Pool : Type := mkPool {
  pool_threads : list Thread;
  pool_store : St;
  pool_events : list (nat * Event);
}.

Definition holding (t : Thread) : bool :=
  match t with Holding _ _ => true | Ready _ => false end.

(** The connections checked out. *)
Definition in_use (c : Pool) : nat := length (filter (λ t, holding t = true) (pool_threads c)).

(** A connection can be had: there is no limit, or it is not reached. *)
Definition free (maxOpen : nat) (c : Pool) : Prop := maxOpen = 0 ∨ in_use c < maxOpen.

#[global] Instance free_dec maxOpen c : Decision (free maxOpen c).
Proof. unfold free. apply _. Defined.

Definition set_thread (i : nat) (t : Thread) (c : Pool) : Pool :=
  mkPool (<[i := t]> (pool_threads c)) (pool_store c) (pool_events c).

(** The call of a thread that holds a connection: the statement runs, the
    connection goes back to the pool. *)
Definition call_and_release (i : nat) {X} (op : StoreOp X) (k : X → Prog R) (c : Pool) : Pool :=
  let res := exec op (pool_store c) in
  mkPool (<[i := Ready (k res.1)]> (pool_threads c)) res.2
    (pool_events c ++ [(i, EvCall op res.1)]).

Definition log_line (i : nat) (e : LogEntry) (k : Prog R) (c : Pool) : Pool :=
  mkPool (<[i := Ready k]> (pool_threads c)) (pool_store c) (pool_events c ++ [(i, EvLog e)]).

Inductive conn_step (maxOpen : nat) : Pool → Pool → Prop :=
| conn_acquire i {X} (op : StoreOp X) k c :
    pool_threads c !! i = Some (Ready (Call op k)) → free maxOpen c →
    conn_step maxOpen c (set_thread i (Holding op k) c)
| conn_call i {X} (op : StoreOp X) k c :
    pool_threads c !! i = Some (Holding op k) →
    conn_step maxOpen c (call_and_release i op k c)
| conn_log i e k c :
    pool_threads c !! i = Some (Ready (Log e k)) →
    conn_step maxOpen c (log_line i e k c).

(** The step of thread [i]: nothing happens when it has returned, does not
    exist, or waits for a connection. *)
Definition conn_thread_step (maxOpen i : nat) (c : Pool) : Pool :=
  match pool_threads c !! i with
  | Some (Ready (Call op k)) =>
      if decide (free maxOpen c) then set_thread i (Holding op k) c else c
  | Some (Holding op k) => call_and_release i op k c
  | Some (Ready (Log e k)) => log_line i e k c
  | _ => c
  end.

Definition conn_interleave (maxOpen : nat) (sched : list nat) (c : Pool) : Pool :=
  foldl (λ c i, conn_thread_step maxOpen i c) c sched.

Definition conn_start (ps : list (Prog R)) (s : St) : Pool := mkPool (Ready <$> ps) s [].

(** Whether the step of thread [i] changes anything. *)
Definition moves (maxOpen i : nat) (c : Pool) : Prop :=
  match pool_threads c !! i with
  | Some (Ready (Call _ _)) => free maxOpen c
  | Some (Holding _ _) | Some (Ready (Log _ _)) => True
  | _ => False
  end.

#[global] Instance moves_dec maxOpen i c : Decision (moves maxOpen i c).
Proof. unfold moves. repeat case_match; apply _. Defined.

Definition answered (t : Thread) : bool :=
  match t with Ready (Ret _) => true | _ => false end.

(** Every request has its response. *)
Definition all_answered (c : Pool) : Prop :=
  Forall (λ t, answered t = true) (pool_threads c).

(** The pool without its connections: a thread that holds one has its call
    still to make. *)
Definition forget_thread (t : Thread) : Prog R :=
  match t with Ready p => p | Holding op k => Call op k end.

Definition forget (c : Pool) : Config St R :=
  mkConfig (forget_thread <$> pool_threads c) (pool_store c) (pool_events c).

(** [needs n p]: the program ends within [n] steps of the pool, a call
    being two. *)
Fixpoint needs (n : nat) (p : Prog R) {struct p} : Prop :=
  match p with
  | Ret _ => True
  | Call op k => match n with S (S n') => ∀ x, needs n' (k x) | _ => False end
  | Log e k => match n with S n' => needs n' k | O => False end
  end.

Definition thread_needs (n : nat) (t : Thread) : Prop :=
  match t with
  | Ready p => needs n p
  | Holding op k => match n with S n' => ∀ x, needs n' (k x) | O => False end
  end.

(** A budget of steps for every thread. *)
Definition allowance (b : list nat) (c : Pool) : Prop := Forall2 thread_needs b (pool_threads c).

End conn.

Arguments Thread : clear implicits.
Arguments Pool : clear implicits.

(** ** Examples *)

(** Three requests for the backends over one connection. *)
Definition example_requests : list Incoming :=
  replicate 3 (mkIncoming "GET" "/api/v1/backends" (mkRequest [] [] [] None)).

(** ** Facts *)

Lemma sum_list_insert (b : list nat) i n n' :
  b !! i = Some n → sum_list (<[i := n']> b) + n = sum_list b + n'.
Proof.
  revert i. induction b as [|m b IH]; intros [|i]; simpl; [done..| |].
  - intros [= ->]. lia.
  - intros Hi. specialize (IH i Hi). lia.
Qed.

Section conn_facts.
Context {St : Type} `{!Store St} {R : Type}.
Implicit Types (c : Pool St R) (t : Thread R) (p : Prog R) (b : list nat).
Implicit Types (ps : list (Prog R)) (s : St).

(** ** The limit *)

Lemma in_use_insert c i t t' :
  pool_threads c !! i = Some t →
  in_use (set_thread i t' c) + (if holding t then 1 else 0)
  = in_use c + (if holding t' then 1 else 0).
Proof.
  unfold in_use, set_thread. simpl. generalize (pool_threads c). clear c.
  intros l. revert i. induction l as [|t0 l IH]; intros [|i]; simpl; [done..| |].
  - intros [= ->]. rewrite !filter_cons. destruct (holding t), (holding t'); simpl; lia.
  - intros Hi. specialize (IH i Hi). rewrite !filter_cons.
    destruct (decide (holding t0 = true)); simpl; lia.
Qed.

Lemma conn_step_in_use maxOpen c c' :
  maxOpen ≠ 0 → conn_step maxOpen c c' → in_use c ≤ maxOpen → in_use c' ≤ maxOpen.
Proof.
  intros Hm [i X op k c0 Hi [?|Hfree]|i X op k c0 Hi|i e k c0 Hi] Hle; [done|..].
  - pose proof (in_use_insert c0 i _ (Holding op k) Hi). simpl in *. lia.
  - pose proof (in_use_insert c0 i _ (Ready (k (exec op (pool_store c0)).1)) Hi) as Hin.
    unfold call_and_release. unfold in_use, set_thread in *. simpl in *. lia.
  - pose proof (in_use_insert c0 i _ (Ready k) Hi) as Hin.
    unfold log_line. unfold in_use, set_thread in *. simpl in *. lia.
Qed.

Lemma in_use_start ps s : in_use (conn_start ps s) = 0.
Proof.
  unfold in_use, conn_start. simpl. induction ps as [|p ps IH]; [done|].
  by rewrite fmap_cons, filter_cons_False.
Qed.

(** ** Steps and schedules *)

Lemma conn_thread_step_spec maxOpen i c :
  (¬ moves maxOpen i c ∧ conn_thread_step maxOpen i c = c) ∨
  (moves maxOpen i c ∧ conn_step maxOpen c (conn_thread_step maxOpen i c)).
Proof.
  unfold moves, conn_thread_step.
  destruct (pool_threads c !! i) as [[[r|X op k|e k]|X op k]|] eqn:E; auto.
  - case_decide; [right|left]; split; try done. by apply conn_acquire.
  - right. split; [done|]. by apply conn_log.
  - right. split; [done|]. by apply conn_call.
Qed.

Lemma conn_interleave_reachable maxOpen sched c :
  rtc (conn_step maxOpen) c (conn_interleave maxOpen sched c).
Proof.
  revert c. induction sched as [|i sched IH]; intros c; [done|]. simpl.
  destruct (conn_thread_step_spec maxOpen i c) as [[_ ->]|[_ Hstep]]; [done|].
  by eapply rtc_l.
Qed.

Lemma conn_interleave_app maxOpen sched1 sched2 c :
  conn_interleave maxOpen (sched1 ++ sched2) c
  = conn_interleave maxOpen sched2 (conn_interleave maxOpen sched1 c).
Proof. apply foldl_app. Qed.

(** ** Forgetting the connections *)

Lemma forget_insert c i t :
  forget_thread <$> <[i := t]> (pool_threads c)
  = <[i := forget_thread t]> (forget_thread <$> pool_threads c).
Proof. by rewrite list_fmap_insert. Qed.

Lemma conn_step_forget maxOpen c c' :
  conn_step maxOpen c c' → forget c' = forget c ∨ pool_step (forget c) (forget c').
Proof.
  intros [i X op k c0 Hi _|i X op k c0 Hi|i e k c0 Hi].
  - left. unfold forget, set_thread. simpl. f_equal. rewrite forget_insert.
    apply list_insert_id. by rewrite list_lookup_fmap, Hi.
  - right. unfold forget, call_and_release. simpl. rewrite forget_insert.
    apply (step_call i op k (forget c0)). simpl. by rewrite list_lookup_fmap, Hi.
  - right. unfold forget, log_line. simpl. rewrite forget_insert.
    apply (step_log i e k (forget c0)). simpl. by rewrite list_lookup_fmap, Hi.
Qed.

Lemma forget_start ps s : forget (conn_start ps s) = start ps s.
Proof.
  unfold forget, conn_start, start. simpl. f_equal. rewrite <-list_fmap_compose.
  by apply list_fmap_id.
Qed.

(** ** Budgets *)

Lemma needs_mono n n' p : n ≤ n' → needs n p → needs n' p.
Proof.
  revert n n'. induction p as [r|X op k IH|e k IH]; intros n n' Hn; cbn [needs]; [done| |].
  - destruct n as [|[|n]]; [done..|]. destruct n' as [|[|n']]; [lia..|].
    intros Hk x. apply (IH x n); [lia|done].
  - destruct n as [|n]; [done|]. destruct n' as [|n']; [lia|]. apply IH. lia.
Qed.

(** A handler of [m] events ends within [2 * m] steps of the pool. *)
Lemma bounded_needs m p : bounded m p → needs (2 * m) p.
Proof.
  revert m. induction p as [r|X op k IH|e k IH]; intros m; [done| |];
    (destruct m as [|m]; [done|]); replace (2 * S m) with (S (S (2 * m))) by lia;
    cbn [needs bounded]; intros Hb.
  - intros x. by apply IH.
  - apply (needs_mono (2 * m)); [lia|]. by apply IH.
Qed.

(** A step of a thread spends from its budget when it moves, and touches
    no budget when it does not. *)
Lemma step_budget maxOpen i b c :
  allowance b c →
  ∃ b', allowance b' (conn_thread_step maxOpen i c) ∧ sum_list b' ≤ sum_list b ∧
        (moves maxOpen i c → sum_list b' < sum_list b).
Proof.
  intros Hb. unfold moves, conn_thread_step.
  destruct (pool_threads c !! i) as [t|] eqn:E; [|by exists b].
  destruct (Forall2_lookup_r _ _ _ _ _ Hb E) as (n & Hn & Ht).
  assert (∀ n' t', thread_needs n' t' → n' < n →
            ∃ b', Forall2 thread_needs b' (<[i := t']> (pool_threads c)) ∧
                  sum_list b' ≤ sum_list b ∧ sum_list b' < sum_list b) as Hspend.
  { intros n' t' Ht' Hlt. exists (<[i := n']> b). pose proof (sum_list_insert b i n n' Hn).
    split; [by apply Forall2_insert|lia]. }
  destruct t as [[r|X op k|e k]|X op k]; simpl in Ht.
  - by exists b.
  - case_decide; [|by exists b]. destruct n as [|[|n]]; [done..|].
    destruct (Hspend (S n) (Holding op k)) as (b' & ? & ? & ?); [done|lia|]. by exists b'.
  - destruct n as [|n]; [done|].
    destruct (Hspend n (Ready k)) as (b' & ? & ? & ?); [done|lia|]. by exists b'.
  - destruct n as [|n]; [done|].
    destruct (Hspend n (Ready (k (exec op (pool_store c)).1))) as (b' & ? & ? & ?);
      [apply Ht|lia|]. by exists b'.
Qed.

Lemma interleave_budget maxOpen sched b c :
  allowance b c →
  ∃ b', allowance b' (conn_interleave maxOpen sched c) ∧ sum_list b' ≤ sum_list b.
Proof.
  revert b c. induction sched as [|i sched IH]; intros b c Hb; [by exists b|]. simpl.
  destruct (step_budget maxOpen i b c Hb) as (b1 & Hb1 & Hle & _).
  destruct (IH b1 _ Hb1) as (b' & ? & ?). exists b'. split; [done|lia].
Qed.

(** A schedule that reaches a thread that can move spends from the budget. *)
Lemma schedule_progress maxOpen sched i b c :
  allowance b c → i ∈ sched → moves maxOpen i c →
  ∃ b', allowance b' (conn_interleave maxOpen sched c) ∧ sum_list b' < sum_list b.
Proof.
  revert b c. induction sched as [|j sched IH]; intros b c Hb Hi Hm; [by apply elem_of_nil in Hi|].
  simpl. destruct (decide (moves maxOpen j c)) as [Hj|Hj].
  - destruct (step_budget maxOpen j b c Hb) as (b1 & Hb1 & _ & Hlt).
    destruct (interleave_budget maxOpen sched b1 _ Hb1) as (b' & ? & ?).
    exists b'. split; [done|]. specialize (Hlt Hj). lia.
  - destruct (conn_thread_step_spec maxOpen j c) as [[_ ->]|[? _]]; [|done].
    apply IH; [done| |done]. apply elem_of_cons in Hi as [->|Hi]; done.
Qed.

(** While a request is not answered some thread can move: a thread that
    waits for a connection waits for a thread that holds one, and that one
    waits for nothing. *)
Lemma can_move maxOpen c :
  ¬ all_answered c → ∃ i, i < length (pool_threads c) ∧ moves maxOpen i c.
Proof.
  intros (t & Hin & Ht)%not_Forall_Exists%Exists_exists; [|apply _].
  apply list_elem_of_lookup in Hin as [i Hi].
  assert (i < length (pool_threads c)) as Hlen by by eapply lookup_lt_Some.
  destruct (decide (moves maxOpen i c)) as [|Hwait]; [by eauto|].
  unfold moves in Hwait. rewrite Hi in Hwait.
  destruct t as [[r|X op k|e k]|X op k]; simpl in Ht, Hwait; try done.
  assert (0 < in_use c) as Hheld by (unfold free in Hwait; lia).
  unfold in_use in Hheld.
  destruct (filter _ (pool_threads c)) as [|t' l] eqn:Hf; [simpl in Hheld; lia|].
  assert (t' ∈ filter (λ t, holding t = true) (pool_threads c)) as Ht'
    by (rewrite Hf; left).
  apply list_elem_of_filter in Ht' as [Hh [j Hj]%list_elem_of_lookup].
  exists j. split; [by eapply lookup_lt_Some|]. unfold moves. rewrite Hj.
  by destruct t'.
Qed.

Lemma step_threads_length maxOpen i c :
  length (pool_threads (conn_thread_step maxOpen i c)) = length (pool_threads c).
Proof.
  unfold conn_thread_step. repeat case_match; simpl; by rewrite ?length_insert.
Qed.

Lemma interleave_threads_length maxOpen sched c :
  length (pool_threads (conn_interleave maxOpen sched c)) = length (pool_threads c).
Proof.
  revert c. induction sched as [|i sched IH]; intros c; [done|]. simpl.
  by rewrite IH, step_threads_length.
Qed.

(** When every request is answered nothing moves. *)
Lemma answered_stays maxOpen sched c :
  all_answered c → conn_interleave maxOpen sched c = c.
Proof.
  intros Hall. induction sched as [|i sched IH]; [done|]. simpl.
  destruct (conn_thread_step_spec maxOpen i c) as [[_ ->]|[Hm _]]; [done|].
  unfold moves in Hm. destruct (pool_threads c !! i) as [t|] eqn:E; [|done].
  unfold all_answered in Hall. rewrite Forall_forall in Hall.
  specialize (Hall t (list_elem_of_lookup_2 _ _ _ E)). by destruct t as [[]|].
Qed.

Lemma budget_spent b c : allowance b c → sum_list b = 0 → all_answered c.
Proof.
  unfold allowance, all_answered. induction 1 as [|n t b l Ht _ IH]; [done|]. simpl.
  intros Hs. assert (n = 0) as -> by lia. constructor; [|apply IH; lia].
  by destruct t as [[]|].
Qed.

(** Taking the threads in turn, as many rounds as the budget holds steps,
    answers every request. *)
Lemma rounds_answer maxOpen n b c :
  allowance b c → sum_list b ≤ n →
  all_answered (conn_interleave maxOpen (round_robin n (length (pool_threads c))) c).
Proof.
  revert b c. induction n as [|n IH]; intros b c Hb Hn.
  { apply (budget_spent b); [done|lia]. }
  unfold round_robin. cbn [replicate mjoin list_join]. rewrite conn_interleave_app.
  destruct (decide (all_answered c)) as [Hall|Hnot].
  { rewrite !answered_stays by (by rewrite ?answered_stays). done. }
  destruct (can_move maxOpen c Hnot) as (i & Hi & Hm).
  destruct (schedule_progress maxOpen (seq 0 (length (pool_threads c))) i b c Hb)
    as (b' & Hb' & Hlt); [by apply elem_of_seq; lia|done|].
  pose proof (interleave_threads_length maxOpen (seq 0 (length (pool_threads c))) c) as Hlen.
  remember (conn_interleave maxOpen (seq 0 (length (pool_threads c))) c) as c1.
  rewrite <-Hlen. apply (IH b'); [done|lia].
Qed.

(** ** The theorems *)

(** With a limit set, in every state the pool reaches from its start
    the requests that hold a connection are no more than the limit: no
    schedule puts more calls in the database at once than
    [SetMaxOpenConns] allows. *)
Theorem connections_bounded maxOpen ps s c :
  maxOpen ≠ 0 → rtc (conn_step maxOpen) (conn_start ps s) c → in_use c ≤ maxOpen.
Proof.
  intros Hm. revert c. apply rtc_ind_r; [rewrite in_use_start; lia|].
  intros c1 c2 _ Hstep. by apply conn_step_in_use.
Qed.

(** Forgetting the connections, a run of the bounded pool is a run of the
    pool of [Concurrent]: the limit adds no behaviour. *)
Theorem pool_refines maxOpen c c' :
  rtc (conn_step maxOpen) c c' → rtc pool_step (forget c) (forget c').
Proof.
  induction 1 as [c|c c1 c2 Hstep _ IH]; [done|].
  destruct (conn_step_forget _ _ _ Hstep) as [<-|Hp]; [done|]. by eapply rtc_l.
Qed.

(** What every store call keeps holds in every state the bounded pool
    reaches. *)
Lemma bounded_pool_invariant (I : St → Prop) maxOpen c c' :
  (∀ X (op : StoreOp X) s, I s → I (exec op s).2) →
  rtc (conn_step maxOpen) c c' → I (pool_store c) → I (pool_store c').
Proof.
  intros Hop Hsteps%pool_refines. by apply (reachable_invariant I (forget c) (forget c')).
Qed.

(** With a connection for every request no request waits: whatever the
    others hold, one is free for a request that holds none. *)
Theorem never_waits maxOpen c i t :
  length (pool_threads c) ≤ maxOpen →
  pool_threads c !! i = Some t → answered t = false → moves maxOpen i c.
Proof.
  intros Hlen Hi Ht. unfold moves. rewrite Hi.
  destruct t as [[r|X op k|e k]|X op k]; try done.
  right. eapply Nat.lt_le_trans; [|done].
  eapply (length_filter_lt _ _ (Ready (Call op k))); [by eapply list_elem_of_lookup_2|done].
Qed.

(** When every request is answered every connection is back in the pool. *)
Lemma answered_releases c : all_answered c → in_use c = 0.
Proof.
  unfold all_answered, in_use. induction 1 as [|t l Ht _ IH]; [done|].
  rewrite filter_cons_False; [done|]. by destruct t.
Qed.

End conn_facts.

(** Ten turns are enough for any request: at most five store calls, each
    with a turn to take the connection and a turn to call. *)
Lemma serve_allowance {St} `{!Store St} (reqs : list Incoming) (s : St) :
  allowance (replicate (length reqs) 10) (conn_start (Server.serve <$> reqs) s).
Proof.
  unfold allowance. simpl. rewrite <-list_fmap_compose.
  induction reqs as [|r reqs IH]; simpl; constructor; [|done].
  apply (bounded_needs 5), Server.serve_bounded.
Qed.

(** C20: over a pool of connections of any size, a scheduler that takes the
    requests in turn answers every one of them within ten rounds for each
    request, whatever the store answers: a request that waits for a
    connection waits for one that holds it, and none asks for a connection
    while it holds one. *)
Theorem pool_liveness {St} `{!Store St} maxOpen (reqs : list Incoming) (s : St) :
  all_answered
    (conn_interleave maxOpen (round_robin (10 * length reqs) (length reqs))
       (conn_start (Server.serve <$> reqs) s)).
Proof.
  pose proof (rounds_answer maxOpen (10 * length reqs) _ _ (serve_allowance reqs s)) as Hr.
  simpl in Hr. rewrite !length_fmap in Hr. apply Hr.
  rewrite sum_list_replicate. lia.
Qed.

Lemma connections_bounded_witness :
  in_use (conn_interleave 1 [0; 1; 2; 0]
            (conn_start (Server.serve <$> example_requests) BackendHandler.example_store)) ≤ 1.
Proof.
  apply (connections_bounded 1 (Server.serve <$> example_requests) BackendHandler.example_store);
    [done|apply conn_interleave_reachable].
Defined.

(** The representation invariant of the database holds in every state the
    bounded pool reaches. *)
Lemma bounded_pool_wf {R} maxOpen (c c' : Pool MySQLStore.t R) :
  rtc (conn_step maxOpen) c c' →
  MySQLStore.wf (pool_store c) → MySQLStore.wf (pool_store c').
Proof. apply (bounded_pool_invariant MySQLStore.wf). intros X op s. apply MySQLStore.wf_exec. Qed.

(** ** The pool of the service *)

(** The store [main] serves with admits 25 calls at once. *)
Lemma service_pool_limit w dsn db h :
  Process.NewMySQLStore w dsn = (Ok db, h) → pool_limit db = 25.
Proof.
  unfold Process.NewMySQLStore. destruct (Process.open_error w), (Process.ping_error w);
    intros; by simplify_eq.
Qed.

(** Up to 25 requests in flight on the store of the service never wait
    for a connection. *)
Lemma service_never_waits {St} `{!Store St} {R} w dsn db h (c : Pool St R) i t :
  Process.NewMySQLStore w dsn = (Ok db, h) →
  length (pool_threads c) ≤ 25 →
  pool_threads c !! i = Some t → answered t = false → moves (pool_limit db) i c.
Proof. intros ->%service_pool_limit. apply never_waits. Qed.

(** Over one connection: while the first request is in its call the second
    waits, and its turn changes nothing; the three are answered all the
    same, and no connection is held at the end. *)
Lemma one_connection :
  let c0 := conn_start (Server.serve <$> example_requests) BackendHandler.example_store in
  let c1 := conn_interleave 1 [0] c0 in
  holding <$> pool_threads c1 = [true; false; false] ∧
  conn_thread_step 1 1 c1 = c1 ∧
  let c := conn_interleave 1 (round_robin 30 3) c0 in
  all_answered c ∧ in_use c = 0.
Proof.
  intros c0 c1. split_and!; [by vm_compute|by vm_compute|].
  intros c. assert (all_answered c) as Hc by (vm_compute; repeat constructor).
  split; [done|]. by apply answered_releases.
Qed.
