(* ===== verification/Service.v ===== *)
(** * The service: the process and the requests it serves

    While the listener of src/cmd/admin/main.go serves, every request runs
    the router on a goroutine of its own over the pool of connections;
    [srv.Shutdown] stops the listener, lets the requests in flight come to
    their answers and returns, or gives up when its context of ten seconds
    expires; then [main] returns, which closes the store and ends the
    process with whatever is still in flight.

    [Service] puts the two models together: the process of [Lifecycle] and
    the requests in flight of [ConnPool], with the requests accepted so
    far.  A step is a step of the process, the arrival of a request while
    the server accepts, or a step of a request in flight.  [Shutdown]
    answers without an error only when every request in flight is answered;
    with an error it answers at any time.

    The theorems: a run of the service is a run of the process and, for the
    requests it accepted, a run of the pool, so what is proved of either
    holds of the service; no request is accepted once [Shutdown] is called;
    a process that returned after a [Shutdown] without error has answered
    every request it accepted, and its run is a finished run of the pool of
    [Concurrent]; after the signal such an end can always be reached; and
    when [Shutdown] gives up, the process ends with a request cut between
    its write and its entry in the audit trail. *)

From S2P Require Import Prelude Text Json Entity Sql StoreApi StoreMySQL Http.
From S2P Require Import Handler HandlerBackend HandlerRoute HandlerHistory Trace.
From S2P Require Import Protocol Server Process Lifecycle Concurrent ConnPool.

#[local] Set Warnings "-clear-no-such-hyp".

Import Process Lifecycle.

(** ** The state *)

Section service.
Context {St : Type} `{!Store St}.

Record Service : Type := mkService {
  proc : Running;
  accepted : list Incoming;
  flight : Pool St Response;
}.

Definition with_proc (p : Running) (c : Service) : Service :=
  mkService p (accepted c) (flight c).

Definition with_flight (f : Pool St Response) (c : Service) : Service :=
  mkService (proc c) (accepted c) f.

(** The service when the listener is spawned: nothing is in flight. *)
Definition svc_start (db : DB) (s : St) : Service :=
  mkService (spawned db) [] (conn_start [] s).

(** The server takes requests from when it listens until [Shutdown] is
    called, which closes the listeners before it waits: [main] at
    [AtShutdown] is [main] inside the call. *)
Definition accepting (p : Running) : Prop :=
  ended p = None ∧ at_listener p = AtServe ∧ inShutdown p = false ∧
  at_main p ≠ AtShutdown.

#[global] Instance accepting_dec p : Decision (accepting p).
Proof. unfold accepting. apply _. Defined.

(** A request arrives: the router runs on it, on a goroutine of its own. *)
Definition go_serve (r : Incoming) (f : Pool St Response) : Pool St Response :=
  mkPool (pool_threads f ++ [Ready (Server.serve r)]) (pool_store f) (pool_events f).

Definition svc_accept (r : Incoming) (c : Service) : Service :=
  mkService (proc c) (accepted c ++ [r]) (go_serve r (flight c)).

(** ** The steps *)

Section steps.
Context (w : World) (addr : string) (maxOpen : nat).

(** [Shutdown] is still waiting: it is to answer without an error and a
    request is in flight. *)
Definition shutdown_waits (c : Service) : Prop :=
  at_main (proc c) = AtShutdown ∧ Shutdown w = None ∧ ¬ all_answered (flight c).

#[global] Instance shutdown_waits_dec c : Decision (shutdown_waits c).
Proof. unfold shutdown_waits, all_answered. apply _. Defined.

Inductive svc_step : Service → Service → Prop :=
| step_of_signal c p :
    ended (proc c) = None → signal (proc c) = Some p → svc_step c (with_proc p c)
| step_of_main c p :
    ended (proc c) = None → ¬ shutdown_waits c → main_step w (proc c) = Some p →
    svc_step c (with_proc p c)
| step_of_listener c p :
    ended (proc c) = None → listener_step w addr (proc c) = Some p →
    svc_step c (with_proc p c)
| step_accept c r : accepting (proc c) → svc_step c (svc_accept r c)
| step_of_request c f :
    ended (proc c) = None → conn_step maxOpen (flight c) f → svc_step c (with_flight f c).

(** Whose turn it is: the process's, a client's, or a request's. *)
Inductive Turn : Type :=
| Of (a : Action)
| Arrives (r : Incoming)
| Request (i : nat).

(** The step a turn takes, if it can take one. *)
Definition svc_act (t : Turn) (c : Service) : option Service :=
  match t with
  | Of a =>
      if decide (a = Main ∧ shutdown_waits c) then None
      else p ← act w addr a (proc c); Some (with_proc p c)
  | Arrives r => if decide (accepting (proc c)) then Some (svc_accept r c) else None
  | Request i =>
      if decide (ended (proc c) = None ∧ moves maxOpen i (flight c))
      then Some (with_flight (conn_thread_step maxOpen i (flight c)) c)
      else None
  end.

(** The steps of a schedule; a turn that can take no step is skipped. *)
Definition svc_play (sched : list Turn) (c : Service) : Service :=
  foldl (λ c t, default c (svc_act t c)) c sched.

(** Once [Shutdown] has answered without an error nothing is in flight. *)
Definition quiesced (c : Service) : Prop :=
  inShutdown (proc c) = true → Shutdown w = None → all_answered (flight c).

(** The schedule that ends the service: the requests in flight in turn,
    ten rounds for each, then the three lines of [main]. *)
Definition drain (c : Service) : list Turn :=
  let k := length (pool_threads (flight c)) in
  (Request <$> round_robin (10 * k) k) ++ replicate 3 (Of Main).

End steps.
End service.

Arguments Service : clear implicits.

(** ** Examples *)

(** [Shutdown] gives up after its ten seconds. *)
Definition example_deadline : World :=
  mkWorld example_environ None None None None (Some "context deadline exceeded").

(** A backend is created; the signal comes when the row is written and the
    audit entry is not; [Shutdown] gives up and [main] returns. *)
Definition example_cut : list Turn :=
  [Of Listener; Of Listener; Arrives create_user;
   Request 0; Request 0; Request 0; Request 0;
   Of Signal; Of Main; Of Main; Of Main].

(** The same, with the request left to finish before the signal. *)
Definition example_graceful : list Turn :=
  [Of Listener; Of Listener; Arrives create_user;
   Request 0; Request 0; Request 0; Request 0; Request 0; Request 0;
   Of Signal; Of Main; Of Main; Of Main].

(** ** Facts *)

Section facts.
Context {St : Type} `{!Store St}.
Context (w : World) (addr : string) (maxOpen : nat).
Implicit Types (c : Service St) (f : Pool St Response) (s : St) (db : DB).

(** *** Turns and steps *)

Lemma conn_step_thread f f' :
  conn_step maxOpen f f' → ∃ i, moves maxOpen i f ∧ f' = conn_thread_step maxOpen i f.
Proof.
  intros [i X op k c0 Hi Hfree|i X op k c0 Hi|i e k c0 Hi]; exists i;
    unfold moves, conn_thread_step; rewrite Hi; [by rewrite decide_True|done..].
Qed.

Lemma svc_act_step t c c' : svc_act w addr maxOpen t c = Some c' → svc_step w addr maxOpen c c'.
Proof.
  destruct t as [a|r|i]; simpl; case_decide as Hd; intros Ha; simplify_eq.
  - destruct (act w addr a (proc c)) as [p|] eqn:Hp; simplify_eq/=.
    unfold act in Hp. destruct (ended (proc c)) eqn:He; [done|].
    destruct a; [by apply step_of_signal|apply step_of_main|by apply step_of_listener];
      [done|naive_solver|done].
  - by apply step_accept.
  - destruct Hd as [He Hm]. apply step_of_request; [done|].
    by destruct (conn_thread_step_spec maxOpen i (flight c)) as [[? _]|[_ ?]].
Qed.

Lemma svc_step_act c c' :
  svc_step w addr maxOpen c c' → ∃ t, svc_act w addr maxOpen t c = Some c'.
Proof.
  intros [c0 p He Hp|c0 p He Hw Hp|c0 p He Hp|c0 r Ha|c0 f He Hf].
  - exists (Of Signal). simpl. try rewrite decide_False by naive_solver.
    unfold act. by rewrite He, Hp.
  - exists (Of Main). simpl. try rewrite decide_False by naive_solver.
    unfold act. by rewrite He, Hp.
  - exists (Of Listener). simpl. try rewrite decide_False by naive_solver.
    unfold act. by rewrite He, Hp.
  - exists (Arrives r). simpl. by rewrite decide_True.
  - apply conn_step_thread in Hf as (i & Hm & ->). exists (Request i). simpl.
    by rewrite decide_True.
Qed.

Lemma svc_play_reachable sched c :
  rtc (svc_step w addr maxOpen) c (svc_play w addr maxOpen sched c).
Proof.
  revert c. induction sched as [|t sched IH]; intros c; [done|]. simpl.
  destruct (svc_act w addr maxOpen t c) as [c'|] eqn:Ht; simpl; [|done].
  eapply rtc_l; [by eapply svc_act_step|done].
Qed.

Lemma svc_play_app sched1 sched2 c :
  svc_play w addr maxOpen (sched1 ++ sched2) c
  = svc_play w addr maxOpen sched2 (svc_play w addr maxOpen sched1 c).
Proof. apply foldl_app. Qed.

(** *** The service seen from the process *)

Lemma svc_step_proc c c' :
  svc_step w addr maxOpen c c' →
  proc c' = proc c ∨ proc_step w addr (proc c) (proc c').
Proof.
  intros [c0 p He Hp|c0 p He Hw Hp|c0 p He Hp|c0 r Ha|c0 f He Hf]; simpl; auto;
    right; [by apply step_signal|by apply step_main|by apply step_listener].
Qed.

Lemma svc_steps_proc c c' :
  rtc (svc_step w addr maxOpen) c c' → rtc (proc_step w addr) (proc c) (proc c').
Proof.
  induction 1 as [c|c c1 c2 Hs _ IH]; [done|].
  destruct (svc_step_proc _ _ Hs) as [<-|Hp]; [done|]. by eapply rtc_l.
Qed.

(** *** The service seen from the pool *)

Lemma in_use_go_serve r f : in_use (go_serve r f) = in_use f.
Proof.
  unfold in_use, go_serve. simpl. rewrite filter_app, length_app.
  rewrite filter_cons_False by done. simpl. lia.
Qed.

Lemma insert_go_serve r f i t t' :
  pool_threads f !! i = Some t →
  <[i := t']> (pool_threads f ++ [Ready (Server.serve r)])
  = <[i := t']> (pool_threads f) ++ [Ready (Server.serve r)].
Proof. intros Hi%lookup_lt_Some. by rewrite insert_app_l. Qed.

(** A request that arrives disturbs no request in flight. *)
Lemma conn_step_go_serve r f f' :
  conn_step maxOpen f f' → conn_step maxOpen (go_serve r f) (go_serve r f').
Proof.
  intros [i X op k c0 Hi Hfree|i X op k c0 Hi|i e k c0 Hi].
  - replace (go_serve r (set_thread i (Holding op k) c0))
      with (set_thread i (Holding op k) (go_serve r c0))
      by (unfold set_thread, go_serve; simpl; by erewrite insert_go_serve).
    apply conn_acquire; [by apply lookup_app_l_Some|].
    unfold free in *. by rewrite in_use_go_serve.
  - replace (go_serve r (call_and_release i op k c0))
      with (call_and_release i op k (go_serve r c0))
      by (unfold call_and_release, go_serve; simpl; by erewrite insert_go_serve).
    apply conn_call. by apply lookup_app_l_Some.
  - replace (go_serve r (log_line i e k c0)) with (log_line i e k (go_serve r c0))
      by (unfold log_line, go_serve; simpl; by erewrite insert_go_serve).
    apply conn_log. by apply lookup_app_l_Some.
Qed.

Lemma go_serve_start r rs s :
  go_serve r (conn_start (Server.serve <$> rs) s) = conn_start (Server.serve <$> rs ++ [r]) s.
Proof. unfold go_serve, conn_start. simpl. by rewrite !fmap_app. Qed.

(** The requests in flight have run as in the pool that holds, from the
    start, every request accepted so far. *)
Lemma svc_steps_flight db s c :
  rtc (svc_step w addr maxOpen) (svc_start db s) c →
  rtc (conn_step maxOpen) (conn_start (Server.serve <$> accepted c) s) (flight c).
Proof.
  revert c. apply rtc_ind_r; [done|].
  intros c c' _ [c0 p He Hp|c0 p He Hw Hp|c0 p He Hp|c0 r Ha|c0 f He Hf] IH; simpl; try done.
  - rewrite <-go_serve_start.
    apply (rtc_congruence (R := conn_step maxOpen) (go_serve r)); [apply conn_step_go_serve|done].
  - by eapply rtc_r.
Qed.

Lemma all_answered_stuck f f' : all_answered f → ¬ conn_step maxOpen f f'.
Proof.
  unfold all_answered. rewrite Forall_forall. intros Hall (i & Hm & _)%conn_step_thread.
  unfold moves in Hm. destruct (pool_threads f !! i) as [t|] eqn:E; [|done].
  specialize (Hall _ (list_elem_of_lookup_2 _ _ _ E)). by destruct t as [[]|].
Qed.

(** *** After [Shutdown] *)

Lemma svc_step_quiesced c c' :
  svc_step w addr maxOpen c c' → quiesced w c → quiesced w c'.
Proof.
  unfold quiesced.
  intros [c0 p He Hp|c0 p He Hw Hp|c0 p He Hp|c0 r Ha|c0 f He Hf] Hq; simpl.
  - unfold signal in Hp. by destruct (at_main (proc c0)); simplify_eq.
  - unfold main_step in Hp. unfold shutdown_waits in Hw.
    destruct (at_main (proc c0)) eqn:Hm; simplify_eq; simpl; try done.
    intros _ Hnone. destruct (decide (all_answered (flight c0))); naive_solver.
  - unfold listener_step in Hp.
    destruct (at_listener (proc c0)), (inShutdown (proc c0)) eqn:Hi, (ListenAndServe w);
      simplify_eq; simpl; rewrite ?Hi; done.
  - destruct Ha as (_ & _ & -> & _). done.
  - intros Hs Hnone. by destruct (all_answered_stuck _ _ (Hq Hs Hnone) Hf).
Qed.

Lemma reachable_quiesced db s c :
  rtc (svc_step w addr maxOpen) (svc_start db s) c → quiesced w c.
Proof.
  revert c. apply rtc_ind_r; [done|]. intros c c' _ Hs. by apply svc_step_quiesced.
Qed.

(** No request is accepted once [Shutdown] is called. *)
Lemma svc_step_accepted c c' :
  svc_step w addr maxOpen c c' →
  at_main (proc c) = AtShutdown ∨ inShutdown (proc c) = true →
  accepted c' = accepted c.
Proof.
  intros [c0 p He Hp|c0 p He Hw Hp|c0 p He Hp|c0 r Ha|c0 f He Hf] Hs; simpl; try done.
  destruct Ha as (_ & _ & Hacc & Hm). naive_solver congruence.
Qed.

(** *** What is left of the requests in flight *)

Lemma conn_step_allowance b f f' :
  conn_step maxOpen f f' → allowance b f →
  ∃ b', allowance b' f' ∧ sum_list b' ≤ sum_list b.
Proof.
  intros (i & _ & ->)%conn_step_thread Hb.
  destruct (step_budget maxOpen i b f Hb) as (b' & ? & ? & _). eauto.
Qed.

Lemma reachable_allowance b f f' :
  rtc (conn_step maxOpen) f f' → allowance b f →
  ∃ b', allowance b' f' ∧ sum_list b' ≤ sum_list b.
Proof.
  intros Hsteps. revert b. induction Hsteps as [f|f f1 f2 Hs _ IH]; intros b Hb; [eauto|].
  destruct (conn_step_allowance b _ _ Hs Hb) as (b1 & Hb1 & ?).
  destruct (IH b1 Hb1) as (b' & ? & ?). exists b'. split; [done|lia].
Qed.

Lemma reachable_threads f f' :
  rtc (conn_step maxOpen) f f' → length (pool_threads f') = length (pool_threads f).
Proof.
  induction 1 as [f|f f1 f2 (i & _ & ->)%conn_step_thread _ IH]; [done|].
  by rewrite IH, step_threads_length.
Qed.

(** The turns of the requests alone are a schedule of the pool. *)
Lemma svc_play_requests sched c :
  ended (proc c) = None →
  svc_play w addr maxOpen (Request <$> sched) c
  = with_flight (conn_interleave maxOpen sched (flight c)) c.
Proof.
  intros He. revert c He. induction sched as [|i sched IH]; intros c He; [by destruct c|].
  simpl. case_decide as Hd; simpl.
  - rewrite IH by done. done.
  - destruct (conn_thread_step_spec maxOpen i (flight c)) as [[_ ->]|[Hm _]];
      [by apply IH|naive_solver].
Qed.

(** A run of the service is, forgetting the connections, a run of the pool
    of [Concurrent] over the requests accepted. *)
Lemma svc_steps_pool db s c :
  rtc (svc_step w addr maxOpen) (svc_start db s) c →
  rtc pool_step (start (Server.serve <$> accepted c) s) (forget (flight c)).
Proof.
  intros Hs. rewrite <-forget_start.
  by apply (pool_refines maxOpen), (svc_steps_flight db).
Qed.

End facts.

(** ** The theorems *)

Section theorems.
Context {St : Type} `{!Store St}.
Context (w : World) (addr : string) (maxOpen : nat).
Implicit Types (c : Service St) (f : Pool St Response) (s : St) (db : DB).

(** A run of the service is a run of the process of [Lifecycle] and,
    forgetting the connections, a run of the pool of [Concurrent] over the
    requests accepted so far: the arrival of a request disturbs neither. *)
Theorem service_refines db s c :
  rtc (svc_step w addr maxOpen) (svc_start db s) c →
  rtc (proc_step w addr) (spawned db) (proc c) ∧
  rtc pool_step (start (Server.serve <$> accepted c) s) (forget (flight c)).
Proof.
  intros Hs. split; [by apply (svc_steps_proc w addr maxOpen) in Hs|].
  by apply (svc_steps_pool w addr maxOpen db).
Qed.

(** What every store call keeps holds in every state of the service. *)
Lemma service_invariant (I : St → Prop) db s c :
  (∀ X (op : StoreOp X) s, I s → I (exec op s).2) →
  rtc (svc_step w addr maxOpen) (svc_start db s) c → I s → I (pool_store (flight c)).
Proof.
  intros Hop Hs.
  apply (bounded_pool_invariant I maxOpen (conn_start (Server.serve <$> accepted c) s));
    [done|by apply (svc_steps_flight w addr maxOpen db)].
Qed.

(** The requests in flight are those accepted, and hold no more
    connections than the limit. *)
Lemma service_flight db s c :
  rtc (svc_step w addr maxOpen) (svc_start db s) c →
  length (pool_threads (flight c)) = length (accepted c) ∧
  (maxOpen ≠ 0 → in_use (flight c) ≤ maxOpen).
Proof.
  intros Hs%(svc_steps_flight w addr maxOpen). split.
  - rewrite (reachable_threads maxOpen _ _ Hs). simpl. by rewrite !length_fmap.
  - intros Hm. revert Hs. generalize (flight c). apply rtc_ind_r.
    + rewrite in_use_start. lia.
    + intros f f' _ Hstep. by apply conn_step_in_use.
Qed.

Lemma all_answered_responses f :
  all_answered f → ∃ resps, threads (forget f) = Ret <$> resps.
Proof.
  unfold all_answered, forget. simpl. induction 1 as [|t l Ht _ [resps IH]]; [by exists []|].
  destruct t as [[r| |]|]; try done. exists (r :: resps). by rewrite !fmap_cons, IH.
Qed.

(** C35: a process that returns after a [Shutdown] that answered without an
    error has answered every request it accepted, and every one of them has
    kept the protocol of its handler to the end: a change that was written
    was offered to the audit trail, with a warning if the trail refused it.
    No request is cut by the end of the process. *)
Theorem graceful_shutdown db s c :
  rtc (svc_step w addr maxOpen) (svc_start db s) c →
  ended (proc c) = Some Returned → Shutdown w = None →
  ∃ resps, length resps = length (accepted c) ∧
    threads (forget (flight c)) = Ret <$> resps ∧
    ∀ i req resp, accepted c !! i = Some req → resps !! i = Some resp →
      contract (Server.request_type req) (Server.request_operation req)
        (Server.operator req) (Server.is_mutation req)
        (thread_events i (pool_events (flight c))) resp.
Proof.
  intros Hs He Hnone.
  pose proof (reachable_sound w addr db _ (svc_steps_proc w addr maxOpen _ _ Hs))
    as [Hsh _ _ Hend].
  rewrite He in Hend. destruct Hend as (_ & _ & Hm). rewrite Hm in Hsh.
  destruct (all_answered_responses (flight c)) as [resps Hr];
    [by apply (reachable_quiesced w addr maxOpen db s)|].
  exists resps. split_and!; [|done|].
  - destruct (service_flight db s c Hs) as [<- _].
    apply (f_equal length) in Hr. simpl in Hr. by rewrite !length_fmap in Hr.
  - intros i req resp Hreq Hresp.
    apply (thread_contract (accepted c) s (forget (flight c)) i req resp);
      [by apply (svc_steps_pool w addr maxOpen db)|done|].
    by rewrite Hr, list_lookup_fmap, Hresp.
Qed.

(** C18: in every state of the service, and so whenever the process ends, a
    request has written none of its change, its change, or its change and
    the entry of it: what a request cut by the end of the process can lack
    is its entry in the trail, and its answer. *)
Theorem cut_lacks_entry db s c i req :
  rtc (svc_step w addr maxOpen) (svc_start db s) c → accepted c !! i = Some req →
  audit_prefix (Server.request_type req) (Server.request_operation req)
    (Server.operator req) (writes (thread_events i (pool_events (flight c)))).
Proof.
  intros Hs Hreq.
  by apply (thread_cut (accepted c) s (forget (flight c)) i req);
    [apply (svc_steps_pool w addr maxOpen db)|].
Qed.

(** With nothing in flight the turns of [main] are those of the process. *)
Lemma play_main_idle n c :
  all_answered (flight c) →
  svc_play w addr maxOpen (replicate n (Of Main)) c
  = with_proc (play w addr (replicate n Main) (proc c)) c.
Proof.
  intros Hall. revert c Hall. induction n as [|n IH]; intros c Hall; [by destruct c|].
  change (svc_play w addr maxOpen (replicate (S n) (Of Main)) c)
    with (svc_play w addr maxOpen (replicate n (Of Main))
            (default c (svc_act w addr maxOpen (Of Main) c))).
  change (play w addr (replicate (S n) Main) (proc c))
    with (play w addr (replicate n Main) (default (proc c) (act w addr Main (proc c)))).
  unfold svc_act. rewrite decide_False by (intros (_ & _ & _ & Hn); done).
  destruct (act w addr Main (proc c)) as [p|]; cbn [mbind option_bind default];
    by rewrite IH.
Qed.

(** After the signal three turns of [main] end the process by its return. *)
Lemma main_returns_after_signal p :
  ended p = None → at_main p ≠ AtWait →
  ended (play w addr (replicate 3 Main) p) = Some Returned.
Proof.
  intros He Hm. destruct p as [pc ? ? ? ? ? e]. simpl in *. subst e. by destruct pc.
Qed.

(** C36: after the signal the service can always come to its end in good
    order: with the requests in flight taken in turn, ten rounds for each,
    and then the last lines of [main], every request accepted is answered
    and the process returns, whatever the store answers and however few the
    connections. *)
Theorem shutdown_completes db s c :
  rtc (svc_step w addr maxOpen) (svc_start db s) c →
  ended (proc c) = None → at_main (proc c) ≠ AtWait →
  let c' := svc_play w addr maxOpen (drain c) c in
  ended (proc c') = Some Returned ∧ all_answered (flight c').
Proof.
  intros Hs He Hm. unfold drain. rewrite svc_play_app, svc_play_requests by done.
  pose proof (svc_steps_flight w addr maxOpen db s c Hs) as Hf.
  destruct (reachable_allowance maxOpen _ _ _ Hf (serve_allowance (accepted c) s))
    as (b & Hb & Hsum).
  rewrite sum_list_replicate in Hsum. destruct (service_flight db s c Hs) as [Hlen _].
  assert (all_answered (conn_interleave maxOpen
            (round_robin (10 * length (pool_threads (flight c)))
               (length (pool_threads (flight c)))) (flight c))) as Hall
    by (apply (rounds_answer maxOpen _ b); [done|lia]).
  rewrite (play_main_idle 3) by done. split; [|done].
  by apply main_returns_after_signal.
Qed.

End theorems.

(** C37: the service as [main] builds it never has more than 25 calls in the
    database at once: [NewMySQLStore] sets the limit of the pool to 25,
    and with that limit no run of the process and of the requests it
    accepts lets more calls hold a connection, however many requests are
    in flight. *)
Theorem service_connections_bounded {St} `{!Store St} w addr dsn db h (s : St) c :
  NewMySQLStore w dsn = (Ok db, h) →
  rtc (svc_step w addr (pool_limit db)) (svc_start db s) c →
  in_use (flight c) ≤ 25.
Proof.
  intros Hdb%service_pool_limit Hs.
  destruct (service_flight w addr (pool_limit db) db s c Hs) as [_ Hle].
  rewrite Hdb in Hle. by apply Hle.
Qed.

(** The database stays well-formed in every state of the service. *)
Lemma service_wf w addr maxOpen db s (c : Service MySQLStore.t) :
  rtc (svc_step w addr maxOpen) (svc_start db s) c →
  MySQLStore.wf s → MySQLStore.wf (pool_store (flight c)).
Proof.
  apply (service_invariant w addr maxOpen MySQLStore.wf).
  intros X op s'. apply MySQLStore.wf_exec.
Qed.

(** ** The examples *)

Section examples.
#[local] Open Scope string_scope.

(** [Shutdown] gives up while a request is between its write and its entry
    in the audit trail: [main] returns all the same, the backend is stored,
    the trail has no entry for it, nothing was logged, and the client has
    no answer. *)
Lemma shutdown_cut :
  let c := svc_play example_deadline ":8081" 25 example_cut
             (svc_start example_handle (MySQLStore.empty 1000 false true [])) in
  ended (proc c) = Some Returned ∧
  MySQLStore.bk_name <$> MySQLStore.backends (pool_store (flight c)) = ["user"] ∧
  MySQLStore.config_history (pool_store (flight c)) = [] ∧
  writes (thread_events 0 (pool_events (flight c)))
  = [WEntity "backend" "CREATE" true] ∧
  warnings (pool_events (flight c)).*2 = [] ∧
  ¬ all_answered (flight c).
Proof. split_and!; [by vm_compute..|]. apply (bool_decide_unpack _). by vm_compute. Qed.

(** Left to finish, the request is answered 201 and the trail has its
    entry. *)
Lemma shutdown_graceful :
  let c := svc_play example_world ":8081" 25 example_graceful
             (svc_start example_handle (MySQLStore.empty 1000 false true [])) in
  ended (proc c) = Some Returned ∧
  resp_status <$> responses (forget (flight c)) = [201]%Z ∧
  length (MySQLStore.config_history (pool_store (flight c))) = 1%nat.
Proof. by vm_compute. Qed.

Lemma service_refines_witness :
  let c := svc_play example_deadline ":8081" 25 example_cut
             (svc_start example_handle (MySQLStore.empty 1000 false true [])) in
  rtc (proc_step example_deadline ":8081") (spawned example_handle) (proc c) ∧
  rtc pool_step (start (Server.serve <$> accepted c) (MySQLStore.empty 1000 false true []))
    (forget (flight c)).
Proof.
  apply (service_refines example_deadline ":8081" 25 example_handle).
  apply svc_play_reachable.
Defined.

Lemma graceful_shutdown_witness :
  let c := svc_play example_world ":8081" 25 example_graceful
             (svc_start example_handle (MySQLStore.empty 1000 false true [])) in
  ∃ resps, length resps = length (accepted c) ∧
    threads (forget (flight c)) = Ret <$> resps ∧
    ∀ i req resp, accepted c !! i = Some req → resps !! i = Some resp →
      contract (Server.request_type req) (Server.request_operation req)
        (Server.operator req) (Server.is_mutation req)
        (thread_events i (pool_events (flight c))) resp.
Proof.
  apply (graceful_shutdown example_world ":8081" 25 example_handle
           (MySQLStore.empty 1000 false true []));
    [apply svc_play_reachable|by vm_compute..].
Defined.

Lemma shutdown_completes_witness :
  let c := svc_play example_deadline ":8081" 25 (take 8 example_cut)
             (svc_start example_handle (MySQLStore.empty 1000 false true [])) in
  let c' := svc_play example_deadline ":8081" 25 (drain c) c in
  ended (proc c') = Some Returned ∧ all_answered (flight c').
Proof.
  apply (shutdown_completes example_deadline ":8081" 25 example_handle
           (MySQLStore.empty 1000 false true []));
    [apply svc_play_reachable|by vm_compute..].
Defined.

Lemma cut_lacks_entry_witness :
  let c := svc_play example_deadline ":8081" 25 example_cut
             (svc_start example_handle (MySQLStore.empty 1000 false true [])) in
  audit_prefix (Server.request_type create_user) (Server.request_operation create_user)
    (Server.operator create_user) (writes (thread_events 0 (pool_events (flight c)))).
Proof.
  apply (cut_lacks_entry example_deadline ":8081" 25 example_handle
           (MySQLStore.empty 1000 false true []));
    [apply svc_play_reachable|by vm_compute].
Defined.

Lemma service_connections_bounded_witness :
  let c := svc_play example_world ":8081" 25 example_graceful
             (svc_start example_handle (MySQLStore.empty 1000 false true [])) in
  (in_use (flight c) ≤ 25)%nat.
Proof.
  apply (service_connections_bounded example_world ":8081" "admin@tcp(db:3306)/gateway"
           example_handle (Some example_handle) (MySQLStore.empty 1000 false true []));
    [by vm_compute|apply svc_play_reachable].
Defined.

End examples.
